(* ===== verification/_CoqProject ===== *)
-Q . S2P
Prelude.v
Result.v
Zstl.v
LibList.v
Pmm.v
PmmProofs.v
LibString.v
Paging.v
PagingX86.v
PagingAArch64.v
PagingRiscV64.v
SwapSlots.v
PageTable.v
PageTableProofs.v
PageTableWitness.v
Vmm.v
VmmProofs.v
Boot.v
Mmio.v
VmmWitness.v
Block.v
BlockDev.v
AddrSpace.v
Teardown.v
Elf.v
ElfProofs.v
Exec.v
ExecProofs.v
ExecWitness.v
RamDisk.v
Swap.v
SwapScan.v
SwapProofs.v
SwapOut.v
SwapIn.v
SwapWitness.v
VirtQueue.v
FatLayout.v
FatCore.v
FatCoreProofs.v
FatChain.v
FatMount.v
FatDir.v
FatEntry.v
FatDirProofs.v
FatAdd.v
FatPath.v
FatFile.v
FatWitness.v
Vfs.v
VfsProofs.v
FatVfs.v
Fd.v
DevFs.v
VfsWitness.v
Syscall.v
SyscallProofs.v
FatEnv.v
SyscallWitness.v
Sched.v
SchedProofs.v
Sync.v
SyncProofs.v
SyncObjects.v
Process.v
Forest.v
ProcessProofs.v
Lifetime.v
ProcessWitness.v
