(* ===== verification/Prelude.v ===== *)
(** * Zonix: a verification development of the zonix-plus kernel

    zonix-plus is a small kernel in C++ for x86-64, AArch64 and RISC-V.  This
    development translates its portable core, function by function, into Rocq
    and proves what makes the parts correct.

    ** How code becomes definitions

    Code that changes state is a function in the kernel monad [M] below: it
    returns, leaves with an error code keeping the state it reached, or stops
    at an assertion, a panic or a wild pointer.  State is a record per
    component; an operation of one component runs inside the state of another
    through [zoom].  Integers are [Z] with the wrap-around of their width
    written out ([u8] ... [u64]).  Pointers into arrays of descriptors are
    indices, pointers to objects are keys of a store; a node of an intrusive
    list is a key of the link store of [LibList], so aliasing is visible.
    Destructors, [TRY] and early returns are in the definitions where the code
    has them.  Code that runs with interrupts masked or under a lock is one
    step; a blocking operation is split where the task leaves the CPU, and what
    happens in between is a step relation.

    ** The parts and their files

    - Foundations: this file (monad, machine integers, lists, tactics, hints);
      [Result] ([kernel/lib/result.h]); [Zstl] (the containers of the external
      [sys::] library, by interface); [LibList] ([kernel/lib/list.h]);
      [LibString] ([kernel/lib/string.h], [kernel/cxxrt.cpp]).
    - Physical memory: [Pmm], [PmmProofs] ([kernel/mm/pmm_firstfit.cpp],
      [kmalloc] and [kfree]); [Boot] ([page_init] of [kernel/mm/pmm.cpp]).
    - Page tables: [Paging] (the interface of [asm/page.h] and its laws),
      [PagingX86], [PagingAArch64], [PagingRiscV64] (the three headers);
      [PageTable], [PageTableProofs], [PageTableWitness] (the walker of
      [kernel/mm/pmm.cpp]); [Vmm], [VmmProofs], [VmmWitness]
      ([kernel/mm/vmm.cpp]); [Mmio] ([kernel/mm/mmio.cpp]).
    - Address spaces: [AddrSpace] (the invariant), [Teardown]
      ([pmm::free_user_pgdir]), [Elf], [ElfProofs]
      ([kernel/exec/elf_loader.cpp]), [Exec], [ExecProofs], [ExecWitness]
      ([kernel/exec/exec.cpp]).
    - Swapping: [SwapSlots], [Swap], [SwapScan], [SwapProofs], [SwapOut],
      [SwapIn], [SwapWitness] ([kernel/mm/swap.cpp], [swap_fifo.cpp],
      [vmm::pg_fault]).
    - Devices: [Block] (the registry of [kernel/block]), [BlockDev] (the device
      interface and its laws), [RamDisk] (an instance), [VirtQueue]
      ([kernel/drivers/virtio/split_queue.cpp]).
    - FAT32: [FatLayout] (on-disk structures), [FatCore], [FatCoreProofs],
      [FatMount], [FatChain] ([fat_core.cpp]), [FatDir], [FatEntry],
      [FatDirProofs], [FatAdd], [FatPath], [FatFile] ([fat_dir.cpp]),
      [FatWitness].
    - Files: [Vfs], [VfsProofs] ([kernel/fs/vfs.cpp]), [FatVfs]
      ([fat_vfs.cpp]), [DevFs] ([devfs.cpp], [cons_vfs.cpp]), [Fd] ([fd.cpp]),
      [VfsWitness].
    - System calls: [Syscall], [SyscallProofs], [SyscallWitness]
      ([kernel/syscall]); [FatEnv] discharges their interface [FileEnvLaws]
      with the VFS over the FAT driver.
    - Tasks: [Sched], [SchedProofs] ([kernel/sched] and the interrupt guards of
      [kernel/drivers/intr.cpp]); [Sync], [SyncProofs], [SyncObjects]
      ([kernel/sync], the console input of [kernel/cons/cons.cpp]); [Process],
      [Forest], [ProcessProofs], [Lifetime], [ProcessWitness]
      ([process.cpp], [task_table.cpp], [init_proc.cpp]).

    ** How the parts meet

    Components that call each other through an interface are verified against
    it.  The memory manager is generic in the entry format ([Paging],
    [PagingLaws], discharged for three architectures), the FAT driver and the
    swapper in the block device ([BlockDevice], [BlockDeviceLaws], discharged by
    the RAM disk; transfers may fail), the VFS in its file systems, the system
    calls in the files behind descriptors ([FileEnv], [FileEnvLaws]), the
    process code in the rest of the kernel ([KernelEnv]), and one theorem on
    blocking ([Blocking]) serves semaphores, mutexes and the console.

    ** What the theorems show

    - Refinement: the intrusive list against sequences, the allocator against a
      list of free runs, page tables against the hardware's walk [translate],
      FAT directories and files against their entries and bytes, the console
      buffer and the virtqueue against FIFO channels.
    - Exact effects: every operation's result on every path, what changed and
      that nothing else did (pages, tables, slots, clusters, other files).
    - No leaks: after each failure of [UserImage::load], [fork], a system call,
      a swap transfer or a queue allocation, the free pages are what they were.
    - Interleavings: mounts and open files, processes, mutexes, semaphores,
      console readers and virtqueues keep their invariants in every reachable
      state; no wake-up is lost; scheduling is fair.
    - Termination: loops are shown to end, on damaged volumes too (chains that
      form a cycle are refused).

    ** Bounds and fuel

    Loops that are not structural take fuel.  Lists are walked with one unit per
    node of the link store, cluster chains with the cluster count plus two,
    paths with the length of the path, page loops with the pages of the range.
    A run out of fuel is [Halt OutOfFuel]; the theorems conclude [Ret] or
    [Fail], so they show that it does not happen.  The allocator
    assumes fewer than 2^32 page descriptors, since it counts pages in 32 bits.

    ** Not modelled

    - Assembly, interrupt entry and context switch, start-up of the processors
      and the drivers of particular hardware: their effects are registers and
      device memory.  What the core relies on is in the interfaces above.
    - Console output, logging, the shell and the tests: no kernel state depends
      on them.
    - [exec::exec] as a whole: it reads a file, builds the image ([Exec]) and
      forks ([Process]); the three are verified over different states.
    - [vmm::init], which maps the kernel's window once, and [print_pgdir].
    - Weak memory: accesses happen in program order, on one processor. *)

From stdpp Require Export base tactics option list gmap strings sets.
From Stdlib Require Export ZArith Lia.

#[global] Open Scope Z_scope.

(** ** Error codes *)

(** [enum class Error] of [kernel/lib/result.h]. *)
Inductive Error : Set :=
| E_None | E_Io | E_NoMem | E_Invalid | E_NotFound | E_BadFs | E_Exists
| E_NotEmpty | E_Timeout | E_Busy | E_NoDevice | E_NotSupported | E_Full | E_Fail.

#[export] Instance Error_eq_dec : EqDecision Error.
Proof. solve_decision. Defined.

(** ** The kernel monad

    A kernel operation runs on a component state [S].  It returns a value
    ([Ret]), leaves with an error code ([Fail], what [TRY], [ENSURE] and
    [return Error::X] do: the state reached so far is kept), or does not come
    back ([Halt]): a failed [assert], a [PANIC], an access through a pointer
    that names no object, or, for the loops that are not structural, the fuel
    of the model. *)

Inductive stop : Set := AssertFailed | Panicked | WildPointer | OutOfFuel.

Inductive Out (S A : Type) : Type :=
| Ret (a : A) (s : S)
| Fail (e : Error) (s : S)
| Halt (r : stop).
Arguments Ret {S A} a s.
Arguments Fail {S A} e s.
Arguments Halt {S A} r.

Definition M (S A : Type) : Type := S → Out S A.

Definition ret {S A} (a : A) : M S A := λ s, Ret a s.
Definition fail {S A} (e : Error) : M S A := λ s, Fail e s.
Definition halt {S A} (r : stop) : M S A := λ _, Halt r.
Definition bind {S A B} (m : M S A) (k : A → M S B) : M S B := λ s,
  match m s with
  | Ret a s' => k a s'
  | Fail e s' => Fail e s'
  | Halt r => Halt r
  end.
Definition get {S} : M S S := λ s, Ret s s.
Definition gets {S A} (f : S → A) : M S A := λ s, Ret (f s) s.
Definition put {S} (s' : S) : M S unit := λ _, Ret tt s'.
Definition modify {S} (f : S → S) : M S unit := λ s, Ret tt (f s).

(** [ENSURE(c, e)] *)
Definition ensure {S} (c : bool) (e : Error) : M S unit :=
  if c then ret tt else fail e.
(** [assert(c)] *)
Definition assert_ {S} (c : bool) : M S unit :=
  if c then ret tt else halt AssertFailed.
(** A pointer that must name an object. *)
Definition deref {S A} (o : option A) : M S A :=
  match o with Some a => ret a | None => halt WildPointer end.
(** [Error error = f(); if (error != Error::None) ...]: the outcome as a value. *)
Definition try_ {S A} (m : M S A) : M S (A + Error) := λ s,
  match m s with
  | Ret a s' => Ret (inl a) s'
  | Fail e s' => Ret (inr e) s'
  | Halt r => Halt r
  end.
Definition whenM {S} (c : bool) (m : M S unit) : M S unit :=
  if c then m else ret tt.

Declare Scope kernel_scope.
Delimit Scope kernel_scope with K.
Notation "x <- m ;; k" := (bind m (λ x, k))
  (at level 100, m at next level, right associativity) : kernel_scope.
Notation "m ;; k" := (bind m (λ _, k))
  (at level 100, right associativity) : kernel_scope.
#[global] Open Scope kernel_scope.

(** Run an operation of a sub-component inside a larger state. *)
Definition zoom {S T A} (view : S → T) (upd : T → S → S) (m : M T A) : M S A := λ s,
  match m (view s) with
  | Ret a t => Ret a (upd t s)
  | Fail e t => Fail e (upd t s)
  | Halt r => Halt r
  end.

(** [for] over a list, in order. *)
Fixpoint forM {S A} (l : list A) (f : A → M S unit) : M S unit :=
  match l with
  | [] => ret tt
  | a :: l => f a ;; forM l f
  end.

(** What an outcome says of its state, whether it returned or failed. *)
Definition out_state {S A} (o : Out S A) : option S :=
  match o with Ret _ s | Fail _ s => Some s | Halt _ => None end.

(** ** Machine integers *)

(** [static_cast<uint8_t>(x)] and the wider unsigned types. *)
Definition u8 (x : Z) : Z := x mod 2 ^ 8.
Definition u16 (x : Z) : Z := x mod 2 ^ 16.
Definition u32 (x : Z) : Z := x mod 2 ^ 32.
Definition u64 (x : Z) : Z := x mod 2 ^ 64.
(** [static_cast<int>(x)] *)
Definition s32 (x : Z) : Z := (x + 2 ^ 31) mod 2 ^ 32 - 2 ^ 31.
Lemma s32_small x : - 2 ^ 31 ≤ x < 2 ^ 31 → s32 x = x.
Proof. intros Hx. unfold s32. rewrite Z.mod_small by lia. lia. Qed.

(** ** Tactics and hint databases *)

Create HintDb zonix.
Create HintDb mach.

Ltac case_bool :=
  repeat match goal with
  | |- context [(?a <? ?b)%Z] => destruct (Z.ltb_spec a b)
  | |- context [(?a <=? ?b)%Z] => destruct (Z.leb_spec a b)
  | |- context [(?a =? ?b)%Z] => destruct (Z.eqb_spec a b)
  | H : context [(?a <? ?b)%Z] |- _ => destruct (Z.ltb_spec a b)
  | H : context [(?a <=? ?b)%Z] |- _ => destruct (Z.leb_spec a b)
  | H : context [(?a =? ?b)%Z] |- _ => destruct (Z.eqb_spec a b)
  end.

(** Unfold the monad's combinators and compute. *)
Ltac kstep :=
  cbn [bind ret fail halt get gets put modify ensure assert_ deref try_ whenM
       zoom out_state forM] in *;
  unfold bind, ret, fail, halt, get, gets, put, modify, ensure, assert_, deref,
    try_, whenM, zoom in *;
  cbn in *.

Lemma u8_small x : 0 ≤ x < 2 ^ 8 → u8 x = x.
Proof. apply Z.mod_small. Qed.
Lemma u16_small x : 0 ≤ x < 2 ^ 16 → u16 x = x.
Proof. apply Z.mod_small. Qed.
Lemma u32_small x : 0 ≤ x < 2 ^ 32 → u32 x = x.
Proof. apply Z.mod_small. Qed.
Lemma u64_small x : 0 ≤ x < 2 ^ 64 → u64 x = x.
Proof. apply Z.mod_small. Qed.
Lemma u8_range x : 0 ≤ u8 x < 2 ^ 8.
Proof. by apply Z.mod_pos_bound. Qed.
Lemma u16_range x : 0 ≤ u16 x < 2 ^ 16.
Proof. by apply Z.mod_pos_bound. Qed.
Lemma u32_range x : 0 ≤ u32 x < 2 ^ 32.
Proof. by apply Z.mod_pos_bound. Qed.
Lemma u64_range x : 0 ≤ u64 x < 2 ^ 64.
Proof. by apply Z.mod_pos_bound. Qed.
#[export] Hint Rewrite u8_small u16_small u32_small u64_small using lia : mach.
#[export] Hint Resolve u8_range u16_range u32_range u64_range : mach.

(** ** Lemmas of the monad *)

Lemma bind_ret {S A B} (a : A) (k : A → M S B) s : bind (ret a) k s = k a s.
Proof. done. Qed.

Lemma bind_Ret {S A B} (m : M S A) (k : A → M S B) s a s' :
  m s = Ret a s' → bind m k s = k a s'.
Proof. intros H. unfold bind. by rewrite H. Qed.

Lemma bind_Fail {S A B} (m : M S A) (k : A → M S B) s e s' :
  m s = Fail e s' → bind m k s = Fail e s'.
Proof. intros H. unfold bind. by rewrite H. Qed.

Lemma bind_Ret_inv {S A B} (m : M S A) (k : A → M S B) s b s' :
  bind m k s = Ret b s' → ∃ a s1, m s = Ret a s1 ∧ k a s1 = Ret b s'.
Proof. unfold bind. destruct (m s); naive_solver. Qed.

Lemma bind_Fail_inv {S A B} (m : M S A) (k : A → M S B) s e s' :
  bind m k s = Fail e s' → m s = Fail e s' ∨ ∃ a s1, m s = Ret a s1 ∧ k a s1 = Fail e s'.
Proof. unfold bind. destruct (m s); naive_solver. Qed.

Lemma ensure_Ret_inv {S} c e (s s' : S) u : ensure c e s = Ret u s' → c = true ∧ s' = s.
Proof. unfold ensure. destruct c; [by intros [= _ <-]|done]. Qed.
Lemma ensure_Fail_inv {S} c e e' (s s' : S) : ensure c e s = Fail e' s' → c = false ∧ s' = s ∧ e' = e.
Proof. unfold ensure. destruct c; [done|by intros [= <- <-]]. Qed.

(** Invert a run of an operation one step at a time. *)
Ltac step_inv H :=
  match type of H with
  | bind (ensure _ _) _ _ = Ret _ _ =>
      let H1 := fresh in apply bind_Ret_inv in H as (? & ? & H1 & H); apply ensure_Ret_inv in H1 as [? ->]
  | bind _ _ _ = Ret _ _ => apply bind_Ret_inv in H as (? & ? & ? & H)
  | bind (ensure _ _) _ _ = Fail _ _ =>
      let H1 := fresh in apply bind_Fail_inv in H as [H1|(? & ? & H1 & H)];
        [apply ensure_Fail_inv in H1 as (? & -> & ->)|apply ensure_Ret_inv in H1 as [? ->]]
  | bind _ _ _ = Fail _ _ => apply bind_Fail_inv in H as [H|(? & ? & ? & H)]
  end.

(** An invariant of the states an operation can leave. *)
Definition keeps {S A} (P : S → Prop) (m : M S A) : Prop :=
  ∀ s s', P s → out_state (m s) = Some s' → P s'.

Lemma keeps_ret {S A} (P : S → Prop) (a : A) : keeps P (ret a).
Proof. by intros s s' ? [= <-]. Qed.
Lemma keeps_fail {S A} (P : S → Prop) e : keeps P (@fail S A e).
Proof. by intros s s' ? [= <-]. Qed.
Lemma keeps_halt {S A} (P : S → Prop) r : keeps P (@halt S A r).
Proof. by intros s s' ?. Qed.
Lemma keeps_get {S} (P : S → Prop) : keeps P get.
Proof. by intros s s' ? [= <-]. Qed.
Lemma keeps_gets {S A} (P : S → Prop) (f : S → A) : keeps P (gets f).
Proof. by intros s s' ? [= <-]. Qed.
Lemma keeps_bind {S A B} (P : S → Prop) (m : M S A) (k : A → M S B) :
  keeps P m → (∀ a, keeps P (k a)) → keeps P (bind m k).
Proof.
  intros Hm Hk s s' HP. unfold bind. pose proof (Hm s) as Hm'. destruct (m s) as [a s1|e s1|r]; simpl; [|naive_solver..].
  apply Hk. by apply Hm'.
Qed.
Lemma keeps_ensure {S} (P : S → Prop) c e : keeps P (@ensure S c e).
Proof. unfold ensure. destruct c; [apply keeps_ret|apply keeps_fail]. Qed.
Lemma keeps_assert {S} (P : S → Prop) c : keeps P (@assert_ S c).
Proof. unfold assert_. destruct c; [apply keeps_ret|apply keeps_halt]. Qed.
Lemma keeps_deref {S A} (P : S → Prop) (o : option A) : keeps P (@deref S A o).
Proof. destruct o; [apply keeps_ret|apply keeps_halt]. Qed.
Lemma keeps_when {S} (P : S → Prop) c (m : M S unit) : keeps P m → keeps P (whenM c m).
Proof. intros. unfold whenM. destruct c; [done|apply keeps_ret]. Qed.
Lemma keeps_try {S A} (P : S → Prop) (m : M S A) : keeps P m → keeps P (try_ m).
Proof. intros H s s' HP. unfold try_. pose proof (H s) as H'. destruct (m s); simpl in *; naive_solver. Qed.
Lemma keeps_forM {S A} (P : S → Prop) (l : list A) (f : A → M S unit) :
  (∀ a, keeps P (f a)) → keeps P (forM l f).
Proof. intros. induction l as [|a l IH]; [apply keeps_ret|]. cbn. by apply keeps_bind. Qed.
Lemma keeps_modify {S} (P : S → Prop) (f : S → S) : (∀ s, P s → P (f s)) → keeps P (modify f).
Proof. intros H s s' HP [= <-]. auto. Qed.
(** A zoomed operation changes its part of the state only. *)
Lemma keeps_zoom {S T A} (P : S → Prop) (view : S → T) (upd : T → S → S) (m : M T A) :
  (∀ t s, P s → P (upd t s)) → keeps P (zoom view upd m).
Proof. intros H s s' HP. unfold zoom. destruct (m (view s)); simpl; intros [= <-]; auto. Qed.
#[export] Hint Resolve keeps_ret keeps_fail keeps_halt keeps_get keeps_gets keeps_bind keeps_ensure keeps_assert
  keeps_deref keeps_when keeps_try keeps_forM keeps_modify : zonix.

(** An operation that always comes back. *)
Definition total {S A} (m : M S A) : Prop := ∀ s, out_state (m s) ≠ None.

Lemma total_ret {S A} (a : A) : total (@ret S A a).
Proof. done. Qed.
Lemma total_fail {S A} e : total (@fail S A e).
Proof. done. Qed.
Lemma total_gets {S A} (f : S → A) : total (gets f).
Proof. done. Qed.
Lemma total_modify {S} (f : S → S) : total (modify f).
Proof. done. Qed.
Lemma total_ensure {S} c e : total (@ensure S c e).
Proof. by destruct c. Qed.
Lemma total_bind {S A B} (m : M S A) (k : A → M S B) : total m → (∀ a, total (k a)) → total (bind m k).
Proof. intros Hm Hk s. unfold bind. pose proof (Hm s). destruct (m s); [apply Hk|done..]. Qed.
Lemma total_when {S} c (m : M S unit) : total m → total (whenM c m).
Proof. by destruct c. Qed.
Lemma total_try {S A} (m : M S A) : total m → total (try_ m).
Proof. intros Hm s. unfold try_. pose proof (Hm s). by destruct (m s). Qed.
Lemma total_forM {S A} (l : list A) (f : A → M S unit) : (∀ a, total (f a)) → total (forM l f).
Proof. intros. induction l as [|a l IH]; [apply total_ret|]. cbn. by apply total_bind. Qed.
#[export] Hint Resolve total_ret total_fail total_gets total_modify total_ensure total_bind total_when total_try total_forM : zonix.

Lemma bind_assoc {S A B C} (m : M S A) (f : A → M S B) (g : B → M S C) s :
  bind (bind m f) g s = bind m (λ x, bind (f x) g) s.
Proof. unfold bind. by destruct (m s). Qed.

Lemma zoom_Ret {S T A} view upd (m : M T A) (s : S) a t :
  m (view s) = Ret a t → zoom view upd m s = Ret a (upd t s).
Proof. intros H. unfold zoom. by rewrite H. Qed.
Lemma zoom_Fail {S T A} view upd (m : M T A) (s : S) e t :
  m (view s) = Fail e t → zoom view upd m s = Fail e (upd t s).
Proof. intros H. unfold zoom. by rewrite H. Qed.
Lemma try_Ret {S A} (m : M S A) s a s' : m s = Ret a s' → try_ m s = Ret (inl a) s'.
Proof. intros H. unfold try_. by rewrite H. Qed.
Lemma try_Fail {S A} (m : M S A) s e s' : m s = Fail e s' → try_ m s = Ret (inr e) s'.
Proof. intros H. unfold try_. by rewrite H. Qed.

Lemma forM_app {S A} (l1 l2 : list A) (f : A → M S unit) s :
  forM (l1 ++ l2) f s = (forM l1 f ;; forM l2 f) s.
Proof.
  revert s. induction l1 as [|a l1 IH]; intros s; [done|].
  cbn [app forM]. rewrite bind_assoc. unfold bind. destruct (f a s); auto.
Qed.

(** A loop invariant rule for [forM]. *)
Lemma forM_inv {S A} (I : list A → S → Prop) (l : list A) (f : A → M S unit) s :
  I [] s →
  (∀ done a rest s, l = done ++ a :: rest → I done s →
     ∃ s', f a s = Ret tt s' ∧ I (done ++ [a]) s') →
  ∃ s', forM l f s = Ret tt s' ∧ I l s'.
Proof.
  intros H0 Hstep.
  assert (∀ rest done s, l = done ++ rest → I done s →
    ∃ s', forM rest f s = Ret tt s' ∧ I l s') as Hgen.
  { induction rest as [|a rest IH]; intros d s1 -> HI.
    - exists s1. rewrite app_nil_r. done.
    - destruct (Hstep d a rest s1 eq_refl HI) as (s2 & Hf & HI2).
      cbn. unfold bind. rewrite Hf. apply (IH (d ++ [a])); [|done].
      by rewrite <- app_assoc. }
  by apply (Hgen l []).
Qed.

(** ** Lists *)

Section omap_lemmas.
Context {A B : Type} (f : A → option B).
Lemma insert_split (l : list A) i x y : l !! i = Some x →
  ∃ l1 l2, l = l1 ++ x :: l2 ∧ <[i := y]> l = l1 ++ y :: l2.
Proof.
  intros Hi. exists (take i l), (drop (S i) l). split; [by rewrite take_drop_middle|].
  by rewrite insert_take_drop by (by eapply lookup_lt_Some).
Qed.
Lemma omap_perm l i x y : l !! i = Some x →
  ∃ k, omap f l ≡ₚ option_list (f x) ++ k ∧ omap f (<[i := y]> l) ≡ₚ option_list (f y) ++ k.
Proof.
  intros Hi. destruct (insert_split l i x y Hi) as (l1 & l2 & E1 & E2). rewrite E2, E1, !omap_app. cbn.
  exists (omap f l1 ++ omap f l2). split; destruct (f _); simpl; by rewrite ?Permutation_middle.
Qed.
End omap_lemmas.
