(* ===== verification/Result.v ===== *)
(** * [Result<T>]: [kernel/lib/result.h]

    A [Result] holds a value, an error, or nothing any more; the functions of
    the kernel return one and [TRY] takes it apart.  The objects of type
    [Result<T>] live in a store by their address, because moving from one
    changes it.  [T] is any type of values with its copy, move and destructor,
    whose effect on the rest of the kernel is on [S]. *)

From S2P Require Import Prelude.

Inductive State : Set := St_Value | St_Error | St_Consumed.
#[export] Instance State_eq_dec : EqDecision State.
Proof. solve_decision. Defined.

(** What the header asks of [T] with compiler traits: a move constructor yields
    the new object and what it leaves in the source. *)
Class ValueType (T S : Type) := {
  trivially_copyable : bool;
  trivially_assignable : bool;
  trivially_destructible : bool;
  t_copy : T → T;
  t_move : T → T * T;
  t_destroy : T → M S unit }.

(** [Storage<T>]: [storage_] is the object in the union, if its lifetime has
    begun. *)
Record Storage (T : Type) : Type := MkStorage { storage_ : option T; error_ : Error; state_ : State }.
Arguments MkStorage {T} storage_ error_ state_.
Arguments storage_ {T} s.
Arguments error_ {T} s.
Arguments state_ {T} s.

Section result.
Context {T S : Type} `{VT : ValueType T S}.
Notation P := (gmap Z (Storage T) * S)%type.

Definition get_r (this : Z) : M P (Storage T) := p <- gets fst;; deref (p !! this).
Definition put_r (this : Z) (r : Storage T) : M P unit := modify (λ p, (<[this := r]> p.1, p.2)).
Definition on_value {A} (m : M S A) : M P A := zoom snd (λ s p, (p.1, s)) m.

Definition is_value (r : Storage T) : bool := bool_decide (state_ r = St_Value).
Definition is_error (r : Storage T) : bool := bool_decide (state_ r = St_Error).

Definition reset (this : Z) : M P unit :=
  r <- get_r this;;
  whenM (negb trivially_destructible && is_value r) (v <- deref (storage_ r);; on_value (t_destroy v));;
  put_r this (MkStorage None E_None St_Consumed).

(** Constructors *)
Definition from_copy (this : Z) (value : T) : M P unit := put_r this (MkStorage (Some (t_copy value)) E_None St_Value).
(** [Storage(T&& value)]: what is left of the argument is returned. *)
Definition from_move (this : Z) (value : T) : M P T :=
  put_r this (MkStorage (Some (t_move value).1) E_None St_Value);; ret (t_move value).2.
Definition from_error (this : Z) (error : Error) : M P unit :=
  put_r this (MkStorage None error St_Error);;
  assert_ (negb (bool_decide (error = E_None))).

(** [error_] and [state_] of [other], and a value made of its value. *)
Definition copy_parts (this other : Z) : M P unit :=
  o <- get_r other;;
  if is_value o
  then v <- deref (storage_ o);; put_r this (MkStorage (Some (t_copy v)) (error_ o) (state_ o))
  else put_r this (MkStorage None (error_ o) (state_ o)).
Definition move_parts (this other : Z) : M P unit :=
  o <- get_r other;;
  if is_value o
  then
    v <- deref (storage_ o);;
    put_r other (MkStorage (Some (t_move v).2) (error_ o) (state_ o));;
    put_r this (MkStorage (Some (t_move v).1) (error_ o) (state_ o))
  else put_r this (MkStorage None (error_ o) (state_ o)).
(** The defaulted members copy the representation. *)
Definition copy_bytes (this other : Z) : M P unit := o <- get_r other;; put_r this o.

Definition copy_construct (this other : Z) : M P unit :=
  if trivially_copyable then copy_bytes this other else copy_parts this other.
Definition copy_assign (this other : Z) : M P unit :=
  if trivially_copyable && trivially_assignable then copy_bytes this other
  else if this =? other then ret tt
  else reset this;; copy_parts this other.
Definition move_construct (this other : Z) : M P unit :=
  if trivially_copyable then copy_bytes this other else move_parts this other;; reset other.
Definition move_assign (this other : Z) : M P unit :=
  if trivially_copyable && trivially_assignable then copy_bytes this other
  else if this =? other then ret tt
  else reset this;; move_parts this other;; whenM (negb trivially_copyable) (reset other).
(** [~Storage()], at the end of the object's life *)
Definition destruct_r (this : Z) : M P unit :=
  whenM (negb trivially_destructible) (reset this);;
  modify (λ p, (base.delete this p.1, p.2)).

(** [class Result] *)
Definition ok (this : Z) : M P bool := r <- get_r this;; ret (is_value r).
Definition is_consumed (this : Z) : M P bool := r <- get_r this;; ret (bool_decide (state_ r = St_Consumed)).
Definition error (this : Z) : M P Error :=
  c <- is_consumed this;; assert_ (negb c);;
  r <- get_r this;; ret (error_ r).
Definition value (this : Z) : M P T :=
  b <- ok this;; assert_ b;;
  r <- get_r this;; deref (storage_ r).
Definition value_or (this : Z) (fallback : T) : M P T :=
  c <- is_consumed this;; assert_ (negb c);;
  r <- get_r this;;
  if is_value r then v <- deref (storage_ r);; ret (t_copy v) else ret (t_copy fallback).
Definition release_value (this : Z) : M P T :=
  b <- ok this;; assert_ b;;
  r <- get_r this;;
  v <- deref (storage_ r);;
  put_r this (MkStorage (Some (t_move v).2) (error_ r) (state_ r));;
  reset this;;
  ret (t_move v).1.
(** [value_or(T fallback) &&]: the value and what is left of [fallback]. *)
Definition value_or_move (this : Z) (fallback : T) : M P (T * T) :=
  c <- is_consumed this;; assert_ (negb c);;
  b <- ok this;;
  if b then v <- release_value this;; ret (v, fallback)
  else reset this;; ret (t_move fallback).
Definition release_error (this : Z) : M P Error :=
  r <- get_r this;;
  assert_ (is_error r);;
  reset this;;
  ret (error_ r).

(** [wrap_tryable] moves its argument to the result. *)
Definition wrap_tryable (arg tmp : Z) : M P unit := move_construct tmp arg;; destruct_r arg.
(** [TRY]: [expr] makes its result at [arg], the macro's variable is [tmp], and
    [k] is the rest of the function. *)
Definition TRY {A} (arg tmp : Z) (expr : M P unit) (k : T → M P A) : M P A :=
  expr;;
  wrap_tryable arg tmp;;
  b <- ok tmp;;
  if negb b then e <- release_error tmp;; destruct_r tmp;; fail e
  else v <- release_value tmp;; destruct_r tmp;; k v.
End result.

(** [Result<void>] *)
Record VoidResult : Set := MkVoid { err_ : Error; vstate_ : State }.
Definition void_result (error : Error) : VoidResult :=
  MkVoid error (if bool_decide (error = E_None) then St_Value else St_Error).
Definition void_ok (r : VoidResult) : bool := bool_decide (vstate_ r = St_Value).
Definition void_reset : VoidResult := MkVoid E_None St_Consumed.
Definition void_release_value : M VoidResult unit := r <- get;; assert_ (void_ok r);; put void_reset.
Definition void_release_error : M VoidResult Error :=
  r <- get;; assert_ (bool_decide (vstate_ r = St_Error));; put void_reset;; ret (err_ r).
Definition void_error : M VoidResult Error := r <- get;; assert_ (negb (bool_decide (vstate_ r = St_Consumed)));; ret (err_ r).

(** ** The states of a [Result] *)

Definition wf_r {T} (r : Storage T) : Prop :=
  match state_ r with
  | St_Value => is_Some (storage_ r) ∧ error_ r = E_None
  | St_Error => storage_ r = None ∧ error_ r ≠ E_None
  | St_Consumed => storage_ r = None ∧ error_ r = E_None
  end.
Definition pool_ok {T S} (p : gmap Z (Storage T) * S) : Prop := map_Forall (λ _, wf_r) p.1.

Section typestate.
Context {T S : Type} `{VT : ValueType T S}.
Notation P := (gmap Z (Storage T) * S)%type.
Implicit Types (p : P) (r : Storage T).
#[local] Notation okp := (pool_ok (T := T) (S := S)).

Lemma get_r_inv this p r p' : get_r this p = Ret r p' → p' = p ∧ p.1 !! this = Some r.
Proof. unfold get_r, bind, gets, deref. destruct (p.1 !! this); [|done]. by intros [= -> ->]. Qed.
Lemma get_r_Ret this p r : p.1 !! this = Some r → get_r this p = Ret r p.
Proof. unfold get_r, bind, gets, deref. by intros ->. Qed.

Lemma put_r_ok this r p : wf_r r → pool_ok p → pool_ok (<[this := r]> p.1, p.2).
Proof. intros Hr Hp. by apply map_Forall_insert_2. Qed.
Lemma keeps_put this r : wf_r r → keeps okp (put_r this r).
Proof. intros Hr. apply keeps_modify. intros p. by apply put_r_ok. Qed.

(** An operation that reads an object and goes on with a well-formed one. *)
Lemma keeps_get_r {A} this (k : Storage T → M P A) : (∀ r, wf_r r → keeps okp (k r)) → keeps okp (r <- get_r this;; k r).
Proof.
  intros Hk p p' Hp. unfold bind. destruct (get_r this p) as [r p1|e p1|] eqn:E; [|by unfold get_r, bind, gets, deref in E; destruct (p.1 !! this)|done].
  apply get_r_inv in E as [-> E]. apply (Hk r (Hp _ _ E) p p' Hp).
Qed.
Lemma keeps_on_value {A} (m : M S A) : keeps okp (on_value m).
Proof. by apply keeps_zoom. Qed.
Hint Resolve keeps_on_value : core.

Lemma keeps_reset this : keeps okp (reset this).
Proof.
  apply keeps_get_r. intros r _. apply keeps_bind; [|intros _; by apply keeps_put].
  apply keeps_when, keeps_bind; [apply keeps_deref|intros; apply keeps_on_value].
Qed.
Lemma is_value_spec r : is_value r = true ↔ state_ r = St_Value.
Proof. unfold is_value. by rewrite bool_decide_eq_true. Qed.

Lemma keeps_copy_parts this other : keeps okp (copy_parts this other).
Proof.
  apply keeps_get_r. intros r Hr. destruct (is_value r) eqn:E.
  - apply is_value_spec in E. apply keeps_bind; [apply keeps_deref|]. intros v. apply keeps_put. unfold wf_r in *. cbn. rewrite E in *. destruct Hr. by split; [eexists|].
  - apply keeps_put. unfold wf_r, is_value in *. cbn. destruct (state_ r); [by rewrite bool_decide_eq_true_2 in E|naive_solver..].
Qed.
Lemma keeps_move_parts this other : keeps okp (move_parts this other).
Proof.
  apply keeps_get_r. intros r Hr. destruct (is_value r) eqn:E.
  - apply is_value_spec in E. apply keeps_bind; [apply keeps_deref|]. intros v. apply keeps_bind; [|intros _]; apply keeps_put;
      unfold wf_r in *; cbn; rewrite E in *; destruct Hr; (split; [by eexists|done]).
  - apply keeps_put. unfold wf_r, is_value in *. cbn. destruct (state_ r); [by rewrite bool_decide_eq_true_2 in E|naive_solver..].
Qed.
Lemma keeps_copy_bytes this other : keeps okp (copy_bytes this other).
Proof. apply keeps_get_r. intros r Hr. by apply keeps_put. Qed.

Lemma keeps_from_error this e : keeps okp (from_error this e).
Proof.
  intros p p' Hp. unfold from_error, bind, put_r, modify, assert_. case_bool_decide as E; [done|]. intros [= <-]. by apply put_r_ok.
Qed.

(** The object after [reset]. *)
Definition consumed : Storage T := MkStorage None E_None St_Consumed.
Lemma reset_eq this p r : p.1 !! this = Some r →
  reset this p = (whenM (negb trivially_destructible && is_value r) (v <- deref (storage_ r);; on_value (t_destroy v));; put_r this consumed) p.
Proof. intros Hr. unfold reset. by rewrite (bind_Ret _ _ _ _ _ (get_r_Ret _ _ _ Hr)). Qed.
Lemma ok_eq this p r : p.1 !! this = Some r → ok this p = Ret (is_value r) p.
Proof. intros Hr. unfold ok. by rewrite (bind_Ret _ _ _ _ _ (get_r_Ret _ _ _ Hr)). Qed.
Lemma is_consumed_eq this p r : p.1 !! this = Some r → is_consumed this p = Ret (bool_decide (state_ r = St_Consumed)) p.
Proof. intros Hr. unfold is_consumed. by rewrite (bind_Ret _ _ _ _ _ (get_r_Ret _ _ _ Hr)). Qed.

Lemma release_value_eq this p r v : p.1 !! this = Some r → state_ r = St_Value → storage_ r = Some v →
  release_value this p =
  (whenM (negb trivially_destructible) (on_value (t_destroy (t_move v).2));; put_r this consumed;; ret (t_move v).1)
    (<[this := MkStorage (Some (t_move v).2) (error_ r) St_Value]> p.1, p.2).
Proof.
  intros Hr Hs Hv. unfold release_value. rewrite (bind_Ret _ _ _ _ _ (ok_eq _ _ _ Hr)), (proj2 (is_value_spec r)) by done. unfold assert_. rewrite bind_ret.
  rewrite (bind_Ret _ _ _ _ _ (get_r_Ret _ _ _ Hr)), Hv. cbn [deref]. rewrite bind_ret. unfold put_r at 1, modify. erewrite bind_Ret by reflexivity.
  set (p1 := (_, _)). assert (p1.1 !! this = Some (MkStorage (Some (t_move v).2) (error_ r) (state_ r))) as H1 by apply lookup_insert_eq.
  unfold bind at 1. rewrite (reset_eq _ _ _ H1). unfold is_value. cbn [state_ storage_]. rewrite Hs, bool_decide_eq_true_2, andb_true_r by done.
  unfold p1. rewrite Hs. unfold whenM. destruct trivially_destructible; cbn [negb deref]; unfold bind at 1 3, ret; [done|]. cbn.
  by destruct (on_value _ _).
Qed.
Lemma release_value_bad this p r : p.1 !! this = Some r → state_ r ≠ St_Value → release_value this p = Halt AssertFailed.
Proof.
  intros Hr Hs. unfold release_value. rewrite (bind_Ret _ _ _ _ _ (ok_eq _ _ _ Hr)). unfold is_value. by rewrite bool_decide_eq_false_2.
Qed.

Lemma keeps_release_value this : keeps okp (release_value this).
Proof.
  intros p p' Hp. destruct (p.1 !! this) as [r|] eqn:Hr.
  2:{ unfold release_value, ok, get_r, gets, deref, bind. by rewrite Hr. }
  destruct (decide (state_ r = St_Value)) as [Hs|Hs]; [|by rewrite (release_value_bad _ _ _ Hr Hs)].
  pose proof (Hp _ _ Hr) as Hw. unfold wf_r in Hw. rewrite Hs in Hw. destruct Hw as [[v Hv] He]. rewrite (release_value_eq _ _ _ _ Hr Hs Hv).
  apply keeps_bind; [apply keeps_when, keeps_on_value| |by apply put_r_ok; [|done]; split; [eexists|]].
  intros _. apply keeps_bind; [by apply keeps_put|intros; apply keeps_ret].
Qed.
Lemma keeps_read {A} this (f : Storage T → A) : keeps okp (r <- get_r this;; ret (f r)).
Proof. apply keeps_get_r. intros. apply keeps_ret. Qed.

Lemma keeps_release_error this : keeps okp (release_error this).
Proof. apply keeps_get_r. intros r _. apply keeps_bind; [apply keeps_assert|]. intros _. apply keeps_bind; [apply keeps_reset|intros; apply keeps_ret]. Qed.
Lemma keeps_value_or_move this x : keeps okp (value_or_move this x).
Proof.
  apply keeps_bind; [apply keeps_read|]. intros c. apply keeps_bind; [apply keeps_assert|]. intros _.
  apply keeps_bind; [apply keeps_read|]. intros []; (apply keeps_bind; [|intros; apply keeps_ret]); [apply keeps_release_value|apply keeps_reset].
Qed.
Lemma keeps_destruct this : keeps okp (destruct_r this).
Proof.
  apply keeps_bind; [apply keeps_when, keeps_reset|]. intros _. apply keeps_modify. intros p Hp. by apply map_Forall_delete.
Qed.
Lemma keeps_moves this other : keeps okp (move_construct this other) ∧ keeps okp (move_assign this other).
Proof.
  unfold move_construct, move_assign. split.
  - destruct trivially_copyable; [apply keeps_copy_bytes|]. apply keeps_bind; [apply keeps_move_parts|intros; apply keeps_reset].
  - destruct (_ && _); [apply keeps_copy_bytes|]. destruct (this =? other); [apply keeps_ret|].
    apply keeps_bind; [apply keeps_reset|intros _]. apply keeps_bind; [apply keeps_move_parts|intros _]. apply keeps_when, keeps_reset.
Qed.
Lemma keeps_copies this other : keeps okp (copy_construct this other) ∧ keeps okp (copy_assign this other).
Proof.
  unfold copy_construct, copy_assign. split.
  - destruct trivially_copyable; [apply keeps_copy_bytes|apply keeps_copy_parts].
  - destruct (_ && _); [apply keeps_copy_bytes|]. destruct (this =? other); [apply keeps_ret|].
    apply keeps_bind; [apply keeps_reset|intros; apply keeps_copy_parts].
Qed.

(** The accessors on an object of a given state. *)
Lemma value_eq this p r : p.1 !! this = Some r → value this p = (if is_value r then deref (storage_ r) else halt AssertFailed) p.
Proof.
  intros Hr. unfold value. rewrite (bind_Ret _ _ _ _ _ (ok_eq _ _ _ Hr)). unfold assert_. destruct (is_value r); [|done].
  rewrite bind_ret. by rewrite (bind_Ret _ _ _ _ _ (get_r_Ret _ _ _ Hr)).
Qed.
Lemma error_eq this p r : p.1 !! this = Some r → error this p = if bool_decide (state_ r = St_Consumed) then Halt AssertFailed else Ret (error_ r) p.
Proof.
  intros Hr. unfold error. rewrite (bind_Ret _ _ _ _ _ (is_consumed_eq _ _ _ Hr)). unfold assert_. destruct (bool_decide _); [done|]. cbn [negb].
  rewrite bind_ret. by rewrite (bind_Ret _ _ _ _ _ (get_r_Ret _ _ _ Hr)).
Qed.
Lemma value_or_eq this p r x : p.1 !! this = Some r →
  value_or this x p = if bool_decide (state_ r = St_Consumed) then Halt AssertFailed
    else (if is_value r then v <- deref (storage_ r);; ret (t_copy v) else ret (t_copy x)) p.
Proof.
  intros Hr. unfold value_or. rewrite (bind_Ret _ _ _ _ _ (is_consumed_eq _ _ _ Hr)). unfold assert_. destruct (bool_decide _); [done|]. cbn [negb].
  rewrite bind_ret. by rewrite (bind_Ret _ _ _ _ _ (get_r_Ret _ _ _ Hr)).
Qed.
Lemma release_error_eq this p r : p.1 !! this = Some r →
  release_error this p = if is_error r then Ret (error_ r) (<[this := consumed]> p.1, p.2) else Halt AssertFailed.
Proof.
  intros Hr. unfold release_error. rewrite (bind_Ret _ _ _ _ _ (get_r_Ret _ _ _ Hr)). unfold assert_. destruct (is_error r) eqn:He; [|done]. rewrite bind_ret.
  apply bool_decide_eq_true in He. unfold bind. rewrite (reset_eq _ _ _ Hr). unfold is_value. rewrite He, bool_decide_eq_false_2, andb_false_r by done. done.
Qed.

Lemma result_accessors this p r : pool_ok p → p.1 !! this = Some r →
  match state_ r with
  | St_Value => ∃ v, storage_ r = Some v ∧ value this p = Ret v p ∧ error this p = Ret E_None p ∧
      release_error this p = Halt AssertFailed ∧ (∀ x, value_or this x p = Ret (t_copy v) p) ∧
      ∀ a p', release_value this p = Ret a p' → a = (t_move v).1 ∧ p'.1 = <[this := consumed]> p.1
  | St_Error => ∃ e, e ≠ E_None ∧ error this p = Ret e p ∧ value this p = Halt AssertFailed ∧ release_value this p = Halt AssertFailed ∧
      (∀ x, value_or this x p = Ret (t_copy x) p) ∧ release_error this p = Ret e (<[this := consumed]> p.1, p.2)
  | St_Consumed => value this p = Halt AssertFailed ∧ error this p = Halt AssertFailed ∧ release_value this p = Halt AssertFailed ∧
      release_error this p = Halt AssertFailed ∧ ∀ x, value_or this x p = Halt AssertFailed
  end.
Proof.
  intros Hp Hr. pose proof (Hp _ _ Hr) as Hw. unfold wf_r in Hw.
  rewrite (value_eq _ _ _ Hr), (error_eq _ _ _ Hr), (release_error_eq _ _ _ Hr). pose proof (λ x, value_or_eq this p r x Hr) as Hvo.
  unfold is_value, is_error in *. destruct (state_ r) eqn:Hs.
  - destruct Hw as [[v Hv] He]. exists v. rewrite Hv in *. rewrite He. split_and!; try done. intros a p'. rewrite (release_value_eq _ _ _ _ Hr Hs Hv).
    intros E. apply bind_Ret_inv in E as ([] & p1 & E1 & E). injection E as <- <-. split; [done|]. cbn.
    assert (p1.1 = <[this := MkStorage (Some (t_move v).2) (error_ r) St_Value]> p.1) as ->; [|by rewrite insert_insert_eq].
    unfold whenM in E1. destruct (negb _); [|by injection E1 as <-]. unfold on_value, zoom in E1. cbn in E1. destruct (t_destroy _ _); simplify_eq. done.
  - destruct Hw as [_ He]. exists (error_ r). rewrite (release_value_bad _ _ _ Hr) by (by rewrite Hs). by split_and!.
  - rewrite (release_value_bad _ _ _ Hr) by (by rewrite Hs). by split_and!.
Qed.

Lemma result_keeps this other v e :
  keeps okp (reset this) ∧ keeps okp (from_copy this v) ∧ keeps okp (from_move this v) ∧ keeps okp (from_error this e) ∧
  keeps okp (copy_construct this other) ∧ keeps okp (copy_assign this other) ∧ keeps okp (move_construct this other) ∧
  keeps okp (move_assign this other) ∧ keeps okp (destruct_r this) ∧ keeps okp (release_value this) ∧
  keeps okp (value_or_move this v) ∧ keeps okp (release_error this).
Proof.
  destruct (keeps_copies this other), (keeps_moves this other).
  split_and!; try done; [apply keeps_reset|by apply keeps_put; split; [eexists|]| |apply keeps_from_error|apply keeps_destruct|apply keeps_release_value|
    apply keeps_value_or_move|apply keeps_release_error].
  apply keeps_bind; [by apply keeps_put; split; [eexists|]|intros; apply keeps_ret].
Qed.

End typestate.

(** ** [TRY] is the bind of the kernel monad *)

(** What the traits promise of a move: the new object is the value, and what is
    left has nothing to destroy; trivially copyable types have no destructor. *)
Class ValueTypeLaws (T S : Type) `{VT : ValueType T S} : Prop := {
  move_value v : (t_move v).1 = v;
  move_left v s : t_destroy (t_move v).2 s = Ret tt s;
  trivial_copy : trivially_copyable = true → trivially_destructible = true }.

Section try.
Context {T S : Type} `{VL : ValueTypeLaws T S}.
Notation P := (gmap Z (Storage T) * S)%type.
Implicit Types (p : P) (r : Storage T).

(** What the caller of [expr] is told: the contents of the result at [arg]. *)
Definition returned (arg : Z) (expr : M P unit) : M P T :=
  expr;;
  r <- get_r arg;;
  modify (λ p, (base.delete arg p.1, p.2));;
  match state_ r with
  | St_Value => deref (storage_ r)
  | St_Error => fail (error_ r)
  | St_Consumed => halt AssertFailed
  end.

Lemma reset_quiet this p r : p.1 !! this = Some r →
  state_ r ≠ St_Value ∨ trivially_destructible = true ∨ (∃ v, storage_ r = Some (t_move v).2) → reset this p = Ret tt (<[this := consumed]> p.1, p.2).
Proof.
  intros Hr Hq. rewrite (reset_eq _ _ _ Hr). unfold whenM. destruct trivially_destructible eqn:Et; [done|]. unfold is_value. case_bool_decide as Hs; [|done].
  destruct Hq as [?|[?|[v Hv]]]; [done..|]. rewrite Hv. cbn [negb andb deref]. unfold bind, on_value, zoom. cbn. by rewrite move_left.
Qed.
Lemma destruct_quiet this p r : p.1 !! this = Some r → state_ r ≠ St_Value ∨ trivially_destructible = true →
  destruct_r this p = Ret tt (base.delete this p.1, p.2).
Proof.
  intros Hr Hq. unfold destruct_r, whenM. destruct trivially_destructible eqn:Et; cbn [negb]; [done|].
  assert (state_ r ≠ St_Value) as Hs by (by destruct Hq).
  rewrite (bind_Ret _ _ _ _ _ (reset_quiet this p r Hr (or_introl Hs))). unfold modify. cbn. by rewrite delete_insert_eq.
Qed.

(** The move into the variable of the macro. *)
Lemma wrap_tryable_eq arg tmp p r : pool_ok p → p.1 !! arg = Some r → p.1 !! tmp = None →
  wrap_tryable arg tmp p = Ret tt (<[tmp := r]> (base.delete arg p.1), p.2).
Proof.
  intros Hp Hr Hn. assert (tmp ≠ arg) as Hne by congruence. pose proof (Hp _ _ Hr) as Hw. unfold wrap_tryable, move_construct.
  destruct trivially_copyable eqn:Et.
  { unfold copy_bytes. rewrite bind_assoc, (bind_Ret _ _ _ _ _ (get_r_Ret _ _ _ Hr)). unfold put_r, modify. erewrite bind_Ret by reflexivity.
    rewrite (destruct_quiet arg _ r); [by cbn [fst snd]; rewrite delete_insert_ne|by cbn; rewrite lookup_insert_ne|right; by apply trivial_copy]. }
  assert (∃ r0, move_parts tmp arg p = Ret tt (<[tmp := r]> (<[arg := r0]> p.1), p.2) ∧ (state_ r0 ≠ St_Value ∨ trivially_destructible = true ∨ ∃ v, storage_ r0 = Some (t_move v).2)) as (r0 & Hmv & Hq).
  { unfold move_parts. rewrite (bind_Ret _ _ _ _ _ (get_r_Ret _ _ _ Hr)). unfold is_value. unfold wf_r in Hw. destruct r as [o e st]. cbn in *. case_bool_decide as Hs; [subst st|].
    - destruct Hw as [[v ->] ->]. cbn [deref]. rewrite bind_ret. unfold put_r, modify. erewrite bind_Ret by reflexivity. cbn. rewrite move_value.
      eexists. split; [reflexivity|]. right. right. by exists v.
    - exists (MkStorage o e st). rewrite (insert_id p.1) by done. split; [|by left]. unfold put_r, modify. by destruct st; [done|destruct Hw as [-> _]..]. }
  rewrite bind_assoc, (bind_Ret _ _ _ _ _ Hmv). erewrite bind_Ret by (apply (reset_quiet arg _ r0); [cbn; rewrite lookup_insert_ne, lookup_insert_eq by done; done|done]).
  erewrite destruct_quiet; [|apply lookup_insert_eq|by left]. cbn [fst snd]. by rewrite delete_insert_eq, delete_insert_ne, delete_insert_eq.
Qed.

(** [TRY(expr)] in a function is the bind of the kernel monad: when [expr]
    returns a value, the rest of the function runs with it; when it returns an
    error, the function returns that error; in both cases the temporaries are
    gone and nothing else has changed.  A consumed result stops at an
    assertion. *)
Theorem try_is_bind {A} (arg tmp : Z) (expr : M P unit) (k : T → M P A) p :
  (∀ p', expr p = Ret tt p' → pool_ok p' ∧ is_Some (p'.1 !! arg) ∧ p'.1 !! tmp = None) →
  TRY arg tmp expr k p = (v <- returned arg expr;; k v) p.
Proof.
  intros Hexpr. unfold TRY, returned. rewrite bind_assoc. destruct (expr p) as [[] p1|e p1|x] eqn:E; [|by rewrite !(bind_Fail _ _ _ _ _ E)|by unfold bind; rewrite E].
  rewrite !(bind_Ret _ _ _ _ _ E). destruct (Hexpr _ eq_refl) as (Hp & [r Hr] & Hn). pose proof (Hp _ _ Hr) as Hw.
  rewrite (bind_Ret _ _ _ _ _ (wrap_tryable_eq _ _ _ _ Hp Hr Hn)). rewrite bind_assoc, (bind_Ret _ _ _ _ _ (get_r_Ret _ _ _ Hr)), bind_assoc.
  unfold modify at 1. erewrite (bind_Ret _ _ p1) by reflexivity. set (d := base.delete arg p1.1).
  assert (d !! tmp = None) as Hd by (by apply lookup_delete_None; right).
  set (q := (<[tmp := r]> d, p1.2) : P). assert (q.1 !! tmp = Some r) as Hq by apply lookup_insert_eq.
  rewrite (bind_Ret _ _ _ _ _ (ok_eq tmp q r Hq)). unfold wf_r in Hw. unfold is_value. destruct (state_ r) eqn:Hs.
  - destruct Hw as [[v Hv] _]. rewrite bool_decide_eq_true_2 by done. cbn [negb]. rewrite Hv. cbn [deref]. rewrite bind_ret.
    unfold bind at 1. rewrite (release_value_eq tmp q r v Hq Hs Hv).
    assert (whenM (negb trivially_destructible) (on_value (T := T) (t_destroy (t_move v).2)) (<[tmp := MkStorage (Some (t_move v).2) (error_ r) St_Value]> q.1, q.2) =
      Ret tt (<[tmp := MkStorage (Some (t_move v).2) (error_ r) St_Value]> q.1, q.2)) as Hwn.
    { unfold whenM. destruct trivially_destructible; [done|]. unfold on_value, zoom. cbn. by rewrite move_left. }
    rewrite (bind_Ret _ _ _ _ _ Hwn). unfold put_r, modify. erewrite bind_Ret by reflexivity. cbn. rewrite move_value.
    erewrite (bind_Ret (destruct_r tmp)); [|eapply destruct_quiet; [apply lookup_insert_eq|by left]]. cbn.
    by rewrite !insert_insert_eq, delete_insert_id.
  - rewrite bool_decide_eq_false_2 by done. cbn [negb]. unfold bind at 1. rewrite (release_error_eq tmp q r Hq). unfold is_error. rewrite Hs, bool_decide_eq_true_2 by done.
    erewrite (bind_Ret (destruct_r tmp)); [|eapply destruct_quiet; [apply lookup_insert_eq|by left]]. cbn. by rewrite insert_insert_eq, delete_insert_id.
  - rewrite bool_decide_eq_false_2 by done. cbn [negb]. unfold bind at 1. rewrite (release_error_eq tmp q r Hq). unfold is_error. by rewrite Hs, bool_decide_eq_false_2.
Qed.
End try.

(** ** Results of owning pointers *)

(** [sys::unique_ptr]: a move leaves null, destroying a pointer deletes its
    object, here recorded in the list of what was deleted. *)
#[export] Instance unique_ptr : ValueType (option Z) (list Z) := {|
  trivially_copyable := false; trivially_assignable := false; trivially_destructible := false;
  t_copy v := v; t_move v := (v, None);
  t_destroy v := match v with Some x => modify (cons x) | None => ret tt end |}.
#[export] Instance unique_ptr_laws : ValueTypeLaws (option Z) (list Z).
Proof. by split. Qed.

(** What code can do with [Result<unique_ptr>] objects; [None] is also the error
    path of a function that makes its result. *)
Inductive act : Set :=
| A_value (this : Z) (v : option Z)
| A_error (this : Z) (e : Error)
| A_move (this other : Z)
| A_assign (this other : Z)
| A_destroy (this : Z)
| A_release (this : Z)
| A_release_error (this : Z)
| A_value_or (this : Z) (fallback : option Z).

Notation U := (gmap Z (Storage (option Z)) * list Z)%type.
(** An object is constructed where there is none. *)
Definition fresh (this : Z) : M U unit := p <- get;; if bool_decide (p.1 !! this = None) then ret tt else halt WildPointer.
(** An action, and the pointers it hands to the caller. *)
Definition act_run (a : act) : M U (list Z) :=
  match a with
  | A_value this v => fresh this;; x <- from_move this v;; ret (option_list x)
  | A_error this e => fresh this;; from_error this e;; ret []
  | A_move this other => fresh this;; move_construct this other;; ret []
  | A_assign this other => move_assign this other;; ret []
  | A_destroy this => destruct_r this;; ret []
  | A_release this => v <- release_value this;; ret (option_list v)
  | A_release_error this => release_error this;; ret []
  | A_value_or this fb => v <- value_or_move this fb;; ret (option_list v.1 ++ option_list v.2)
  end.
Definition act_in (a : act) : list Z :=
  match a with A_value _ v | A_value_or _ v => option_list v | _ => [] end.
Fixpoint acts_run (l : list act) : M U (list Z) :=
  match l with [] => ret [] | a :: l => x <- act_run a;; y <- acts_run l;; ret (x ++ y) end.

(** The pointers owned by the results. *)
Definition tok (r : Storage (option Z)) : list Z := match storage_ r with Some (Some x) => [x] | _ => [] end.
Definition owned (m : gmap Z (Storage (option Z))) : list Z := map_to_list m ≫= λ kr, tok kr.2.

Lemma owned_insert m k r : m !! k = None → owned (<[k := r]> m) ≡ₚ tok r ++ owned m.
Proof. intros H. unfold owned. by rewrite map_to_list_insert. Qed.
Lemma owned_delete m k r : m !! k = Some r → owned m ≡ₚ tok r ++ owned (base.delete k m).
Proof. intros H. rewrite <- owned_insert by apply lookup_delete_eq. by rewrite insert_delete_id. Qed.
Lemma owned_replace m k r0 r : m !! k = Some r0 → tok r0 ++ owned (<[k := r]> m) ≡ₚ tok r ++ owned m.
Proof.
  intros H. rewrite (owned_delete m k r0 H), <- insert_delete_eq, owned_insert by apply lookup_delete_eq. solve_Permutation.
Qed.

(** An operation accounts for its pointers: what it was given and what the
    results owned is what it hands out, what the results own, and what was
    deleted. *)
Definition accounts {A} (inn : list Z) (m : M U A) (out : A → list Z) : Prop := ∀ s a s',
  pool_ok s → m s = Ret a s' → inn ++ owned s.1 ++ s.2 ≡ₚ out a ++ owned s'.1 ++ s'.2.

Lemma accounts_bind {A B} inn (m : M U A) mid (k : A → M U B) out :
  keeps pool_ok m → accounts inn m mid → (∀ a, accounts (mid a) (k a) out) → accounts inn (a <- m;; k a) out.
Proof.
  intros Hk Hm Hkk s b s' Hp Hr. apply bind_Ret_inv in Hr as (a & s1 & H1 & H2). rewrite (Hm _ _ _ Hp H1).
  eapply Hkk; [|done]. apply (Hk s s1 Hp). by rewrite H1.
Qed.
Lemma accounts_ret {A} (a : A) inn out : inn ≡ₚ out a → accounts inn (ret a) out.
Proof. intros H s a' s' _ [= <- <-]. by rewrite H. Qed.

Lemma accounts_reset this : accounts [] (reset this) (λ _, []).
Proof.
  intros s [] s' Hp Hr. unfold reset in Hr. apply bind_Ret_inv in Hr as (r & s1 & H1 & Hr). apply get_r_inv in H1 as [-> H1].
  pose proof (Hp _ _ H1) as Hw. pose proof (owned_replace s.1 this r consumed H1) as Ho. cbn in Ho.
  unfold whenM, is_value in Hr. cbn in Hr. unfold wf_r in Hw. unfold tok in Ho. destruct (state_ r); cbn in Hr.
  - destruct Hw as [[v Hv] _]. rewrite Hv in *. cbn in Hr. destruct v as [x|]; unfold bind, on_value, zoom, modify, put_r in Hr; cbn in Hr; injection Hr as <-; cbn in *.
    + rewrite <- Ho. solve_Permutation.
    + by rewrite <- Ho.
  - destruct Hw as [Hv _]. rewrite Hv in Ho. injection Hr as <-. cbn in *. by rewrite <- Ho.
  - destruct Hw as [Hv _]. rewrite Hv in Ho. injection Hr as <-. cbn in *. by rewrite <- Ho.
Qed.

Definition tok_at (m : gmap Z (Storage (option Z))) (k : Z) : list Z := from_option tok [] (m !! k).
Lemma owned_put m k r : tok_at m k ++ owned (<[k := r]> m) ≡ₚ tok r ++ owned m.
Proof. unfold tok_at. destruct (m !! k) eqn:E; cbn; [by apply owned_replace|by apply owned_insert]. Qed.

Lemma fresh_inv this s u s' : fresh this s = Ret u s' → s' = s ∧ s.1 !! this = None ∧ tok_at s.1 this = [].
Proof. unfold fresh, bind, get. cbn. case_bool_decide as H; [|done]. intros [= <-]. unfold tok_at. by rewrite H. Qed.

(** The source gives its pointer to an object that has none. *)
Lemma move_parts_spec this other s s' : pool_ok s → tok_at s.1 this = [] → this ≠ other → move_parts this other s = Ret tt s' →
  owned s.1 ++ s.2 ≡ₚ owned s'.1 ++ s'.2.
Proof.
  intros Hp Ht Hne Hr. unfold move_parts in Hr. apply bind_Ret_inv in Hr as (r & s1 & H1 & Hr). apply get_r_inv in H1 as [-> H1].
  pose proof (Hp _ _ H1) as Hw. unfold wf_r in Hw. unfold is_value in Hr. case_bool_decide as Hs.
  - rewrite Hs in Hw. destruct Hw as [[v Hv] He]. rewrite Hv in Hr. unfold bind, put_r, modify in Hr. cbn in Hr. injection Hr as <-. cbn.
    pose proof (owned_replace s.1 other r (MkStorage (Some None) (error_ r) (state_ r)) H1) as Ho. cbn in Ho.
    set (m1 := <[other := _]> s.1) in *. pose proof (owned_put m1 this (MkStorage (Some v) (error_ r) (state_ r))) as Ho2.
    replace (tok_at m1 this) with (@nil Z) in Ho2 by (unfold tok_at, m1 in *; by rewrite lookup_insert_ne by done). cbn in Ho2.
    rewrite Ho2, <- Ho. unfold tok. rewrite Hv. done.
  - pose proof (owned_put s.1 this (MkStorage None (error_ r) (state_ r))) as Ho. rewrite Ht in Ho. injection Hr as <-. cbn in *. by rewrite Ho.
Qed.

Lemma reset_empty this s s' : pool_ok s → reset this s = Ret tt s' → tok_at s'.1 this = [].
Proof.
  intros Hp Hr. unfold reset in Hr. apply bind_Ret_inv in Hr as (r & s1 & H1 & Hr). apply bind_Ret_inv in Hr as ([] & s2 & _ & Hr).
  injection Hr as <-. unfold tok_at. cbn. by rewrite lookup_insert_eq.
Qed.

Lemma accounts_assign this other : accounts [] (move_assign this other) (λ _, []).
Proof.
  intros s [] s' Hp Hr. unfold move_assign in Hr. cbn in Hr. destruct (Z.eqb_spec this other) as [->|Hne]; [by injection Hr as <-|].
  apply bind_Ret_inv in Hr as ([] & s1 & H1 & Hr). apply bind_Ret_inv in Hr as ([] & s2 & H2 & H3).
  assert (pool_ok s1) as Hp1 by (apply (keeps_reset this s s1 Hp); by rewrite H1).
  assert (pool_ok s2) as Hp2 by (apply (keeps_move_parts this other s1 s2 Hp1); by rewrite H2).
  rewrite (accounts_reset this s tt s1 Hp H1). cbn. rewrite (move_parts_spec this other s1 s2 Hp1 (reset_empty _ _ _ Hp H1) Hne H2).
  apply (accounts_reset other s2 tt s' Hp2 H3).
Qed.

Lemma accounts_release this : accounts [] (release_value this) option_list.
Proof.
  intros s v s' Hp Hr. destruct (s.1 !! this) as [r|] eqn:H1; [|by unfold release_value, ok, get_r, gets, deref, bind in Hr; rewrite H1 in Hr].
  destruct (decide (state_ r = St_Value)) as [Hs|Hs]; [|by rewrite (release_value_bad _ _ _ H1 Hs) in Hr].
  pose proof (Hp _ _ H1) as Hw. unfold wf_r in Hw. rewrite Hs in Hw. destruct Hw as [[x Hv] _]. rewrite (release_value_eq _ _ _ _ H1 Hs Hv) in Hr.
  unfold bind, whenM, on_value, zoom, put_r, modify in Hr. cbn in Hr. injection Hr as <- <-. cbn. rewrite insert_insert_eq.
  pose proof (owned_replace s.1 this r consumed H1) as Ho. unfold tok in Ho. rewrite Hv in Ho. cbn in Ho. rewrite <- Ho, <- app_assoc. by destruct x.
Qed.

Lemma accounts_construct this other : accounts [] (fresh this;; move_construct this other) (λ _, []).
Proof.
  intros s [] s' Hp Hr. apply bind_Ret_inv in Hr as ([] & s1 & H1 & Hr). apply fresh_inv in H1 as (-> & Hn & Ht).
  cbn in Hr. apply bind_Ret_inv in Hr as ([] & s2 & H2 & H3).
  assert (this ≠ other) as Hne.
  { intros ->. unfold move_parts in H2. apply bind_Ret_inv in H2 as (r & s4 & H4 & _). apply get_r_inv in H4 as [_ H4]. congruence. }
  assert (pool_ok s2) as Hp2 by (apply (keeps_move_parts this other s s2 Hp); by rewrite H2).
  cbn. rewrite (move_parts_spec this other s s2 Hp Ht Hne H2). apply (accounts_reset other s2 tt s' Hp2 H3).
Qed.
Lemma accounts_destroy this : accounts [] (destruct_r this) (λ _, []).
Proof.
  intros s [] s' Hp Hr. unfold destruct_r in Hr. cbn in Hr. apply bind_Ret_inv in Hr as ([] & s1 & H1 & [= <-]). cbn.
  rewrite (accounts_reset this s tt s1 Hp H1). cbn. pose proof (reset_empty _ _ _ Hp H1) as Ht. unfold tok_at in Ht.
  destruct (s1.1 !! this) as [r|] eqn:E; [|by rewrite delete_id]. cbn in Ht. by rewrite (owned_delete _ _ _ E), Ht.
Qed.
Lemma accounts_release_error this : accounts [] (release_error this) (λ _, []).
Proof.
  intros s e s' Hp Hr. unfold release_error in Hr. apply bind_Ret_inv in Hr as (r & s1 & H1 & Hr). apply get_r_inv in H1 as [-> H1].
  apply bind_Ret_inv in Hr as (u & s2 & H2 & Hr). unfold assert_ in H2. destruct (is_error r); [|done]. injection H2 as <- <-.
  apply bind_Ret_inv in Hr as ([] & s3 & H3 & [= <- <-]). apply (accounts_reset this s tt s3 Hp H3).
Qed.
Lemma accounts_value_or this fb : accounts (option_list fb) (value_or_move this fb) (λ v, option_list v.1 ++ option_list v.2).
Proof.
  intros s v s' Hp Hr. unfold value_or_move in Hr. apply bind_Ret_inv in Hr as (c & s1 & H1 & Hr).
  unfold is_consumed in H1. apply bind_Ret_inv in H1 as (r & s1' & H1 & [= <- <-]). apply get_r_inv in H1 as [-> H1].
  apply bind_Ret_inv in Hr as (u & s2 & H2 & Hr). unfold assert_ in H2. destruct (negb _); [|done]. injection H2 as <- <-.
  rewrite (bind_Ret _ _ _ _ _ (ok_eq _ _ _ H1)) in Hr. destruct (is_value r); apply bind_Ret_inv in Hr as (x & s3 & H3 & [= <- <-]); cbn.
  - pose proof (accounts_release this s x s3 Hp H3) as Ha. cbn in Ha. rewrite Ha. solve_Permutation.
  - destruct x. pose proof (accounts_reset this s tt s3 Hp H3) as Ha. cbn in Ha. by rewrite Ha, app_nil_r.
Qed.

Lemma accounts_quiet {A} inn (m : M U A) out (g : A → list Z) : accounts inn m out → (∀ a, g a = out a) → accounts inn (a <- m;; ret (g a)) id.
Proof. intros Hm Hg s x s' Hp Hr. apply bind_Ret_inv in Hr as (a & s1 & H1 & [= <- <-]). rewrite (Hm _ _ _ Hp H1). cbn. by rewrite Hg. Qed.

Lemma accounts_run a : accounts (act_in a) (act_run a) id.
Proof.
  destruct a as [this v|this e|this other|this other|this|this|this|this fb]; cbn [act_run act_in];
    [| | |by eapply accounts_quiet; [apply accounts_assign|]|by eapply accounts_quiet; [apply accounts_destroy|]|by eapply accounts_quiet; [apply accounts_release|]|
     by eapply accounts_quiet; [apply accounts_release_error|]|by eapply accounts_quiet; [apply accounts_value_or|]].
  - intros s x s' Hp Hr. apply bind_Ret_inv in Hr as (y & s1 & H1 & Hr). apply fresh_inv in H1 as (-> & _ & Ht).
    apply bind_Ret_inv in Hr as (w & s2 & H2 & [= <- <-]). cbn in H2. injection H2 as <- <-. cbn.
    pose proof (owned_put s.1 this (MkStorage (Some v) E_None St_Value)) as Ho. rewrite Ht in Ho. cbn in Ho. rewrite Ho, <- app_assoc. by destruct v.
  - intros s x s' Hp Hr. apply bind_Ret_inv in Hr as (y & s1 & H1 & Hr). apply fresh_inv in H1 as (-> & _ & Ht).
    apply bind_Ret_inv in Hr as (w & s2 & H2 & [= <- <-]).
    unfold from_error, bind, put_r, modify, assert_ in H2. case_bool_decide; [done|]. injection H2 as <- <-. cbn.
    pose proof (owned_put s.1 this (MkStorage None e St_Error)) as Ho. rewrite Ht in Ho. cbn in Ho. by rewrite Ho.
  - intros s x s' Hp Hr. pose proof (accounts_quiet [] _ _ (λ _, []) (accounts_construct this other) (λ _, eq_refl) s x s' Hp) as Ha.
    rewrite bind_assoc in Ha. by apply Ha.
Qed.

Lemma keeps_act a : keeps pool_ok (act_run a).
Proof.
  assert (∀ this, keeps (S := U) pool_ok (fresh this)) as Hf.
  { intros this. apply keeps_bind; [apply keeps_get|]. intros s. case_bool_decide; [apply keeps_ret|apply keeps_halt]. }
  destruct a as [this v|this e|this other|this other|this|this|this|this fb]; cbn [act_run];
    repeat first [apply Hf|apply keeps_ret|apply keeps_from_error|apply keeps_moves|apply keeps_destruct|apply keeps_release_value|
      apply keeps_release_error|apply keeps_value_or_move|apply keeps_put; split; [by eexists|done]|apply keeps_bind; [|intros]].
Qed.

(** C40: code that uses [Result] objects of owning pointers neither leaks nor
    deletes twice: after any sequence of constructions, moves, assignments,
    releases and destructions that does not stop at an assertion, every pointer
    put into a result is exactly once either in the hands of the caller, owned
    by a result that still exists, or deleted. *)
Theorem result_linear l outs s' :
  acts_run l (∅, []) = Ret outs s' → (l ≫= act_in) ≡ₚ outs ++ owned s'.1 ++ s'.2.
Proof.
  enough (∀ s outs s', pool_ok s → acts_run l s = Ret outs s' → (l ≫= act_in) ++ owned s.1 ++ s.2 ≡ₚ outs ++ owned s'.1 ++ s'.2) as H.
  { intros Hr. rewrite <- (H _ _ _ (map_Forall_empty _) Hr). cbn. by rewrite app_nil_r. }
  clear. induction l as [|a l IH]; intros s outs s' Hp Hr; cbn in *; [by injection Hr as <- <-|].
  apply bind_Ret_inv in Hr as (x & s1 & H1 & Hr). apply bind_Ret_inv in Hr as (y & s2 & H2 & [= <- <-]).
  assert (pool_ok s1) as Hp1 by (apply (keeps_act a s s1 Hp); by rewrite H1).
  pose proof (accounts_run a s x s1 Hp H1) as Ha. cbn in Ha. rewrite <- !app_assoc, <- (IH s1 y s2 Hp1 H2).
  trans ((l ≫= act_in) ++ (act_in a ++ owned s.1 ++ s.2)); [solve_Permutation|]. rewrite Ha. solve_Permutation.
Qed.

(** ** Concrete runs *)

(** A result that is moved, released, and one that is assigned over. *)
Lemma result_linear_witness : ∃ outs s', acts_run [A_value 1 (Some 7); A_value 2 (Some 8); A_move 3 1; A_assign 2 3; A_release 2; A_destroy 1] (∅, []) = Ret outs s' ∧
  [7; 8] ≡ₚ outs ++ owned s'.1 ++ s'.2.
Proof.
  eexists _, _. split; [reflexivity|]. apply (result_linear [A_value 1 (Some 7); A_value 2 (Some 8); A_move 3 1; A_assign 2 3; A_release 2; A_destroy 1]). reflexivity.
Defined.

Lemma try_is_bind_witness :
  TRY (T := option Z) (S := list Z) 1 2 (from_error 1 E_NoMem) (λ v, ret (option_list v)) (∅, []) = Fail E_NoMem (∅, []).
Proof.
  rewrite (try_is_bind 1 2 (from_error 1 E_NoMem) (λ v, ret (option_list v)) (∅, [])); [reflexivity|].
  intros p' [= <-]. split; [|split; [by eexists|done]]. apply (put_r_ok 1 (MkStorage None E_NoMem St_Error) (∅, [])); [done|apply map_Forall_empty].
Defined.
