(* ===== verification/Zstl.v ===== *)
(** * Containers of the [sys::] library

    The kernel uses a container library that is not part of its sources.  What
    the kernel relies on is an interface with its laws; a list of bounded
    length is an instance. *)

From S2P Require Import Prelude.

(** ** [sys::inplace_vector<A, CAP>] *)
Class InplaceVector (V A : Type) := {
  iv_new : V;                             (** the empty vector *)
  iv_elems : V → list A;                  (** the elements, in order *)
  iv_try_push_back : A → V → option V;    (** null when full *)
  iv_pop_back : V → V }.
Class InplaceVectorLaws (V A : Type) `{InplaceVector V A} (CAP : nat) := {
  iv_new_elems : iv_elems iv_new = [];
  iv_capacity v : (length (iv_elems v) ≤ CAP)%nat;
  iv_push_full a v : length (iv_elems v) = CAP → iv_try_push_back a v = None;
  iv_push_room a v : (length (iv_elems v) < CAP)%nat →
    ∃ v', iv_try_push_back a v = Some v' ∧ iv_elems v' = iv_elems v ++ [a];
  iv_pop_elems v : iv_elems v ≠ [] → iv_elems (iv_pop_back v) = removelast (iv_elems v) }.

(** ** An instance *)
Record bvec (A : Type) (CAP : nat) : Type := BVec { bv_list : list A; bv_ok : (length bv_list ≤ CAP)%nat }.
Arguments BVec {A CAP} bv_list bv_ok.
Arguments bv_list {A CAP} b.
Arguments bv_ok {A CAP} b.

Lemma length_removelast_le {A} (l : list A) n : (length l ≤ n)%nat → (length (removelast l) ≤ n)%nat.
Proof. rewrite removelast_firstn_len, length_take. lia. Qed.

#[global] Instance bvec_ops A CAP : InplaceVector (bvec A CAP) A := {|
  iv_new := BVec [] (Nat.le_0_l CAP);
  iv_elems := bv_list;
  iv_try_push_back a v :=
    match decide (length (bv_list v ++ [a]) ≤ CAP)%nat with left Hl => Some (BVec (bv_list v ++ [a]) Hl) | right _ => None end;
  iv_pop_back v := BVec (removelast (bv_list v)) (length_removelast_le _ _ (bv_ok v)) |}.
#[global] Instance bvec_laws A CAP : InplaceVectorLaws (bvec A CAP) A CAP.
Proof.
  split; simpl.
  - done.
  - apply bv_ok.
  - intros a v Hl. destruct (decide _) as [Hle|]; [|done]. exfalso. rewrite length_app in Hle. simpl in Hle. lia.
  - intros a v Hl. destruct (decide _) as [Hle|Hn]; [by eexists|]. destruct Hn. rewrite length_app. simpl. lia.
  - done.
Qed.
