(* ===== verification/LibList.v ===== *)
(** * The intrusive circular list of [kernel/lib/list.h]

    [ListNode] objects live in a store: a finite map from node addresses to
    the pair of links each node holds.  The operations are the pointer
    assignments of the header, in order, so that they are right about
    aliasing; they return [None] when they go through an address that names
    no node.  [ring h head l] says that the store holds a well-formed circular
    list whose head is [head] and whose elements, in order, are [l]; the
    theorems say which list each operation leaves. *)

From S2P Require Import Prelude.

Record ListNode (K : Type) : Type := MkNode { prev : K; next : K }.
Arguments MkNode {K} _ _.
Arguments prev {K} _.
Arguments next {K} _.

(** ** The operations of [struct ListNode] *)
Section ops.
Context {K : Type} `{Countable K}.
Implicit Types (h : gmap K (ListNode K)) (x y this elm head : K) (l : list K).

Definition next_node h x : option K := next <$> h !! x.
Definition previous_node h x : option K := prev <$> h !! x.

Definition set_prev x (v : K) h : option (gmap K (ListNode K)) :=
  n ← h !! x; Some (<[x := MkNode v (next n)]> h).
Definition set_next x (v : K) h : option (gmap K (ListNode K)) :=
  n ← h !! x; Some (<[x := MkNode (prev n) v]> h).

(** The constructor: [prev = next = this]. *)
Definition init_node x h : gmap K (ListNode K) := <[x := MkNode x x]> h.

Definition add_before this elm h : option (gmap K (ListNode K)) :=
  p ← previous_node h this;
  h ← set_prev elm p h;
  h ← set_next elm this h;
  q ← previous_node h this;
  h ← set_next q elm h;
  set_prev this elm h.

Definition add_after this elm h : option (gmap K (ListNode K)) :=
  h ← set_prev elm this h;
  n ← next_node h this;
  h ← set_next elm n h;
  m ← next_node h this;
  h ← set_prev m elm h;
  set_next this elm h.

Definition unlink this h : option (gmap K (ListNode K)) :=
  p ← previous_node h this;
  n ← next_node h this;
  h ← set_next p n h;
  n' ← next_node h this;
  p' ← previous_node h this;
  h ← set_prev n' p' h;
  h ← set_next this this h;
  set_prev this this h.

Definition empty_list h this : option bool :=
  n ← next_node h this; Some (bool_decide (n = this)).

(** [for (auto* node : head)]: [Iterator] from [begin()] to [end()]. *)
Fixpoint iter_next (fuel : nat) h head (cur : K) : option (list K) :=
  match fuel with
  | O => None
  | S fuel =>
      if decide (cur = head) then Some []
      else n ← next_node h cur; l ← iter_next fuel h head n; Some (cur :: l)
  end.
Definition iterate h head : option (list K) :=
  n ← next_node h head; iter_next (S (size h)) h head n.

(** [for (auto* node : head.reversed())] *)
Fixpoint iter_prev (fuel : nat) h head (cur : K) : option (list K) :=
  match fuel with
  | O => None
  | S fuel =>
      if decide (cur = head) then Some []
      else n ← previous_node h cur; l ← iter_prev fuel h head n; Some (cur :: l)
  end.
Definition reversed h head : option (list K) :=
  p ← previous_node h head; iter_prev (S (size h)) h head p.

(** [CircularView::begin]; the outer [option] is the store access, the inner
    one the null iterator that [end()] is. *)
Definition circ_begin h head (start : option K) : option (option K) :=
  first ← match start with Some s => Some s | None => next_node h head end;
  first ← (if decide (first = head) then next_node h first else Some first);
  if decide (first = head) then Some None else Some (Some first).

(** [CircularIterator::operator++] from a non-null [cur]. *)
Definition circ_next h head start (cur : K) : option (option K) :=
  n ← next_node h cur;
  n ← (if decide (n = head) then next_node h n else Some n);
  if decide (n = head ∨ n = start) then Some None else Some (Some n).

Fixpoint circ_iter (fuel : nat) h head start (cur : option K) : option (list K) :=
  match cur with
  | None => Some []
  | Some c =>
      match fuel with
      | O => None
      | S fuel =>
          n ← circ_next h head start c;
          l ← circ_iter fuel h head start n;
          Some (c :: l)
      end
  end.

(** [for (auto* node : head.circular_from(start))] *)
Definition circular_from h head (start : option K) : option (list K) :=
  first ← circ_begin h head start;
  match first with
  | None => Some []
  | Some f => circ_iter (S (size h)) h head f (Some f)
  end.
End ops.

(** ** The abstraction: list segments and rings *)
Section ring.
Context {K : Type} `{Countable K}.
Implicit Types (h : gmap K (ListNode K)) (a b x y this elm head : K) (l : list K).

(** [seg h a l b]: from [a], the links lead through [l] to [b], and back. *)
Fixpoint seg h a l b : Prop :=
  match l with
  | [] => next_node h a = Some b ∧ previous_node h b = Some a
  | x :: l => next_node h a = Some x ∧ previous_node h x = Some a ∧ seg h x l b
  end.

Definition ring h head l : Prop := NoDup (head :: l) ∧ seg h head l head.

Lemma seg_app h a l1 x l2 b :
  seg h a (l1 ++ x :: l2) b ↔ seg h a l1 x ∧ seg h x l2 b.
Proof. revert a. induction l1 as [|y l1 IH]; intros a; simpl; [naive_solver|]. rewrite IH. naive_solver. Qed.

Lemma seg_frame h h' a l b :
  (∀ x, x ∈ a :: l → next_node h' x = next_node h x) →
  (∀ x, x ∈ l ++ [b] → previous_node h' x = previous_node h x) →
  seg h a l b → seg h' a l b.
Proof.
  revert a. induction l as [|y l IH]; intros a Hn Hp; simpl.
  - intros [? ?]. rewrite Hn, Hp by set_solver. done.
  - intros (? & ? & ?). rewrite Hn, Hp by set_solver.
    split_and!; [done..|]. apply IH; [set_solver..|done].
Qed.

Lemma seg_next h a l b : seg h a l b → next_node h a = Some (hd b l).
Proof. destruct l; naive_solver. Qed.
Lemma seg_prev h a l b : seg h a l b → previous_node h b = Some (List.last l a).
Proof.
  revert a. induction l as [|x l IH]; intros a; simpl; [naive_solver|].
  intros (? & ? & Hs). rewrite (IH _ Hs). destruct l; [done|]. f_equal.
  clear. revert k. induction l; naive_solver.
Qed.

Lemma seg_alloc h a l b x : seg h a l b → x ∈ a :: l ++ [b] → is_Some (h !! x).
Proof.
  revert a. induction l as [|y l IH]; intros a; simpl.
  - unfold next_node, previous_node. intros [Ha Hb] Hx.
    apply fmap_Some in Ha as (?&?&_), Hb as (?&?&_).
    apply elem_of_cons in Hx as [->|Hx]; [eauto|].
    apply list_elem_of_singleton in Hx as ->. eauto.
  - intros (Hn & _ & Hs) Hx. apply elem_of_cons in Hx as [->|Hx]; [|by eapply IH].
    unfold next_node in Hn. apply fmap_Some in Hn as (?&?&_). eauto.
Qed.

Lemma ring_alloc h head l x : ring h head l → x ∈ head :: l → is_Some (h !! x).
Proof. intros [_ Hs] Hx. apply (seg_alloc _ _ _ _ _ Hs). set_solver. Qed.

Lemma ring_NoDup h head l : ring h head l → NoDup l ∧ head ∉ l.
Proof. intros [Hnd _]. apply NoDup_cons in Hnd. naive_solver. Qed.

Lemma ring_length h head l : ring h head l → (length l < size h)%nat.
Proof.
  intros Hr. assert (NoDup (head :: l)) as Hnd by apply Hr.
  enough (length (head :: l) ≤ size h)%nat by (simpl in *; lia).
  rewrite <- (size_dom h), <- (size_list_to_set (C := gset K) (head :: l)) by done.
  apply subseteq_size. intros x Hx%elem_of_list_to_set.
  apply elem_of_dom. by eapply ring_alloc.
Qed.

(** A ring can be read from any of its nodes. *)
Lemma ring_rotate h head l1 x l2 :
  ring h head (l1 ++ x :: l2) ↔ ring h x (l2 ++ head :: l1).
Proof.
  unfold ring. rewrite !seg_app.
  assert (head :: l1 ++ x :: l2 ≡ₚ x :: l2 ++ head :: l1) as Hp.
  { rewrite !app_comm_cons, (Permutation_app_comm (head :: l1)). done. }
  rewrite Hp. naive_solver.
Qed.

(** A node is on one ring only. *)
Lemma ring_unique h x l l' : ring h x l → ring h x l' → l = l'.
Proof.
  intros [Hnd Hs] [Hnd' Hs']. apply NoDup_cons in Hnd as [Hx _], Hnd' as [Hx' _].
  enough (∀ a, seg h a l x → seg h a l' x → l = l') as Heq by eauto. clear Hs Hs'. revert l' Hx'.
  induction l as [|y l IH]; intros [|y' l'] Hx' a; simpl.
  - done.
  - intros [Hn _] (Hn' & _). rewrite Hn in Hn'. set_solver.
  - intros (Hn & _) [Hn' _]. rewrite Hn in Hn'. set_solver.
  - intros (Hn & _ & Hs) (Hn' & _ & Hs'). rewrite Hn in Hn'. injection Hn' as <-. f_equal. eapply IH; [set_solver..|done|done].
Qed.

Lemma ring_at h head l x : ring h head l → x ∈ head :: l → ∃ k, ring h x k ∧ x :: k ≡ₚ head :: l.
Proof.
  intros Hr [->|(l1 & l2 & ->)%list_elem_of_split]%elem_of_cons; [by exists l|].
  exists (l2 ++ head :: l1). split; [by apply ring_rotate|]. solve_Permutation.
Qed.
Lemma ring_disjoint h x l y l' w : ring h x l → ring h y l' → x ∉ y :: l' → w ∈ x :: l → w ∉ y :: l'.
Proof.
  intros Hx Hy Hn Hw Hw'. destruct (ring_at h x l w Hx Hw) as (k & Hk & Ek). destruct (ring_at h y l' w Hy Hw') as (k' & Hk' & Ek').
  apply Hn. rewrite <- Ek', (ring_unique _ _ _ _ Hk' Hk), Ek. set_solver.
Qed.

Lemma ring_frame h h' head l :
  (∀ x, x ∈ head :: l → h' !! x = h !! x) → ring h head l → ring h' head l.
Proof.
  intros Heq [Hnd Hs]. split; [done|].
  eapply seg_frame; [| |done]; intros x Hx; unfold next_node, previous_node;
    rewrite Heq; set_solver.
Qed.
End ring.

(** ** What the operations do to the links *)
Section links.
Context {K : Type} `{Countable K}.
Implicit Types (h : gmap K (ListNode K)) (a b x y p n this elm head : K) (l : list K).

(** [links h h' nx pv]: [h'] has the nodes of [h], with next links [nx] and
    previous links [pv]. *)
Definition links h h' (nx pv : K → option K) : Prop :=
  ∀ y, next_node h' y = nx y ∧ previous_node h' y = pv y ∧
       (is_Some (h' !! y) ↔ is_Some (h !! y)).

Lemma set_prev_links h x v :
  is_Some (h !! x) →
  ∃ h', set_prev x v h = Some h' ∧
    links h h' (next_node h) (λ y, if decide (y = x) then Some v else previous_node h y) ∧
    ∀ y, y ≠ x → h' !! y = h !! y.
Proof.
  intros [n Hn]. unfold set_prev. rewrite Hn. simpl. eexists; split; [done|].
  unfold links, next_node, previous_node. split; [|intros y Hy; by simplify_map_eq].
  intros y. destruct (decide (y = x)) as [->|]; simplify_map_eq; naive_solver.
Qed.

Lemma set_next_links h x v :
  is_Some (h !! x) →
  ∃ h', set_next x v h = Some h' ∧
    links h h' (λ y, if decide (y = x) then Some v else next_node h y) (previous_node h) ∧
    ∀ y, y ≠ x → h' !! y = h !! y.
Proof.
  intros [n Hn]. unfold set_next. rewrite Hn. simpl. eexists; split; [done|].
  unfold links, next_node, previous_node. split; [|intros y Hy; by simplify_map_eq].
  intros y. destruct (decide (y = x)) as [->|]; simplify_map_eq; naive_solver.
Qed.

Lemma previous_node_alloc h x p : previous_node h x = Some p → is_Some (h !! x).
Proof. unfold previous_node. intros (?&?&_)%fmap_Some. eauto. Qed.
Lemma next_node_alloc h x p : next_node h x = Some p → is_Some (h !! x).
Proof. unfold next_node. intros (?&?&_)%fmap_Some. eauto. Qed.

(** Run one link assignment: the goal's next [set_prev]/[set_next]. *)
Ltac link_step :=
  match goal with
  | |- context [set_prev ?x ?v ?h] =>
      let h' := fresh "h" in let E := fresh "E" in let L := fresh "L" in let F := fresh "F" in
      destruct (set_prev_links h x v) as (h' & E & L & F);
      [|rewrite E; simpl]
  | |- context [set_next ?x ?v ?h] =>
      let h' := fresh "h" in let E := fresh "E" in let L := fresh "L" in let F := fresh "F" in
      destruct (set_next_links h x v) as (h' & E & L & F);
      [|rewrite E; simpl]
  end.
(** Read links through the stores built so far. *)
Ltac link_read :=
  repeat match goal with
  | L : links ?h ?h' ?nx ?pv |- context [next_node ?h' ?y] =>
      rewrite (proj1 (L y)); simpl
  | L : links ?h ?h' ?nx ?pv |- context [previous_node ?h' ?y] =>
      rewrite (proj1 (proj2 (L y))); simpl
  | L : links ?h ?h' ?nx ?pv |- context [is_Some (?h' !! ?y)] =>
      rewrite (proj2 (proj2 (L y)))
  end.

Lemma add_before_links h this elm p :
  previous_node h this = Some p → is_Some (h !! elm) → is_Some (h !! p) → elm ≠ this → elm ≠ p →
  ∃ h', add_before this elm h = Some h' ∧
    links h h' (λ y, if decide (y = elm) then Some this else if decide (y = p) then Some elm else next_node h y)
               (λ y, if decide (y = this) then Some elm else if decide (y = elm) then Some p else previous_node h y) ∧
    ∀ y, y ≠ elm → y ≠ p → y ≠ this → h' !! y = h !! y.
Proof.
  intros Hp He Hpa Hne Hnp. pose proof (previous_node_alloc _ _ _ Hp) as Hthis.
  unfold add_before. rewrite Hp. simpl.
  link_step; [done|]. link_step; [by link_read|]. link_read.
  rewrite decide_False, Hp by done. simpl.
  link_step; [by link_read|]. destruct (set_prev_links h2 this elm) as (h3 & -> & L2 & F2); [by link_read|].
  eexists; split; [done|]. split.
  - intros y. link_read. split_and!; [|done..].
    destruct (decide (y = elm)) as [->|]; [by rewrite decide_False|done].
  - intros y ???. rewrite F2, F1, F0, F by done. done.
Qed.

Lemma add_after_links h this elm n :
  next_node h this = Some n → is_Some (h !! elm) → is_Some (h !! n) → elm ≠ this → elm ≠ n →
  ∃ h', add_after this elm h = Some h' ∧
    links h h' (λ y, if decide (y = this) then Some elm else if decide (y = elm) then Some n else next_node h y)
               (λ y, if decide (y = elm) then Some this else if decide (y = n) then Some elm else previous_node h y) ∧
    ∀ y, y ≠ elm → y ≠ n → y ≠ this → h' !! y = h !! y.
Proof.
  intros Hn He Hna Hne Hnn. pose proof (next_node_alloc _ _ _ Hn) as Hthis.
  unfold add_after.
  link_step; [done|]. link_read. rewrite Hn. simpl.
  link_step; [by link_read|]. link_read. rewrite decide_False, Hn by done. simpl.
  link_step; [by link_read|]. destruct (set_next_links h2 this elm) as (h3 & -> & L2 & F2); [by link_read|].
  eexists; split; [done|]. split.
  - intros y. link_read. split_and!; [done| |done].
    destruct (decide (y = elm)) as [->|]; [by rewrite decide_False|done].
  - intros y ???. rewrite F2, F1, F0, F by done. done.
Qed.

Lemma unlink_links h x p n :
  previous_node h x = Some p → next_node h x = Some n →
  is_Some (h !! p) → is_Some (h !! n) → (p = x ↔ n = x) →
  ∃ h', unlink x h = Some h' ∧
    links h h' (λ y, if decide (y = x) then Some x else if decide (y = p) then Some n else next_node h y)
               (λ y, if decide (y = x) then Some x else if decide (y = n) then Some p else previous_node h y) ∧
    ∀ y, y ≠ x → y ≠ p → y ≠ n → h' !! y = h !! y.
Proof.
  intros Hp Hn Hpa Hna Hiff. pose proof (next_node_alloc _ _ _ Hn) as Hx.
  unfold unlink. rewrite Hp, Hn. simpl.
  link_step; [done|]. link_read.
  assert ((if decide (x = p) then Some n else next_node h x) = Some n) as ->
    by (destruct (decide (x = p)); [naive_solver|done]).
  rewrite Hp. simpl. link_step; [by link_read|]. link_step; [by link_read|].
  destruct (set_prev_links h2 x x) as (h3 & -> & L2 & F2); [by link_read|].
  eexists; split; [done|]. split.
  - intros y. link_read. done.
  - intros y ???. rewrite F2, F1, F0, F by done. done.
Qed.
End links.

(** ** The operations on rings *)
Section ring_ops.
Context {K : Type} `{Countable K}.
Implicit Types (h : gmap K (ListNode K)) (a b x y p n this elm head : K) (l : list K).

(** The nodes outside [l] are untouched, and no node comes or goes. *)
Definition untouched h h' l : Prop :=
  (∀ y, y ∉ l → h' !! y = h !! y) ∧ ∀ y, is_Some (h' !! y) ↔ is_Some (h !! y).

Lemma untouched_weaken h h' l l' : untouched h h' l → l ⊆ l' → untouched h h' l'.
Proof. intros [Hu ?] ?. split; [|done]. intros y Hy. apply Hu. set_solver. Qed.
Lemma untouched_trans h h' h'' l : untouched h h' l → untouched h' h'' l → untouched h h'' l.
Proof.
  intros [Hu1 Hd1] [Hu2 Hd2]. split.
  - intros y Hy. by rewrite Hu2, Hu1.
  - intros y. by rewrite Hd2, Hd1.
Qed.

Lemma last_elem x l a : x = List.last l a → x ∈ a :: l.
Proof. intros ->. revert a. induction l as [|y l IH]; intros a; simpl; [set_solver|].
  destruct l; [set_solver|]. specialize (IH a). simpl in *. set_solver. Qed.

(** Read a link of the store an operation leaves, and decide its address tests. *)
Ltac link_close L :=
  rewrite ?(proj1 (L _)), ?(proj1 (proj2 (L _)));
  repeat case_decide; subst; first [done | exfalso; set_solver].

(** A segment whose last link is redirected from [b] to [b']. *)
Lemma seg_retarget h h' a l b b' :
  NoDup (a :: l) → seg h a l b →
  (∀ x, x ∈ a :: l → x ≠ List.last l a → next_node h' x = next_node h x) →
  (∀ x, x ∈ l → previous_node h' x = previous_node h x) →
  next_node h' (List.last l a) = Some b' → previous_node h' b' = Some (List.last l a) →
  seg h' a l b'.
Proof.
  revert a. induction l as [|x l IH]; intros a Hnd Hs Hn Hp; [done|].
  replace (List.last (x :: l) a) with (List.last l x) in *.
  2:{ clear. destruct l as [|y l] using rev_ind; [done|].
      by rewrite (app_comm_cons l [y] x), !last_last. }
  destruct Hs as (Hs1 & Hs2 & Hs3). intros Hl Hl'. simpl.
  pose proof (last_elem _ l x eq_refl).
  rewrite Hn, Hp by (try set_solver; apply NoDup_cons in Hnd; set_solver).
  split_and!; [done..|]. apply IH; try done.
  - by apply NoDup_cons in Hnd as [_ ?].
  - set_solver.
  - set_solver.
Qed.

Lemma ring_add_before h this elm l :
  ring h this l → is_Some (h !! elm) → elm ∉ this :: l →
  ∃ h', add_before this elm h = Some h' ∧ ring h' this (l ++ [elm]) ∧ untouched h h' (elm :: this :: l).
Proof.
  intros Hr He Hni. destruct (Hr) as [Hnd Hs]. pose proof (seg_prev _ _ _ _ Hs) as Hp.
  set (p := List.last l this) in *. pose proof (last_elem p l this eq_refl) as Hpin.
  destruct (add_before_links h this elm p) as (h' & -> & L & F);
    [done|done|by eapply ring_alloc|set_solver..|].
  eexists; split; [done|]. apply NoDup_cons in Hnd as Hnd'. split; [split|].
  - rewrite app_comm_cons, (Permutation_app_comm (this :: l)). simpl. by constructor.
  - apply seg_app. split.
    + eapply seg_retarget; [done..| | | |]; fold p; [intros y ??|intros y ?|..]; link_close L.
    + split; link_close L.
  - split; [intros y Hy; apply F; set_solver|apply L].
Qed.

Lemma ring_add_after h this elm l :
  ring h this l → is_Some (h !! elm) → elm ∉ this :: l →
  ∃ h', add_after this elm h = Some h' ∧ ring h' this (elm :: l) ∧ untouched h h' (elm :: this :: l).
Proof.
  intros Hr He Hni. destruct (Hr) as [Hnd Hs]. pose proof (seg_next _ _ _ _ Hs) as Hn.
  set (n := hd this l) in *. assert (n ∈ this :: l) as Hnin by (subst n; destruct l; set_solver).
  destruct (add_after_links h this elm n) as (h' & -> & L & F);
    [done|done|by eapply ring_alloc|set_solver..|].
  eexists; split; [done|]. apply NoDup_cons in Hnd as Hnd'. split; [split|].
  - rewrite !NoDup_cons. set_solver.
  - split_and!; [link_close L..|]. destruct l as [|x l]; subst n; simpl in *.
    { split; link_close L. }
    split_and!; [link_close L..|].
    destruct Hs as (_ & _ & Hs). destruct Hnd' as [? [? ?]%NoDup_cons].
    eapply seg_frame; [| |done]; intros y Hy; link_close L.
  - split; [intros y Hy; apply F; set_solver|apply L].
Qed.

Lemma ring_unlink h head l1 x l2 :
  ring h head (l1 ++ x :: l2) →
  ∃ h', unlink x h = Some h' ∧ ring h' head (l1 ++ l2) ∧ ring h' x [] ∧
    untouched h h' (head :: l1 ++ x :: l2).
Proof.
  intros Hr. destruct (Hr) as [Hnd Hs]. apply seg_app in Hs as [Hs1 Hs2].
  pose proof (seg_prev _ _ _ _ Hs1) as Hp. pose proof (seg_next _ _ _ _ Hs2) as Hn.
  set (p := List.last l1 head) in *. set (n := hd head l2) in *.
  pose proof (last_elem p l1 head eq_refl) as Hpin.
  assert (n ∈ head :: l2) as Hnin by (subst n; destruct l2; set_solver).
  rewrite app_comm_cons in Hnd. apply NoDup_app in Hnd as (Hnd1 & Hd & Hnd2).
  apply NoDup_cons in Hnd2 as [Hx2 Hnd2]. apply NoDup_cons in Hnd1 as Hnd1'.
  assert (x ∉ head :: l1) as Hx1 by set_solver.
  destruct (unlink_links h x p n) as (h' & -> & L & F);
    [done|done|eapply ring_alloc; [done|set_solver]..|set_solver|].
  eexists; split; [done|]. split_and!.
  - split.
    { rewrite app_comm_cons. apply NoDup_app. set_solver. }
    assert (seg h' head l1 n) as Hs1'.
    { eapply seg_retarget; [done..| | | |]; fold p; [intros y ??|intros y ?|..];
        [link_close L| |link_close L..].
      destruct l2; subst n; simpl in *; link_close L. }
    destruct l2 as [|y l2]; subst n; simpl in *; [by rewrite app_nil_r|].
    apply seg_app. split; [done|]. destruct Hs2 as (_ & _ & Hs2). apply NoDup_cons in Hnd2 as [??].
    eapply seg_frame; [| |done]; intros z Hz; link_close L.
  - split; [by repeat constructor; set_solver|]. split; link_close L.
  - split; [intros y Hy; apply F; set_solver|apply L].
Qed.

(** Unlinking a node that is in no list leaves it in no list. *)
Lemma ring_unlink_single h x :
  ring h x [] → ∃ h', unlink x h = Some h' ∧ ring h' x [] ∧ untouched h h' [x].
Proof.
  intros Hr. destruct (Hr) as [_ [Hn Hp]].
  destruct (unlink_links h x x x) as (h' & -> & L & F); [done..| | | |];
    [eapply next_node_alloc; done..|done|].
  eexists; split; [done|]. split; [split|].
  - repeat constructor; set_solver.
  - split; link_close L.
  - split; [intros y Hy; apply F; set_solver|apply L].
Qed.
End ring_ops.

(** ** Operations at any position, and iteration *)
Section ring_theorems.
Context {K : Type} `{Countable K}.
Implicit Types (h : gmap K (ListNode K)) (a b x y p n this elm head : K) (l : list K).

Lemma ring_add_after_mid h head l1 x elm l2 :
  ring h head (l1 ++ x :: l2) → is_Some (h !! elm) → elm ∉ head :: l1 ++ x :: l2 →
  ∃ h', add_after x elm h = Some h' ∧ ring h' head (l1 ++ x :: elm :: l2) ∧
    untouched h h' (elm :: head :: l1 ++ x :: l2).
Proof.
  intros Hr He Hni. apply ring_rotate in Hr.
  destruct (ring_add_after h x elm (l2 ++ head :: l1)) as (h' & -> & Hr' & U); [done..|set_solver|].
  eexists; split; [done|]. split.
  - apply ring_rotate. by rewrite <- app_comm_cons.
  - eapply untouched_weaken; [done|set_solver].
Qed.

Lemma ring_add_after_last h head l elm :
  ring h head l → is_Some (h !! elm) → elm ∉ head :: l →
  ∃ h', add_after (List.last l head) elm h = Some h' ∧ ring h' head (l ++ [elm]) ∧
    untouched h h' (elm :: head :: l).
Proof.
  intros Hr He Hni. destruct l as [|x l _] using rev_ind; [by apply ring_add_after|].
  rewrite last_last, <- app_assoc. simpl.
  destruct (ring_add_after_mid h head l x elm []) as (h' & Hh & Hr' & U); [done..|].
  exists h'. done.
Qed.

(** The link out of any position of a ring. *)
Lemma ring_next_at h head l1 l2 :
  ring h head (l1 ++ l2) → next_node h (List.last l1 head) = Some (hd head l2).
Proof.
  intros [Hnd Hs]. destruct l1 as [|x l1 _] using rev_ind; [by apply seg_next|].
  rewrite last_last. rewrite <- app_assoc in Hs. apply seg_app in Hs as [_ Hs]. by apply seg_next in Hs.
Qed.

(** C20: [ListNode::add_after], [add_before] and [unlink] refine insertion and
    removal in a list.  On a ring whose elements are [l1 ++ l2], [add_after]
    at the node that ends [l1] (the head when [l1] is empty) puts a free node
    between [l1] and [l2]; [add_before] at the head appends it; [unlink] of
    any element removes it and leaves it self-linked; and none of them writes
    to a node outside the ring and the new node. *)
Theorem list_ops_refine h head l1 l2 elm :
  ring h head (l1 ++ l2) → is_Some (h !! elm) → elm ∉ head :: l1 ++ l2 →
  (∃ h', add_after (List.last l1 head) elm h = Some h' ∧ ring h' head (l1 ++ elm :: l2) ∧
     untouched h h' (elm :: head :: l1 ++ l2)) ∧
  (∃ h', add_before head elm h = Some h' ∧ ring h' head ((l1 ++ l2) ++ [elm]) ∧
     untouched h h' (elm :: head :: l1 ++ l2)) ∧
  (∀ x l3, l2 = x :: l3 → ∃ h', unlink x h = Some h' ∧ ring h' head (l1 ++ l3) ∧ ring h' x [] ∧
     untouched h h' (head :: l1 ++ l2)).
Proof.
  intros Hr He Hni. split_and!.
  - destruct l1 as [|x l1 _] using rev_ind; [by apply ring_add_after|].
    rewrite last_last. rewrite <- !app_assoc in *. simpl in *.
    by apply ring_add_after_mid.
  - by apply ring_add_before.
  - intros x l3 ->. by apply ring_unlink.
Qed.

Lemma iter_next_seg fuel h head a l :
  (length l < fuel)%nat → head ∉ l → seg h a l head →
  ∀ c, next_node h a = Some c → iter_next fuel h head c = Some l.
Proof.
  revert fuel a. induction l as [|x l IH]; intros fuel a Hf Hni Hs c Hc;
    (destruct fuel as [|fuel]; [simpl in *; lia|]); simpl in *.
  - destruct Hs as [Hs _]. rewrite Hs in Hc. injection Hc as <-. by rewrite decide_True.
  - destruct Hs as (Hn & _ & Hs). rewrite Hn in Hc. injection Hc as <-.
    rewrite decide_False by set_solver. rewrite (seg_next _ _ _ _ Hs). simpl.
    erewrite (IH fuel x); [done|lia|set_solver|done|by apply seg_next].
Qed.

Lemma iterate_ring h head l : ring h head l → iterate h head = Some l.
Proof.
  intros Hr. pose proof (ring_length _ _ _ Hr). destruct (Hr) as [Hnd Hs].
  apply NoDup_cons in Hnd as [? ?].
  unfold iterate. rewrite (seg_next _ _ _ _ Hs). simpl.
  apply (iter_next_seg (S (size h)) h head head); [lia|done..|by apply seg_next].
Qed.

Lemma iter_prev_seg fuel h head a l b :
  (length l < fuel)%nat → head = a → head ∉ l → seg h a l b →
  ∀ c, previous_node h b = Some c → iter_prev fuel h head c = Some (rev l).
Proof.
  intros Hf ->. revert fuel b Hf. induction l as [|x l IH] using rev_ind; intros fuel b Hf Hni Hs c Hc;
    (destruct fuel as [|fuel]; [lia|]); simpl.
  - destruct Hs as [_ Hs]. rewrite Hs in Hc. injection Hc as <-. by rewrite decide_True.
  - apply seg_app in Hs as [Hs1 [Hs2 Hs3]]. rewrite Hs3 in Hc. injection Hc as <-.
    rewrite decide_False by set_solver. rewrite (seg_prev _ _ _ _ Hs1). simpl.
    rewrite length_app in Hf. simpl in Hf.
    erewrite (IH fuel x); [by rewrite rev_unit|lia|set_solver|done|by apply seg_prev].
Qed.

Lemma reversed_ring h head l : ring h head l → reversed h head = Some (rev l).
Proof.
  intros Hr. pose proof (ring_length _ _ _ Hr). destruct (Hr) as [Hnd Hs].
  apply NoDup_cons in Hnd as [? ?].
  unfold reversed. rewrite (seg_prev _ _ _ _ Hs). simpl.
  apply (iter_prev_seg (S (size h)) h head head l head); [lia|done..|by apply seg_prev].
Qed.

(** Past the head, a circular walk that started at [s] stops at [s]. *)
Lemma circ_iter_wrap fuel h head s a l :
  (length l ≤ fuel)%nat → head ∉ l → s ∉ l → head ≠ s → seg h a l s →
  circ_iter fuel h head s (match l with [] => None | x :: _ => Some x end) = Some l.
Proof.
  revert fuel a. induction l as [|x l IH]; intros fuel a Hf Hh Hs' Hne Hs; [by destruct fuel|].
  destruct fuel as [|fuel]; [simpl in *; lia|]. destruct Hs as (_ & _ & Hs). simpl in *.
  unfold circ_next. rewrite (seg_next _ _ _ _ Hs). simpl.
  destruct l as [|y l]; simpl.
  - rewrite decide_False by done. simpl. rewrite decide_True by naive_solver. simpl. by destruct fuel.
  - rewrite decide_False by set_solver. simpl. rewrite decide_False by set_solver. simpl.
    erewrite (IH fuel x); [done|lia|set_solver..|done].
Qed.

Lemma circ_iter_seg fuel h head s x l2 l1 :
  (S (length l2 + length l1) ≤ fuel)%nat → head ∉ x :: l2 → head ∉ l1 → head ≠ s →
  s ∉ l2 → s ∉ l1 → seg h x l2 head → seg h head l1 s →
  circ_iter fuel h head s (Some x) = Some (x :: l2 ++ l1).
Proof.
  revert fuel x. induction l2 as [|y l2 IH]; intros fuel x Hf Hx H1 Hne Hs2 Hs1 Hseg2 Hseg1;
    (destruct fuel as [|fuel]; [simpl in *; lia|]); pose proof (seg_next _ _ _ _ Hseg2) as Hn2;
    simpl in *; unfold circ_next; rewrite Hn2; simpl.
  - rewrite decide_True by done. rewrite (seg_next _ _ _ _ Hseg1). simpl.
    destruct l1 as [|z l1]; simpl.
    + rewrite decide_True by naive_solver. simpl. by destruct fuel.
    + rewrite decide_False by set_solver. simpl.
      pose proof (circ_iter_wrap fuel h head s head (z :: l1)) as ->; [done|simpl in *; lia|done..].
  - rewrite decide_False by set_solver. simpl. rewrite decide_False by set_solver. simpl.
    rewrite (IH fuel y); [done|lia|set_solver|done..|set_solver|done|apply Hseg2|done].
Qed.

#[local] Arguments circ_iter : simpl never.

(** Iteration over a ring visits its elements exactly once each: forward
    iteration in order, [reversed()] in the opposite order, and
    [circular_from(s)] from [s] to the end and then from the start to just
    before [s]; a start of [nullptr] or the head means the first element.
    None of them runs out of the fuel [S (size h)]. *)
Theorem iteration_complete h head l :
  ring h head l →
  iterate h head = Some l ∧ reversed h head = Some (rev l) ∧
  circular_from h head None = Some l ∧ circular_from h head (Some head) = Some l ∧
  ∀ l1 s l2, l = l1 ++ s :: l2 → circular_from h head (Some s) = Some (s :: l2 ++ l1).
Proof.
  intros Hr. pose proof (ring_length _ _ _ Hr) as Hlen.
  assert (∀ l1 s l2, l = l1 ++ s :: l2 →
    circ_iter (S (size h)) h head s (Some s) = Some (s :: l2 ++ l1)) as Hgo.
  { intros l1 s l2 ->. destruct Hr as [Hnd [Hs1 Hs2]%seg_app].
    rewrite length_app in Hlen. simpl in Hlen.
    apply NoDup_cons in Hnd as [Hh Hnd]. apply NoDup_app in Hnd as (? & Hd & [? ?]%NoDup_cons).
    apply circ_iter_seg; [lia|set_solver..|done|done]. }
  destruct (Hr) as [Hnd Hs]. apply NoDup_cons in Hnd as [Hh Hnd].
  split_and!; [by apply iterate_ring|by apply reversed_ring|..].
  - unfold circular_from, circ_begin. rewrite (seg_next _ _ _ _ Hs). simpl.
    destruct l as [|x l]; simpl.
    + rewrite decide_True by done. destruct Hs as [-> _]. simpl. by rewrite decide_True.
    + rewrite decide_False by set_solver. simpl. rewrite decide_False by set_solver.
      simpl. rewrite (Hgo [] x l); [by rewrite app_nil_r|done].
  - unfold circular_from, circ_begin. simpl. rewrite decide_True by done.
    rewrite (seg_next _ _ _ _ Hs). simpl. destruct l as [|x l]; simpl.
    + by rewrite decide_True.
    + rewrite decide_False by set_solver.
      simpl. rewrite (Hgo [] x l); [by rewrite app_nil_r|done].
  - intros l1 s l2 ->. unfold circular_from, circ_begin. simpl.
    rewrite !decide_False by set_solver. simpl. rewrite decide_False by set_solver. simpl. by apply Hgo.
Qed.
End ring_theorems.

(** ** A concrete list *)

(** The list [1, 2] of head [0], and the unlinked node [9]. *)
Definition ex_links : gmap Z (ListNode Z) :=
  list_to_map [(0, MkNode 2 1); (1, MkNode 0 2); (2, MkNode 1 0); (9, MkNode 9 9)].

Lemma ex_ring : ring ex_links 0 [1; 2].
Proof. split; [apply (bool_decide_unpack _); by vm_compute|by vm_compute]. Qed.

Lemma list_ops_refine_witness : ∃ h', add_after 1 9 ex_links = Some h' ∧ ring h' 0 [1; 9; 2].
Proof.
  destruct (list_ops_refine ex_links 0 [1] [2] 9 ex_ring) as [(h' & Hh & Hr & _) _].
  - vm_compute. eauto.
  - apply (bool_decide_unpack _); by vm_compute.
  - exists h'. split; [exact Hh|exact Hr].
Defined.

Lemma iteration_complete_witness : circular_from ex_links 0 (Some 2) = Some [2; 1].
Proof.
  destruct (iteration_complete ex_links 0 [1; 2] ex_ring) as (_ & _ & _ & _ & H).
  exact (H [1] 2 [] eq_refl).
Defined.
