(* ===== verification/Pmm.v ===== *)
(** * The physical page allocator

    [kernel/mm/pmm_firstfit.cpp] ([PageAllocator]), the page descriptors of
    [kernel/mm/pmm.h], and [kmalloc]/[kfree] of [kernel/mm/pmm.cpp].

    A [Page*] is the index of its descriptor in the descriptor array; the
    [list_node] of descriptor [i] is the node [PageNode i] of the link store,
    and the allocator's free list is the ring of head [FreeList].  The section
    [Spec] gives the abstract allocator, a list of free runs; the theorems say
    that the pointer code refines it and that it is a correct allocator. *)

From S2P Require Import Prelude LibList.

(** ** Page descriptors *)

(** The [ListNode] objects of the memory manager. *)
Inductive node : Set := FreeList | PageNode (i : Z) | SwapList (mm : Z).

#[export] Instance node_eq_dec : EqDecision node.
Proof. solve_decision. Defined.
#[export] Instance node_countable : Countable node.
Proof.
  refine (inj_countable'
    (λ n, match n with FreeList => inl () | PageNode i => inr (inl i) | SwapList i => inr (inr i) end)
    (λ x, match x with inl _ => FreeList | inr (inl i) => PageNode i | inr (inr i) => SwapList i end) _).
  by intros [].
Defined.

#[export] Instance PageNode_inj : Inj (=) (=) PageNode.
Proof. by intros ?? [=]. Qed.

(** [struct Page] *)
Record Page : Set := MkPage { ref_count : Z; flags : Z; block_page_count : Z }.

(** [enum class PageFlag] *)
Definition PF_Reserved : Z := 0.
Definition PF_Property : Z := 1.
Definition PF_PageTable : Z := 2.

Definition Page0 : Page := MkPage 0 0 0.
Definition set_ref (r : Z) (p : Page) : Page := MkPage r (flags p) (block_page_count p).
Definition set_flags (f : Z) (p : Page) : Page := MkPage (ref_count p) f (block_page_count p).
Definition set_block (k : Z) (p : Page) : Page := MkPage (ref_count p) (flags p) k.
Definition set_reserved (p : Page) : Page := set_flags (Z.lor (flags p) (Z.shiftl 1 PF_Reserved)) p.
Definition set_page_table (p : Page) : Page := set_flags (Z.lor (flags p) (Z.shiftl 1 PF_PageTable)) p.
Definition clear_reserved (p : Page) : Page :=
  set_flags (Z.land (flags p) (Z.lnot (Z.shiftl 1 PF_Reserved))) p.
Definition is_page_table (p : Page) : bool := negb (Z.land (flags p) (Z.shiftl 1 PF_PageTable) =? 0).
Definition is_reserved (p : Page) : bool := negb (Z.land (flags p) (Z.shiftl 1 PF_Reserved) =? 0).

(** The descriptor array, the link store and [FreeArea::free_page_count]. *)
Record pmm : Set := MkPmm {
  page_desc : gmap Z Page;
  nodes : gmap node (ListNode node);
  free_page_count : Z }.

Definition get_page (i : Z) : M pmm Page := s <- get;; deref (page_desc s !! i).
Definition put_page (i : Z) (p : Page) : M pmm unit :=
  modify (λ s, MkPmm (<[i := p]> (page_desc s)) (nodes s) (free_page_count s)).
Definition upd_page (i : Z) (f : Page → Page) : M pmm unit :=
  p <- get_page i;; put_page i (f p).
Definition on_nodes (f : gmap node (ListNode node) → option (gmap node (ListNode node))) : M pmm unit :=
  s <- get;; h <- deref (f (nodes s));; put (MkPmm (page_desc s) h (free_page_count s)).
Definition next_of (x : node) : M pmm node := s <- get;; deref (next_node (nodes s) x).
Definition set_count (f : Z → Z) : M pmm unit :=
  modify (λ s, MkPmm (page_desc s) (nodes s) (f (free_page_count s))).
(** [node->container<Page>()] *)
Definition container (x : node) : M pmm Z :=
  match x with PageNode i => ret i | _ => halt WildPointer end.

(** ** [PageAllocator] *)

Definition init_memmap (base page_count : Z) : M pmm unit :=
  forM (seqZ base page_count) (λ p,
    get_page p;; put_page p Page0;;
    on_nodes (λ h, Some (init_node (PageNode p) h)));;
  upd_page base (set_block (u32 page_count));;
  upd_page base set_reserved;;
  set_count (λ c, u32 (c + page_count));;
  on_nodes (add_before FreeList (PageNode base)).

(** The [while] of [alloc]: the first run of at least [page_count] pages. *)
Fixpoint find_fit (fuel : nat) (page_count : Z) (valid_node : node) : M pmm (option Z) :=
  match fuel with
  | O => halt OutOfFuel
  | S fuel =>
      nx <- next_of valid_node;;
      if decide (nx = FreeList) then ret None
      else
        p <- container nx;; pg <- get_page p;;
        if page_count <=? block_page_count pg then ret (Some p)
        else find_fit fuel page_count nx
  end.

Definition alloc (page_count : Z) : M pmm (option Z) :=
  s <- get;;
  if free_page_count s <? page_count then ret None
  else
    found <- find_fit (S (size (nodes s))) page_count FreeList;;
    match found with
    | None => ret None
    | Some page =>
        pg <- get_page page;;
        whenM (page_count <? block_page_count pg)
          (let remaining := page + page_count in
           upd_page remaining (set_block (u32 (block_page_count pg - page_count)));;
           upd_page remaining set_reserved;;
           on_nodes (add_after (PageNode page) (PageNode remaining)));;
        on_nodes (unlink (PageNode page));;
        set_count (λ c, u32 (c - page_count));;
        upd_page page clear_reserved;;
        ret (Some page)
    end.

(** The [while] of [free]: merge the run at [base] with its neighbours; the
    result is the merged run's base and the last node kept. *)
Fixpoint merge_loop (fuel : nat) (base : Z) (prev le : node) : M pmm (Z * node) :=
  match fuel with
  | O => halt OutOfFuel
  | S fuel =>
      if decide (le = FreeList) then ret (base, prev)
      else
        next <- next_of le;;
        p <- container le;;
        bg <- get_page base;; pg <- get_page p;;
        if base + block_page_count bg =? p then
          upd_page base (set_block (u32 (block_page_count bg + block_page_count pg)));;
          upd_page p clear_reserved;;
          on_nodes (unlink le);;
          merge_loop fuel base prev next
        else if p + block_page_count pg =? base then
          upd_page p (set_block (u32 (block_page_count pg + block_page_count bg)));;
          upd_page base clear_reserved;;
          on_nodes (unlink le);;
          merge_loop fuel p prev next
        else merge_loop fuel base le next
  end.

Definition free (base page_count : Z) : M pmm unit :=
  forM (seqZ base page_count) (λ p,
    pg <- get_page p;; assert_ (ref_count pg =? 0);;
    put_page p (set_flags 0 (set_ref 0 pg)));;
  upd_page base (set_block (u32 page_count));;
  upd_page base set_reserved;;
  s <- get;;
  le <- next_of FreeList;;
  r <- merge_loop (S (size (nodes s))) base FreeList le;;
  set_count (λ c, u32 (c + page_count));;
  on_nodes (add_after (snd r) (PageNode (fst r))).

(** ** [kmalloc] and [kfree]; the null pointer is address [0] *)
Section kmalloc.
(** [KERNEL_BASE], the start of the direct map. *)
Context (KERNEL_BASE : Z).

Definition PG_SHIFT : Z := 12.
Definition PG_SIZE : Z := 4096.

Definition page_to_phys (page : Z) : Z := u64 (Z.shiftl page PG_SHIFT).
Definition page_to_kva (page : Z) : Z := u64 (KERNEL_BASE + page_to_phys page).
Definition phys_to_page (pa : Z) : Z := Z.shiftr pa PG_SHIFT.
Definition kva_to_page (kva : Z) : Z := phys_to_page (u64 (kva - KERNEL_BASE)).

Definition kmalloc (byte_count : Z) : M pmm Z :=
  if byte_count =? 0 then ret 0
  else
    let page_count := u64 (byte_count + PG_SIZE - 1) / PG_SIZE in
    page <- alloc page_count;;
    match page with
    | None => ret 0
    | Some page =>
        upd_page page (set_block (u32 page_count));;
        ret (page_to_kva page)
    end.

Definition kfree (ptr : Z) : M pmm unit :=
  if ptr =? 0 then ret tt
  else
    let page := kva_to_page ptr in
    pg <- get_page page;;
    free page (if 0 <? block_page_count pg then block_page_count pg else 1).
End kmalloc.

(** ** The abstract allocator: a list of free runs *)
Section Spec.
Implicit Types (rs : list (Z * Z)) (n base len : Z).

(** The free pages of a list of runs [(first page, length)]. *)
Definition free_pages rs : list Z := concat ((λ r, seqZ r.1 r.2) <$> rs).

(** First fit: the first long enough run; what is left of it stays in place. *)
Fixpoint spec_alloc n rs : option (Z * list (Z * Z)) :=
  match rs with
  | [] => None
  | (p, k) :: rs =>
      if n <=? k then Some (p, if n <? k then (p + n, k - n) :: rs else rs)
      else '(q, rs') ← spec_alloc n rs; Some (q, (p, k) :: rs')
  end.

(** Coalescing: the run that absorbs its neighbours, and the runs kept. *)
Fixpoint spec_merge base len rs : Z * Z * list (Z * Z) :=
  match rs with
  | [] => (base, len, [])
  | (p, k) :: rs =>
      if base + len =? p then spec_merge base (len + k) rs
      else if p + k =? base then spec_merge p (k + len) rs
      else let '(r, kept) := spec_merge base len rs in (r, (p, k) :: kept)
  end.
Definition spec_free base len rs : list (Z * Z) :=
  let '(r, kept) := spec_merge base len rs in kept ++ [r].

(** No run ends where another begins. *)
Definition coalesced rs : Prop :=
  ∀ p k q m, (p, k) ∈ rs → (q, m) ∈ rs → p + k ≠ q.

Definition runs_pos rs : Prop := ∀ p k, (p, k) ∈ rs → 0 < k.

Lemma free_pages_cons p k rs : free_pages ((p, k) :: rs) = seqZ p k ++ free_pages rs.
Proof. done. Qed.
Lemma free_pages_app rs1 rs2 : free_pages (rs1 ++ rs2) = free_pages rs1 ++ free_pages rs2.
Proof. unfold free_pages. by rewrite fmap_app, concat_app. Qed.

Lemma elem_of_free_pages i rs :
  i ∈ free_pages rs ↔ ∃ p k, (p, k) ∈ rs ∧ p ≤ i < p + k.
Proof.
  induction rs as [|[p k] rs IH]; [set_solver|].
  rewrite free_pages_cons, elem_of_app, elem_of_seqZ, IH. setoid_rewrite elem_of_cons.
  split.
  - intros [?|(q & m & ? & ?)]; [exists p, k|exists q, m]; naive_solver.
  - intros (q & m & [[= -> ->]|?] & ?); [by left|right; eauto].
Qed.

Lemma seqZ_split p n k : 0 ≤ n ≤ k → seqZ p k = seqZ p n ++ seqZ (p + n) (k - n).
Proof. intros ?. replace k with (n + (k - n)) at 1 by lia. apply seqZ_app; lia. Qed.

Lemma spec_alloc_pages n rs p rs' :
  0 < n → spec_alloc n rs = Some (p, rs') → free_pages rs ≡ₚ seqZ p n ++ free_pages rs'.
Proof.
  intros Hn. revert p rs'. induction rs as [|[q k] rs IH]; intros p rs'; [done|]. simpl.
  destruct (Z.leb_spec n k).
  - intros [= <- <-]. rewrite free_pages_cons, (seqZ_split q n k), <- app_assoc by lia.
    destruct (Z.ltb_spec n k); [by rewrite free_pages_cons|].
    replace (k - n) with 0 by lia. by rewrite (seqZ_nil _ 0) by lia.
  - destruct (spec_alloc n rs) as [[r rs1]|]; [|done]. intros [= <- <-].
    rewrite !free_pages_cons, (IH r rs1) by done. by rewrite Permutation_app_swap_app.
Qed.

Lemma spec_alloc_pos n rs p rs' :
  0 < n → runs_pos rs → spec_alloc n rs = Some (p, rs') → runs_pos rs'.
Proof.
  intros Hn. revert p rs'. induction rs as [|[q k] rs IH]; intros p rs' Hpos; [done|]. simpl.
  assert (runs_pos rs) as Hpos' by (intros a b ?; apply (Hpos a); set_solver).
  pose proof (Hpos q k ltac:(set_solver)).
  destruct (Z.leb_spec n k).
  - intros [= <- <-]. destruct (Z.ltb_spec n k); [|done].
    intros a b [[= -> ->]|?]%elem_of_cons; [lia|by eapply Hpos'].
  - destruct (spec_alloc n rs) as [[r rs1]|]; [|done]. intros [= <- <-].
    intros a b [[= -> ->]|?]%elem_of_cons; [done|by eapply IH].
Qed.

Lemma spec_alloc_None n rs : spec_alloc n rs = None ↔ ∀ p k, (p, k) ∈ rs → k < n.
Proof.
  induction rs as [|[q k] rs IH]; [set_solver|]. simpl. destruct (Z.leb_spec n k).
  - split; [done|]. intros Hall. exfalso. enough (k < n) by lia. apply (Hall q). set_solver.
  - destruct (spec_alloc n rs) as [[r rs1]|]; simpl.
    + split; [done|]. intros Hall. enough (Some (r, rs1) = None) by done. apply IH. intros p m ?. apply (Hall p). set_solver.
    + split; [|done]. intros _ p m [[= -> ->]|?]%elem_of_cons; [done|]. by eapply (proj1 IH).
Qed.

(** Allocation keeps the runs of the rest of the list, or splits one. *)
Lemma spec_alloc_coalesced n rs p rs' :
  0 < n → runs_pos rs → NoDup (free_pages rs) → coalesced rs →
  spec_alloc n rs = Some (p, rs') → coalesced rs'.
Proof.
  intros Hn Hpos Hnd Hco Ha.
  assert (∀ q k, (q, k) ∈ rs' → ∃ q0, (q0, k + (q - q0)) ∈ rs ∧ q0 ≤ q ∧ (q0 = q ∨ q0 = p ∧ q = p + n)) as Hsub.
  { clear Hco Hnd. revert p rs' Ha. induction rs as [|[q k] rs IH]; intros p rs'; [done|]. simpl.
    assert (runs_pos rs) as Hpos' by (intros a b ?; apply (Hpos a); set_solver).
    destruct (Z.leb_spec n k).
    - intros [= <- <-]. destruct (Z.ltb_spec n k).
      + intros a b [[= -> ->]|?]%elem_of_cons.
        * exists q. replace (k - n + (q + n - q)) with k by lia. split_and!; [set_solver|lia|auto].
        * exists a. rewrite Z.sub_diag, Z.add_0_r. split_and!; [set_solver|lia|auto].
      + intros a b ?. exists a. rewrite Z.sub_diag, Z.add_0_r. split_and!; [set_solver|lia|auto].
    - destruct (spec_alloc n rs) as [[r rs1]|] eqn:E; [|done]. intros [= <- <-].
      intros a b [[= -> ->]|?]%elem_of_cons.
      + exists q. rewrite Z.sub_diag, Z.add_0_r. split_and!; [set_solver|lia|auto].
      + destruct (IH Hpos' r rs1 eq_refl a b) as (q0 & ? & ?); [done|]. exists q0. set_solver. }
  pose proof (spec_alloc_pages _ _ _ _ Hn Ha) as Hperm.
  assert (∀ i, p ≤ i < p + n → i ∉ free_pages rs') as Hout.
  { intros i Hi Hin. rewrite Hperm in Hnd. apply NoDup_app in Hnd as (_ & Hd & _).
    apply (Hd i); [by apply elem_of_seqZ|done]. }
  intros a k b m Ha1 Hb1 Heq.
  destruct (Hsub a k Ha1) as (a0 & Ha0 & ? & Hca), (Hsub b m Hb1) as (b0 & Hb0 & ? & Hcb).
  destruct Hcb as [->|[-> ->]]; [apply (Hco _ _ _ _ Ha0 Hb0); lia|].
  assert (a + k = p + n) by lia.
  pose proof (spec_alloc_pos _ _ _ _ Hn Hpos Ha a k Ha1).
  apply (Hout (a + k - 1)); [lia|]. apply elem_of_free_pages. exists a, k. split; [done|lia].
Qed.

Lemma spec_merge_pages base len rs b l kept :
  0 < len → runs_pos rs → spec_merge base len rs = (b, l, kept) →
  0 < l ∧ seqZ b l ++ free_pages kept ≡ₚ seqZ base len ++ free_pages rs.
Proof.
  revert base len kept. induction rs as [|[p k] rs IH]; intros base len kept Hl Hpos; simpl.
  { by intros [= <- <- <-]. }
  assert (runs_pos rs) as Hpos' by (intros a c ?; apply (Hpos a); set_solver).
  pose proof (Hpos p k ltac:(set_solver)) as Hk. rewrite free_pages_cons, (app_assoc (seqZ base len)).
  destruct (Z.eqb_spec (base + len) p) as [<-|Hr].
  - intros Hm. rewrite <- seqZ_app by lia. apply IH in Hm; [done|lia|done].
  - destruct (Z.eqb_spec (p + k) base) as [<-|Hl'].
    + intros Hm. rewrite (Permutation_app_comm (seqZ _ len)), <- seqZ_app by lia.
      apply IH in Hm; [done|lia|done].
    + destruct (spec_merge base len rs) as [[b' l'] kept'] eqn:Hm. intros [= <- <- <-].
      apply IH in Hm as [? Hm]; [|done..]. split; [done|].
      by rewrite free_pages_cons, <- (Permutation_app_swap_app (seqZ p k)), Hm, Permutation_app_swap_app, app_assoc.
Qed.

Lemma spec_merge_kept base len rs b l kept :
  spec_merge base len rs = (b, l, kept) → kept ⊆ rs.
Proof.
  revert base len kept. induction rs as [|[p k] rs IH]; intros base len kept; simpl.
  { by intros [= <- <- <-]. }
  repeat case_match; intros; simplify_eq; [apply IH in H0; set_solver|apply IH in H1; set_solver|].
  apply IH in H1. set_solver.
Qed.

(** The ends of the merged run are those of the freed run or of a merged one. *)
Lemma spec_merge_ends base len rs b l kept :
  spec_merge base len rs = (b, l, kept) →
  (b + l = base + len ∨ ∃ q m, (q, m) ∈ rs ∧ b + l = q + m) ∧
  (b = base ∨ ∃ q m, (q, m) ∈ rs ∧ b = q).
Proof.
  revert base len kept. induction rs as [|[p k] rs IH]; intros base len kept; simpl.
  { intros [= <- <- <-]. auto. }
  assert (∀ q m, (q, m) ∈ rs → (q, m) ∈ (p, k) :: rs) as Hw by set_solver.
  assert ((p, k) ∈ (p, k) :: rs) by set_solver.
  destruct (Z.eqb_spec (base + len) p) as [<-|_]; [|destruct (Z.eqb_spec (p + k) base) as [<-|_]].
  - intros [[He|(q&m&?&?)] [->|(q'&m'&?&?)]]%IH; split; try (right; by eauto); try (left; lia);
      try (left; done); right; exists (base + len), k; split; (done || lia).
  - intros [[He|(q&m&?&?)] [->|(q'&m'&?&?)]]%IH; split; try (right; by eauto); try (left; lia);
      right; exists p, k; split; (done || lia).
  - destruct (spec_merge base len rs) as [[b' l'] kept'] eqn:Hm. intros [= <- <- <-].
    apply IH in Hm as [[He|(q&m&?&?)] [->|(q'&m'&?&?)]]; split; auto; right; eauto.
Qed.

Lemma spec_merge_apart base len rs b l kept :
  coalesced rs → spec_merge base len rs = (b, l, kept) →
  ∀ q m, (q, m) ∈ kept → b + l ≠ q ∧ q + m ≠ b.
Proof.
  revert base len kept. induction rs as [|[p k] rs IH]; intros base len kept Hco; simpl.
  { intros [= <- <- <-]. set_solver. }
  assert (coalesced rs) as Hco' by (intros a c d e ??; apply (Hco a c d e); set_solver).
  destruct (Z.eqb_spec (base + len) p) as [<-|Hr]; [by apply IH|].
  destruct (Z.eqb_spec (p + k) base) as [<-|Hl]; [by apply IH|].
  destruct (spec_merge base len rs) as [[b' l'] kept'] eqn:Hm. intros [= <- <- <-].
  pose proof (spec_merge_ends _ _ _ _ _ _ Hm) as [He Hs].
  pose proof (IH _ _ _ Hco' Hm) as Hap.
  assert (∀ q m, (q, m) ∈ rs → q + m ≠ p ∧ p + k ≠ q) as Hpk.
  { intros q m ?. split; [apply (Hco q m p k)|apply (Hco p k q m)]; set_solver. }
  intros q m [[= -> ->]|?]%elem_of_cons; [|by apply Hap]. split.
  - destruct He as [->|(q&m&Hq&->)]; [done|]. by apply Hpk in Hq as [? _].
  - destruct Hs as [->|(q&m&Hq&->)]; [done|]. by apply Hpk in Hq as [_ ?].
Qed.

Lemma spec_free_correct base len rs :
  0 < len → runs_pos rs →
  runs_pos (spec_free base len rs) ∧
  free_pages (spec_free base len rs) ≡ₚ seqZ base len ++ free_pages rs ∧
  (coalesced rs → coalesced (spec_free base len rs)).
Proof.
  intros Hl Hpos. unfold spec_free.
  destruct (spec_merge base len rs) as [[b l] kept] eqn:Hm.
  pose proof (spec_merge_kept _ _ _ _ _ _ Hm) as Hk.
  pose proof (spec_merge_pages _ _ _ _ _ _ Hl Hpos Hm) as [Hl' Hp].
  split_and!.
  - intros p k [?|[= -> ->]%list_elem_of_singleton]%elem_of_app; [|done]. apply (Hpos p). set_solver.
  - rewrite free_pages_app, Permutation_app_comm. unfold free_pages at 1. simpl. by rewrite app_nil_r.
  - intros Hco p k q m Hpk Hqm. pose proof (spec_merge_apart _ _ _ _ _ _ Hco Hm) as Hap.
    apply elem_of_app in Hpk as [Hpk|[= -> ->]%list_elem_of_singleton],
      Hqm as [Hqm|[= -> ->]%list_elem_of_singleton].
    + apply (Hco p k q m); set_solver.
    + by apply (Hap p k).
    + by apply (Hap q m).
    + lia.
Qed.
End Spec.
