(* ===== verification/PmmProofs.v ===== *)
(** * Correctness of the page allocator

    The pointer code of [Pmm] refines the list-of-runs allocator of its
    section [Spec] (refinement relation [pmm_rep]); the list-of-runs allocator
    hands out free pages only, loses none, and keeps the free memory coalesced;
    [kmalloc]/[kfree] are inverse to each other as to the set of free pages. *)

From S2P Require Import Prelude LibList Pmm.

(** ** The refinement relation *)

(** The free list of [s] is the list of runs [rs]. *)
Record pmm_rep (s : pmm) (rs : list (Z * Z)) : Prop := {
  rep_ring : ring (nodes s) FreeList ((λ r, PageNode r.1) <$> rs);
  rep_nodes : ∀ i, is_Some (page_desc s !! i) → is_Some (nodes s !! PageNode i);
  rep_pos : runs_pos rs;
  rep_block : ∀ p k, (p, k) ∈ rs → block_page_count <$> page_desc s !! p = Some k;
  rep_free : ∀ i, i ∈ free_pages rs → ref_count <$> page_desc s !! i = Some 0;
  rep_nodup : NoDup (free_pages rs);
  rep_count : free_page_count s = Z.of_nat (length (free_pages rs));
  rep_size : Z.of_nat (size (page_desc s)) < 2 ^ 32 }.

(** What an allocator operation leaves alone: descriptors of pages outside
    [ps], and link nodes other than the free list's and those of [ps]. *)
Definition pmm_frame (s s' : pmm) (ps : list Z) : Prop :=
  (∀ i, i ∉ ps → page_desc s' !! i = page_desc s !! i) ∧
  (∀ i, is_Some (page_desc s' !! i) ↔ is_Some (page_desc s !! i)) ∧
  (∀ x, x ≠ FreeList → (∀ i, i ∈ ps → x ≠ PageNode i) → nodes s' !! x = nodes s !! x).

Lemma pmm_frame_mono s s' ps qs : pmm_frame s s' ps → (∀ i, i ∈ ps → i ∈ qs) → pmm_frame s s' qs.
Proof. intros (H1 & H2 & H3) Hsub. split_and!; [by eauto|done|]. intros x Hx Hn. apply H3; [done|]. by eauto. Qed.
Lemma pmm_frame_trans s s1 s2 s3 ps : pmm_frame s s1 ps → pmm_frame s1 s2 ps → pmm_frame s2 s3 ps → pmm_frame s s3 ps.
Proof.
  intros (H1 & H2 & H3) (I1 & I2 & I3) (J1 & J2 & J3). split_and!.
  - intros i Hi. by rewrite J1, I1, H1.
  - intros i. by rewrite J2, I2, H2.
  - intros x Hx Hn. by rewrite J3, I3, H3.
Qed.
Lemma pmm_frame_upd s i p p' : page_desc s !! i = Some p → pmm_frame s (MkPmm (<[i := p']> (page_desc s)) (nodes s) (free_page_count s)) [i].
Proof.
  intros Hp. split_and!; cbn; [|intros j; rewrite lookup_insert_is_Some'; split; [intros [<-|?]; [by eexists|done]|by right]|done].
  intros j Hj. rewrite lookup_insert_ne; [done|]. intros <-. apply Hj. by left.
Qed.

Lemma get_page_Ret s i p : page_desc s !! i = Some p → get_page i s = Ret p s.
Proof. intros H. unfold get_page, get, bind, deref. simpl. by rewrite H. Qed.

Lemma upd_page_Ret s i f p :
  page_desc s !! i = Some p →
  upd_page i f s = Ret tt (MkPmm (<[i := f p]> (page_desc s)) (nodes s) (free_page_count s)).
Proof. intros H. unfold upd_page. by rewrite (bind_Ret _ _ _ p s) by by apply get_page_Ret. Qed.

Lemma on_nodes_Ret s f h :
  f (nodes s) = Some h → on_nodes f s = Ret tt (MkPmm (page_desc s) h (free_page_count s)).
Proof. intros H. unfold on_nodes, get, bind, deref. simpl. by rewrite H. Qed.

Lemma next_of_Ret s x y : next_node (nodes s) x = Some y → next_of x s = Ret y s.
Proof. intros H. unfold next_of, get, bind, deref. simpl. by rewrite H. Qed.

Lemma set_count_Ret s f :
  set_count f s = Ret tt (MkPmm (page_desc s) (nodes s) (f (free_page_count s))).
Proof. done. Qed.

(** Pages with a descriptor are no more than the descriptors. *)
Lemma pages_bound (m : gmap Z Page) (l : list Z) :
  NoDup l → (∀ i, i ∈ l → is_Some (m !! i)) → (length l ≤ size m)%nat.
Proof.
  intros Hnd Hin. rewrite <- (size_dom m), <- (size_list_to_set (C := gset Z) l) by done.
  apply subseteq_size. intros i Hi%elem_of_list_to_set. by apply elem_of_dom, Hin.
Qed.

Section rep.
Context (s : pmm) (rs : list (Z * Z)) (R : pmm_rep s rs).

Lemma rep_page i : i ∈ free_pages rs → ∃ p, page_desc s !! i = Some p ∧ ref_count p = 0.
Proof. intros Hi. apply (rep_free _ _ R), fmap_Some in Hi as (p & ? & ?). eauto. Qed.

Lemma rep_run p k : (p, k) ∈ rs → ∃ pg, page_desc s !! p = Some pg ∧ block_page_count pg = k.
Proof. intros Hi. apply (rep_block _ _ R), fmap_Some in Hi as (pg & ? & ?). eauto. Qed.

Lemma rep_length : Z.of_nat (length (free_pages rs)) < 2 ^ 32.
Proof.
  pose proof (rep_size _ _ R). enough (length (free_pages rs) ≤ size (page_desc s))%nat by lia.
  apply pages_bound; [apply R|]. intros i (? & ? & _)%rep_page. eauto.
Qed.

Lemma run_length p k : (p, k) ∈ rs → k ≤ Z.of_nat (length (free_pages rs)).
Proof.
  intros Hi. apply list_elem_of_split in Hi as (rs1 & rs2 & ->).
  rewrite free_pages_app, free_pages_cons, !length_app, length_seqZ. lia.
Qed.

Lemma run_page p k : (p, k) ∈ rs → p ∈ free_pages rs.
Proof.
  intros Hi. apply elem_of_free_pages. exists p, k. pose proof (rep_pos _ _ R p k Hi). split; [done|lia].
Qed.
End rep.

(** A page of one run is a page of no other run. *)
Lemma run_unique rs1 p k rs2 i :
  NoDup (free_pages (rs1 ++ (p, k) :: rs2)) → p ≤ i < p + k → i ∉ free_pages (rs1 ++ rs2).
Proof.
  rewrite !free_pages_app, free_pages_cons. intros Hnd Hi.
  rewrite (Permutation_app_swap_app (free_pages rs1)) in Hnd.
  apply NoDup_app in Hnd as (_ & Hd & _). apply Hd. by apply elem_of_seqZ.
Qed.

(** ** [alloc] *)

Lemma find_fit_spec s rs n :
  pmm_rep s rs →
  ∀ rest dn fuel, rs = dn ++ rest → (length rest < fuel)%nat →
  find_fit fuel n (List.last ((λ r, PageNode r.1) <$> dn) FreeList) s =
    Ret (fst <$> spec_alloc n rest) s.
Proof.
  intros R. induction rest as [|[p k] rest IH]; intros dn fuel -> Hf;
    (destruct fuel as [|fuel]; [simpl in *; lia|]); cbn [find_fit spec_alloc].
  all: pose proof (rep_ring _ _ R) as Hr; rewrite fmap_app in Hr; apply ring_next_at in Hr;
    rewrite (bind_Ret _ _ _ _ _ (next_of_Ret _ _ _ Hr)); simpl.
  - done.
  - destruct (rep_run _ _ R p k) as (pg & Hpg & <-); [set_solver|].
    rewrite bind_ret, (bind_Ret _ _ _ _ _ (get_page_Ret _ _ _ Hpg)).
    destruct (Z.leb_spec n (block_page_count pg)); [done|].
    replace (PageNode p) with (List.last ((λ r, PageNode r.1) <$> dn ++ [(p, block_page_count pg)]) FreeList)
      by (rewrite fmap_app; apply last_last).
    rewrite (IH (dn ++ [(p, block_page_count pg)])); [|by rewrite <- app_assoc|simpl in *; lia].
    by destruct (spec_alloc n rest) as [[? ?]|].
Qed.

Lemma spec_alloc_inv n rs p rs' :
  spec_alloc n rs = Some (p, rs') →
  ∃ rs1 k rs2, rs = rs1 ++ (p, k) :: rs2 ∧ n ≤ k ∧
    rs' = rs1 ++ (if n <? k then [(p + n, k - n)] else []) ++ rs2.
Proof.
  revert p rs'. induction rs as [|[q k] rs IH]; intros p rs'; [done|]. simpl.
  destruct (Z.leb_spec n k).
  - intros [= <- <-]. exists [], k, rs. split_and!; [done..|]. by destruct (n <? k).
  - destruct (spec_alloc n rs) as [[r rs1]|]; [|done]. intros [= <- <-].
    destruct (IH r rs1 eq_refl) as (rs2 & k' & rs3 & -> & ? & ->).
    by exists ((q, k) :: rs2), k', rs3.
Qed.

(** The free list after the run [(p, k)] gave its first [n] pages. *)
Lemma take_run_nodes s rs1 p k rs2 n :
  pmm_rep s (rs1 ++ (p, k) :: rs2) → 0 < n ≤ k →
  ∃ h h', (if n <? k then add_after (PageNode p) (PageNode (p + n)) (nodes s) else Some (nodes s)) = Some h ∧
    unlink (PageNode p) h = Some h' ∧
    ring h' FreeList ((λ r, PageNode r.1) <$> rs1 ++ (if n <? k then [(p + n, k - n)] else []) ++ rs2) ∧
    (∀ x, x ≠ FreeList → (∀ i, i ∈ free_pages (rs1 ++ (p, k) :: rs2) → x ≠ PageNode i) → h' !! x = nodes s !! x) ∧
    (∀ x, is_Some (h' !! x) ↔ is_Some (nodes s !! x)) ∧ ring h' (PageNode p) [].
Proof.
  intros R Hn. pose proof (rep_ring _ _ R) as Hr.
  set (f := λ r : Z * Z, PageNode r.1) in *. set (rs := rs1 ++ (p, k) :: rs2) in *.
  assert (∀ i, i ∈ free_pages rs → is_Some (nodes s !! PageNode i)) as Hal.
  { intros i Hi. apply (rep_nodes _ _ R). destruct (rep_page _ _ R i Hi) as (? & ? & _). eauto. }
  assert (∀ x, x ∈ f <$> rs → ∃ i, i ∈ free_pages rs ∧ x = PageNode i) as Hfr.
  { intros x ([q m] & -> & Hq)%list_elem_of_fmap. exists q. split; [by eapply run_page|done]. }
  assert (p + n ∈ free_pages rs ∨ n = k) as Hpn.
  { destruct (decide (n = k)); [by right|left]. apply elem_of_free_pages. exists p, k.
    split; [subst rs; set_solver|lia]. }
  destruct (Z.ltb_spec n k) as [Hlt|Hge].
  - destruct Hpn as [Hpn|]; [|lia]. unfold rs in Hr. rewrite fmap_app in Hr. simpl in Hr.
    destruct (ring_add_after_mid (nodes s) FreeList (f <$> rs1) (PageNode p) (PageNode (p + n)) (f <$> rs2))
      as (h & Hh & Hr1 & U1); [done|by apply Hal|..].
    { assert (p + n ∉ free_pages (rs1 ++ rs2)) as Hni.
      { apply (run_unique rs1 p k); [apply (rep_nodup _ _ R)|lia]. }
      rewrite elem_of_cons, elem_of_app, elem_of_cons.
      assert (∀ q m, (q, m) ∈ rs1 ++ rs2 → q ≠ p + n) as Hq.
      { intros q m Hin ->. apply Hni. apply elem_of_free_pages. exists (p + n), m.
        split; [done|]. pose proof (rep_pos _ _ R (p + n) m). enough (0 < m) by lia. apply H. set_solver. }
      intros [?|[([q m]&[= Heq]&Hin)%list_elem_of_fmap|[[= Heq]|([q m]&[= Heq]&Hin)%list_elem_of_fmap]]];
        [done|..|lia|]; apply (Hq q m); set_solver. }
    destruct (ring_unlink h FreeList (f <$> rs1) (PageNode p) (PageNode (p + n) :: (f <$> rs2)))
      as (h' & Hh' & Hr2 & Hp & U2); [done|]. exists h, h'. split_and!; [done..| | | |done].
    + by rewrite fmap_app.
    + intros x Hx1 Hx2.
      assert (x ∉ PageNode (p + n) :: FreeList :: (f <$> rs)) as Hx.
      { intros [->|[->|(i & ? & ->)%Hfr]%elem_of_cons]%elem_of_cons; naive_solver. }
      unfold rs in Hx. rewrite fmap_app in Hx. simpl in Hx.
      rewrite (proj1 U2), (proj1 U1); [done|clear -Hx; set_solver..].
    + intros x. etrans; [apply U2|apply U1].
  - unfold rs in Hr. rewrite fmap_app in Hr. simpl in Hr.
    destruct (ring_unlink (nodes s) FreeList (f <$> rs1) (PageNode p) (f <$> rs2))
      as (h' & Hh' & Hr2 & Hp & U2); [done|]. exists (nodes s), h'. split_and!; [done..| | | |done].
    + by rewrite fmap_app.
    + intros x Hx1 Hx2. apply U2.
      assert (x ∉ FreeList :: (f <$> rs)) as Hx by (intros [->|(i & ? & ->)%Hfr]%elem_of_cons; naive_solver).
      unfold rs in Hx. rewrite fmap_app in Hx. simpl in Hx. done.
    + apply U2.
Qed.

(** The page descriptors and the count after the same step. *)
Definition take_run_pages (s : pmm) (p k n : Z) (pg rg : Page) : gmap Z Page :=
  if n <? k then <[p := clear_reserved pg]> (<[p + n := set_reserved (set_block (u32 (k - n)) rg)]> (page_desc s))
  else <[p := clear_reserved pg]> (page_desc s).

Lemma alloc_run s rs n p rs' :
  pmm_rep s rs → 0 < n → spec_alloc n rs = Some (p, rs') →
  ∃ k pg rg h', (p, k) ∈ rs ∧ n ≤ k ∧ page_desc s !! p = Some pg ∧
    (n < k → page_desc s !! (p + n) = Some rg) ∧
    ring h' FreeList ((λ r, PageNode r.1) <$> rs') ∧
    (∀ x, x ≠ FreeList → (∀ i, i ∈ free_pages rs → x ≠ PageNode i) → h' !! x = nodes s !! x) ∧
    (∀ x, is_Some (h' !! x) ↔ is_Some (nodes s !! x)) ∧ ring h' (PageNode p) [] ∧
    alloc n s = Ret (Some p) (MkPmm (take_run_pages s p k n pg rg) h' (u32 (free_page_count s - n))).
Proof.
  intros R Hn Ha. destruct (spec_alloc_inv _ _ _ _ Ha) as (rs1 & k & rs2 & -> & Hk & ->).
  destruct (rep_run _ _ R p k) as (pg & Hpg & Hb); [set_solver|].
  destruct (take_run_nodes _ _ _ _ _ n R) as (h & h' & Hh & Hh' & Hr & HF & HD & Hiso); [lia|].
  pose proof (run_length _ _ R p k ltac:(set_solver)) as Hkl. pose proof (rep_length _ _ R) as Hlen.
  assert (∃ rg, n < k → page_desc s !! (p + n) = Some rg) as [rg Hrg].
  { destruct (decide (n < k)); [|by exists pg]. destruct (rep_page _ _ R (p + n)) as (rg & ? & _).
    - apply elem_of_free_pages. exists p, k. split; [set_solver|lia].
    - by exists rg. }
  exists k, pg, rg, h'. split_and!; [set_solver|done..|].
  unfold alloc. unfold get at 1. rewrite (bind_Ret _ _ _ s s) by done.
  rewrite (rep_count _ _ R). destruct (Z.ltb_spec (Z.of_nat (length (free_pages (rs1 ++ (p, k) :: rs2)))) n); [lia|].
  rewrite (bind_Ret _ _ _ (Some p) s).
  2:{ pose proof (find_fit_spec s _ n R _ [] (S (size (nodes s))) eq_refl) as Hf.
      rewrite Ha in Hf. apply Hf. pose proof (ring_length _ _ _ (rep_ring _ _ R)) as Hl.
      rewrite length_fmap in Hl. lia. }
  rewrite (bind_Ret _ _ _ pg s) by by apply get_page_Ret.
  rewrite Hb. unfold take_run_pages.
  destruct (Z.ltb_spec n k) as [Hlt|Hge]; cbn [whenM].
  - specialize (Hrg Hlt). rewrite !bind_assoc, (bind_Ret _ _ _ _ _ (upd_page_Ret _ _ _ _ Hrg)).
    rewrite !bind_assoc. erewrite bind_Ret by (apply upd_page_Ret; simpl; apply lookup_insert_eq).
    erewrite bind_Ret by (apply on_nodes_Ret; exact Hh). simpl.
    erewrite bind_Ret by (apply on_nodes_Ret; exact Hh'). simpl.
    rewrite (bind_Ret _ _ _ _ _ (set_count_Ret _ _)). simpl.
    erewrite bind_Ret by (apply upd_page_Ret; simpl; rewrite insert_insert_eq, lookup_insert_ne by lia; done).
    simpl. rewrite insert_insert_eq. by rewrite (rep_count _ _ R).
  - simpl in Hh. injection Hh as <-. rewrite bind_ret.
    erewrite bind_Ret by (apply on_nodes_Ret; exact Hh'). simpl.
    rewrite (bind_Ret _ _ _ _ _ (set_count_Ret _ _)). simpl.
    erewrite bind_Ret by (apply upd_page_Ret; done).
    simpl. by rewrite (rep_count _ _ R).
Qed.

Lemma take_run_pages_lookup s p k n pg rg i :
  0 < n → page_desc s !! p = Some pg → (n < k → page_desc s !! (p + n) = Some rg) →
  take_run_pages s p k n pg rg !! i =
    if decide (i = p) then Some (clear_reserved pg)
    else if decide (n < k ∧ i = p + n) then Some (set_reserved (set_block (u32 (k - n)) rg))
    else page_desc s !! i.
Proof.
  intros Hn Hp Hr. unfold take_run_pages.
  destruct (Z.ltb_spec n k); rewrite ?lookup_insert; repeat case_decide; naive_solver lia.
Qed.

Lemma size_insert_Some (m : gmap Z Page) i x : is_Some (m !! i) → size (<[i := x]> m) = size m.
Proof. apply map_size_insert_Some. Qed.

(** First fit, as the caller of [alloc] sees it. *)
Lemma alloc_spec s rs n :
  pmm_rep s rs → 0 < n →
  match spec_alloc n rs with
  | Some (p, rs') =>
      ∃ s', alloc n s = Ret (Some p) s' ∧ pmm_rep s' rs' ∧
        free_pages rs ≡ₚ seqZ p n ++ free_pages rs' ∧
        pmm_frame s s' (free_pages rs) ∧ ring (nodes s') (PageNode p) [] ∧
        ∀ i, ref_count <$> page_desc s' !! i = ref_count <$> page_desc s !! i
  | None => alloc n s = Ret None s
  end.
Proof.
  intros R Hn. destruct (spec_alloc n rs) as [[p rs']|] eqn:Ha.
  - destruct (alloc_run _ _ _ _ _ R Hn Ha) as (k & pg & rg & h' & Hin & Hk & Hp & Hr & Hring & HF & HD & Hiso & Hal).
    pose proof (spec_alloc_pages _ _ _ _ Hn Ha) as Hperm.
    pose proof (rep_nodup _ _ R) as Hnd. pose proof (rep_length _ _ R) as Hlen.
    assert (length (free_pages rs) = Z.to_nat n + length (free_pages rs'))%nat as Hcnt.
    { rewrite (Permutation_length Hperm), length_app, length_seqZ. done. }
    pose proof (take_run_pages_lookup s p k n pg rg) as HL.
    set (pd := take_run_pages s p k n pg rg) in *.
    assert (∀ i, ref_count <$> pd !! i = ref_count <$> page_desc s !! i) as Href.
    { intros i. rewrite HL by done. destruct (decide (i = p)) as [->|]; [by rewrite Hp|].
      destruct (decide (n < k ∧ i = p + n)) as [[Hlt ->]|]; [by rewrite (Hr Hlt)|done]. }
    assert (∀ i, is_Some (pd !! i) ↔ is_Some (page_desc s !! i)) as Hdom.
    { intros i. rewrite <- !(fmap_is_Some ref_count). by rewrite Href. }
    eexists; split; [exact Hal|]. split_and!; [constructor; simpl| |split_and!; simpl|done|]; try done.
    + intros i Hi%Hdom. apply HD. by apply (rep_nodes _ _ R).
    + eapply spec_alloc_pos; [done| |done]. apply R.
    + destruct (spec_alloc_inv _ _ _ _ Ha) as (rs1 & k' & rs2 & Hrs & Hk' & Hrs').
      assert (k' = k) as ->.
      { pose proof (rep_block _ _ R p k Hin) as E1. pose proof (rep_block _ _ R p k') as E2.
        rewrite E1 in E2. by specialize (E2 ltac:(rewrite Hrs; set_solver)) as [= ->]. }
      assert (∀ q m, (q, m) ∈ rs1 ++ rs2 → q < p ∨ p + k ≤ q) as Hout.
      { intros q m Hq. destruct (decide (q < p ∨ p + k ≤ q)); [done|]. exfalso.
        apply (run_unique rs1 p k rs2 q); [by rewrite <- Hrs|lia|].
        apply elem_of_free_pages. exists q, m. split; [done|].
        assert (0 < m) by (apply (rep_pos _ _ R q); rewrite Hrs; set_solver). lia. }
      intros q m Hq. rewrite HL by done.
      assert ((q, m) ∈ rs1 ++ rs2 ∨ n < k ∧ q = p + n ∧ m = k - n) as [Hq'|(Hlt & -> & ->)].
      { rewrite Hrs' in Hq. destruct (Z.ltb_spec n k); set_solver by lia. }
      * pose proof (Hout q m Hq'). rewrite !decide_False by lia.
        apply (rep_block _ _ R). rewrite Hrs. set_solver.
      * rewrite decide_False by lia. rewrite decide_True by done. simpl. f_equal.
        pose proof (run_length _ _ R p k Hin). rewrite u32_small; lia.
    + intros i Hi. rewrite Href. apply (rep_free _ _ R). rewrite Hperm. set_solver.
    + rewrite Hperm in Hnd. by apply NoDup_app in Hnd as (_ & _ & ?).
    + rewrite (rep_count _ _ R). rewrite u32_small; lia.
    + assert (size pd = size (page_desc s)) as ->; [|apply R].
      unfold pd, take_run_pages. destruct (Z.ltb_spec n k); rewrite ?size_insert_Some; try done;
        rewrite ?lookup_insert_ne by lia; eauto.
    + intros i Hi. rewrite HL by done. destruct (decide (i = p)) as [->|];
        [|destruct (decide (n < k ∧ i = p + n)) as [[Hlt ->]|]; [|done]]; exfalso; apply Hi.
      * by eapply run_page.
      * apply elem_of_free_pages. exists p, k. split; [done|lia].
  - unfold alloc. unfold get at 1. rewrite (bind_Ret _ _ _ s s) by done.
    case_match; [done|]. rewrite (bind_Ret _ _ _ None s); [done|].
    pose proof (find_fit_spec s rs n R rs [] (S (size (nodes s))) eq_refl) as Hf.
    rewrite Ha in Hf. apply Hf. pose proof (ring_length _ _ _ (rep_ring _ _ R)) as Hl.
    rewrite length_fmap in Hl. lia.
Qed.

(** ** [free] *)

(** The state of [free] while it merges: a run [(b, l)] outside the free list
    [rs], whose descriptor records its length. *)
Record merging (s : pmm) (b l : Z) (rs : list (Z * Z)) : Prop := {
  m_ring : ring (nodes s) FreeList ((λ r, PageNode r.1) <$> rs);
  m_nodes : ∀ i, is_Some (page_desc s !! i) → is_Some (nodes s !! PageNode i);
  m_pos : runs_pos rs;
  m_block : ∀ p k, (p, k) ∈ rs → block_page_count <$> page_desc s !! p = Some k;
  m_base : block_page_count <$> page_desc s !! b = Some l;
  m_len : 0 < l;
  m_nodup : NoDup (seqZ b l ++ free_pages rs);
  m_bound : l + Z.of_nat (length (free_pages rs)) < 2 ^ 32 }.

(** [s'] differs from [s] on the flags and lengths of the pages [ps] and on
    the links of their nodes and of the free list's head only. *)
Definition relinked (s s' : pmm) (ps : list Z) : Prop :=
  pmm_frame s s' ps ∧ size (page_desc s') = size (page_desc s) ∧
  free_page_count s' = free_page_count s ∧
  ∀ i, ref_count <$> page_desc s' !! i = ref_count <$> page_desc s !! i.

Lemma relinked_refl s ps : relinked s s ps.
Proof. split_and!; done. Qed.

Lemma relinked_weaken s s' ps ps' : relinked s s' ps → ps ⊆ ps' → relinked s s' ps'.
Proof.
  intros ((P & D & N) & Hr) Hsub. split; [split_and!|done].
  - intros i Hi. apply P. set_solver.
  - done.
  - intros x ? Hx. apply N; [done|]. intros i ?. apply Hx. set_solver.
Qed.

Lemma relinked_trans s s' s'' ps ps' :
  relinked s s' ps → relinked s' s'' ps' → ps' ⊆ ps → relinked s s'' ps.
Proof.
  intros ((P1 & D1 & N1) & S1 & C1 & R1) ((P2 & D2 & N2) & S2 & C2 & R2) Hsub.
  split_and!; [split_and!|..].
  - intros i Hi. rewrite P2, P1; [done|done|]. intros ?%Hsub. done.
  - intros i. by rewrite D2, D1.
  - intros x Hx Hi. rewrite N2, N1; [done..|]. intros i ?%Hsub. auto.
  - by rewrite S2.
  - by rewrite C2.
  - intros i. by rewrite R2.
Qed.

Lemma free_pages_perm_mid rs1 p k rs2 :
  free_pages (rs1 ++ (p, k) :: rs2) ≡ₚ seqZ p k ++ free_pages (rs1 ++ rs2).
Proof. rewrite !free_pages_app, free_pages_cons. apply Permutation_app_swap_app. Qed.

Lemma absorb_perm b l p k b' rs1 rs2 :
  0 < l → 0 < k → (b + l = p ∧ b' = b ∨ p + k = b ∧ b' = p) →
  seqZ b l ++ free_pages (rs1 ++ (p, k) :: rs2) ≡ₚ seqZ b' (l + k) ++ free_pages (rs1 ++ rs2).
Proof.
  intros Hl Hk Hadj. rewrite free_pages_perm_mid, app_assoc. f_equiv. destruct Hadj as [[<- ->]|[<- ->]].
  - by rewrite <- seqZ_app by lia.
  - rewrite Permutation_app_comm, <- seqZ_app by lia. by rewrite Z.add_comm.
Qed.

(** Absorbing a neighbouring run. *)
Lemma merging_absorb s b l rs1 p k rs2 b' :
  merging s b l (rs1 ++ (p, k) :: rs2) →
  (b + l = p ∧ b' = b ∨ p + k = b ∧ b' = p) →
  ∃ h', unlink (PageNode p) (nodes s) = Some h' ∧
    ∀ pd' c, (∀ i, i ≠ b → i ≠ p → pd' !! i = page_desc s !! i) →
      (∀ i, is_Some (pd' !! i) ↔ is_Some (page_desc s !! i)) →
      block_page_count <$> pd' !! b' = Some (l + k) →
      merging (MkPmm pd' h' c) b' (l + k) (rs1 ++ rs2) ∧
      ∀ x, x ≠ FreeList → (∀ i, i ∈ free_pages (rs1 ++ (p, k) :: rs2) → x ≠ PageNode i) → h' !! x = nodes s !! x.
Proof.
  intros R Hadj. pose proof (m_ring _ _ _ _ R) as Hr. rewrite fmap_app, fmap_cons in Hr. cbn [fst] in Hr.
  destruct (ring_unlink _ _ _ _ _ Hr) as (h' & Hh' & Hr' & _ & U). exists h'. split; [done|].
  assert (0 < k) as Hk by (apply (m_pos _ _ _ _ R p); set_solver). pose proof (m_len _ _ _ _ R) as Hl.
  pose proof (m_nodup _ _ _ _ R) as Hnd. pose proof (m_bound _ _ _ _ R) as Hbound.
  pose proof (absorb_perm b l p k b' rs1 rs2 Hl Hk Hadj) as Hperm.
  assert (runs_pos (rs1 ++ rs2)) as Hpos by (intros q m ?; apply (m_pos _ _ _ _ R q); set_solver).
  assert (∀ q m, (q, m) ∈ rs1 ++ rs2 → q ≠ b ∧ q ≠ p) as Hne.
  { intros q m Hq. pose proof (Hpos q m Hq). rewrite Hperm in Hnd.
    apply NoDup_app in Hnd as (_ & Hd & _).
    enough (q ∉ seqZ b' (l + k)) as Hn by (rewrite elem_of_seqZ in Hn; lia).
    intros Hin. apply (Hd _ Hin), elem_of_free_pages. exists q, m. split; [done|lia]. }
  intros pd' c Hpd Hdom Hb. split; [constructor; simpl; try done|].
  - by rewrite fmap_app.
  - intros i Hi%Hdom. apply U. by apply (m_nodes _ _ _ _ R).
  - intros q m Hq. destruct (Hne q m Hq). rewrite Hpd by done. apply (m_block _ _ _ _ R). set_solver.
  - lia.
  - by rewrite <- Hperm.
  - apply Permutation_length in Hperm. rewrite !length_app, !length_seqZ in Hperm. lia.
  - intros x Hx Hi. apply U. intros [->|Hin]%elem_of_cons; [done|].
    assert (x ∈ (λ r, PageNode r.1) <$> rs1 ++ (p, k) :: rs2) as Hin' by by rewrite fmap_app, fmap_cons.
    apply list_elem_of_fmap in Hin' as ([q m] & -> & Hq).
    apply (Hi q); [|done]. apply elem_of_free_pages. exists q, m. split; [done|].
    pose proof (m_pos _ _ _ _ R q m Hq). lia.
Qed.

(** The three assignments that merge two runs. *)
Lemma merge_steps {A} s a ga c gc (fa fc : Page → Page) x h' (K : unit → M pmm A) :
  a ≠ c → page_desc s !! a = Some ga → page_desc s !! c = Some gc → unlink x (nodes s) = Some h' →
  (upd_page a fa;; upd_page c fc;; o <- on_nodes (unlink x);; K o) s =
  K tt (MkPmm (<[c := fc gc]> (<[a := fa ga]> (page_desc s))) h' (free_page_count s)).
Proof.
  intros Hne Ha Hc Hu. rewrite (bind_Ret _ _ _ _ _ (upd_page_Ret _ _ _ _ Ha)).
  erewrite bind_Ret by (apply upd_page_Ret; simpl; rewrite lookup_insert_ne by done; exact Hc).
  erewrite bind_Ret by (apply on_nodes_Ret; exact Hu). done.
Qed.

(** Absorbing a run in the code: [a] is the base of the merged run, [c] the
    descriptor that is cleared. *)
Lemma merge_into s b l p k kept rest a ga c gc :
  merging s b l (kept ++ (p, k) :: rest) → b ≠ p →
  (b + l = p ∧ a = b ∧ c = p ∨ p + k = b ∧ a = p ∧ c = b) →
  page_desc s !! a = Some ga → page_desc s !! c = Some gc →
  ∃ s1, (∀ A (K : unit → M pmm A), (upd_page a (set_block (l + k));; upd_page c clear_reserved;;
          o <- on_nodes (unlink (PageNode p));; K o) s = K tt s1) ∧
    merging s1 a (l + k) (kept ++ rest) ∧
    relinked s s1 (seqZ b l ++ free_pages (kept ++ (p, k) :: rest)).
Proof.
  intros R Hne Hadj Ha Hc.
  destruct (merging_absorb _ _ _ _ _ _ _ a R) as (h' & Hu & Habs); [naive_solver|].
  assert (a ≠ c) as Hac by naive_solver.
  pose proof (m_len _ _ _ _ R) as Hl. pose proof (m_pos _ _ _ _ R p k ltac:(set_solver)) as Hk.
  eexists. split; [intros A K; by erewrite merge_steps|].
  edestruct Habs as [R1 HF]; cycle 3; [split; [exact R1|split_and!; [split_and!|..]]|..]; simpl.
  - intros i Hi. rewrite !lookup_insert_ne; [done|..]; intros <-; apply Hi; apply elem_of_app;
      rewrite elem_of_seqZ, free_pages_perm_mid, elem_of_app, elem_of_seqZ; lia.
  - intros i. rewrite !lookup_insert. repeat case_decide; subst; naive_solver.
  - intros x Hx Hi. apply HF; [done|]. intros i ?. apply Hi, elem_of_app. by right.
  - by rewrite !size_insert_Some by (rewrite ?lookup_insert_ne by done; eauto).
  - done.
  - intros i. rewrite !lookup_insert. repeat case_decide; subst; simplify_option_eq; rewrite ?Ha, ?Hc; done.
  - intros i ??. rewrite !lookup_insert_ne by naive_solver. done.
  - intros i. rewrite !lookup_insert. repeat case_decide; subst; naive_solver.
  - by rewrite lookup_insert_ne, lookup_insert_eq by done.
Qed.

Lemma merge_loop_spec rest : ∀ kept b l s fuel b' l' kept',
  merging s b l (kept ++ rest) → (length rest < fuel)%nat →
  spec_merge b l rest = (b', l', kept') →
  ∃ s', merge_loop fuel b (List.last ((λ r, PageNode r.1) <$> kept) FreeList)
          (hd FreeList ((λ r, PageNode r.1) <$> rest)) s =
        Ret (b', List.last ((λ r, PageNode r.1) <$> kept ++ kept') FreeList) s' ∧
    merging s' b' l' (kept ++ kept') ∧ relinked s s' (seqZ b l ++ free_pages (kept ++ rest)).
Proof.
  induction rest as [|[p k] rest IH]; intros kept b l s fuel b' l' kept' R Hf Hm;
    (destruct fuel as [|fuel]; [simpl in *; lia|]); simpl in Hm.
  { injection Hm as <- <- <-. exists s. rewrite app_nil_r in *. split_and!; done. }
  set (f := λ r : Z * Z, PageNode r.1) in *.
  pose proof (m_ring _ _ _ _ R) as Hr.
  assert (next_node (nodes s) (PageNode p) = Some (hd FreeList (f <$> rest))) as Hnext.
  { replace (PageNode p) with (List.last (f <$> kept ++ [(p, k)]) FreeList) by (rewrite fmap_app; apply last_last).
    apply ring_next_at. by rewrite <- fmap_app, <- app_assoc. }
  pose proof (m_block _ _ _ _ R p k ltac:(set_solver)) as (pg & Hpg & Hkpg)%fmap_Some.
  pose proof (m_base _ _ _ _ R) as (bg & Hbg & Hlbg)%fmap_Some.
  assert (0 < k) as Hk by (apply (m_pos _ _ _ _ R p); set_solver). pose proof (m_len _ _ _ _ R) as Hl.
  pose proof (m_bound _ _ _ _ R) as Hbound. rewrite free_pages_perm_mid, length_app, length_seqZ in Hbound.
  cbn [merge_loop]. change (hd FreeList (f <$> (p, k) :: rest)) with (PageNode p).
  destruct (decide (PageNode p = FreeList)) as [|_]; [done|].
  rewrite (bind_Ret _ _ _ _ _ (next_of_Ret _ _ _ Hnext)). unfold container. rewrite bind_ret.
  rewrite (bind_Ret _ _ _ _ _ (get_page_Ret _ _ _ Hbg)), (bind_Ret _ _ _ _ _ (get_page_Ret _ _ _ Hpg)).
  rewrite <- Hkpg, <- Hlbg, !(u32_small (_ + _)) by lia.
  assert (b ≠ p) as Hbp.
  { intros ->. pose proof (m_nodup _ _ _ _ R) as Hnd. rewrite free_pages_perm_mid in Hnd.
    apply NoDup_app in Hnd as (_ & Hd & _). apply (Hd p); [apply elem_of_seqZ; lia|].
    apply elem_of_app. left. apply elem_of_seqZ. lia. }
  destruct (Z.eqb_spec (b + l) p) as [Hadj|Hr1]; [|destruct (Z.eqb_spec (p + k) b) as [Hadj|Hr2]].
  - edestruct (merge_into s b l p k kept rest b bg p pg) as (s1 & Hrun & R1 & F1); [done|done|naive_solver|done|done|].
    rewrite Hrun. edestruct (IH kept b (l + k) s1 fuel) as (s' & ? & ? & ?); [done|simpl in *; lia|done|].
    exists s'. split_and!; [done..|]. eapply relinked_trans; [done..|].
    intros i. by rewrite (absorb_perm b l p k) by eauto.
  - edestruct (merge_into s b l p k kept rest p pg b bg) as (s1 & Hrun & R1 & F1); [done|done|naive_solver|done|done|].
    rewrite (Z.add_comm k l) in Hm |- *.
    rewrite Hrun. edestruct (IH kept p (l + k) s1 fuel) as (s' & ? & ? & ?); [done|simpl in *; lia|done|].
    exists s'. split_and!; [done..|]. eapply relinked_trans; [done..|].
    intros i. by rewrite (absorb_perm b l p k) by eauto.
  - destruct (spec_merge b l rest) as [[b1 l1] kept1] eqn:Hm'. injection Hm as <- <- <-.
    edestruct (IH (kept ++ [(p, k)]) b l s fuel) as (s' & Hs' & R' & F');
      [by rewrite <- app_assoc|simpl in *; lia|done|].
    exists s'. rewrite fmap_app in Hs'. cbn [fmap list_fmap] in Hs'. rewrite last_last, <- app_assoc in Hs'.
    rewrite <- !app_assoc in R', F'. done.
Qed.

(** The first loop of [free] resets the flags of the freed pages. *)
Lemma free_reset s base n :
  (∀ i, i ∈ seqZ base n → ref_count <$> page_desc s !! i = Some 0) →
  ∃ s', forM (seqZ base n) (λ p,
      pg <- get_page p;; assert_ (ref_count pg =? 0);; put_page p (set_flags 0 (set_ref 0 pg))) s = Ret tt s' ∧
    relinked s s' (seqZ base n) ∧ nodes s' = nodes s ∧
    ∀ i, block_page_count <$> page_desc s' !! i = block_page_count <$> page_desc s !! i.
Proof.
  intros Href.
  apply (forM_inv (λ d s', relinked s s' d ∧ nodes s' = nodes s ∧
    ∀ i, block_page_count <$> page_desc s' !! i = block_page_count <$> page_desc s !! i)).
  { split_and!; [apply relinked_refl|done..]. }
  intros d p rest s1 Hl (((P & D & N) & S & C & R) & Hn & B).
  assert (p ∈ seqZ base n) as Hp by (rewrite Hl; set_solver).
  pose proof (Href p Hp) as H0. rewrite <- R in H0. apply fmap_Some in H0 as (pg & Hpg & Hr).
  rewrite (bind_Ret _ _ _ _ _ (get_page_Ret _ _ _ Hpg)), <- Hr, Z.eqb_refl.
  eexists; split; [done|]. split_and!; [split_and!; [split_and!|..]|..]; simpl; try done.
  - intros i Hi. rewrite lookup_insert_ne by set_solver. apply P. set_solver.
  - intros i. rewrite lookup_insert. case_decide; subst; [|apply D]. rewrite <- D. naive_solver.
  - intros x ? Hx. by rewrite Hn.
  - by rewrite size_insert_Some by eauto.
  - intros i. rewrite <- R, lookup_insert. case_decide; subst; [rewrite Hpg; simpl; by rewrite <- Hr|done].
  - intros i. rewrite <- B, lookup_insert. case_decide; subst; [by rewrite Hpg|done].
Qed.

(** The freed run's base then records the length. *)
Lemma free_mark s base n :
  is_Some (page_desc s !! base) → 0 < n < 2 ^ 32 →
  ∃ s', (∀ A (K : unit → M pmm A),
      (upd_page base (set_block (u32 n));; o <- upd_page base set_reserved;; K o) s = K tt s') ∧
    relinked s s' (seqZ base n) ∧ nodes s' = nodes s ∧
    block_page_count <$> page_desc s' !! base = Some n ∧
    ∀ i, i ≠ base → page_desc s' !! i = page_desc s !! i.
Proof.
  intros [pg Hpg] Hn. eexists. split.
  { intros A K. rewrite (bind_Ret _ _ _ _ _ (upd_page_Ret _ _ _ _ Hpg)).
    erewrite bind_Ret by (apply upd_page_Ret; apply lookup_insert_eq). rewrite u32_small by lia. done. }
  split_and!; [split_and!; [split_and!|..]|..]; simpl; rewrite ?insert_insert_eq; try done.
  - intros i Hi. apply lookup_insert_ne. intros <-. apply Hi, elem_of_seqZ. lia.
  - intros i. rewrite lookup_insert. case_decide; subst; naive_solver.
  - by rewrite size_insert_Some by eauto.
  - intros i. rewrite lookup_insert. case_decide; subst; [by rewrite Hpg|done].
  - by rewrite lookup_insert_eq.
  - intros i Hi. by rewrite lookup_insert_ne.
Qed.

Lemma fresh_run s rs base n :
  pmm_rep s rs → (∀ i, i ∈ seqZ base n → is_Some (page_desc s !! i) ∧ i ∉ free_pages rs) →
  NoDup (seqZ base n ++ free_pages rs) ∧ n + Z.of_nat (length (free_pages rs)) < 2 ^ 32.
Proof.
  intros R Hrun. assert (NoDup (seqZ base n ++ free_pages rs)) as Hnd.
  { apply NoDup_app. split_and!; [apply NoDup_seqZ| |apply R]. intros i Hi. by apply Hrun. }
  split; [done|]. pose proof (pages_bound (page_desc s) _ Hnd) as Hl. rewrite length_app, length_seqZ in Hl.
  pose proof (rep_size _ _ R). enough (Z.to_nat n + length (free_pages rs) ≤ size (page_desc s))%nat by lia.
  apply Hl. intros i [[Hi _]%Hrun|(p & ? & _)%(rep_page _ _ R)]%elem_of_app; eauto.
Qed.

(** The merged run's node can be linked into the free list. *)
Lemma merging_node s b l rs :
  merging s b l rs →
  is_Some (nodes s !! PageNode b) ∧ PageNode b ∉ FreeList :: ((λ r, PageNode r.1) <$> rs).
Proof.
  intros M. split.
  { apply (m_nodes _ _ _ _ M). pose proof (m_base _ _ _ _ M) as (? & ? & _)%fmap_Some. eauto. }
  intros [|([q m] & [= ->] & Hq)%list_elem_of_fmap]%elem_of_cons; [done|]. simpl in *.
  pose proof (m_nodup _ _ _ _ M) as (_ & Hd & _)%NoDup_app. pose proof (m_len _ _ _ _ M).
  apply (Hd q); [apply elem_of_seqZ; lia|]. apply elem_of_free_pages. exists q, m.
  pose proof (m_pos _ _ _ _ M q m Hq). split; [done|lia].
Qed.

(** Linking the merged run gives the free list back. *)
Lemma merging_linked s b l rs c h :
  merging s b l rs → (∀ i, i ∈ seqZ b l ++ free_pages rs → ref_count <$> page_desc s !! i = Some 0) →
  c = l + Z.of_nat (length (free_pages rs)) → Z.of_nat (size (page_desc s)) < 2 ^ 32 →
  ring h FreeList (((λ r, PageNode r.1) <$> rs) ++ [PageNode b]) →
  untouched (nodes s) h (PageNode b :: FreeList :: ((λ r, PageNode r.1) <$> rs)) →
  pmm_rep (MkPmm (page_desc s) h c) (rs ++ [(b, l)]) ∧
  relinked s (MkPmm (page_desc s) h (free_page_count s)) (seqZ b l ++ free_pages rs).
Proof.
  intros M Href -> Hsz Hrh U.
  pose proof (m_len _ _ _ _ M) as Hl. pose proof (m_nodup _ _ _ _ M) as Hnd.
  assert (free_pages (rs ++ [(b, l)]) ≡ₚ seqZ b l ++ free_pages rs) as Hp.
  { rewrite free_pages_app, Permutation_app_comm, free_pages_cons, app_nil_r. done. }
  split; [constructor; simpl; try done|split_and!; [split_and!|..]; simpl; try done].
  - by rewrite fmap_app.
  - intros i Hi. apply U. by apply (m_nodes _ _ _ _ M).
  - intros q m [?|[= -> ->]%list_elem_of_singleton]%elem_of_app; [|done]. by apply (m_pos _ _ _ _ M q).
  - intros q m [?|[= -> ->]%list_elem_of_singleton]%elem_of_app;
      [by apply (m_block _ _ _ _ M)|apply (m_base _ _ _ _ M)].
  - intros i. rewrite Hp. apply Href.
  - by rewrite Hp.
  - rewrite Hp, length_app, length_seqZ. lia.
  - intros x Hx Hi. apply U. intros [->|[->|([q m] & -> & Hq)%list_elem_of_fmap]%elem_of_cons]%elem_of_cons; [|done|].
    + apply (Hi b); [|done]. apply elem_of_app. left. apply elem_of_seqZ. lia.
    + apply (Hi q); [|done]. apply elem_of_app. right. apply elem_of_free_pages. exists q, m.
      pose proof (m_pos _ _ _ _ M q m Hq). split; [done|lia].
Qed.

(** Freeing a run of unreferenced pages is the abstract [spec_free]. *)
Lemma free_spec s rs base n :
  pmm_rep s rs → 0 < n →
  (∀ i, i ∈ seqZ base n → ref_count <$> page_desc s !! i = Some 0 ∧ i ∉ free_pages rs) →
  ∃ s', free base n s = Ret tt s' ∧ pmm_rep s' (spec_free base n rs) ∧
    pmm_frame s s' (seqZ base n ++ free_pages rs) ∧
    ∀ i, ref_count <$> page_desc s' !! i = ref_count <$> page_desc s !! i.
Proof.
  intros R Hn Hrun.
  destruct (free_reset s base n) as (s1 & Hs1 & F1 & Hnodes & Hblk); [naive_solver|].
  assert (base ∈ seqZ base n) as Hbase by (apply elem_of_seqZ; lia).
  assert (∀ i, i ∈ seqZ base n → is_Some (page_desc s !! i)) as Halloc.
  { intros i [(? & ? & _)%fmap_Some _]%Hrun. eauto. }
  destruct (fresh_run s rs base n R) as [Hnd Hbound]; [naive_solver|].
  destruct (free_mark s1 base n) as (s2 & Hs2 & F2 & Hn2 & Hb2 & Hblk2); [|lia|].
  { by apply F1, Halloc. }
  unfold free. rewrite (bind_Ret _ _ _ _ _ Hs1), Hs2.
  pose proof (relinked_trans _ _ _ _ _ F1 F2 ltac:(done)) as F.
  assert (merging s2 base n rs) as M.
  { constructor; rewrite ?Hn2, ?Hnodes; try apply R; try done.
    - intros i Hi. apply (rep_nodes _ _ R), F, Hi.
    - intros p k Hp. rewrite Hblk2, Hblk; [by apply R|].
      intros ->. apply (Hrun base Hbase). by eapply run_page. }
  destruct (spec_merge base n rs) as [[b l] kept] eqn:Hm.
  destruct (merge_loop_spec rs [] base n s2 (S (size (nodes s2))) b l kept) as (s3 & Hs3 & M3 & F3); [done| |done|].
  { pose proof (ring_length _ _ _ (m_ring _ _ _ _ M)) as Hl. rewrite length_fmap in Hl. lia. }
  pose proof (ring_next_at _ _ [] _ (m_ring _ _ _ _ M)) as Hnx.
  unfold get. rewrite (bind_Ret _ _ _ s2 s2) by done.
  rewrite (bind_Ret _ _ _ _ _ (next_of_Ret _ _ _ Hnx)), (bind_Ret _ _ _ _ _ Hs3).
  rewrite (bind_Ret _ _ _ _ _ (set_count_Ret _ _)). simpl.
  pose proof (spec_merge_pages _ _ _ _ _ _ Hn (rep_pos _ _ R) Hm) as [Hl Hp].
  assert (relinked s s3 (seqZ base n ++ free_pages rs)) as F4.
  { eapply relinked_trans; [|exact F3|done]. eapply relinked_weaken; [exact F|set_solver]. }
  destruct (merging_node _ _ _ _ M3) as [Hb3 Hni3].
  destruct (ring_add_after_last _ _ _ _ (m_ring _ _ _ _ M3) Hb3 Hni3) as (h & Hh & Hrh & U).
  destruct (merging_linked s3 b l kept (n + Z.of_nat (length (free_pages rs))) h) as (R' & F5); [done|..|done|done|].
  { intros i. rewrite Hp. intros Hi. rewrite (proj2 (proj2 (proj2 F4))).
    apply elem_of_app in Hi as [Hi|Hi]; [by apply Hrun|by apply R]. }
  { apply Permutation_length in Hp. rewrite !length_app, !length_seqZ in Hp. lia. }
  { rewrite (proj1 (proj2 F4)). apply R. }
  pose proof (relinked_trans _ _ _ _ _ F4 F5) as F6. specialize (F6 ltac:(intros i; by rewrite Hp)).
  eexists. split; [apply on_nodes_Ret; exact Hh|]. split_and!; simpl.
  - unfold spec_free. rewrite Hm. replace (u32 _) with (n + Z.of_nat (length (free_pages rs))); [done|].
    rewrite (proj1 (proj2 (proj2 F4))), (rep_count _ _ R). rewrite u32_small; lia.
  - apply F6.
  - apply F6.
Qed.

(** ** [init_memmap] *)

Lemma init_node_frame (h : gmap node (ListNode node)) x : ∀ y, y ≠ x → init_node x h !! y = h !! y.
Proof. intros y Hy. unfold init_node. by rewrite lookup_insert_ne. Qed.

(** Constructing the descriptors of a run leaves every other one alone. *)
Lemma construct_pages s ps :
  (∀ i, i ∈ ps → is_Some (page_desc s !! i)) →
  ∃ s', forM ps (λ p, get_page p;; put_page p Page0;; on_nodes (λ h, Some (init_node (PageNode p) h))) s = Ret tt s' ∧
    pmm_frame s s' ps ∧ size (page_desc s') = size (page_desc s) ∧ free_page_count s' = free_page_count s ∧
    nodes s' !! FreeList = nodes s !! FreeList ∧
    ∀ i, i ∈ ps → page_desc s' !! i = Some Page0 ∧ is_Some (nodes s' !! PageNode i).
Proof.
  intros Hps.
  apply (forM_inv (λ d s', pmm_frame s s' d ∧ size (page_desc s') = size (page_desc s) ∧
    free_page_count s' = free_page_count s ∧ nodes s' !! FreeList = nodes s !! FreeList ∧
    ∀ i, i ∈ d → page_desc s' !! i = Some Page0 ∧ is_Some (nodes s' !! PageNode i))).
  { split_and!; [split_and!|..]; done || set_solver. }
  intros d p rest s1 -> ((P & D & N) & S & C & H & I).
  destruct (proj2 (D p)) as [pg Hpg]; [apply Hps; set_solver|].
  rewrite (bind_Ret _ _ _ _ _ (get_page_Ret _ _ _ Hpg)).
  eexists; split; [done|]. split_and!; [split_and!|..]; simpl; try done.
  - intros i Hi. rewrite lookup_insert_ne by set_solver. apply P. set_solver.
  - intros i. rewrite lookup_insert. case_decide; subst; [|apply D]. rewrite <- D. naive_solver.
  - intros x Hx Hi. rewrite init_node_frame by (apply Hi; set_solver). apply N; [done|].
    intros i ?. apply Hi. set_solver.
  - by rewrite size_insert_Some by eauto.
  - by rewrite init_node_frame.
  - intros i Hi. rewrite lookup_insert. destruct (decide (p = i)) as [->|Hne].
    + split; [done|]. unfold init_node. rewrite lookup_insert_eq. eauto.
    + rewrite init_node_frame by congruence. apply I. set_solver.
Qed.

Lemma init_memmap_spec s rs base n :
  pmm_rep s rs → 0 < n →
  (∀ i, i ∈ seqZ base n → is_Some (page_desc s !! i) ∧ i ∉ free_pages rs) →
  ∃ s', init_memmap base n s = Ret tt s' ∧ pmm_rep s' (rs ++ [(base, n)]) ∧
    pmm_frame s s' (seqZ base n ++ free_pages rs).
Proof.
  intros R Hn Hrun.
  destruct (construct_pages s (seqZ base n)) as (s1 & Hs1 & F1 & Sz1 & C1 & H1 & I1); [naive_solver|].
  assert (base ∈ seqZ base n) as Hbase by (apply elem_of_seqZ; lia).
  destruct (fresh_run s rs base n R Hrun) as [Hnd Hbound].
  destruct (free_mark s1 base n) as (s2 & Hs2 & F2 & Hn2 & Hb2 & Hblk2); [by apply F1, Hrun|lia|].
  assert (∀ p k, (p, k) ∈ rs → p ∉ seqZ base n) as Hout.
  { intros p k Hp Hi. apply (Hrun p Hi). by eapply run_page. }
  assert (∀ i, i ∉ seqZ base n → page_desc s2 !! i = page_desc s !! i) as Hpd.
  { intros i Hi. rewrite (proj1 (proj1 F2)) by done. by apply F1. }
  assert (ring (nodes s2) FreeList ((λ r, PageNode r.1) <$> rs)) as Hring.
  { rewrite Hn2. eapply ring_frame; [|apply R]. intros x [->|([p k] & -> & Hp)%list_elem_of_fmap]%elem_of_cons; [done|].
    apply F1; [done|]. intros i Hi [= ->]. by eapply Hout. }
  assert (merging s2 base n rs) as M.
  { constructor; try done; try apply R.
    - intros i Hi%F2. rewrite Hn2. destruct (decide (i ∈ seqZ base n)) as [Hi'|Hi']; [by apply I1|].
      rewrite (proj2 (proj2 F1)); [|done|by intros ?? [= ->]]. apply (rep_nodes _ _ R). by apply F1.
    - intros p k Hp. rewrite Hpd by eauto. by apply (rep_block _ _ R). }
  destruct (merging_node _ _ _ _ M) as [Hb3 Hni3].
  destruct (ring_add_before _ _ _ _ Hring Hb3 Hni3) as (h & Hh & Hrh & U).
  destruct (merging_linked s2 base n rs (n + Z.of_nat (length (free_pages rs))) h) as (R' & F5); [done|..|done|done|].
  { intros i [Hi|Hi]%elem_of_app; rewrite (proj2 (proj2 (proj2 F2))).
    - destruct (I1 i Hi) as [-> _]. done.
    - rewrite (proj1 F1); [by apply R|]. intros Hi'. by apply (Hrun i Hi'). }
  { done. }
  { rewrite (proj1 (proj2 F2)), Sz1. apply R. }
  exists (MkPmm (page_desc s2) h (n + Z.of_nat (length (free_pages rs)))). split_and!; [|done|].
  - unfold init_memmap. rewrite (bind_Ret _ _ _ _ _ Hs1), Hs2, (bind_Ret _ _ _ _ _ (set_count_Ret _ _)).
    erewrite on_nodes_Ret by exact Hh. simpl. do 2 f_equal.
    rewrite (proj1 (proj2 (proj2 F2))), C1, (rep_count _ _ R). rewrite u32_small; lia.
  - split_and!; simpl.
    + intros i Hi. rewrite Hpd; [done|set_solver].
    + intros i. rewrite (proj1 (proj2 (proj1 F2))). apply F1.
    + intros x Hx Hi. rewrite (proj2 (proj2 (proj1 F5))) by done. simpl. rewrite Hn2.
      apply F1; [done|]. intros i ?. apply Hi. set_solver.
Qed.

(** ** First fit is complete on coalesced memory *)

(** Two runs that share a page are the same run. *)
Lemma runs_disjoint rs p k q m i :
  NoDup (free_pages rs) → (p, k) ∈ rs → (q, m) ∈ rs → p ≤ i < p + k → q ≤ i < q + m → (p, k) = (q, m).
Proof.
  intros Hnd (rs1 & rs2 & ->)%list_elem_of_split Hq Hi Hi'.
  rewrite free_pages_perm_mid in Hnd. apply NoDup_app in Hnd as (_ & Hd & _).
  destruct (decide ((q, m) ∈ rs1 ++ rs2)) as [Hin|Hout]; [|set_solver].
  destruct (Hd i); [by apply elem_of_seqZ|]. apply elem_of_free_pages. eauto.
Qed.

Lemma consecutive_in_run rs p n :
  NoDup (free_pages rs) → coalesced rs → 0 < n → (∀ i, p ≤ i < p + n → i ∈ free_pages rs) →
  ∃ q k, (q, k) ∈ rs ∧ q ≤ p ∧ p + n ≤ q + k.
Proof.
  intros Hnd Hco Hn Hall.
  pose proof (Hall p ltac:(lia)) as (q & k & Hq & Hp)%elem_of_free_pages. exists q, k. split_and!; [done|lia|].
  destruct (decide (p + n ≤ q + k)) as [|Hlt]; [done|exfalso].
  pose proof (Hall (q + k) ltac:(lia)) as (r & m & Hr & Hi)%elem_of_free_pages.
  pose proof (Hco q k r m Hq Hr).
  pose proof (runs_disjoint rs q k r m (q + k - 1) Hnd Hq Hr ltac:(lia) ltac:(lia)) as [= -> ->]. lia.
Qed.

Lemma no_run_no_pages rs n :
  NoDup (free_pages rs) → coalesced rs → 0 < n → spec_alloc n rs = None →
  ∀ p, ∃ i, p ≤ i < p + n ∧ i ∉ free_pages rs.
Proof.
  intros Hnd Hco Hn Ha p. destruct (decide (Forall (λ i, i ∈ free_pages rs) (seqZ p n))) as [Hall|Hex].
  - exfalso. rewrite Forall_forall in Hall.
    destruct (consecutive_in_run rs p n) as (q & k & Hq & ? & ?); [done..| |].
    { intros i ?. apply Hall, elem_of_seqZ. lia. }
    pose proof (proj1 (spec_alloc_None n rs) Ha q k Hq). lia.
  - apply not_Forall_Exists in Hex; [|apply _]. apply Exists_exists in Hex as (i & Hi%elem_of_seqZ & ?).
    exists i. split; [lia|done].
Qed.

(** ** The properties of the allocator *)

(** C15: [alloc] returns the first run of the free list that is long enough
    and keeps what is left of it free: the pages handed out were free and no
    longer are, no other page changes status, no reference count, no other
    descriptor and no other list node changes, and free memory stays
    coalesced.  It returns null, changing nothing, exactly when no [n]
    consecutive pages are free. *)
Theorem alloc_correct s rs n :
  pmm_rep s rs → coalesced rs → 0 < n →
  (∃ p s' rs', alloc n s = Ret (Some p) s' ∧ spec_alloc n rs = Some (p, rs') ∧
     pmm_rep s' rs' ∧ coalesced rs' ∧ free_pages rs ≡ₚ seqZ p n ++ free_pages rs' ∧
     pmm_frame s s' (free_pages rs) ∧ ∀ i, ref_count <$> page_desc s' !! i = ref_count <$> page_desc s !! i) ∨
  (alloc n s = Ret None s ∧ ∀ p, ∃ i, p ≤ i < p + n ∧ i ∉ free_pages rs).
Proof.
  intros R Hco Hn. pose proof (alloc_spec s rs n R Hn) as H.
  destruct (spec_alloc n rs) as [[p rs']|] eqn:Ha; [left|right].
  - destruct H as (s' & ? & ? & ? & ? & _ & ?). exists p, s', rs'. split_and!; try done.
    eapply spec_alloc_coalesced; [done|apply R|apply R|done..].
  - split; [done|]. apply no_run_no_pages; [apply R|done..].
Qed.

(** C21: [free] of a run of unreferenced, allocated pages makes exactly these
    pages free in addition, merges the run with both neighbours (free memory
    stays coalesced), and changes no reference count, no descriptor and no
    list node outside the freed run and the free list. *)
Theorem free_correct s rs base n :
  pmm_rep s rs → coalesced rs → 0 < n →
  (∀ i, i ∈ seqZ base n → ref_count <$> page_desc s !! i = Some 0 ∧ i ∉ free_pages rs) →
  ∃ s', free base n s = Ret tt s' ∧ pmm_rep s' (spec_free base n rs) ∧ coalesced (spec_free base n rs) ∧
    free_pages (spec_free base n rs) ≡ₚ seqZ base n ++ free_pages rs ∧
    pmm_frame s s' (seqZ base n ++ free_pages rs) ∧
    ∀ i, ref_count <$> page_desc s' !! i = ref_count <$> page_desc s !! i.
Proof.
  intros R Hco Hn Hrun. destruct (free_spec s rs base n R Hn Hrun) as (s' & ? & ? & ? & ?).
  destruct (spec_free_correct base n rs Hn (rep_pos _ _ R)) as (_ & ? & ?).
  exists s'. split_and!; auto.
Qed.

(** The descriptor of an allocated page is its owner's. *)
Lemma rep_upd_page s rs p pg pg' :
  pmm_rep s rs → p ∉ free_pages rs → page_desc s !! p = Some pg →
  pmm_rep (MkPmm (<[p := pg']> (page_desc s)) (nodes s) (free_page_count s)) rs.
Proof.
  intros R Hp Hpg. constructor; simpl; try apply R.
  - intros i. rewrite lookup_insert. case_decide; subst; [|apply (rep_nodes _ _ R)].
    intros _. apply (rep_nodes _ _ R). eauto.
  - intros q m Hq. rewrite lookup_insert_ne; [by apply (rep_block _ _ R)|]. intros ->. apply Hp. by eapply run_page.
  - intros i Hi. rewrite lookup_insert_ne by congruence. by apply (rep_free _ _ R).
  - rewrite size_insert_Some by eauto. apply R.
Qed.

(** Links outside the free list. *)
Lemma rep_links (t : pmm) rs h' :
  pmm_rep t rs → (∀ x, x = FreeList ∨ (∃ i, i ∈ free_pages rs ∧ x = PageNode i) → h' !! x = nodes t !! x) →
  (∀ x, is_Some (h' !! x) ↔ is_Some (nodes t !! x)) → pmm_rep (MkPmm (page_desc t) h' (free_page_count t)) rs.
Proof.
  intros R Hh Hdom. destruct (R). constructor; try done.
  - eapply ring_frame; [|apply R]. intros x [->|Hx]%elem_of_cons; [by apply Hh; left|].
    apply list_elem_of_fmap in Hx as ([p n] & -> & Hin). apply Hh. right. exists p. split; [|done]. by apply (run_page t rs R p n).
  - intros i Hi. apply Hdom. by apply (rep_nodes _ _ R).
Qed.

(** Freeing the last reference to page [k], its node unlinked. *)
Lemma drop_page (t : pmm) (frees : list (Z * Z)) k pg h' :
  pmm_rep t frees → k ∉ free_pages frees → page_desc t !! k = Some pg →
  (∀ x, x = FreeList ∨ (∃ i, i ∈ free_pages frees ∧ x = PageNode i) → h' !! x = nodes t !! x) →
  (∀ x, is_Some (h' !! x) ↔ is_Some (nodes t !! x)) →
  ∃ t', free k 1 (MkPmm (<[k := set_ref 0 pg]> (page_desc t)) h' (free_page_count t)) = Ret tt t' ∧
    pmm_rep t' (spec_free k 1 frees) ∧ free_pages (spec_free k 1 frees) ≡ₚ k :: free_pages frees ∧
    (coalesced frees → coalesced (spec_free k 1 frees)) ∧
    (∀ i, i ∉ k :: free_pages frees → page_desc t' !! i = page_desc t !! i) ∧
    (∀ i, is_Some (page_desc t' !! i) ↔ is_Some (page_desc t !! i)) ∧
    ∀ x, x ≠ FreeList → (∀ i, i ∈ k :: free_pages frees → x ≠ PageNode i) → nodes t' !! x = h' !! x.
Proof.
  intros Rp Hk Hpg Hh Hdom. set (t1 := MkPmm _ _ _).
  assert (pmm_rep t1 frees) as R1.
  { exact (rep_links _ frees h' (rep_upd_page t frees k pg (set_ref 0 pg) Rp Hk Hpg) Hh Hdom). }
  destruct (free_spec t1 frees k 1 R1 ltac:(lia)) as (t' & E & R' & F & _).
  { intros i Hi%elem_of_seqZ. assert (i = k) as -> by lia. split; [|done]. simpl. by rewrite lookup_insert_eq. }
  destruct (spec_free_correct k 1 frees ltac:(lia) (rep_pos _ _ Rp)) as (_ & Hperm & Hco).
  change (seqZ k 1) with [k] in *. destruct F as (Fd & Fs & Fn). exists t'. split_and!; try done.
  - intros i Hi. rewrite Fd by done. simpl. rewrite lookup_insert_ne; [done|]. intros <-. set_solver.
  - intros i. rewrite Fs. simpl. rewrite lookup_insert_is_Some'. split; [intros [<-|?]; [by eexists|done]|by right].
Qed.

(** ** [kmalloc] and [kfree] *)
Section kmalloc.
Context (KERNEL_BASE : Z) (HKB : 0 < KERNEL_BASE).

(** The direct map covers every page that has a descriptor. *)
Definition direct_mapped (s : pmm) : Prop :=
  ∀ i, is_Some (page_desc s !! i) → 0 ≤ i ∧ KERNEL_BASE + i * PG_SIZE < 2 ^ 64.

Lemma page_to_kva_small s i :
  direct_mapped s → is_Some (page_desc s !! i) →
  page_to_kva KERNEL_BASE i = KERNEL_BASE + i * PG_SIZE.
Proof.
  intros Hd Hi. destruct (Hd i Hi). unfold page_to_kva, page_to_phys, PG_SHIFT, PG_SIZE in *.
  rewrite Z.shiftl_mul_pow2 by lia. rewrite (u64_small (i * _)), u64_small; lia.
Qed.

Lemma kva_to_page_to_kva s i :
  direct_mapped s → is_Some (page_desc s !! i) → kva_to_page KERNEL_BASE (page_to_kva KERNEL_BASE i) = i.
Proof.
  intros Hd Hi. rewrite (page_to_kva_small s) by done. destruct (Hd i Hi).
  unfold kva_to_page, phys_to_page, PG_SHIFT, PG_SIZE in *. rewrite u64_small by lia.
  rewrite Z.shiftr_div_pow2 by lia. replace (KERNEL_BASE + i * 4096 - KERNEL_BASE) with (i * 2 ^ 12) by lia.
  by apply Z.div_mul.
Qed.

(** A block [kmalloc] returned, of [n] pages. *)
Definition kblock (s : pmm) (kva n : Z) : Prop :=
  let p := kva_to_page KERNEL_BASE kva in
  0 < n ∧ kva ≠ 0 ∧ (∀ i, i ∈ seqZ p n → ref_count <$> page_desc s !! i = Some 0) ∧ block_page_count <$> page_desc s !! p = Some n.

Lemma kblock_frame s s' ps kva n : kblock s kva n → pmm_frame s s' ps → (∀ i, i ∈ seqZ (kva_to_page KERNEL_BASE kva) n → i ∉ ps) → kblock s' kva n.
Proof.
  intros (Hn & Hz & Hr & Hb) (Fd & _) Hdis. split_and!; [done|done|intros i Hi; rewrite Fd by auto; auto|].
  rewrite Fd; [done|]. apply Hdis, elem_of_seqZ. lia.
Qed.
Lemma direct_mapped_frame s s' ps : direct_mapped s → pmm_frame s s' ps → direct_mapped s'.
Proof. intros Hd (_ & Fs & _) i Hi. by apply Hd, Fs. Qed.

Lemma kmalloc_spec s rs b :
  pmm_rep s rs → coalesced rs → direct_mapped s → 0 < b ≤ 2 ^ 64 - PG_SIZE →
  let n := (b + PG_SIZE - 1) / PG_SIZE in
  (∃ kva s1 rs1, kmalloc KERNEL_BASE b s = Ret kva s1 ∧ (PG_SIZE | kva - KERNEL_BASE) ∧ b ≤ n * PG_SIZE ∧ kblock s1 kva n ∧
     pmm_rep s1 rs1 ∧ coalesced rs1 ∧ pmm_frame s s1 (free_pages rs) ∧
     free_pages rs ≡ₚ seqZ (kva_to_page KERNEL_BASE kva) n ++ free_pages rs1) ∨
  (kmalloc KERNEL_BASE b s = Ret 0 s ∧ ∀ p, ∃ i, p ≤ i < p + n ∧ i ∉ free_pages rs).
Proof using HKB.
  intros R Hco Hd Hb n. pose proof (Z.div_mod (b + PG_SIZE - 1) PG_SIZE ltac:(done)) as Hdm.
  pose proof (Z.mod_pos_bound (b + PG_SIZE - 1) PG_SIZE ltac:(done)) as Hm. fold n in Hdm.
  assert (0 < n) as Hn by (unfold PG_SIZE in *; nia).
  pose proof (alloc_spec s rs n R Hn) as H. unfold kmalloc.
  rewrite (proj2 (Z.eqb_neq b 0)), (u64_small (b + _ - _)) by (unfold PG_SIZE in *; lia). fold n.
  destruct (spec_alloc n rs) as [[p rs1]|] eqn:Ha; [left|right].
  2:{ rewrite (bind_Ret _ _ _ _ _ H). split; [done|]. apply no_run_no_pages; [apply R|done..]. }
  destruct H as (s1 & Hal & R1 & Hperm & F & _ & Href). rewrite (bind_Ret _ _ _ _ _ Hal).
  pose proof (rep_nodup _ _ R) as Hnd. rewrite Hperm in Hnd. apply NoDup_app in Hnd as (_ & Hdis & _).
  assert (p ∈ seqZ p n) as Hpn by (apply elem_of_seqZ; lia).
  assert (is_Some (page_desc s !! p)) as Hps.
  { destruct (rep_page s rs R p) as (? & ? & _); [rewrite Hperm; set_solver|eauto]. }
  destruct (proj2 (proj1 (proj2 F) p) Hps) as [pg Hpg].
  assert (n < 2 ^ 32) as Hn32.
  { pose proof (rep_length _ _ R) as Hl. rewrite (Permutation_length Hperm), length_app, length_seqZ in Hl. lia. }
  rewrite (bind_Ret _ _ _ _ _ (upd_page_Ret _ _ _ _ Hpg)), (u32_small n) by lia. destruct (Hd p Hps) as [Hp0 _].
  exists (page_to_kva KERNEL_BASE p), (MkPmm (<[p := set_block n pg]> (page_desc s1)) (nodes s1) (free_page_count s1)), rs1.
  unfold kblock. rewrite (kva_to_page_to_kva s p Hd Hps), (page_to_kva_small s) by done.
  split_and!; [done|exists p; lia|unfold PG_SIZE in *; lia|done|unfold PG_SIZE; lia| |cbn; by rewrite lookup_insert_eq| | | |done].
  - intros i Hi. cbn [page_desc]. rewrite lookup_insert. rewrite <- (rep_free _ _ R i), <- Href by (rewrite Hperm; set_solver).
    case_decide; subst; [by rewrite Hpg|done].
  - exact (rep_upd_page s1 rs1 p pg (set_block n pg) R1 (Hdis p Hpn) Hpg).
  - eapply spec_alloc_coalesced; [done|apply R|apply R|done..].
  - eapply pmm_frame_trans; [exact F| |by split_and!]. eapply pmm_frame_mono; [by eapply (pmm_frame_upd s1 p pg (set_block n pg))|].
    intros i ->%list_elem_of_singleton. rewrite Hperm. set_solver.
Qed.

Lemma kfree_spec s rs kva n : let p := kva_to_page KERNEL_BASE kva in
  pmm_rep s rs → kblock s kva n → (∀ i, i ∈ seqZ p n → i ∉ free_pages rs) →
  ∃ s' rs', kfree KERNEL_BASE kva s = Ret tt s' ∧ pmm_rep s' rs' ∧ (coalesced rs → coalesced rs') ∧
    free_pages rs' ≡ₚ seqZ p n ++ free_pages rs ∧ pmm_frame s s' (seqZ p n ++ free_pages rs).
Proof.
  intros p R (Hn & Hz & Hr & Hb) Hdis. fold p in Hr, Hb. apply fmap_Some in Hb as (pg & Hpg & Hb).
  destruct (free_spec s rs p n R Hn) as (s' & E & R' & F & _); [by auto|].
  destruct (spec_free_correct p n rs Hn (rep_pos _ _ R)) as (_ & Hperm & Hco). exists s', (spec_free p n rs). split_and!; try done.
  unfold kfree. rewrite (proj2 (Z.eqb_neq _ 0)) by done. fold p. rewrite (bind_Ret _ _ _ _ _ (get_page_Ret _ _ _ Hpg)), <- Hb.
  by rewrite (proj2 (Z.ltb_lt 0 n)) by lia.
Qed.

Lemma kmalloc_kfree_spec s rs b :
  pmm_rep s rs → coalesced rs → direct_mapped s → 0 < b ≤ 2 ^ 64 - PG_SIZE →
  let n := (b + PG_SIZE - 1) / PG_SIZE in
  (∃ kva s1 rs1, kmalloc KERNEL_BASE b s = Ret kva s1 ∧ kva ≠ 0 ∧ (PG_SIZE | kva - KERNEL_BASE) ∧
     b ≤ n * PG_SIZE ∧ pmm_rep s1 rs1 ∧ coalesced rs1 ∧ direct_mapped s1 ∧
     free_pages rs ≡ₚ seqZ (kva_to_page KERNEL_BASE kva) n ++ free_pages rs1 ∧
     ∃ s2 rs2, kfree KERNEL_BASE kva s1 = Ret tt s2 ∧ pmm_rep s2 rs2 ∧ coalesced rs2 ∧
       free_pages rs2 ≡ₚ free_pages rs ∧ pmm_frame s s2 (free_pages rs)) ∨
  (kmalloc KERNEL_BASE b s = Ret 0 s ∧ ∀ p, ∃ i, p ≤ i < p + n ∧ i ∉ free_pages rs).
Proof using HKB.
  intros R Hco Hd Hb n.
  destruct (kmalloc_spec s rs b R Hco Hd Hb) as [(kva & s1 & rs1 & E & Hal & Hbn & Hk & R1 & Hco1 & F & Hperm)|?]; [left|by right]. fold n in Hk, Hbn, Hperm.
  exists kva, s1, rs1. pose proof Hk as (_ & Hz & _). split_and!; try done; [by eapply direct_mapped_frame|].
  pose proof (rep_nodup _ _ R) as Hnd. rewrite Hperm in Hnd. apply NoDup_app in Hnd as (_ & Hdis & _).
  destruct (kfree_spec s1 rs1 kva n R1 Hk Hdis) as (s2 & rs2 & E2 & R2 & Hco2 & Hperm2 & F2).
  exists s2, rs2. split_and!; [done|done|by apply Hco2|by rewrite Hperm2, Hperm|]. apply (pmm_frame_trans s s1 s1 s2); [done|by split_and!|].
  eapply pmm_frame_mono; [exact F2|]. intros i. by rewrite Hperm.
Qed.

(** [kmalloc] of [b > 0] bytes (that do not overflow the rounding to
    pages) either returns null and changes nothing, which happens only when no
    [(b + 4095) / 4096] consecutive pages are free, or returns the non-null,
    page aligned kernel address of so many pages, all free before and none
    free after; and [kfree] of that address then succeeds and makes exactly
    the pages that were free before the [kmalloc] free again. *)
Theorem kmalloc_kfree s rs b :
  pmm_rep s rs → coalesced rs → direct_mapped s → 0 < b ≤ 2 ^ 64 - PG_SIZE →
  let n := (b + PG_SIZE - 1) / PG_SIZE in
  (∃ kva s1 rs1, kmalloc KERNEL_BASE b s = Ret kva s1 ∧ kva ≠ 0 ∧ (PG_SIZE | kva - KERNEL_BASE) ∧
     b ≤ n * PG_SIZE ∧ pmm_rep s1 rs1 ∧
     free_pages rs ≡ₚ seqZ (kva_to_page KERNEL_BASE kva) n ++ free_pages rs1 ∧
     ∃ s2 rs2, kfree KERNEL_BASE kva s1 = Ret tt s2 ∧ pmm_rep s2 rs2 ∧ coalesced rs2 ∧
       free_pages rs2 ≡ₚ free_pages rs) ∨
  (kmalloc KERNEL_BASE b s = Ret 0 s ∧ ∀ p, ∃ i, p ≤ i < p + n ∧ i ∉ free_pages rs).
Proof using HKB.
  intros R Hco Hd Hb n. destruct (kmalloc_kfree_spec s rs b R Hco Hd Hb) as [(kva & s1 & rs1 & ? & ? & ? & ? & ? & _ & _ & ? & s2 & rs2 & ? & ? & ? & ? & _)|?]; [left|by right].
  exists kva, s1, rs1. split_and!; try done. by exists s2, rs2.
Qed.
End kmalloc.

(** ** A concrete memory: eight pages, of which 0, 1, 4, 5 and 6 are free *)

Definition ex_boot : pmm := MkPmm
  (list_to_map ((λ i, (i, Page0)) <$> seqZ 0 8))
  (init_node FreeList (foldr (λ i, init_node (PageNode i)) ∅ (seqZ 0 8))) 0.
Definition ex_pmm : pmm := Eval vm_compute in
  default ex_boot (out_state ((init_memmap 0 2;; init_memmap 4 3) ex_boot)).

Lemma ex_boot_rep : pmm_rep ex_boot [].
Proof.
  constructor; try done; try (intros ?? []%elem_of_nil); try (intros ? []%elem_of_nil); [..|constructor].
  - split; [repeat constructor; set_solver|by vm_compute].
  - intros i [p Hp]. revert i p Hp.
    change (map_Forall (λ i _, is_Some (nodes ex_boot !! PageNode i)) (page_desc ex_boot)).
    by apply (bool_decide_unpack _); vm_compute.
Qed.

Definition ex_pmm1 : pmm := Eval vm_compute in default ex_boot (out_state (init_memmap 0 2 ex_boot)).

Lemma ex_pmm_rep : pmm_rep ex_pmm [(0, 2); (4, 3)].
Proof.
  destruct (init_memmap_spec ex_boot [] 0 2 ex_boot_rep) as (s1 & Hs1 & R1 & _); [lia| |].
  { intros i Hi. split; [|set_solver]. revert i Hi. apply Forall_forall. vm_compute. repeat constructor; eauto. }
  assert (s1 = ex_pmm1) as ->.
  { apply (f_equal out_state) in Hs1. change (Some ex_pmm1 = Some s1) in Hs1. by injection Hs1. }
  destruct (init_memmap_spec ex_pmm1 _ 4 3 R1) as (s2 & Hs2 & R2 & _); [lia| |].
  { apply Forall_forall, (bool_decide_unpack _). by vm_compute. }
  replace ex_pmm with s2; [done|]. apply (f_equal out_state) in Hs2. change (Some ex_pmm = Some s2) in Hs2. by injection Hs2.
Qed.

Lemma ex_pmm_coalesced : coalesced [(0, 2); (4, 3)].
Proof.
  intros p k q m Hp Hq. rewrite elem_of_cons, list_elem_of_singleton in Hp, Hq.
  destruct Hp as [[= -> ->]|[= -> ->]], Hq as [[= -> ->]|[= -> ->]]; lia.
Qed.


Lemma alloc_correct_witness : ∃ s', alloc 3 ex_pmm = Ret (Some 4) s' ∧ pmm_rep s' [(0, 2)].
Proof.
  destruct (alloc_correct ex_pmm _ 3 ex_pmm_rep ex_pmm_coalesced eq_refl) as [(p & s' & rs' & Ha & E & R & _)|[Hn _]].
  - vm_compute in E. injection E as <- <-. eauto.
  - vm_compute in Hn. discriminate Hn.
Defined.

Lemma free_correct_witness : ∃ s', free 2 2 ex_pmm = Ret tt s' ∧ pmm_rep s' [(0, 7)].
Proof.
  destruct (free_correct ex_pmm _ 2 2 ex_pmm_rep ex_pmm_coalesced eq_refl) as (s' & Hf & R & _).
  - apply Forall_forall. by apply (bool_decide_unpack _); vm_compute.
  - exists s'. split; [exact Hf|exact R].
Defined.

Lemma ex_pmm_direct : direct_mapped 0xFFFFFFFF80000000 ex_pmm.
Proof.
  intros i [p Hp]. revert i p Hp.
  change (map_Forall (λ i _, 0 ≤ i ∧ 0xFFFFFFFF80000000 + i * PG_SIZE < 2 ^ 64) (page_desc ex_pmm)).
  by apply (bool_decide_unpack _); vm_compute.
Qed.

Lemma kmalloc_kfree_witness : kmalloc 0xFFFFFFFF80000000 8000 ex_pmm ≠ Ret 0 ex_pmm.
Proof.
  destruct (kmalloc_kfree 0xFFFFFFFF80000000 eq_refl ex_pmm _ 8000 ex_pmm_rep ex_pmm_coalesced)
    as [(kva & s1 & rs1 & Hk & Hz & _)|[_ Hno]].
  - exact ex_pmm_direct.
  - by vm_compute.
  - rewrite Hk. intros [= ->]. done.
  - destruct (Hno 0) as (i & Hi & Hni). exfalso. apply Hni, elem_of_free_pages. exists 0, 2.
    split; [apply elem_of_cons; by left|exact Hi].
Defined.

