(* ===== verification/LibString.v ===== *)
(** * Strings and the C++ runtime

    C strings are lists of bytes without the terminating zero.  The helpers of
    [lib/string.h], and the runtime of [cxxrt.cpp]: [memmove], [memcmp] and the
    allocating and freeing operators over the page allocator. *)

From Stdlib Require Import Ascii String.
From S2P Require Import Prelude Pmm.

(** ** [lib/string.h] *)

(** The bytes of a literal. *)
Fixpoint bytes_of (s : string) : list Z :=
  match s with EmptyString => [] | String c s => Z.of_nat (nat_of_ascii c) :: bytes_of s end.

Fixpoint str_starts_with (str prefix : list Z) : bool :=
  match prefix, str with
  | [], _ => true
  | p :: prefix, c :: str => if negb (c =? p) then false else str_starts_with str prefix
  | _ :: _, [] => false
  end.

Fixpoint str_skip_char (str : list Z) (ch : Z) : list Z :=
  match str with
  | [] => []
  | c :: rest => if c =? ch then str_skip_char rest ch else str
  end.

Lemma str_starts_with_spec str prefix : str_starts_with str prefix = true ↔ ∃ rest, str = prefix ++ rest.
Proof.
  revert str. induction prefix as [|p prefix IH]; intros str.
  - split; [intros _; exists str; done|intros _; by destruct str].
  - destruct str as [|c str]; [split; [done|by intros [? [=]]]|]. cbn [str_starts_with].
    destruct (Z.eqb_spec c p) as [->|Hne]; cbn [negb].
    + rewrite IH. split; intros [rest Hr]; exists rest; [by rewrite Hr|by injection Hr].
    + split; [done|]. intros [rest [= ? ?]]. done.
Qed.

Lemma str_skip_char_spec str ch : ∃ n, str = replicate n ch ++ str_skip_char str ch ∧ head (str_skip_char str ch) ≠ Some ch.
Proof.
  induction str as [|c str (n & IH & Hh)]; [by exists 0%nat|]. cbn. destruct (Z.eqb_spec c ch) as [->|Hne].
  - exists (S n). split; [by rewrite IH at 1|done].
  - exists 0%nat. split; [done|]. by intros [= ?].
Qed.

(** ** [cxxrt.cpp]: bytes in memory *)

(** The mapped bytes, by address. *)
Notation mem8 := (gmap Z Z).

Definition load (a : Z) : M mem8 Z := m <- get;; deref (m !! a).
Definition store (a v : Z) : M mem8 unit := m <- get;; deref (m !! a);; put (<[a := v]> m).

(** [while (n-- > 0) *d++ = *s++;] and [while (n-- > 0) *--d = *--s;] *)
Fixpoint copy_up (n : nat) (d s : Z) : M mem8 unit :=
  match n with O => ret tt | S n => v <- load s;; store d v;; copy_up n (d + 1) (s + 1) end.
Fixpoint copy_down (n : nat) (d s : Z) : M mem8 unit :=
  match n with O => ret tt | S n => v <- load (s - 1);; store (d - 1) v;; copy_down n (d - 1) (s - 1) end.

Definition memmove (dst src n : Z) : M mem8 Z :=
  (if dst <? src then copy_up (Z.to_nat n) dst src
   else if src <? dst then copy_down (Z.to_nat n) (dst + n) (src + n)
   else ret tt);;
  ret dst.

Fixpoint memcmp_loop (n : nat) (p1 p2 : Z) : M mem8 Z :=
  match n with
  | O => ret 0
  | S n =>
      a <- load p1;; b <- load p2;;
      if negb (a =? b) then ret (a - b) else memcmp_loop n (p1 + 1) (p2 + 1)
  end.
Definition memcmp (s1 s2 n : Z) : M mem8 Z := memcmp_loop (Z.to_nat n) s1 s2.

(** ** [cxxrt.cpp]: allocation *)

Section operators.
Context (KERNEL_BASE : Z).

(** [operator new(size, nothrow)], [operator new(size)] and [operator delete(ptr)] *)
Definition operator_new_nothrow (size : Z) : M pmm Z := kmalloc KERNEL_BASE (if size =? 0 then 1 else size).
Definition operator_new (size : Z) : M pmm Z :=
  ptr <- operator_new_nothrow size;; assert_ (negb (ptr =? 0));; ret ptr.
Definition operator_delete (ptr : Z) : M pmm unit := kfree KERNEL_BASE ptr.
End operators.

(** ** Proofs *)

Definition mapped (m : mem8) (a n : Z) : Prop := ∀ i, a ≤ i < a + n → is_Some (m !! i).

Lemma load_ok m a v : m !! a = Some v → load a m = Ret v m.
Proof. intros Ha. unfold load, bind, get, deref. by rewrite Ha. Qed.
Lemma store_ok m a v : is_Some (m !! a) → store a v m = Ret tt (<[a := v]> m).
Proof. intros [w Ha]. unfold store, bind, get, deref. by rewrite Ha. Qed.

(** The memory after the bytes of [m] at [src] were copied to [dst]. *)
Definition copied (m m' : mem8) (dst src n : Z) : Prop :=
  ∀ a, m' !! a = if decide (dst ≤ a < dst + n) then m !! (src + (a - dst)) else m !! a.

Lemma copy_up_spec n : ∀ m d s, d < s → mapped m d (Z.of_nat n) → mapped m s (Z.of_nat n) →
  ∃ m', copy_up n d s m = Ret tt m' ∧ copied m m' d s (Z.of_nat n).
Proof.
  induction n as [|n IH]; intros m d s Hlt Hd Hs.
  { exists m. split; [done|]. intros a. by rewrite decide_False by lia. }
  destruct (Hs s ltac:(lia)) as [v Hv]. destruct (IH (<[d := v]> m) (d + 1) (s + 1)) as (m' & Hr & Hc); [lia| | |].
  - intros i Hi. rewrite lookup_insert_ne by lia. apply Hd. lia.
  - intros i Hi. rewrite lookup_insert_ne by lia. apply Hs. lia.
  - exists m'. split; [cbn [copy_up]; by rewrite (bind_Ret _ _ _ _ _ (load_ok _ _ _ Hv)), (bind_Ret _ _ _ _ _ (store_ok _ _ _ (Hd d ltac:(lia))))|].
    intros a. rewrite Hc. destruct (decide (d + 1 ≤ a < d + 1 + Z.of_nat n)).
    + rewrite decide_True by lia. rewrite lookup_insert_ne by lia. f_equal. lia.
    + destruct (decide (a = d)) as [->|Hne].
      * rewrite lookup_insert_eq, decide_True by lia. rewrite Z.sub_diag, Z.add_0_r. done.
      * rewrite lookup_insert_ne by done. by rewrite decide_False by lia.
Qed.

Lemma copy_down_spec n : ∀ m d s, s < d → mapped m (d - Z.of_nat n) (Z.of_nat n) → mapped m (s - Z.of_nat n) (Z.of_nat n) →
  ∃ m', copy_down n d s m = Ret tt m' ∧ copied m m' (d - Z.of_nat n) (s - Z.of_nat n) (Z.of_nat n).
Proof.
  induction n as [|n IH]; intros m d s Hlt Hd Hs.
  { exists m. split; [done|]. intros a. by rewrite decide_False by lia. }
  destruct (Hs (s - 1) ltac:(lia)) as [v Hv]. destruct (IH (<[d - 1 := v]> m) (d - 1) (s - 1)) as (m' & Hr & Hc); [lia| | |].
  - intros i Hi. rewrite lookup_insert_ne by lia. apply Hd. lia.
  - intros i Hi. rewrite lookup_insert_ne by lia. apply Hs. lia.
  - exists m'. split; [cbn [copy_down]; by rewrite (bind_Ret _ _ _ _ _ (load_ok _ _ _ Hv)), (bind_Ret _ _ _ _ _ (store_ok _ _ _ (Hd (d - 1) ltac:(lia))))|].
    intros a. rewrite Hc. destruct (decide (d - 1 - Z.of_nat n ≤ a < d - 1 - Z.of_nat n + Z.of_nat n)).
    + rewrite decide_True by lia. rewrite lookup_insert_ne by lia. f_equal. lia.
    + destruct (decide (a = d - 1)) as [->|Hne].
      * rewrite lookup_insert_eq, decide_True by lia. rewrite <- Hv. f_equal. lia.
      * rewrite lookup_insert_ne by done. by rewrite decide_False by lia.
Qed.

(** [memmove] copies as if through a buffer, also when the ranges overlap:
    the destination holds what the source held before the call, every other
    byte is unchanged, and no byte outside the two ranges is touched. *)
Theorem memmove_correct m dst src n : 0 ≤ n → mapped m dst n → mapped m src n →
  ∃ m', memmove dst src n m = Ret dst m' ∧ copied m m' dst src n.
Proof.
  intros Hn Hd Hs. unfold memmove. destruct (Z.ltb_spec dst src) as [Hlt|Hge]; [|destruct (Z.ltb_spec src dst) as [Hlt|Hge']].
  - destruct (copy_up_spec (Z.to_nat n) m dst src Hlt) as (m' & Hr & Hc); [by rewrite Z2Nat.id..|]. rewrite Z2Nat.id in Hc by done.
    exists m'. by rewrite (bind_Ret _ _ _ _ _ Hr).
  - destruct (copy_down_spec (Z.to_nat n) m (dst + n) (src + n)) as (m' & Hr & Hc); [lia|rewrite Z2Nat.id by done; intros i Hi; apply Hd; lia|rewrite Z2Nat.id by done; intros i Hi; apply Hs; lia|].
    rewrite Z2Nat.id in Hc by done. replace (dst + n - n) with dst in Hc by lia. replace (src + n - n) with src in Hc by lia. exists m'. by rewrite (bind_Ret _ _ _ _ _ Hr).
  - exists m. split; [done|]. intros a. replace (src + (a - dst)) with a by lia. by destruct (decide _).
Qed.

Lemma memmove_correct_witness :
  ∃ m', memmove 11 10 3 (list_to_map [(10, 1); (11, 2); (12, 3); (13, 4)]) = Ret 11 m' ∧ m' !! 13 = Some 3.
Proof.
  destruct (memmove_correct (list_to_map [(10, 1); (11, 2); (12, 3); (13, 4)]) 11 10 3) as (m' & Hr & Hc); [lia| | |].
  - intros i Hi. assert (i = 11 ∨ i = 12 ∨ i = 13) as [->|[->| ->]] by lia; by eexists.
  - intros i Hi. assert (i = 10 ∨ i = 11 ∨ i = 12) as [->|[->| ->]] by lia; by eexists.
  - exists m'. split; [exact Hr|]. by rewrite Hc.
Defined.

(** [memcmp] answers by the first byte that differs. *)
Lemma memcmp_spec n : ∀ m p1 p2, mapped m p1 (Z.of_nat n) → mapped m p2 (Z.of_nat n) →
  (memcmp_loop n p1 p2 m = Ret 0 m ∧ ∀ i, 0 ≤ i < Z.of_nat n → m !! (p1 + i) = m !! (p2 + i)) ∨
  ∃ i a b, 0 ≤ i < Z.of_nat n ∧ (∀ j, 0 ≤ j < i → m !! (p1 + j) = m !! (p2 + j)) ∧
    m !! (p1 + i) = Some a ∧ m !! (p2 + i) = Some b ∧ a ≠ b ∧ memcmp_loop n p1 p2 m = Ret (a - b) m.
Proof.
  induction n as [|n IH]; intros m p1 p2 H1 H2; [left; split; [done|lia]|].
  destruct (H1 p1 ltac:(lia)) as [a Ha], (H2 p2 ltac:(lia)) as [b Hb]. cbn [memcmp_loop].
  rewrite (bind_Ret _ _ _ _ _ (load_ok _ _ _ Ha)), (bind_Ret _ _ _ _ _ (load_ok _ _ _ Hb)). destruct (Z.eqb_spec a b) as [->|Hne]; simpl.
  - destruct (IH m (p1 + 1) (p2 + 1)) as [[Hr He]|(i & x & y & Hi & Hj & Hx & Hy & Hne & Hr)];
      [intros i Hi; apply H1; lia|intros i Hi; apply H2; lia| |].
    + left. split; [done|]. intros i Hi. destruct (decide (i = 0)) as [->|]; [by rewrite !Z.add_0_r, Ha, Hb|].
      replace (p1 + i) with (p1 + 1 + (i - 1)) by lia. replace (p2 + i) with (p2 + 1 + (i - 1)) by lia. apply He. lia.
    + right. exists (i + 1), x, y. replace (p1 + (i + 1)) with (p1 + 1 + i) by lia. replace (p2 + (i + 1)) with (p2 + 1 + i) by lia.
      split_and!; [lia|lia| |done..]. intros j Hj'. destruct (decide (j = 0)) as [->|]; [by rewrite !Z.add_0_r, Ha, Hb|].
      replace (p1 + j) with (p1 + 1 + (j - 1)) by lia. replace (p2 + j) with (p2 + 1 + (j - 1)) by lia. apply Hj. lia.
  - right. exists 0, a, b. rewrite !Z.add_0_r. split_and!; [lia|lia|lia|done..].
Qed.
