(* ===== verification/Paging.v ===== *)
(** * Page-table entries of the three architectures

    [arch/*/include/asm/page.h], [kernel/vm_flags.h].  The class [Paging] is
    the interface the portable memory manager uses (one operation per inline
    function of [page.h]); the class [PagingLaws] is what the manager relies
    on.  [PagingX86], [PagingAArch64] and [PagingRiscV64] translate the three
    headers and prove the laws. *)

From S2P Require Import Prelude Pmm.

(** ** Mapping requests: [kernel/vm_flags.h] *)
Definition VM_PRESENT : Z := Z.shiftl 1 0.
Definition VM_WRITE : Z := Z.shiftl 1 1.
Definition VM_USER : Z := Z.shiftl 1 2.
Definition VM_NOCACHE : Z := Z.shiftl 1 3.
Definition VM_NOEXEC : Z := Z.shiftl 1 4.
Definition VM_USER_RW : Z := Z.lor (Z.lor VM_PRESENT VM_WRITE) (Z.lor VM_USER VM_NOEXEC).

(** [(x & f) != 0] *)
Definition has (x f : Z) : bool := negb (Z.land x f =? 0).

Definition user_page_perm (write executable : bool) : Z :=
  Z.lor VM_USER (Z.lor (if write then VM_WRITE else 0) (if executable then 0 else VM_NOEXEC)).

(** ** The interface *)
Class Paging := {
  pte_present : Z → bool;
  pte_is_block : Z → bool;
  pte_writable : Z → bool;
  pte_user : Z → bool;
  pte_executable : Z → bool;
  pte_user_accessible : Z → bool → bool;
  pte_user_table_accessible : Z → bool → bool;
  pte_addr : Z → Z;
  make_pte_table : Z → Z;
  make_pte_page : Z → Z → Z;
  split_page_entry : Z → Z → Z → Z;
  LEVEL_SHIFTS : list Z;      (** [PML4X_SHIFT, PDPTX_SHIFT, PDX_SHIFT, PTX_SHIFT] *)
  PT_WALK_LEVELS : nat;
  KERNEL_BASE : Z;
  USER_SPACE_TOP : Z;
  phys_bits : Z }.            (** the width of the addresses an entry can hold *)

Definition PAGE_TABLE_ENTRIES : Z := 512.
Definition USER_TOP_ENTRIES : Z := 256.

Section perm.
Context `{Paging}.

Definition merge_user_page_perm (entry perm : Z) : Z :=
  user_page_perm (pte_writable entry || has perm VM_WRITE) (pte_executable entry || negb (has perm VM_NOEXEC)).

(** A physical page frame an entry can point to. *)
Definition frame (pa : Z) : Prop := 0 ≤ pa < 2 ^ phys_bits ∧ (2 ^ 12 | pa).

(** The shifts of the levels the walker visits. *)
Definition walk_shifts : list Z := take PT_WALK_LEVELS LEVEL_SHIFTS.
End perm.

(** ** What the memory manager relies on *)
Class PagingLaws `{Paging} := {
  present_zero : pte_present 0 = false;
  addr_frame e : 0 ≤ e < 2 ^ 64 → frame (pte_addr e);
  table_entry pa : frame pa →
    pte_present (make_pte_table pa) = true ∧ pte_is_block (make_pte_table pa) = false ∧
    pte_addr (make_pte_table pa) = pa ∧ ∀ w, pte_user_table_accessible (make_pte_table pa) w = true;
  page_entry pa perm : frame pa →
    let e := make_pte_page pa perm in
    pte_present e = true ∧ pte_addr e = pa ∧ pte_writable e = has perm VM_WRITE ∧
    pte_user e = has perm VM_USER ∧ pte_executable e = negb (has perm VM_NOEXEC) ∧
    ∀ w, pte_user_accessible e w = has perm VM_USER && (negb w || has perm VM_WRITE);
  split_entry e pa cs : 0 ≤ e < 2 ^ 64 → pte_present e = true → pte_is_block e = true →
    frame pa → 12 ≤ cs → (2 ^ cs | pa) →
    let e' := split_page_entry e pa cs in
    pte_present e' = true ∧ (12 < cs → pte_is_block e' = true) ∧
    Z.land (pte_addr e') (Z.lnot (2 ^ cs - 1)) = pa ∧
    pte_writable e' = pte_writable e ∧ pte_executable e' = pte_executable e ∧
    ∀ w, pte_user_accessible e' w = pte_user_accessible e w;
  entries_width pa perm e cs : frame pa → 0 ≤ e < 2 ^ 64 →
    0 ≤ make_pte_table pa < 2 ^ 64 ∧ 0 ≤ make_pte_page pa perm < 2 ^ 64 ∧
    0 ≤ split_page_entry e pa cs < 2 ^ 64;
  shifts_steps i s t : walk_shifts !! i = Some s → walk_shifts !! S i = Some t → s = t + 9;
  shifts_last : last walk_shifts = Some 12;
  phys_covers s : s ∈ walk_shifts → 12 ≤ s ≤ phys_bits ∧ s ≤ 39;
  phys_width : 12 ≤ phys_bits ≤ 64;
  write_reads e : pte_user_accessible e true = true → pte_user_accessible e false = true;
  table_write_reads e : pte_user_table_accessible e true = true → pte_user_table_accessible e false = true;
  user_top : PG_SIZE < USER_SPACE_TOP < 2 ^ 64 }.

(** ** Bits *)

Lemma mask_testbit lo hi i : 0 ≤ lo ≤ hi → Z.testbit (2 ^ hi - 2 ^ lo) i = (lo <=? i) && (i <? hi).
Proof.
  intros H. replace (2 ^ hi - 2 ^ lo) with (Z.shiftl (Z.ones (hi - lo)) lo).
  2:{ rewrite Z.shiftl_mul_pow2, Z.ones_equiv by lia. replace hi with (hi - lo + lo) at 2 by lia.
      rewrite Z.pow_add_r by lia. lia. }
  destruct (Z.ltb_spec i 0).
  { rewrite Z.testbit_neg_r by lia. symmetry. apply andb_false_intro1, Z.leb_gt. lia. }
  rewrite Z.shiftl_spec by lia. destruct (Z.leb_spec lo i); simpl.
  - rewrite Z.testbit_ones by lia. destruct (Z.ltb_spec i hi); lia.
  - by rewrite Z.testbit_neg_r by lia.
Qed.

Lemma pow2_testbit k i : 0 ≤ k → Z.testbit (2 ^ k) i = (i =? k).
Proof. intros. rewrite Z.pow2_bits_eqb by lia. apply Z.eqb_sym. Qed.

(** [(x & (1 << k)) != 0] is a bit test. *)
Lemma has_pow2 x k : 0 ≤ k → has x (2 ^ k) = Z.testbit x k.
Proof.
  intros Hk. unfold has. destruct (Z.testbit x k) eqn:E.
  - apply negb_true_iff, Z.eqb_neq. intros Hz.
    assert (Z.testbit (Z.land x (2 ^ k)) k = true) as H.
    { rewrite Z.land_spec, E, Z.pow2_bits_true by lia. done. }
    rewrite Hz, Z.bits_0 in H. done.
  - apply negb_false_iff, Z.eqb_eq. apply Z.bits_inj'. intros i Hi.
    rewrite Z.land_spec, pow2_testbit, Z.bits_0 by lia. destruct (Z.eqb_spec i k); [subst; by rewrite E|lia].
Qed.

Lemma aligned_testbit x k i : 0 ≤ k → (2 ^ k | x) → i < k → Z.testbit x i = false.
Proof.
  intros Hk [y ->] Hi. destruct (Z.ltb_spec i 0); [by apply Z.testbit_neg_r|].
  by rewrite Z.mul_pow2_bits_low by lia.
Qed.

Lemma small_testbit x k i : 0 ≤ x < 2 ^ k → k ≤ i → Z.testbit x i = false.
Proof.
  intros Hx Hi. destruct (decide (x = 0)) as [->|]; [apply Z.bits_0|].
  destruct (Z.ltb_spec k 0); [rewrite Z.pow_neg_r in Hx by lia; lia|].
  apply Z.bits_above_log2; [lia|]. assert (Z.log2 x < k) by (apply Z.log2_lt_pow2; lia). lia.
Qed.

Lemma bound_by_bits x k : 0 ≤ k → 0 ≤ x → (∀ i, k ≤ i → Z.testbit x i = false) → x < 2 ^ k.
Proof.
  intros Hk Hx Hb. destruct (Z.ltb_spec x (2 ^ k)); [done|].
  assert (0 < 2 ^ k) by (apply Z.pow_pos_nonneg; lia).
  assert (k ≤ Z.log2 x) by (apply Z.log2_le_pow2; lia).
  pose proof (Hb (Z.log2 x) ltac:(lia)) as E. rewrite Z.bit_log2 in E by lia. done.
Qed.

Lemma aligned_by_bits x k : 0 ≤ k → (∀ i, 0 ≤ i < k → Z.testbit x i = false) → (2 ^ k | x).
Proof.
  intros Hk Hb. apply Z.mod_divide; [apply Z.pow_nonzero; lia|].
  rewrite <- Z.land_ones by lia. apply Z.bits_inj'. intros i Hi.
  rewrite Z.land_spec, Z.bits_0, Z.testbit_ones by lia.
  destruct (Z.ltb_spec i k); [by rewrite Hb by lia|]. by rewrite !andb_false_r.
Qed.

Lemma lnot_mask_testbit k i : 0 ≤ k → 0 ≤ i → Z.testbit (Z.lnot (2 ^ k - 1)) i = (k <=? i).
Proof.
  intros Hk Hi. rewrite Z.lnot_spec by lia. change (2 ^ k - 1) with (2 ^ k - 2 ^ 0).
  rewrite mask_testbit by lia. destruct (Z.leb_spec 0 i), (Z.ltb_spec i k), (Z.leb_spec k i); simpl; lia.
Qed.

(** [x & ~(2^k - 1)] and [x & (2^k - 1)]. *)
Lemma land_lnot_mask x k : 0 ≤ k → Z.land x (Z.lnot (2 ^ k - 1)) = x - x mod 2 ^ k.
Proof.
  intros Hk. replace (2 ^ k - 1) with (Z.ones k) by (rewrite Z.ones_equiv; lia).
  rewrite <- Z.ldiff_land, Z.ldiff_ones_r, Z.shiftl_mul_pow2, Z.shiftr_div_pow2 by lia.
  pose proof (Z.div_mod x (2 ^ k) ltac:(apply Z.pow_nonzero; lia)). lia.
Qed.
Lemma land_mask x k : 0 ≤ k → Z.land x (2 ^ k - 1) = x mod 2 ^ k.
Proof. intros Hk. replace (2 ^ k - 1) with (Z.ones k) by (rewrite Z.ones_equiv; lia). by apply Z.land_ones. Qed.

Lemma has_bit x f k : f = 2 ^ k → 0 ≤ k → has x f = Z.testbit x k.
Proof. intros -> ?. by apply has_pow2. Qed.

Lemma if_testbit (b : bool) x i : Z.testbit (if b then x else 0) i = b && Z.testbit x i.
Proof. destruct b; [done|apply Z.bits_0]. Qed.

Lemma width_of_bits e : 0 ≤ e → (∀ i, 64 ≤ i → Z.testbit e i = false) → 0 ≤ e < 2 ^ 64.
Proof. intros ??. split; [done|]. apply bound_by_bits; lia || done. Qed.

Lemma frame_testbit `{Paging} pa i :
  frame pa → 0 ≤ i → i < 12 ∨ phys_bits ≤ i → Z.testbit pa i = false.
Proof.
  intros [Hr Ha] Hi [?|?]; [by apply (aligned_testbit pa 12)|by apply (small_testbit pa phys_bits)].
Qed.
