(* ===== verification/PagingX86.v ===== *)
(** * x86-64 page-table entries: [arch/x86/include/asm/page.h] *)

From S2P Require Import Prelude Pmm Paging.

Definition PTE_P : Z := 0x001.
Definition PTE_W : Z := 0x002.
Definition PTE_U : Z := 0x004.
Definition PTE_PWT : Z := 0x008.
Definition PTE_PCD : Z := 0x010.
Definition PTE_PS : Z := 0x080.
Definition PTE_NX : Z := Z.shiftl 1 63.
Definition PTE_ADDR_MASK : Z := 0x000FFFFFFFFFF000.
Definition PTE_PAT_PAGE : Z := PTE_PS.
Definition PTE_PAT_LARGE : Z := Z.shiftl 1 12.

Definition pte_addr (pte : Z) : Z := Z.land pte PTE_ADDR_MASK.
Definition pte_is_block (entry : Z) : bool := has entry PTE_PS.
Definition make_pte_table (pa : Z) : Z := Z.lor (Z.lor (Z.lor pa PTE_P) PTE_W) PTE_U.
Definition make_pte_page (pa perm : Z) : Z :=
  Z.lor (Z.lor (Z.lor (Z.lor (Z.lor pa PTE_P)
    (if has perm VM_WRITE then PTE_W else 0))
    (if has perm VM_USER then PTE_U else 0))
    (if has perm VM_NOCACHE then Z.lor PTE_PCD PTE_PWT else 0))
    (if has perm VM_NOEXEC then PTE_NX else 0).
Definition split_page_entry (entry pa child_shift : Z) : Z :=
  let flags := Z.land entry (Z.lnot (Z.lor PTE_ADDR_MASK PTE_PS)) in
  let pat := has entry PTE_PAT_LARGE in
  let flags :=
    if PG_SHIFT <? child_shift then Z.lor flags (Z.lor PTE_PS (if pat then PTE_PAT_LARGE else 0))
    else if pat then Z.lor flags PTE_PAT_PAGE
    else flags in
  Z.lor pa flags.
Definition pte_present (entry : Z) : bool := has entry PTE_P.
Definition pte_writable (entry : Z) : bool := has entry PTE_W.
Definition pte_user (entry : Z) : bool := has entry PTE_U.
Definition pte_user_accessible (entry : Z) (write : bool) : bool :=
  pte_present entry && pte_user entry && (negb write || pte_writable entry).
Definition pte_user_table_accessible (entry : Z) (write : bool) : bool := pte_user_accessible entry write.
Definition pte_executable (entry : Z) : bool := Z.land entry PTE_NX =? 0.

Definition x86_paging : Paging := {|
  Paging.pte_present := pte_present; Paging.pte_is_block := pte_is_block;
  Paging.pte_writable := pte_writable; Paging.pte_user := pte_user;
  Paging.pte_executable := pte_executable; Paging.pte_user_accessible := pte_user_accessible;
  Paging.pte_user_table_accessible := pte_user_table_accessible; Paging.pte_addr := pte_addr;
  Paging.make_pte_table := make_pte_table; Paging.make_pte_page := make_pte_page;
  Paging.split_page_entry := split_page_entry;
  LEVEL_SHIFTS := [39; 30; 21; 12]; PT_WALK_LEVELS := 4;
  KERNEL_BASE := 0xFFFFFFFF80000000; USER_SPACE_TOP := 0x0000800000000000; phys_bits := 52 |}.

(** ** The laws *)

Lemma x86_pte_addr_testbit e i : 0 ≤ i → Z.testbit (pte_addr e) i = Z.testbit e i && ((12 <=? i) && (i <? 52)).
Proof.
  intros Hi. unfold pte_addr. change PTE_ADDR_MASK with (2 ^ 52 - 2 ^ 12).
  by rewrite Z.land_spec, mask_testbit by lia.
Qed.

(** The entry's flags are bits of it. *)
Lemma x86_present_bit e : pte_present e = Z.testbit e 0.
Proof. by apply has_bit. Qed.
Lemma x86_writable_bit e : pte_writable e = Z.testbit e 1.
Proof. by apply has_bit. Qed.
Lemma x86_user_bit e : pte_user e = Z.testbit e 2.
Proof. by apply has_bit. Qed.
Lemma x86_block_bit e : pte_is_block e = Z.testbit e 7.
Proof. by apply has_bit. Qed.
Lemma x86_executable_bit e : pte_executable e = negb (Z.testbit e 63).
Proof. unfold pte_executable. rewrite <- (negb_involutive (_ =? 0)). f_equal. by apply has_bit. Qed.

(** Reduce the predicates of an entry to the bits of what it is made of. *)
Ltac entry_bits lem pa :=
  unfold pte_user_table_accessible, pte_user_accessible;
  rewrite ?x86_present_bit, ?x86_writable_bit, ?x86_user_bit, ?x86_block_bit, ?x86_executable_bit, ?lem by lia;
  rewrite ?(frame_testbit pa) by (done || lia || (simpl; lia)); simpl.

Lemma x86_make_pte_table_testbit pa i :
  0 ≤ i → Z.testbit (make_pte_table pa) i = Z.testbit pa i || (i =? 0) || (i =? 1) || (i =? 2).
Proof.
  intros Hi. unfold make_pte_table. change PTE_P with (2 ^ 0). change PTE_W with (2 ^ 1). change PTE_U with (2 ^ 2).
  by rewrite !Z.lor_spec, !pow2_testbit by lia.
Qed.

Lemma x86_make_pte_page_testbit pa perm i :
  0 ≤ i → Z.testbit (make_pte_page pa perm) i =
    Z.testbit pa i || (i =? 0) || has perm VM_WRITE && (i =? 1) || has perm VM_USER && (i =? 2) ||
    has perm VM_NOCACHE && ((i =? 4) || (i =? 3)) || has perm VM_NOEXEC && (i =? 63).
Proof.
  intros Hi. unfold make_pte_page. change PTE_P with (2 ^ 0). change PTE_W with (2 ^ 1). change PTE_U with (2 ^ 2).
  change PTE_PCD with (2 ^ 4). change PTE_PWT with (2 ^ 3). change PTE_NX with (2 ^ 63).
  by rewrite !Z.lor_spec, !if_testbit, !Z.lor_spec, !pow2_testbit by lia.
Qed.

Lemma x86_split_testbit e pa cs i :
  0 ≤ i → Z.testbit (split_page_entry e pa cs) i =
    Z.testbit pa i || Z.testbit e i && negb ((12 <=? i) && (i <? 52)) && negb (i =? 7) ||
    (12 <? cs) && ((i =? 7) || Z.testbit e 12 && (i =? 12)) || negb (12 <? cs) && Z.testbit e 12 && (i =? 7).
Proof.
  intros Hi. unfold split_page_entry. rewrite (has_bit e PTE_PAT_LARGE 12) by done.
  unfold PTE_PAT_PAGE, PG_SHIFT. change PTE_ADDR_MASK with (2 ^ 52 - 2 ^ 12).
  change PTE_PS with (2 ^ 7). change PTE_PAT_LARGE with (2 ^ 12).
  rewrite Z.lor_spec. destruct (12 <? cs); [|destruct (Z.testbit e 12)];
    rewrite ?Z.lor_spec, ?if_testbit, Z.land_spec, Z.lnot_spec, Z.lor_spec, mask_testbit, ?pow2_testbit by lia;
    rewrite negb_orb; simpl; rewrite ?orb_false_r, ?orb_assoc, ?andb_assoc; done.
Qed.

Section laws.
Existing Instance x86_paging.

Lemma x86_addr_of_bits e pa :
  frame pa → (∀ i, 12 ≤ i < 52 → Z.testbit e i = Z.testbit pa i) → pte_addr e = pa.
Proof.
  intros Hf Hb. apply Z.bits_inj'. intros i Hi. rewrite x86_pte_addr_testbit by done.
  destruct (Z.leb_spec 12 i), (Z.ltb_spec i 52); simpl; rewrite ?andb_true_r, ?andb_false_r; auto;
    symmetry; apply frame_testbit; simpl; lia || done.
Qed.

Lemma table_entry_x86 pa : frame pa →
  pte_present (make_pte_table pa) = true ∧ pte_is_block (make_pte_table pa) = false ∧
  pte_addr (make_pte_table pa) = pa ∧ ∀ w, pte_user_table_accessible (make_pte_table pa) w = true.
Proof.
  intros Hf. split_and!; [by entry_bits x86_make_pte_table_testbit pa..| |].
  - apply x86_addr_of_bits; [done|]. intros i Hi. rewrite x86_make_pte_table_testbit by lia.
    case_bool; try lia. by rewrite !orb_false_r.
  - intros w. entry_bits x86_make_pte_table_testbit pa. by destruct w.
Qed.

Lemma page_entry_x86 pa perm : frame pa →
  let e := make_pte_page pa perm in
  pte_present e = true ∧ pte_addr e = pa ∧ pte_writable e = has perm VM_WRITE ∧
  pte_user e = has perm VM_USER ∧ pte_executable e = negb (has perm VM_NOEXEC) ∧
  ∀ w, pte_user_accessible e w = has perm VM_USER && (negb w || has perm VM_WRITE).
Proof.
  intros Hf e. subst e. split_and!.
  2:{ apply x86_addr_of_bits; [done|]. intros i Hi. rewrite x86_make_pte_page_testbit by lia.
      case_bool; try lia. by rewrite !andb_false_r, !orb_false_r. }
  all: try intros w; entry_bits x86_make_pte_page_testbit pa; rewrite ?andb_false_r, ?andb_true_r, ?orb_false_r, ?orb_true_r; done.
Qed.

Lemma split_entry_x86 e pa cs : 0 ≤ e < 2 ^ 64 → pte_present e = true → pte_is_block e = true →
  frame pa → 12 ≤ cs → (2 ^ cs | pa) →
  let e' := split_page_entry e pa cs in
  pte_present e' = true ∧ (12 < cs → pte_is_block e' = true) ∧
  Z.land (pte_addr e') (Z.lnot (2 ^ cs - 1)) = pa ∧
  pte_writable e' = pte_writable e ∧ pte_executable e' = pte_executable e ∧
  ∀ w, pte_user_accessible e' w = pte_user_accessible e w.
Proof.
  intros He Hp Hb Hf Hcs Hal e'. subst e'. split_and!.
  - revert Hp. entry_bits x86_split_testbit pa. rewrite !andb_false_r, !orb_false_r, !andb_true_r. done.
  - intros H. entry_bits x86_split_testbit pa. rewrite (proj2 (Z.ltb_lt 12 cs)) by lia. by rewrite orb_true_r.
  - apply Z.bits_inj'. intros i Hi. rewrite Z.land_spec, lnot_mask_testbit, x86_pte_addr_testbit, x86_split_testbit by lia.
    destruct (Z.leb_spec cs i); rewrite ?andb_false_r; [|by rewrite (aligned_testbit pa cs) by (done || lia)].
    destruct (Z.ltb_spec i 52); rewrite ?andb_false_r; simpl; [|symmetry; apply frame_testbit; simpl; lia || done].
    case_bool; try lia; simpl; by rewrite ?andb_false_r, ?orb_false_r, ?andb_true_r.
  - entry_bits x86_split_testbit pa. by rewrite !andb_false_r, !orb_false_r, !andb_true_r.
  - entry_bits x86_split_testbit pa. by rewrite !andb_false_r, !orb_false_r, !andb_true_r.
  - intros w. entry_bits x86_split_testbit pa. by rewrite !andb_false_r, !orb_false_r, !andb_true_r.
Qed.

Lemma x86_laws : PagingLaws.
Proof.
  constructor; [done| |apply table_entry_x86|apply page_entry_x86|apply split_entry_x86|..].
  - intros e He. split; [split|]; simpl.
    + apply Z.land_nonneg. lia.
    + apply bound_by_bits; [done|apply Z.land_nonneg; lia|]. intros i Hi. rewrite x86_pte_addr_testbit by lia.
      destruct (Z.ltb_spec i 52); [lia|]. by rewrite !andb_false_r.
    + apply aligned_by_bits; [done|]. intros i Hi. rewrite x86_pte_addr_testbit by lia.
      destruct (Z.leb_spec 12 i); [lia|]. by rewrite andb_false_r.
  - intros pa perm e cs Hf He. pose proof (frame_testbit pa) as Hpa. simpl in *. split.
    + apply width_of_bits.
      * unfold make_pte_table. rewrite !Z.lor_nonneg. by destruct Hf as [[? ?] ?]; split_and!.
      * intros i Hi. rewrite x86_make_pte_table_testbit, Hpa by (auto; lia). case_bool; lia || done.
    + split; apply width_of_bits.
      * unfold make_pte_page. rewrite !Z.lor_nonneg. destruct Hf as [[? ?] ?]. split_and!; try case_match; done.
      * intros i Hi. rewrite x86_make_pte_page_testbit, Hpa by (auto; lia). case_bool; try lia; by rewrite ?andb_false_r.
      * unfold split_page_entry. apply Z.lor_nonneg. destruct Hf as [[? ?] ?].
        repeat case_match; rewrite ?Z.lor_nonneg, ?Z.land_nonneg; split_and!; lia || done.
      * intros i Hi. rewrite x86_split_testbit, Hpa, (small_testbit e 64) by (auto; lia).
        case_bool; try lia; by rewrite ?andb_false_r.
  - intros i s t. unfold walk_shifts. simpl. do 4 (destruct i as [|i]; [naive_solver|]). done.
  - done.
  - intros s Hs. unfold walk_shifts in Hs. simpl in *. set_solver by lia.
  - simpl. lia.
  - intros e. simpl. unfold pte_user_accessible. by destruct (pte_present e), (pte_user e).
  - intros e. simpl. unfold pte_user_table_accessible, pte_user_accessible. by destruct (pte_present e), (pte_user e).
  - done.
Qed.
End laws.
