(* ===== verification/PagingAArch64.v ===== *)
(** * AArch64 page-table entries: [arch/aarch64/include/asm/page.h] *)

From S2P Require Import Prelude Pmm Paging.

Definition PTE_VALID : Z := Z.shiftl 1 0.
Definition PTE_TABLE : Z := Z.shiftl 1 1.
Definition PTE_BLOCK : Z := Z.shiftl 0 1.
Definition PTE_PAGE : Z := Z.shiftl 1 1.
Definition PTE_AF : Z := Z.shiftl 1 10.
Definition PTE_ATTR_DEVICE : Z := Z.shiftl 1 2.
Definition PTE_AP_USER : Z := Z.shiftl 1 6.
Definition PTE_AP_READ_ONLY : Z := Z.shiftl 1 7.
Definition PTE_AP_TABLE_NO_USER : Z := Z.shiftl 1 61.
Definition PTE_AP_TABLE_READ_ONLY : Z := Z.shiftl 1 62.
Definition PTE_TYPE_MASK : Z := Z.lor PTE_VALID PTE_TABLE.
Definition PTE_ADDR_MASK : Z := 0x0000FFFFFFFFF000.
Definition PTE_UXN : Z := Z.shiftl 1 54.
Definition PTE_PXN : Z := Z.shiftl 1 53.

Definition pte_addr (pte : Z) : Z := Z.land pte PTE_ADDR_MASK.
Definition pte_is_block (entry : Z) : bool := Z.land entry PTE_TYPE_MASK =? PTE_VALID.
Definition make_pte_table (pa : Z) : Z := Z.lor (Z.lor pa PTE_VALID) PTE_TABLE.
Definition make_pte_page (pa perm : Z) : Z :=
  let flags := Z.lor (Z.lor PTE_VALID PTE_PAGE) PTE_AF in
  let flags := if negb (has perm VM_WRITE) then Z.lor flags PTE_AP_READ_ONLY else flags in
  let flags := if has perm VM_USER then Z.lor flags (Z.lor PTE_AP_USER PTE_PXN) else flags in
  let flags := if has perm VM_NOEXEC then Z.lor flags (Z.lor PTE_UXN PTE_PXN) else flags in
  let flags := if has perm VM_NOCACHE then Z.lor flags PTE_ATTR_DEVICE else flags in
  Z.lor pa flags.
Definition split_page_entry (entry pa child_shift : Z) : Z :=
  let flags := Z.land entry (Z.lnot (Z.lor PTE_ADDR_MASK PTE_TYPE_MASK)) in
  Z.lor (Z.lor (Z.lor pa flags) PTE_VALID) (if child_shift =? PG_SHIFT then PTE_PAGE else PTE_BLOCK).
Definition pte_present (entry : Z) : bool := has entry PTE_VALID.
Definition pte_writable (entry : Z) : bool := Z.land entry PTE_AP_READ_ONLY =? 0.
Definition pte_user (entry : Z) : bool := has entry PTE_AP_USER.
Definition pte_user_accessible (entry : Z) (write : bool) : bool :=
  pte_present entry && pte_user entry && (negb write || pte_writable entry).
Definition pte_table_user (entry : Z) : bool := Z.land entry PTE_AP_TABLE_NO_USER =? 0.
Definition pte_table_writable (entry : Z) : bool := Z.land entry PTE_AP_TABLE_READ_ONLY =? 0.
Definition pte_user_table_accessible (entry : Z) (write : bool) : bool :=
  pte_table_user entry && (negb write || pte_table_writable entry).
Definition pte_executable (entry : Z) : bool := Z.land entry PTE_UXN =? 0.

Definition aarch64_paging : Paging := {|
  Paging.pte_present := pte_present; Paging.pte_is_block := pte_is_block;
  Paging.pte_writable := pte_writable; Paging.pte_user := pte_user;
  Paging.pte_executable := pte_executable; Paging.pte_user_accessible := pte_user_accessible;
  Paging.pte_user_table_accessible := pte_user_table_accessible; Paging.pte_addr := pte_addr;
  Paging.make_pte_table := make_pte_table; Paging.make_pte_page := make_pte_page;
  Paging.split_page_entry := split_page_entry;
  LEVEL_SHIFTS := [39; 30; 21; 12]; PT_WALK_LEVELS := 4;
  KERNEL_BASE := 0xFFFF000000000000; USER_SPACE_TOP := 0x0000800000000000; phys_bits := 48 |}.

(** ** The laws *)

Lemma lacks_bit x f k : f = 2 ^ k → 0 ≤ k → (Z.land x f =? 0) = negb (Z.testbit x k).
Proof. intros -> ?. rewrite <- has_pow2 by done. unfold has. by rewrite negb_involutive. Qed.

Lemma a64_present_bit e : pte_present e = Z.testbit e 0.
Proof. by apply has_bit. Qed.
Lemma a64_writable_bit e : pte_writable e = negb (Z.testbit e 7).
Proof. by apply lacks_bit. Qed.
Lemma a64_user_bit e : pte_user e = Z.testbit e 6.
Proof. by apply has_bit. Qed.
Lemma a64_executable_bit e : pte_executable e = negb (Z.testbit e 54).
Proof. by apply lacks_bit. Qed.
Lemma table_user_bit e : pte_table_user e = negb (Z.testbit e 61).
Proof. by apply lacks_bit. Qed.
Lemma table_writable_bit e : pte_table_writable e = negb (Z.testbit e 62).
Proof. by apply lacks_bit. Qed.
(** A block descriptor has the bits [01]. *)
Lemma a64_block_bit e : pte_is_block e = Z.testbit e 0 && negb (Z.testbit e 1).
Proof.
  unfold pte_is_block. change PTE_TYPE_MASK with (2 ^ 2 - 1). change PTE_VALID with 1. rewrite land_mask by lia.
  rewrite <- (Z.mod_pow2_bits_low e 2 0), <- (Z.mod_pow2_bits_low e 2 1) by lia.
  pose proof (Z.mod_pos_bound e (2 ^ 2) ltac:(lia)).
  assert (e mod 2 ^ 2 = 0 ∨ e mod 2 ^ 2 = 1 ∨ e mod 2 ^ 2 = 2 ∨ e mod 2 ^ 2 = 3) as [->|[->|[->| ->]]] by lia; done.
Qed.

Lemma a64_pte_addr_testbit e i : 0 ≤ i → Z.testbit (pte_addr e) i = Z.testbit e i && ((12 <=? i) && (i <? 48)).
Proof.
  intros Hi. unfold pte_addr. change PTE_ADDR_MASK with (2 ^ 48 - 2 ^ 12).
  by rewrite Z.land_spec, mask_testbit by lia.
Qed.

Lemma a64_make_pte_table_testbit pa i :
  0 ≤ i → Z.testbit (make_pte_table pa) i = Z.testbit pa i || (i =? 0) || (i =? 1).
Proof.
  intros Hi. unfold make_pte_table. change PTE_VALID with (2 ^ 0). change PTE_TABLE with (2 ^ 1).
  by rewrite !Z.lor_spec, !pow2_testbit by lia.
Qed.

Lemma lor_if_testbit (b : bool) x y i :
  Z.testbit (if b then Z.lor x y else x) i = Z.testbit x i || b && Z.testbit y i.
Proof. destruct b; [apply Z.lor_spec|by rewrite orb_false_r]. Qed.

Lemma a64_make_pte_page_testbit pa perm i :
  0 ≤ i → Z.testbit (make_pte_page pa perm) i =
    Z.testbit pa i || ((i =? 0) || (i =? 1) || (i =? 10) || negb (has perm VM_WRITE) && (i =? 7) ||
    has perm VM_USER && ((i =? 6) || (i =? 53)) || has perm VM_NOEXEC && ((i =? 54) || (i =? 53)) ||
    has perm VM_NOCACHE && (i =? 2)).
Proof.
  intros Hi. unfold make_pte_page. change PTE_VALID with (2 ^ 0). change PTE_PAGE with (2 ^ 1).
  change PTE_AF with (2 ^ 10). change PTE_AP_READ_ONLY with (2 ^ 7). change PTE_AP_USER with (2 ^ 6).
  change PTE_PXN with (2 ^ 53). change PTE_UXN with (2 ^ 54). change PTE_ATTR_DEVICE with (2 ^ 2).
  by rewrite Z.lor_spec, !lor_if_testbit, !Z.lor_spec, !pow2_testbit by lia.
Qed.

Lemma a64_split_testbit e pa cs i :
  0 ≤ i → Z.testbit (split_page_entry e pa cs) i =
    Z.testbit pa i || Z.testbit e i && negb ((12 <=? i) && (i <? 48)) && negb ((i =? 0) || (i =? 1)) ||
    (i =? 0) || (cs =? 12) && (i =? 1).
Proof.
  intros Hi. unfold split_page_entry, PG_SHIFT, PTE_TYPE_MASK. change PTE_ADDR_MASK with (2 ^ 48 - 2 ^ 12).
  change PTE_VALID with (2 ^ 0). change PTE_PAGE with (2 ^ 1). change PTE_TABLE with (2 ^ 1). change PTE_BLOCK with 0.
  rewrite !Z.lor_spec, if_testbit, Z.land_spec, Z.lnot_spec, !Z.lor_spec, mask_testbit, !pow2_testbit by lia.
  by rewrite negb_orb, andb_assoc.
Qed.

(** Reduce the predicates of an entry to the bits of what it is made of. *)
Ltac entry_bits lem pa :=
  unfold pte_user_table_accessible, pte_user_accessible;
  rewrite ?a64_present_bit, ?a64_writable_bit, ?a64_user_bit, ?a64_block_bit, ?a64_executable_bit, ?table_user_bit,
    ?table_writable_bit, ?lem by lia;
  rewrite ?(frame_testbit pa) by (done || lia || (simpl; lia)); simpl;
  rewrite ?andb_false_r, ?orb_false_r, ?andb_true_r, ?orb_true_r, ?negb_involutive.

Section laws.
Existing Instance aarch64_paging.

Lemma a64_addr_of_bits e pa :
  frame pa → (∀ i, 12 ≤ i < 48 → Z.testbit e i = Z.testbit pa i) → pte_addr e = pa.
Proof.
  intros Hf Hb. apply Z.bits_inj'. intros i Hi. rewrite a64_pte_addr_testbit by done.
  destruct (Z.leb_spec 12 i), (Z.ltb_spec i 48); simpl; rewrite ?andb_true_r, ?andb_false_r; auto;
    symmetry; apply frame_testbit; simpl; lia || done.
Qed.

Lemma table_entry_aarch64 pa : frame pa →
  pte_present (make_pte_table pa) = true ∧ pte_is_block (make_pte_table pa) = false ∧
  pte_addr (make_pte_table pa) = pa ∧ ∀ w, pte_user_table_accessible (make_pte_table pa) w = true.
Proof.
  intros Hf. split_and!; [by entry_bits a64_make_pte_table_testbit pa..| |].
  - apply a64_addr_of_bits; [done|]. intros i Hi. rewrite a64_make_pte_table_testbit by lia.
    case_bool; try lia. by rewrite !orb_false_r.
  - intros w. entry_bits a64_make_pte_table_testbit pa. by destruct w.
Qed.

Lemma page_entry_aarch64 pa perm : frame pa →
  let e := make_pte_page pa perm in
  pte_present e = true ∧ pte_addr e = pa ∧ pte_writable e = has perm VM_WRITE ∧
  pte_user e = has perm VM_USER ∧ pte_executable e = negb (has perm VM_NOEXEC) ∧
  ∀ w, pte_user_accessible e w = has perm VM_USER && (negb w || has perm VM_WRITE).
Proof.
  intros Hf e. subst e. split_and!.
  2:{ apply a64_addr_of_bits; [done|]. intros i Hi. rewrite a64_make_pte_page_testbit by lia.
      case_bool; try lia. by rewrite !andb_false_r, !orb_false_r. }
  all: try intros w; entry_bits a64_make_pte_page_testbit pa; done.
Qed.

Lemma split_entry_aarch64 e pa cs : 0 ≤ e < 2 ^ 64 → pte_present e = true → pte_is_block e = true →
  frame pa → 12 ≤ cs → (2 ^ cs | pa) →
  let e' := split_page_entry e pa cs in
  pte_present e' = true ∧ (12 < cs → pte_is_block e' = true) ∧
  Z.land (pte_addr e') (Z.lnot (2 ^ cs - 1)) = pa ∧
  pte_writable e' = pte_writable e ∧ pte_executable e' = pte_executable e ∧
  ∀ w, pte_user_accessible e' w = pte_user_accessible e w.
Proof.
  intros He Hp Hb Hf Hcs Hal e'. subst e'. split_and!.
  - by entry_bits a64_split_testbit pa.
  - intros H. entry_bits a64_split_testbit pa. by rewrite (proj2 (Z.eqb_neq cs 12)) by lia.
  - apply Z.bits_inj'. intros i Hi. rewrite Z.land_spec, lnot_mask_testbit, a64_pte_addr_testbit, a64_split_testbit by lia.
    destruct (Z.leb_spec cs i); rewrite ?andb_false_r; [|by rewrite (aligned_testbit pa cs) by (done || lia)].
    destruct (Z.ltb_spec i 48); rewrite ?andb_false_r; simpl; [|symmetry; apply frame_testbit; simpl; lia || done].
    case_bool; try lia; simpl; by rewrite ?andb_false_r, ?orb_false_r, ?andb_true_r.
  - by entry_bits a64_split_testbit pa.
  - by entry_bits a64_split_testbit pa.
  - intros w. unfold pte_user_accessible. rewrite Hp. by entry_bits a64_split_testbit pa.
Qed.

Lemma aarch64_laws : PagingLaws.
Proof.
  constructor; [done| |apply table_entry_aarch64|apply page_entry_aarch64|apply split_entry_aarch64|..].
  - intros e He. split; [split|]; simpl.
    + apply Z.land_nonneg. lia.
    + apply bound_by_bits; [done|apply Z.land_nonneg; lia|]. intros i Hi. rewrite a64_pte_addr_testbit by lia.
      destruct (Z.ltb_spec i 48); [lia|]. by rewrite !andb_false_r.
    + apply aligned_by_bits; [done|]. intros i Hi. rewrite a64_pte_addr_testbit by lia.
      destruct (Z.leb_spec 12 i); [lia|]. by rewrite andb_false_r.
  - intros pa perm e cs Hf He. pose proof (frame_testbit pa) as Hpa. simpl in *. split.
    + apply width_of_bits.
      * unfold make_pte_table. rewrite !Z.lor_nonneg. by destruct Hf as [[? ?] ?]; split_and!.
      * intros i Hi. rewrite a64_make_pte_table_testbit, Hpa by (auto; lia). case_bool; lia || done.
    + split; apply width_of_bits.
      * unfold make_pte_page. destruct Hf as [[? ?] ?]. rewrite Z.lor_nonneg. split; [done|].
        repeat case_match; rewrite ?Z.lor_nonneg; split_and!; done.
      * intros i Hi. rewrite a64_make_pte_page_testbit, Hpa by (auto; lia). case_bool; try lia; by rewrite ?andb_false_r.
      * unfold split_page_entry. destruct Hf as [[? ?] ?].
        repeat case_match; rewrite !Z.lor_nonneg, Z.land_nonneg; split_and!; lia || done.
      * intros i Hi. rewrite a64_split_testbit, Hpa, (small_testbit e 64) by (auto; lia).
        case_bool; try lia; by rewrite ?andb_false_r.
  - intros i s t. unfold walk_shifts. simpl. do 4 (destruct i as [|i]; [naive_solver|]). done.
  - done.
  - intros s Hs. unfold walk_shifts in Hs. simpl in *. set_solver by lia.
  - simpl. lia.
  - intros e. simpl. unfold pte_user_accessible. by destruct (pte_present e), (pte_user e).
  - intros e. simpl. unfold pte_user_table_accessible. by destruct (pte_table_user e).
  - done.
Qed.
End laws.
