(* ===== verification/PagingRiscV64.v ===== *)
(** * RISC-V Sv39 page-table entries: [arch/riscv64/include/asm/page.h] *)

From S2P Require Import Prelude Pmm Paging.

Definition PTE_V : Z := Z.shiftl 1 0.
Definition PTE_R : Z := Z.shiftl 1 1.
Definition PTE_W : Z := Z.shiftl 1 2.
Definition PTE_X : Z := Z.shiftl 1 3.
Definition PTE_U : Z := Z.shiftl 1 4.
Definition PTE_A : Z := Z.shiftl 1 6.
Definition PTE_D : Z := Z.shiftl 1 7.
Definition PTE_PPN_SHIFT : Z := 10.
Definition PTE_FLAGS_MASK : Z := Z.shiftl 1 PTE_PPN_SHIFT - 1.

Definition PTE_ADDR (pte : Z) : Z := u64 (Z.shiftl (Z.shiftr pte PTE_PPN_SHIFT) PG_SHIFT).
Definition pte_addr (pte : Z) : Z := PTE_ADDR pte.
Definition pte_is_leaf (pte : Z) : bool := has pte (Z.lor (Z.lor PTE_R PTE_W) PTE_X).
Definition pte_is_block (pte : Z) : bool := pte_is_leaf pte.
Definition make_pte_table (pa : Z) : Z := Z.lor (u64 (Z.shiftl (Z.shiftr pa PG_SHIFT) PTE_PPN_SHIFT)) PTE_V.
Definition make_pte_page (pa perm : Z) : Z :=
  Z.lor (Z.lor (Z.lor (Z.lor (Z.lor (Z.lor (Z.lor
    (u64 (Z.shiftl (Z.shiftr pa PG_SHIFT) PTE_PPN_SHIFT)) PTE_V) PTE_R) PTE_A) PTE_D)
    (if has perm VM_WRITE then PTE_W else 0))
    (if has perm VM_USER then PTE_U else 0))
    (if negb (has perm VM_NOEXEC) then PTE_X else 0).
Definition split_page_entry (entry pa child_shift : Z) : Z :=
  Z.lor (u64 (Z.shiftl (Z.shiftr pa PG_SHIFT) PTE_PPN_SHIFT)) (Z.land entry PTE_FLAGS_MASK).
Definition pte_present (entry : Z) : bool := has entry PTE_V.
Definition pte_writable (entry : Z) : bool := has entry PTE_W.
Definition pte_user (entry : Z) : bool := has entry PTE_U.
Definition pte_readable (entry : Z) : bool := has entry PTE_R.
Definition pte_executable (entry : Z) : bool := has entry PTE_X.
Definition pte_user_accessible (entry : Z) (write : bool) : bool :=
  pte_present entry && pte_user entry && pte_readable entry && (negb write || pte_writable entry).
Definition pte_user_table_accessible (entry : Z) (write : bool) : bool := true.

Definition riscv64_paging : Paging := {|
  Paging.pte_present := pte_present; Paging.pte_is_block := pte_is_block;
  Paging.pte_writable := pte_writable; Paging.pte_user := pte_user;
  Paging.pte_executable := pte_executable; Paging.pte_user_accessible := pte_user_accessible;
  Paging.pte_user_table_accessible := pte_user_table_accessible; Paging.pte_addr := pte_addr;
  Paging.make_pte_table := make_pte_table; Paging.make_pte_page := make_pte_page;
  Paging.split_page_entry := split_page_entry;
  LEVEL_SHIFTS := [30; 21; 12; 12]; PT_WALK_LEVELS := 3;
  KERNEL_BASE := 0xFFFFFFC000000000; USER_SPACE_TOP := 0x0000004000000000; phys_bits := 64 |}.

(** ** The laws *)

Lemma u64_testbit x i : 0 ≤ i → Z.testbit (u64 x) i = (i <? 64) && Z.testbit x i.
Proof.
  intros Hi. unfold u64. destruct (Z.ltb_spec i 64); [by rewrite Z.mod_pow2_bits_low by lia|].
  by rewrite Z.mod_pow2_bits_high by lia.
Qed.

Lemma rv_pte_addr_testbit e i :
  0 ≤ i → Z.testbit (pte_addr e) i = (i <? 64) && (12 <=? i) && Z.testbit e (i - 2).
Proof.
  intros Hi. unfold pte_addr, PTE_ADDR, PTE_PPN_SHIFT, PG_SHIFT. rewrite u64_testbit, Z.shiftl_spec by lia.
  destruct (Z.leb_spec 12 i); simpl; rewrite ?andb_true_r, ?andb_false_r; [|rewrite Z.testbit_neg_r by lia; by rewrite andb_false_r].
  rewrite Z.shiftr_spec by lia. do 2 f_equal. lia.
Qed.

(** The page-number field of an entry for the frame [pa]. *)
Lemma ppn_testbit pa i :
  0 ≤ i → Z.testbit (u64 (Z.shiftl (Z.shiftr pa PG_SHIFT) PTE_PPN_SHIFT)) i =
    (i <? 64) && (10 <=? i) && Z.testbit pa (i + 2).
Proof.
  intros Hi. unfold PTE_PPN_SHIFT, PG_SHIFT. rewrite u64_testbit, Z.shiftl_spec by lia.
  destruct (Z.leb_spec 10 i); simpl; rewrite ?andb_true_r, ?andb_false_r; [|rewrite Z.testbit_neg_r by lia; by rewrite andb_false_r].
  rewrite Z.shiftr_spec by lia. do 2 f_equal. lia.
Qed.

Lemma rv_present_bit e : pte_present e = Z.testbit e 0.
Proof. by apply has_bit. Qed.
Lemma readable_bit e : pte_readable e = Z.testbit e 1.
Proof. by apply has_bit. Qed.
Lemma rv_writable_bit e : pte_writable e = Z.testbit e 2.
Proof. by apply has_bit. Qed.
Lemma rv_executable_bit e : pte_executable e = Z.testbit e 3.
Proof. by apply has_bit. Qed.
Lemma rv_user_bit e : pte_user e = Z.testbit e 4.
Proof. by apply has_bit. Qed.
Lemma has_lor x f g : has x (Z.lor f g) = has x f || has x g.
Proof.
  unfold has. rewrite Z.land_lor_distr_r, <- negb_andb. f_equal.
  destruct (Z.eqb_spec (Z.land x f) 0) as [->|Hf], (Z.eqb_spec (Z.land x g) 0) as [->|Hg]; simpl;
    rewrite ?Z.lor_0_l, ?Z.lor_0_r; [done|by apply Z.eqb_neq..|].
  apply Z.eqb_neq. intros [? ?]%Z.lor_eq_0_iff. done.
Qed.
Lemma rv_block_bit e : pte_is_block e = Z.testbit e 1 || Z.testbit e 2 || Z.testbit e 3.
Proof. unfold pte_is_block, pte_is_leaf. rewrite !has_lor. do 2 f_equal; by apply has_bit. Qed.

Lemma rv_make_pte_table_testbit pa i :
  0 ≤ i → Z.testbit (make_pte_table pa) i = (i <? 64) && (10 <=? i) && Z.testbit pa (i + 2) || (i =? 0).
Proof.
  intros Hi. unfold make_pte_table. change PTE_V with (2 ^ 0). by rewrite Z.lor_spec, ppn_testbit, pow2_testbit by lia.
Qed.

Lemma rv_make_pte_page_testbit pa perm i :
  0 ≤ i → Z.testbit (make_pte_page pa perm) i =
    (i <? 64) && (10 <=? i) && Z.testbit pa (i + 2) || (i =? 0) || (i =? 1) || (i =? 6) || (i =? 7) ||
    has perm VM_WRITE && (i =? 2) || has perm VM_USER && (i =? 4) || negb (has perm VM_NOEXEC) && (i =? 3).
Proof.
  intros Hi. unfold make_pte_page. change PTE_V with (2 ^ 0). change PTE_R with (2 ^ 1). change PTE_A with (2 ^ 6).
  change PTE_D with (2 ^ 7). change PTE_W with (2 ^ 2). change PTE_U with (2 ^ 4). change PTE_X with (2 ^ 3).
  by rewrite !Z.lor_spec, !if_testbit, ppn_testbit, !pow2_testbit by lia.
Qed.

Lemma rv_split_testbit e pa cs i :
  0 ≤ i → Z.testbit (split_page_entry e pa cs) i =
    (i <? 64) && (10 <=? i) && Z.testbit pa (i + 2) || Z.testbit e i && (i <? 10).
Proof.
  intros Hi. unfold split_page_entry. rewrite Z.lor_spec, ppn_testbit, Z.land_spec by lia. do 2 f_equal.
  change PTE_FLAGS_MASK with (2 ^ 10 - 2 ^ 0). rewrite mask_testbit by lia. case_bool; lia || done.
Qed.

Ltac entry_bits lem :=
  unfold pte_user_accessible;
  rewrite ?rv_present_bit, ?readable_bit, ?rv_writable_bit, ?rv_user_bit, ?rv_block_bit, ?rv_executable_bit, ?lem by lia; simpl;
  rewrite ?andb_false_r, ?orb_false_r, ?andb_true_r, ?orb_true_r, ?negb_involutive.

Section laws.
Existing Instance riscv64_paging.

Lemma rv_addr_of_bits e pa :
  frame pa → (∀ i, 12 ≤ i < 64 → Z.testbit e (i - 2) = Z.testbit pa i) → pte_addr e = pa.
Proof.
  intros Hf Hb. apply Z.bits_inj'. intros i Hi. rewrite rv_pte_addr_testbit by done.
  destruct (Z.leb_spec 12 i), (Z.ltb_spec i 64); simpl; rewrite ?andb_true_r, ?andb_false_r; auto;
    symmetry; apply frame_testbit; simpl; lia || done.
Qed.

Lemma table_entry_riscv64 pa : frame pa →
  pte_present (make_pte_table pa) = true ∧ pte_is_block (make_pte_table pa) = false ∧
  pte_addr (make_pte_table pa) = pa ∧ ∀ w, pte_user_table_accessible (make_pte_table pa) w = true.
Proof.
  intros Hf. split_and!; [by entry_bits rv_make_pte_table_testbit..| |done].
  apply rv_addr_of_bits; [done|]. intros i Hi. rewrite rv_make_pte_table_testbit by lia.
  replace (i - 2 + 2) with i by lia. case_bool; try lia. by rewrite !orb_false_r.
Qed.

Lemma page_entry_riscv64 pa perm : frame pa →
  let e := make_pte_page pa perm in
  pte_present e = true ∧ pte_addr e = pa ∧ pte_writable e = has perm VM_WRITE ∧
  pte_user e = has perm VM_USER ∧ pte_executable e = negb (has perm VM_NOEXEC) ∧
  ∀ w, pte_user_accessible e w = has perm VM_USER && (negb w || has perm VM_WRITE).
Proof.
  intros Hf e. subst e. split_and!.
  2:{ apply rv_addr_of_bits; [done|]. intros i Hi. rewrite rv_make_pte_page_testbit by lia.
      replace (i - 2 + 2) with i by lia. case_bool; try lia. by rewrite !andb_false_r, !orb_false_r. }
  all: try intros w; entry_bits rv_make_pte_page_testbit; done.
Qed.

Lemma split_entry_riscv64 e pa cs : 0 ≤ e < 2 ^ 64 → pte_present e = true → pte_is_block e = true →
  frame pa → 12 ≤ cs → (2 ^ cs | pa) →
  let e' := split_page_entry e pa cs in
  pte_present e' = true ∧ (12 < cs → pte_is_block e' = true) ∧
  Z.land (pte_addr e') (Z.lnot (2 ^ cs - 1)) = pa ∧
  pte_writable e' = pte_writable e ∧ pte_executable e' = pte_executable e ∧
  ∀ w, pte_user_accessible e' w = pte_user_accessible e w.
Proof.
  intros He Hp Hb Hf Hcs Hal e'. subst e'. rewrite rv_present_bit in Hp. rewrite rv_block_bit in Hb. split_and!.
  - by entry_bits rv_split_testbit.
  - intros _. by entry_bits rv_split_testbit.
  - rewrite (rv_addr_of_bits _ pa); [|done|].
    + rewrite land_lnot_mask by lia. rewrite (proj2 (Z.mod_divide pa (2 ^ cs) ltac:(apply Z.pow_nonzero; lia))) by done. lia.
    + intros i Hi. rewrite rv_split_testbit by lia. replace (i - 2 + 2) with i by lia.
      case_bool; try lia. by rewrite !andb_false_r, !orb_false_r.
  - by entry_bits rv_split_testbit.
  - by entry_bits rv_split_testbit.
  - intros w. by entry_bits rv_split_testbit.
Qed.

Lemma riscv64_laws : PagingLaws.
Proof.
  constructor; [done| |apply table_entry_riscv64|apply page_entry_riscv64|apply split_entry_riscv64|..].
  - intros e He. split; [split|]; simpl; [apply u64_range..|].
    apply aligned_by_bits; [done|]. intros i Hi. rewrite rv_pte_addr_testbit by lia.
    destruct (Z.leb_spec 12 i); [lia|]. by rewrite andb_false_r.
  - intros pa perm e cs Hf He. simpl in *. pose proof (u64_range (Z.shiftl (Z.shiftr pa PG_SHIFT) PTE_PPN_SHIFT)) as [Hu _].
    split_and!; try apply width_of_bits.
    all: try (intros i Hi; rewrite ?rv_make_pte_table_testbit, ?rv_make_pte_page_testbit, ?rv_split_testbit by lia;
      case_bool; try lia; by rewrite ?andb_false_r).
    all: unfold make_pte_table, make_pte_page, split_page_entry; rewrite ?Z.lor_nonneg, ?Z.land_nonneg; split_and!;
      try case_match; lia || done.
  - intros i s t. unfold walk_shifts. simpl. do 3 (destruct i as [|i]; [naive_solver|]). done.
  - done.
  - intros s Hs. unfold walk_shifts in Hs. simpl in *. set_solver by lia.
  - simpl. lia.
  - intros e. simpl. unfold pte_user_accessible. by destruct (pte_present e), (pte_user e), (pte_readable e).
  - intros e. simpl. done.
  - done.
Qed.
End laws.
