(* ===== verification/SwapSlots.v ===== *)
(** * Swap slots

    The slot bitmap and the non-present entries of [kernel/mm/swap.cpp]
    (class [State]): [occupied], [set_occupied], [allocated_slot],
    [reserve_slot], [swap::release_entry], and the device types of
    [kernel/block/blk.h]. *)

From S2P Require Import Prelude Pmm Paging.

(** [blk::DeviceType] *)
Inductive DeviceType : Set := DT_None | DT_Disk | DT_Swap.
#[export] Instance DeviceType_eq_dec : EqDecision DeviceType.
Proof. solve_decision. Defined.

(** The static members of [State]: the device (its type), the bitmap (a
    [KernelBuffer] of bytes), the exclusive bound of the slots and the slot
    the next search starts at. *)
Record swap_state : Set := MkSwap {
  device_type : option DeviceType;
  slots : list Z;
  slot_limit : Z;
  next_slot : Z }.

Definition set_slots (l : list Z) (s : swap_state) : swap_state :=
  MkSwap (device_type s) l (slot_limit s) (next_slot s).
Definition set_next_slot (n : Z) (s : swap_state) : swap_state :=
  MkSwap (device_type s) (slots s) (slot_limit s) n.

Definition MAX_OFFSET_LIMIT : Z := Z.shiftl 1 24.
Definition ENTRY_HAS_PERMISSIONS : Z := 0x80.
Definition ENTRY_WRITE : Z := 0x02.
Definition ENTRY_EXECUTE : Z := 0x04.
Definition ENTRY_SLOT_MASK : Z := Z.shiftl (MAX_OFFSET_LIMIT - 1) 8.
Definition ENTRY_FLAGS : Z := Z.lor (Z.lor ENTRY_HAS_PERMISSIONS ENTRY_WRITE) ENTRY_EXECUTE.

(** Reading or writing past the buffer is a wild access. *)
Definition byte_at (slot : Z) : M swap_state Z :=
  s <- get;; deref (slots s !! Z.to_nat (slot / 8)).
Definition occupied (slot : Z) : M swap_state bool :=
  b <- byte_at slot;; ret (has b (Z.shiftl 1 (slot mod 8))).
Definition set_occupied (slot : Z) (value : bool) : M swap_state unit :=
  let mask := u8 (Z.shiftl 1 (slot mod 8)) in
  b <- byte_at slot;;
  modify (λ s, set_slots
    (<[Z.to_nat (slot / 8) := if value then u8 (Z.lor b mask) else u8 (Z.land b (u8 (Z.lnot mask)))]> (slots s)) s).

Definition has_swap (s : swap_state) : bool :=
  bool_decide (device_type s = Some DT_Swap) && negb (bool_decide (slots s = [])).

Definition allocated_slot (entry : Z) : M swap_state Z :=
  s <- get;;
  if negb (has_swap s) || has entry (Z.lnot (Z.lor ENTRY_SLOT_MASK ENTRY_FLAGS)) ||
     negb (has entry ENTRY_HAS_PERMISSIONS)
  then ret 0
  else
    let slot := u32 (Z.shiftr entry 8) in
    if (0 <? slot) && (slot <? slot_limit s) then
      o <- occupied slot;; ret (if o then slot else 0)
    else ret 0.

(** The loop of [reserve_slot]; [n] is the number of slots left to check. *)
Fixpoint reserve_loop (n : nat) : M swap_state Z :=
  match n with
  | O => fail E_Full
  | S n =>
      s <- get;;
      let slot := next_slot s in
      let nx := u32 (next_slot s + 1) in
      put (set_next_slot (if nx =? slot_limit s then 1 else nx) s);;
      o <- occupied slot;;
      if o then reserve_loop n
      else set_occupied slot true;; ret slot
  end.
Definition reserve_slot : M swap_state Z :=
  s <- get;; ensure (has_swap s) E_NoDevice;;
  reserve_loop (Z.to_nat (slot_limit s - 1)).

Definition release_entry (entry : Z) : M swap_state unit :=
  slot <- allocated_slot entry;;
  whenM (negb (slot =? 0)) (set_occupied slot false).

(** [swapfs_init], after the device is found: the bitmap of a device of
    [block_count] blocks. *)
Definition BLOCKS_PER_PAGE : Z := PG_SIZE / 512.
Definition slot_limit_of (block_count : Z) : Z :=
  u32 (Z.min (block_count / BLOCKS_PER_PAGE + 1) MAX_OFFSET_LIMIT).
Definition init_slots (block_count : Z) : swap_state :=
  let slot_limit := slot_limit_of block_count in
  MkSwap (Some DT_Swap) (replicate (Z.to_nat ((slot_limit + 7) / 8)) 0) slot_limit 1.

(** The swap entry of a slot with the permissions of the resident page. *)
Definition swap_entry (slot : Z) (write execute : bool) : Z :=
  Z.lor (Z.lor (Z.lor (Z.shiftl slot 8) ENTRY_HAS_PERMISSIONS)
    (if write then ENTRY_WRITE else 0)) (if execute then ENTRY_EXECUTE else 0).

(** ** The set of slots in use *)

Definition used (l : list Z) (slot : Z) : bool :=
  match l !! Z.to_nat (slot / 8) with Some b => Z.testbit b (slot mod 8) | None => false end.

Record slots_wf (s : swap_state) : Prop := {
  wf_device : device_type s = Some DT_Swap;
  wf_bytes : Forall (λ b, 0 ≤ b < 2 ^ 8) (slots s);
  wf_limit : 1 < slot_limit s ≤ MAX_OFFSET_LIMIT;
  wf_length : slot_limit s ≤ 8 * Z.of_nat (length (slots s));
  wf_next : 1 ≤ next_slot s < slot_limit s }.

(** A slot number of the bitmap. *)
Definition valid_slot (s : swap_state) (slot : Z) : Prop := 1 ≤ slot < slot_limit s.

Section slots.
Context (s : swap_state) (W : slots_wf s).

Lemma slot_byte slot : valid_slot s slot → ∃ b, slots s !! Z.to_nat (slot / 8) = Some b ∧ 0 ≤ b < 2 ^ 8.
Proof.
  intros H. destruct (lookup_lt_is_Some_2 (slots s) (Z.to_nat (slot / 8))) as [b Hb].
  { pose proof (wf_length _ W). unfold valid_slot in H. pose proof (Z.div_lt_upper_bound slot 8 (Z.of_nat (length (slots s))) ltac:(lia) ltac:(lia)).
    pose proof (Z.div_pos slot 8 ltac:(lia) ltac:(lia)). lia. }
  exists b. split; [done|]. exact (Forall_lookup_1 _ _ _ _ (wf_bytes _ W) Hb).
Qed.

Lemma wf_has_swap : has_swap s = true.
Proof.
  unfold has_swap. rewrite bool_decide_eq_true_2 by apply W. rewrite bool_decide_eq_false_2; [done|].
  intros E. pose proof (wf_length _ W). pose proof (wf_limit _ W). rewrite E in *. simpl in *. lia.
Qed.

Lemma occupied_spec slot : valid_slot s slot → occupied slot s = Ret (used (slots s) slot) s.
Proof.
  intros H. destruct (slot_byte slot H) as (b & Hb & _).
  unfold occupied, byte_at, used, get, bind, deref. simpl. rewrite Hb. simpl.
  pose proof (Z.mod_pos_bound slot 8 ltac:(lia)).
  rewrite Z.shiftl_mul_pow2, Z.mul_1_l, has_pow2 by lia. done.
Qed.
End slots.

Lemma byte_mask_testbit k i : 0 ≤ k < 8 → 0 ≤ i < 8 → Z.testbit (u8 (Z.shiftl 1 k)) i = (i =? k).
Proof.
  intros. unfold u8. rewrite Z.mod_pow2_bits_low, Z.shiftl_mul_pow2, Z.mul_1_l by lia. apply pow2_testbit. lia.
Qed.

Lemma set_occupied_spec s slot v :
  slots_wf s → valid_slot s slot →
  ∃ l, set_occupied slot v s = Ret tt (set_slots l s) ∧ slots_wf (set_slots l s) ∧
    ∀ i, 0 ≤ i → used l i = if i =? slot then v else used (slots s) i.
Proof.
  intros W H. destruct (slot_byte s W slot H) as (b & Hb & Hr).
  eexists. unfold set_occupied, byte_at, get, bind, deref. simpl. rewrite Hb. simpl. split; [done|].
  set (b' := if v then _ else _). unfold valid_slot in H.
  assert (0 ≤ b' < 2 ^ 8) as Hb' by (subst b'; destruct v; apply u8_range).
  pose proof (Z.mod_pos_bound slot 8 ltac:(lia)) as Hm. pose proof (Z.div_pos slot 8 ltac:(lia) ltac:(lia)) as Hd.
  split.
  - constructor; simpl; try apply W; [|rewrite length_insert; apply W].
    apply Forall_insert; [apply W|done].
  - intros i Hi. unfold used. pose proof (Z.div_pos i 8 ltac:(lia) ltac:(lia)).
    pose proof (Z.mod_pos_bound i 8 ltac:(lia)). pose proof (Z.div_mod i 8 ltac:(lia)). pose proof (Z.div_mod slot 8 ltac:(lia)).
    destruct (decide (i / 8 = slot / 8)) as [E|E].
    + rewrite E, list_lookup_insert_eq by (by eapply lookup_lt_Some). rewrite Hb. subst b'.
      assert ((i =? slot) = (i mod 8 =? slot mod 8)) as -> by (case_bool; lia).
      destruct v; unfold u8 at 1; rewrite Z.mod_pow2_bits_low by lia;
        rewrite ?Z.lor_spec, ?Z.land_spec; [rewrite byte_mask_testbit by lia; case_bool; simpl; rewrite ?orb_true_r, ?orb_false_r; done|].
      unfold u8 at 1. rewrite Z.mod_pow2_bits_low, Z.lnot_spec, byte_mask_testbit by lia.
      case_bool; simpl; rewrite ?andb_true_r, ?andb_false_r; done.
    + rewrite list_lookup_insert_ne by lia. destruct (Z.eqb_spec i slot); [subst; done|done].
Qed.

(** ** [reserve_slot] *)

(** The slot after [c] in the round-robin order. *)
Definition after (limit c : Z) : Z := if c + 1 =? limit then 1 else c + 1.

Lemma after_iter limit c k :
  1 ≤ c < limit → Z.of_nat k < limit →
  Nat.iter k (after limit) c = if c + Z.of_nat k <? limit then c + Z.of_nat k else c + Z.of_nat k - (limit - 1).
Proof.
  intros Hc. induction k as [|k IH]; intros Hk; [simpl; case_bool; lia|].
  rewrite Nat.iter_succ, IH by lia. unfold after. case_bool; lia.
Qed.

(** The search covers every slot. *)
Lemma after_covers limit c slot :
  1 ≤ c < limit → 1 ≤ slot < limit → ∃ k, Z.of_nat k < limit - 1 ∧ Nat.iter k (after limit) c = slot.
Proof.
  intros Hc Hs. destruct (Z.leb_spec c slot).
  - exists (Z.to_nat (slot - c)). split; [lia|]. rewrite after_iter by lia. case_bool; lia.
  - exists (Z.to_nat (slot - c + (limit - 1))). split; [lia|]. rewrite after_iter by lia. case_bool; lia.
Qed.

Lemma reserve_loop_spec n : ∀ s, slots_wf s →
  (∃ slot s', reserve_loop n s = Ret slot s' ∧ valid_slot s slot ∧ slots_wf s' ∧ slot_limit s' = slot_limit s ∧
     used (slots s) slot = false ∧ ∀ i, 0 ≤ i → used (slots s') i = (i =? slot) || used (slots s) i) ∨
  (∃ s', reserve_loop n s = Fail E_Full s' ∧ slots_wf s' ∧ slot_limit s' = slot_limit s ∧ slots s' = slots s ∧
     ∀ k, (k < n)%nat → used (slots s) (Nat.iter k (after (slot_limit s)) (next_slot s)) = true).
Proof.
  induction n as [|n IH]; intros s W.
  { right. exists s. split_and!; try done. intros k ?. lia. }
  cbn [reserve_loop]. unfold get. rewrite (bind_Ret _ _ s s s) by done.
  pose proof (wf_limit _ W) as HL. pose proof (wf_next _ W) as HN. unfold MAX_OFFSET_LIMIT in HL.
  change (Z.shiftl 1 24) with (2 ^ 24) in HL. rewrite (u32_small (next_slot s + 1)) by lia. fold (after (slot_limit s) (next_slot s)).
  set (s1 := set_next_slot _ s). rewrite (bind_Ret _ _ s tt s1) by done.
  assert (slots_wf s1) as W1.
  { constructor; try apply W. simpl. unfold after. case_bool; lia. }
  rewrite (bind_Ret _ _ _ _ _ (occupied_spec s1 W1 (next_slot s) HN)). change (slots s1) with (slots s).
  destruct (used (slots s) (next_slot s)) eqn:Hu.
  - destruct (IH s1 W1) as [(slot & s' & ? & ? & ? & ? & ? & ?)|(s' & ? & ? & ? & ? & Hk)]; [left|right].
    + exists slot, s'. by split_and!.
    + exists s'. split_and!; try done. intros [|k] Hlt; [done|]. rewrite Nat.iter_succ_r. apply Hk. lia.
  - destruct (set_occupied_spec s1 (next_slot s) true W1 HN) as (l & Hs & W2 & Hl).
    rewrite (bind_Ret _ _ _ _ _ Hs). left. eexists _, _. split_and!; try done.
Qed.

(** ** Swap entries *)

Lemma swap_entry_testbit slot w x i :
  0 ≤ i → Z.testbit (swap_entry slot w x) i =
    (8 <=? i) && Z.testbit slot (i - 8) || (i =? 7) || w && (i =? 1) || x && (i =? 2).
Proof.
  intros Hi. unfold swap_entry. change ENTRY_HAS_PERMISSIONS with (2 ^ 7). change ENTRY_WRITE with (2 ^ 1).
  change ENTRY_EXECUTE with (2 ^ 2). rewrite !Z.lor_spec, !if_testbit, !pow2_testbit, Z.shiftl_spec by lia.
  destruct (Z.leb_spec 8 i); [done|]. by rewrite Z.testbit_neg_r by lia.
Qed.

(** The entry of a slot carries its number and nothing outside its fields. *)
Lemma swap_entry_fields slot w x :
  0 ≤ slot < 2 ^ 24 →
  u32 (Z.shiftr (swap_entry slot w x) 8) = slot ∧ has (swap_entry slot w x) ENTRY_HAS_PERMISSIONS = true ∧
  has (swap_entry slot w x) (Z.lnot (Z.lor ENTRY_SLOT_MASK ENTRY_FLAGS)) = false ∧
  has (swap_entry slot w x) ENTRY_WRITE = w ∧ has (swap_entry slot w x) ENTRY_EXECUTE = x.
Proof.
  intros Hs.
  assert (∀ k, k < 8 → 0 ≤ k → Z.testbit (swap_entry slot w x) k = ((k =? 7) || w && (k =? 1) || x && (k =? 2))) as Hlow.
  { intros k ??. rewrite swap_entry_testbit by lia. rewrite (proj2 (Z.leb_gt 8 k)) by lia. done. }
  split_and!.
  - replace (Z.shiftr (swap_entry slot w x) 8) with slot; [apply u32_small; lia|].
    apply Z.bits_inj'. intros i Hi. rewrite Z.shiftr_spec, swap_entry_testbit by lia.
    replace (i + 8 - 8) with i by lia. case_bool; try lia. simpl. by rewrite !andb_false_r, !orb_false_r.
  - rewrite (has_bit _ _ 7), Hlow by done. done.
  - unfold has. apply negb_false_iff, Z.eqb_eq, Z.bits_inj'. intros i Hi.
    unfold ENTRY_FLAGS, ENTRY_SLOT_MASK. change (Z.shiftl (MAX_OFFSET_LIMIT - 1) 8) with (2 ^ 32 - 2 ^ 8).
    change ENTRY_HAS_PERMISSIONS with (2 ^ 7). change ENTRY_WRITE with (2 ^ 1). change ENTRY_EXECUTE with (2 ^ 2).
    rewrite Z.land_spec, Z.lnot_spec, !Z.lor_spec, mask_testbit, !pow2_testbit, swap_entry_testbit, Z.bits_0 by lia.
    destruct (Z.ltb_spec i 32); [|rewrite (small_testbit slot 24) by lia]; case_bool; try lia; simpl;
      rewrite ?andb_false_r, ?andb_true_r, ?orb_false_r, ?orb_true_r; done.
  - rewrite (has_bit _ _ 1), Hlow by done. simpl. by rewrite andb_true_r, andb_false_r, orb_false_r.
  - rewrite (has_bit _ _ 2), Hlow by done. simpl. by rewrite andb_true_r, andb_false_r.
Qed.

Lemma allocated_slot_spec s slot w x :
  slots_wf s → valid_slot s slot →
  allocated_slot (swap_entry slot w x) s = Ret (if used (slots s) slot then slot else 0) s.
Proof.
  intros W H. pose proof (wf_limit _ W) as HL. unfold valid_slot, MAX_OFFSET_LIMIT in *.
  change (Z.shiftl 1 24) with (2 ^ 24) in HL. destruct (swap_entry_fields slot w x ltac:(lia)) as (Hslot & Hp & Hf & _).
  unfold allocated_slot, get. rewrite (bind_Ret _ _ s s s) by done. rewrite wf_has_swap, Hp, Hf, Hslot by done. simpl.
  rewrite (proj2 (Z.ltb_lt 0 slot)), (proj2 (Z.ltb_lt slot (slot_limit s))) by lia. simpl.
  rewrite (bind_Ret _ _ _ _ _ (occupied_spec s W slot H)). done.
Qed.

(** The slot an entry names. *)
Definition entry_slot (s : swap_state) (entry : Z) : option Z :=
  let slot := u32 (Z.shiftr entry 8) in
  if has_swap s && negb (has entry (Z.lnot (Z.lor ENTRY_SLOT_MASK ENTRY_FLAGS))) && has entry ENTRY_HAS_PERMISSIONS &&
     (0 <? slot) && (slot <? slot_limit s) then Some slot else None.

(** Without a device there is no bitmap; with one it is well formed. *)
Definition swap_ok (s : swap_state) : Prop := has_swap s = true → slots_wf s.

Lemma allocated_entry s entry : swap_ok s →
  allocated_slot entry s = Ret (match entry_slot s entry with Some slot => if used (slots s) slot then slot else 0 | None => 0 end) s.
Proof.
  intros W. unfold allocated_slot, entry_slot, get. rewrite (bind_Ret _ _ s s s) by done.
  destruct (has_swap s) eqn:Hs; [|done]. destruct (has entry (Z.lnot _)); [done|]. destruct (has entry ENTRY_HAS_PERMISSIONS); [|done].
  set (slot := u32 _). cbn [negb andb orb]. destruct (Z.ltb_spec 0 slot), (Z.ltb_spec slot (slot_limit s)); try done. cbn [andb].
  rewrite (bind_Ret _ _ _ _ _ (occupied_spec s (W Hs) slot ltac:(unfold valid_slot; lia))). done.
Qed.

Lemma release_entry_spec s entry : swap_ok s →
  ∃ s', release_entry entry s = Ret tt s' ∧ swap_ok s' ∧ (∀ e, entry_slot s' e = entry_slot s e) ∧
    ∀ i, 0 ≤ i → used (slots s') i = used (slots s) i && negb (bool_decide (entry_slot s entry = Some i)).
Proof.
  intros W. unfold release_entry. rewrite (bind_Ret _ _ _ _ _ (allocated_entry s entry W)).
  assert (∀ b, (∀ i, 0 ≤ i → bool_decide (entry_slot s entry = Some i) = true → used (slots s) i = false) → b = false →
    ∃ s', whenM b (set_occupied 0 false) s = Ret tt s' ∧ swap_ok s' ∧ (∀ e, entry_slot s' e = entry_slot s e) ∧
    ∀ i, 0 ≤ i → used (slots s') i = used (slots s) i && negb (bool_decide (entry_slot s entry = Some i))) as Hnone.
  { intros b Hu ->. exists s. split_and!; [done..|]. intros i Hi. specialize (Hu i Hi).
    destruct (bool_decide (entry_slot s entry = Some i)); [by rewrite Hu|by rewrite andb_true_r]. }
  destruct (entry_slot s entry) as [slot|] eqn:He; [|apply Hnone; [intros i ?; by rewrite bool_decide_eq_true|done]].
  destruct (used (slots s) slot) eqn:Hu; [|apply Hnone; [intros i ?; rewrite bool_decide_eq_true; by intros [= <-]|done]].
  unfold entry_slot in He. cbv zeta in He. destruct (_ && _) eqn:Hc in He; [|done]. injection He as Hsl. rewrite Hsl in Hc.
  apply andb_true_iff in Hc as [[[[Hs _]%andb_true_iff _]%andb_true_iff H0%Z.ltb_lt]%andb_true_iff Hlim%Z.ltb_lt].
  destruct (set_occupied_spec s slot false (W Hs) ltac:(unfold valid_slot; lia)) as (l & E & W' & Hl).
  rewrite (proj2 (Z.eqb_neq slot 0)) by lia. cbn [whenM negb]. exists (set_slots l s). split_and!; [done|by intros _| |].
  - intros e. unfold entry_slot. rewrite (wf_has_swap _ W'), Hs. done.
  - intros i Hi. cbn [slots set_slots]. rewrite Hl by done. destruct (Z.eqb_spec i slot) as [->|Hne].
    + by rewrite bool_decide_eq_true_2, andb_false_r.
    + rewrite bool_decide_eq_false_2 by congruence. by rewrite andb_true_r.
Qed.

(** ** Reservation and release *)

(** [reserve_slot] returns a slot that was free and is then in use, every other
    slot unchanged; it fails with [Full], the bitmap unchanged, exactly when
    every slot is in use. *)
Lemma reserve_slot_spec s : slots_wf s →
  (∃ slot s', reserve_slot s = Ret slot s' ∧ valid_slot s slot ∧ slots_wf s' ∧ slot_limit s' = slot_limit s ∧
     used (slots s) slot = false ∧ ∀ i, 0 ≤ i → used (slots s') i = (i =? slot) || used (slots s) i) ∨
  (∃ s', reserve_slot s = Fail E_Full s' ∧ slots_wf s' ∧ slot_limit s' = slot_limit s ∧ slots s' = slots s ∧
     ∀ i, valid_slot s i → used (slots s) i = true).
Proof.
  intros W. unfold reserve_slot, get. rewrite (bind_Ret _ _ s s s) by done. rewrite wf_has_swap by done.
  rewrite (bind_Ret _ _ s tt s) by done. pose proof (wf_next _ W).
  destruct (reserve_loop_spec (Z.to_nat (slot_limit s - 1)) s W) as [(slot & s' & ?)|(s' & Hr & W' & HL & Hs & Hk)]; [left|right].
  - by exists slot, s'.
  - exists s'. split_and!; try done. intros i Hi. unfold valid_slot in Hi.
    destruct (after_covers (slot_limit s) (next_slot s) i) as (k & ? & <-); [lia..|]. apply Hk. lia.
Qed.

(** Releasing the entry of a slot frees that slot and no other. *)
Lemma release_slot_spec s slot w x : slots_wf s → valid_slot s slot →
  ∃ s', release_entry (swap_entry slot w x) s = Ret tt s' ∧ slots_wf s' ∧ slot_limit s' = slot_limit s ∧
    ∀ i, 0 ≤ i → used (slots s') i = used (slots s) i && negb (i =? slot).
Proof.
  intros W Hv. unfold release_entry. rewrite (bind_Ret _ _ _ _ _ (allocated_slot_spec s slot w x W Hv)).
  destruct (used (slots s) slot) eqn:Hu.
  - destruct (set_occupied_spec s slot false W Hv) as (l & Hset & W' & Hl). exists (set_slots l s). unfold valid_slot in Hv.
    rewrite (proj2 (Z.eqb_neq slot 0)) by lia. split_and!; try done. intros i Hi. cbn [slots set_slots]. rewrite Hl by done.
    destruct (i =? slot); [by rewrite andb_false_r|by rewrite andb_true_r].
  - exists s. split_and!; try done. intros i Hi. destruct (Z.eqb_spec i slot) as [->|]; [by rewrite Hu|by rewrite andb_true_r].
Qed.

(** A device of 64 blocks holds eight pages: slots 1 to 8. *)
Definition ex_slots : swap_state := init_slots 64.

Lemma ex_slots_wf : slots_wf ex_slots.
Proof. constructor; try (by vm_compute). apply (bool_decide_unpack _). by vm_compute. Qed.
