(* ===== verification/PageTable.v ===== *)
(** * Page tables

    The page-table walker of [kernel/mm/pmm.cpp]: [get_pte] and
    [descend_level], [page_insert], [alloc_and_map_page], [user_address],
    [unmap_mmio_page], [free_user_pgdir].

    Physical memory is a store of 64-bit words.  The kernel reaches it through
    the direct map: a [pde_t*] (or any pointer made by [phys_to_virt]) is
    represented by the physical address it aliases, so that [table + idx] is
    [table + 8 * idx].  The specification is the hardware's walk, [translate]. *)

From S2P Require Import Prelude LibList Pmm Paging SwapSlots.

(** ** The memory manager's state *)
Record mm : Set := MkMm {
  pm : pmm;                 (** page descriptors and free list *)
  page_count : Z;           (** [Factory::page_count()] *)
  ram : gmap Z Z;           (** physical memory, 64-bit words by address *)
  cpu_root : Z;             (** the page-table root register *)
  tlb : list Z;             (** pages invalidated in the TLB, last first *)
  swp : swap_state }.

Definition with_pm (p : pmm) (s : mm) : mm := MkMm p (page_count s) (ram s) (cpu_root s) (tlb s) (swp s).
Definition with_ram (m : gmap Z Z) (s : mm) : mm := MkMm (pm s) (page_count s) m (cpu_root s) (tlb s) (swp s).
Definition with_tlb (l : list Z) (s : mm) : mm := MkMm (pm s) (page_count s) (ram s) (cpu_root s) l (swp s).
Definition with_swp (w : swap_state) (s : mm) : mm := MkMm (pm s) (page_count s) (ram s) (cpu_root s) (tlb s) w.

Definition on_pm {A} (m : M pmm A) : M mm A := zoom pm with_pm m.
Definition on_swp {A} (m : M swap_state A) : M mm A := zoom swp with_swp m.

(** The word at an address. *)
Definition word (m : gmap Z Z) (a : Z) : Z := default 0 (m !! a).
Definition rd64 (a : Z) : M mm Z := gets (λ s, word (ram s) a).
Definition wr64 (a v : Z) : M mm unit := modify (λ s, with_ram (<[a := v]> (ram s)) s).

Section pagetable.
Context `{Paging}.

Definition level_index (va shift : Z) : Z := Z.land (Z.shiftr va shift) 0x1FF.
(** [table + level_index(va, level)] *)
Definition entry_at (table va shift : Z) : Z := table + 8 * level_index va shift.

(** [arch_invalidate_tlb_page], [arch_invalidate_tlb_range] *)
Definition arch_invalidate_tlb_page (va : Z) : M mm unit := modify (λ s, with_tlb (va :: tlb s) s).
Definition arch_invalidate_tlb_range (va byte_count : Z) : M mm unit :=
  forM (seqZ 0 ((byte_count + 4095) / 4096)) (λ i, arch_invalidate_tlb_page (u64 (va + 4096 * i))).

Definition PAGE_REF_INIT : Z := 1.

(** [None] is [INVALID_TABLE_PA]. *)
Definition alloc_table_page (create : bool) : M mm (option Z) :=
  if negb create then ret None
  else
    page <- on_pm (alloc 1);;
    match page with
    | None => ret None
    | Some page =>
        on_pm (upd_page page (set_ref PAGE_REF_INIT));;
        on_pm (upd_page page set_page_table);;
        let pa := page_to_phys page in
        forM (seqZ 0 512) (λ i, wr64 (pa + 8 * i) 0);;
        ret (Some pa)
    end.

Definition free_table_page (pa : Z) : M mm unit :=
  let page := phys_to_page pa in
  pg <- on_pm (get_page page);;
  assert_ (ref_count pg =? PAGE_REF_INIT);;
  on_pm (put_page page (set_ref (ref_count pg - 1) pg));;
  on_pm (free page 1).

Definition link_table_entry (entry pa : Z) : M mm unit := wr64 entry (make_pte_table pa).

Definition descend_level (entry : Z) (create : bool) (parent_shift child_shift : Z) : M mm (option Z) :=
  e <- rd64 entry;;
  if pte_present e then
    if pte_is_block e then
      let large_pa := Z.land (pte_addr e) (Z.lnot (2 ^ parent_shift - 1)) in
      pa <- alloc_table_page create;;
      match pa with
      | None => ret None
      | Some table =>
          forM (seqZ 0 PAGE_TABLE_ENTRIES) (λ i,
            e <- rd64 entry;;
            wr64 (table + 8 * i) (split_page_entry e (u64 (large_pa + Z.shiftl i child_shift)) child_shift));;
          link_table_entry entry table;;
          ret (Some table)
      end
    else ret (Some (pte_addr e))
  else
    pa <- alloc_table_page create;;
    match pa with
    | None => ret None
    | Some table => link_table_entry entry table;; ret (Some table)
    end.

(** The loop of [get_pte] over the levels' shifts. *)
Fixpoint get_pte_loop (shifts : list Z) (table va : Z) (create : bool) : M mm (option Z) :=
  match shifts with
  | [] => ret None
  | shift :: rest =>
      match rest with
      | [] => ret (Some (entry_at table va shift))
      | child_shift :: _ =>
          t <- descend_level (entry_at table va shift) create shift child_shift;;
          match t with
          | None => ret None
          | Some t => get_pte_loop rest t va create
          end
      end
  end.
Definition get_pte (pgdir va : Z) (create : bool) : M mm (option Z) :=
  get_pte_loop walk_shifts pgdir va create.

Definition invalidate_tlb_page (pgdir va : Z) : M mm unit :=
  s <- get;; whenM (cpu_root s =? pgdir) (arch_invalidate_tlb_page va).

Definition page_insert (pgdir page va perm : Z) : M mm unit :=
  ptep <- get_pte pgdir va true;;
  match ptep with
  | None => fail E_NoMem
  | Some ptep =>
      e <- rd64 ptep;; ensure (negb (pte_present e)) E_Exists;;
      on_pm (upd_page page (λ pg, set_ref (s32 (ref_count pg + 1)) pg));;
      wr64 ptep (make_pte_page (page_to_phys page) perm);;
      invalidate_tlb_page pgdir va
  end.

Definition alloc_and_map_page (pgdir va perm : Z) : M mm (option Z) :=
  page <- on_pm (alloc 1);;
  match page with
  | None => ret None
  | Some page =>
      r <- try_ (page_insert pgdir page va perm);;
      match r with
      | inr _ => on_pm (free page 1);; ret None
      | inl _ => ret (Some page)
      end
  end.

(** The walk of [user_address]; the result is the physical address the
    returned kernel pointer aliases. *)
Fixpoint user_walk (shifts : list Z) (table user_va : Z) (write : bool) : M mm Z :=
  match shifts with
  | [] => fail E_Invalid
  | shift :: rest =>
      entry <- rd64 (entry_at table user_va shift);;
      ensure (pte_present entry) E_Invalid;;
      if bool_decide (rest = []) || pte_is_block entry then
        ensure (pte_user_accessible entry write) E_Invalid;;
        let mask := 2 ^ shift - 1 in
        ret (Z.land (pte_addr entry) (Z.lnot mask) + Z.land user_va mask)
      else
        ensure (pte_user_table_accessible entry write) E_Invalid;;
        user_walk rest (pte_addr entry) user_va write
  end.
Definition user_address (pgdir : option Z) (user_va : Z) (write : bool) : M mm Z :=
  match pgdir with
  | None => fail E_Invalid
  | Some pgdir =>
      ensure ((PG_SIZE <=? user_va) && (user_va <? USER_SPACE_TOP)) E_Invalid;;
      user_walk walk_shifts pgdir user_va write
  end.

(** [unmap_mmio_page]: descend to the leaf, remembering for each table below
    the root the entry that points to it (innermost first). *)
Fixpoint mmio_walk (shifts : list Z) (table va : Z) (path : list (Z * Z)) : M mm (list (Z * Z) * option Z) :=
  match shifts with
  | [] => ret (path, None)
  | shift :: rest =>
      let entry := entry_at table va shift in
      match rest with
      | [] => ret (path, Some entry)
      | _ =>
          e <- rd64 entry;;
          if negb (pte_present e) || pte_is_block e then ret (path, None)
          else mmio_walk rest (pte_addr e) va ((pte_addr e, entry) :: path)
      end
  end.

Definition table_empty (m : gmap Z Z) (table : Z) : bool :=
  forallb (λ i, word m (table + 8 * i) =? 0) (seqZ 0 PAGE_TABLE_ENTRIES).

Fixpoint prune_tables (path : list (Z * Z)) (va : Z) : M mm unit :=
  match path with
  | [] => ret tt
  | (table, entry) :: path =>
      s <- get;; e <- rd64 entry;;
      let pa := pte_addr e in
      if negb (table_empty (ram s) table) || (page_count s <=? Z.shiftr pa PG_SHIFT) then ret tt
      else
        pg <- on_pm (get_page (phys_to_page pa));;
        if negb (is_page_table pg) || is_reserved pg then ret tt
        else
          wr64 entry 0;;
          arch_invalidate_tlb_range va PG_SIZE;;
          free_table_page pa;;
          prune_tables path va
  end.

Definition unmap_mmio_page (pgdir va : Z) : M mm unit :=
  r <- mmio_walk walk_shifts pgdir va [];;
  match snd r with
  | Some leaf => wr64 leaf 0;; arch_invalidate_tlb_range va PG_SIZE
  | None => ret tt
  end;;
  prune_tables (fst r) va.

Definition ENTRY_NUM : Z := 512.

(** Drop a user mapping of the page at [pa]. *)
Definition release_user_page (pa : Z) : M mm unit :=
  let page := phys_to_page pa in
  pg <- on_pm (get_page page);;
  let r := if 0 <? ref_count pg then ref_count pg - 1 else ref_count pg in
  on_pm (put_page page (set_ref r pg));;
  whenM (r =? 0) (on_pm (on_nodes (unlink (PageNode page)));; on_pm (free page 1)).

Fixpoint free_user_pt_subtree (depth : nat) (table : Z) : M mm unit :=
  forM (seqZ 0 ENTRY_NUM) (λ i,
    entry <- rd64 (table + 8 * i);;
    if negb (pte_present entry) then
      match depth with
      | O => whenM (negb (entry =? 0)) (on_swp (release_entry entry))
      | S _ => ret tt
      end
    else
      match depth with
      | O => release_user_page (pte_addr entry)
      | S depth =>
          if pte_is_block entry then ret tt
          else free_user_pt_subtree depth (pte_addr entry);; free_table_page (pte_addr entry)
      end).

Definition USER_PT_SUBTREE_DEPTH : nat := PT_WALK_LEVELS - 2.

Definition free_user_pgdir (pgdir : Z) : M mm unit :=
  forM (seqZ 0 USER_TOP_ENTRIES) (λ i,
    entry <- rd64 (pgdir + 8 * i);;
    if negb (pte_present entry) || pte_is_block entry then ret tt
    else
      free_user_pt_subtree USER_PT_SUBTREE_DEPTH (pte_addr entry);;
      free_table_page (pte_addr entry));;
  on_pm (kfree KERNEL_BASE (u64 (pgdir + KERNEL_BASE))).

(** ** The hardware's walk *)

(** A translation: the physical address, and what user code may do with it. *)
Record tr : Set := MkTr { tr_pa : Z; tr_read : bool; tr_write : bool; tr_exec : bool }.

Definition restrict (e : Z) (t : tr) : tr :=
  MkTr (tr_pa t) (pte_user_table_accessible e false && tr_read t)
    (pte_user_table_accessible e true && tr_write t) (tr_exec t).

Definition leaf_tr (e va shift : Z) : tr :=
  MkTr (Z.land (pte_addr e) (Z.lnot (2 ^ shift - 1)) + Z.land va (2 ^ shift - 1))
    (pte_user_accessible e false) (pte_user_accessible e true) (pte_executable e).

Fixpoint walk (shifts : list Z) (m : gmap Z Z) (table va : Z) : option tr :=
  match shifts with
  | [] => None
  | shift :: rest =>
      let e := word m (entry_at table va shift) in
      if pte_present e then
        if bool_decide (rest = []) || pte_is_block e then Some (leaf_tr e va shift)
        else restrict e <$> walk rest m (pte_addr e) va
      else None
  end.
Definition translate (m : gmap Z Z) (root va : Z) : option tr := walk walk_shifts m root va.
End pagetable.
