(* ===== verification/PageTableProofs.v ===== *)
(** * Correctness of the page-table walker

    The tables of an address space form a tree ([table_at]); the invariant
    [pt_wf] says that no table is reached by two paths and that no table is a
    free page.  Under it, creating and splitting tables changes no translation,
    and writing a leaf entry changes the translation of its page only. *)

From S2P Require Import Prelude LibList Pmm PmmProofs Paging SwapSlots PageTable.

#[local] Arguments forM : simpl never.
#[local] Arguments seqZ : simpl never.

Section proofs.
Context `{PL : PagingLaws}.
Implicit Types (m : gmap Z Z) (p q : list Z).

(** ** The tree of tables *)

Fixpoint table_at m (t : Z) p : option Z :=
  match p with
  | [] => Some t
  | i :: p =>
      let e := word m (t + 8 * i) in
      if pte_present e && negb (pte_is_block e) then table_at m (pte_addr e) p else None
  end.

(** The path of a table: an index for each level above its own. *)
Definition vpath p : Prop := Forall (λ i, 0 ≤ i < 512) p ∧ (length p < length walk_shifts)%nat.

Record pt_wf (s : mm) (rs : list (Z * Z)) (root : Z) : Prop := {
  wf_rep : pmm_rep (pm s) rs;
  wf_words : ∀ a, 0 ≤ word (ram s) a < 2 ^ 64;
  wf_frames : ∀ i, i ∈ free_pages rs → frame (i * PG_SIZE);
  wf_tables : ∀ p a, vpath p → table_at (ram s) root p = Some a → frame a ∧ phys_to_page a ∉ free_pages rs;
  wf_tree : ∀ p q a, vpath p → vpath q →
    table_at (ram s) root p = Some a → table_at (ram s) root q = Some a → p = q }.

Lemma table_at_app m t p q : table_at m t (p ++ q) = table_at m t p ≫= λ a, table_at m a q.
Proof. revert t. induction p as [|i p IH]; intros t; [done|]. simpl. case_match; [apply IH|done]. Qed.

Lemma vpath_app p q : vpath (p ++ q) → vpath p.
Proof. intros [[? _]%Forall_app ?]. split; [done|]. rewrite length_app in *. lia. Qed.

Lemma vpath_index p i q : vpath (p ++ i :: q) → 0 ≤ i < 512.
Proof. intros [[_ Hi]%Forall_app _]. by inversion_clear Hi. Qed.

Lemma level_index_range va s : 0 ≤ level_index va s < 512.
Proof.
  unfold level_index. change 0x1FF with (2 ^ 9 - 1). rewrite land_mask by lia. by apply Z.mod_pos_bound.
Qed.
Lemma level_index_eq va s : 0 ≤ s → level_index va s = va / 2 ^ s mod 512.
Proof.
  intros. unfold level_index. change 0x1FF with (2 ^ 9 - 1). by rewrite land_mask, Z.shiftr_div_pow2 by lia.
Qed.

(** Entries of page-aligned tables coincide only in the same table. *)
Lemma entry_inj a b i j :
  frame a → frame b → 0 ≤ i < 512 → 0 ≤ j < 512 → a + 8 * i = b + 8 * j → a = b ∧ i = j.
Proof. intros [_ [x ->]] [_ [y ->]] ?? E. change (2 ^ 12) with 4096 in *. lia. Qed.

Lemma phys_page_entry a i : frame a → 0 ≤ i < 512 → phys_to_page (a + 8 * i) = phys_to_page a.
Proof.
  intros [_ [x ->]] ?. unfold phys_to_page, PG_SHIFT. rewrite !Z.shiftr_div_pow2 by lia.
  rewrite Z.div_add_l by lia. rewrite (Z.div_small (8 * i)) by lia. rewrite Z.div_mul by lia. lia.
Qed.

(** ** Changing one entry *)

(** [m'] has the entries of [m]'s tables but for entry [i] of the table at [p]. *)
Definition agree_except m m' (root : Z) p (i : Z) : Prop :=
  ∀ q a j, vpath q → table_at m root q = Some a → 0 ≤ j < 512 → (q, j) ≠ (p, i) →
    word m' (a + 8 * j) = word m (a + 8 * j).

Lemma table_at_agree m m' root p i q :
  agree_except m m' root p i → vpath q → ¬ (p ++ [i]) `prefix_of` q →
  table_at m' root q = table_at m root q.
Proof.
  intros Hag. induction q as [|j q IH] using rev_ind; intros Hv Hp; [done|].
  pose proof (vpath_app _ _ Hv) as Hvq. rewrite !table_at_app, IH;
    [|done|intros Hpre; apply Hp; by apply prefix_app_r].
  destruct (table_at m root q) as [a|] eqn:Ha; [simpl|done].
  assert (0 ≤ j < 512) as Hj by by apply vpath_index in Hv.
  rewrite (Hag q a j); try done. intros [= -> ->]. by apply Hp.
Qed.

Lemma walk_agree m m' root p i va :
  agree_except m m' root p i →
  (∀ pre s rest a, walk_shifts = pre ++ s :: rest → level_index va <$> pre = p → level_index va s = i →
     table_at m root p = Some a → walk (s :: rest) m' a va = walk (s :: rest) m a va) →
  translate m' root va = translate m root va.
Proof.
  intros Hag Hentry. unfold translate.
  assert (∀ post pre a, walk_shifts = pre ++ post → table_at m root (level_index va <$> pre) = Some a →
    walk post m' a va = walk post m a va) as Hgen; [|by apply (Hgen _ [])].
  induction post as [|s rest IH]; intros pre a Hsh Ha; [done|].
  assert (vpath (level_index va <$> pre)) as Hv.
  { split; [apply Forall_fmap, Forall_true; intros; apply level_index_range|].
    rewrite length_fmap, Hsh, length_app. simpl. lia. }
  destruct (decide ((level_index va <$> pre, level_index va s) = (p, i))) as [[= Hp Hi]|Hne].
  { apply (Hentry pre); [done..|]. by rewrite <- Hp. }
  simpl. unfold entry_at. rewrite (Hag _ _ _ Hv Ha (level_index_range va s) Hne).
  destruct (pte_present _) eqn:Hpr; [|done]. destruct (_ || _) eqn:Hlf; [done|]. f_equal.
  apply (IH (pre ++ [s])); [by rewrite <- app_assoc|].
  rewrite fmap_app, table_at_app, Ha. simpl. apply orb_false_iff in Hlf as [_ ->]. by rewrite Hpr.
Qed.

(** ** Filling a page *)

Lemma word_insert m a v x : word (<[a := v]> m) x = if decide (a = x) then v else word m x.
Proof. unfold word. rewrite lookup_insert. by case_decide. Qed.

(** A loop that stores [f i] in entry [i] of the page at [pa]. *)
Lemma fill_page s pa (f : Z → Z) (g : Z → M mm unit) :
  (∀ i s', 0 ≤ i < 512 → (∀ x, (∀ j, 0 ≤ j < 512 → x ≠ pa + 8 * j) → word (ram s') x = word (ram s) x) →
     g i s' = Ret tt (with_ram (<[pa + 8 * i := f i]> (ram s')) s')) →
  ∃ m', forM (seqZ 0 512) g s = Ret tt (with_ram m' s) ∧
    (∀ i, 0 ≤ i < 512 → word m' (pa + 8 * i) = f i) ∧
    (∀ x, (∀ j, 0 ≤ j < 512 → x ≠ pa + 8 * j) → word m' x = word (ram s) x).
Proof.
  intros Hg.
  destruct (forM_inv (λ d s', ∃ m', s' = with_ram m' s ∧ (∀ i, i ∈ d → word m' (pa + 8 * i) = f i) ∧
    ∀ x, (∀ j, 0 ≤ j < 512 → x ≠ pa + 8 * j) → word m' x = word (ram s) x) (seqZ 0 512) g s)
    as (s' & Hrun & m' & -> & Hin & Hout).
  - exists (ram s). split_and!; [by destruct s|set_solver|done].
  - intros d i rest s' Hl (m' & -> & Hin & Hout).
    assert (0 ≤ i < 512) as Hi.
    { assert (i ∈ seqZ 0 512) as Hi%elem_of_seqZ by (rewrite Hl; set_solver). lia. }
    rewrite Hg by done. eexists. split; [done|]. exists (<[pa + 8 * i := f i]> m'). split_and!; [done|..].
    + intros j Hj. rewrite word_insert. case_decide; [by replace j with i by lia|]. apply Hin. set_solver by lia.
    + intros x Hx. rewrite word_insert, decide_False by (by apply not_eq_sym, Hx). by apply Hout.
  - exists m'. split_and!; [done| |done]. intros i ?. apply Hin, elem_of_seqZ. lia.
Qed.

(** ** [alloc_table_page] *)

Lemma on_pm_Ret {A} (f : M pmm A) s a t : f (pm s) = Ret a t → on_pm f s = Ret a (with_pm t s).
Proof. apply zoom_Ret. Qed.

Lemma page_to_phys_frame i : frame (i * PG_SIZE) → page_to_phys i = i * PG_SIZE ∧ phys_to_page (i * PG_SIZE) = i.
Proof.
  intros [Hr _]. unfold page_to_phys, phys_to_page, PG_SHIFT, PG_SIZE in *. pose proof phys_width.
  rewrite Z.shiftl_mul_pow2, Z.shiftr_div_pow2 by lia. split; [|by apply Z.div_mul].
  apply u64_small. assert (2 ^ phys_bits ≤ 2 ^ 64) by (apply Z.pow_le_mono_r; lia). lia.
Qed.

(** What creating a table does to the allocator and to memory. *)
Record new_table (s s' : mm) (rs rs' : list (Z * Z)) (pa : Z) : Prop := {
  nt_frame : frame pa;
  nt_free : free_pages rs ≡ₚ phys_to_page pa :: free_pages rs';
  nt_rep : pmm_rep (pm s') rs';
  nt_zero : ∀ i, 0 ≤ i < 512 → word (ram s') (pa + 8 * i) = 0;
  nt_ram : ∀ x, (∀ j, 0 ≤ j < 512 → x ≠ pa + 8 * j) → word (ram s') x = word (ram s) x;
  nt_desc : ∀ i, i ∉ free_pages rs → page_desc (pm s') !! i = page_desc (pm s) !! i;
  nt_nodes : ∀ x, x ≠ FreeList → (∀ i, i ∈ free_pages rs → x ≠ PageNode i) → nodes (pm s') !! x = nodes (pm s) !! x;
  nt_ref : ref_count <$> page_desc (pm s') !! phys_to_page pa = Some 1;
  nt_ref_other : ∀ i, i ≠ phys_to_page pa → ref_count <$> page_desc (pm s') !! i = ref_count <$> page_desc (pm s) !! i;
  nt_rest : s' = MkMm (pm s') (page_count s) (ram s') (cpu_root s) (tlb s) (swp s) }.

Lemma alloc_table_page_spec s rs :
  pmm_rep (pm s) rs → (∀ i, i ∈ free_pages rs → frame (i * PG_SIZE)) →
  (rs = [] ∧ alloc_table_page true s = Ret None s) ∨
  (∃ pa s' rs', alloc_table_page true s = Ret (Some pa) s' ∧ new_table s s' rs rs' pa).
Proof.
  intros R Hfr. pose proof (alloc_spec (pm s) rs 1 R ltac:(lia)) as Hal. unfold alloc_table_page. cbn [negb].
  destruct (spec_alloc 1 rs) as [[p rs']|] eqn:Ha.
  - right. destruct Hal as (s1 & Hal & R1 & Hperm & F & _ & Href).
    change (seqZ p 1) with [p] in Hperm. 
    assert (p ∈ free_pages rs) as Hp by (rewrite Hperm; set_solver).
    destruct (page_to_phys_frame p (Hfr p Hp)) as [Hpp Hpp'].
    assert (p ∉ free_pages rs') as Hnp.
    { pose proof (rep_nodup _ _ R) as Hnd. rewrite Hperm in Hnd. by apply NoDup_cons in Hnd as [? _]. }
    destruct (rep_page _ _ R p Hp) as (pg0 & Hpg0 & Hr0).
    destruct (proj2 (proj1 (proj2 F) p) (mk_is_Some _ _ Hpg0)) as [pg Hpg].
    rewrite (bind_Ret _ _ _ _ _ (on_pm_Ret _ _ _ _ Hal)).
    erewrite bind_Ret by (apply on_pm_Ret, upd_page_Ret, Hpg).
    erewrite bind_Ret by (apply on_pm_Ret, upd_page_Ret, lookup_insert_eq). rewrite Hpp. cbn zeta.
    set (s2 := with_pm _ _).
    destruct (fill_page s2 (p * PG_SIZE) (λ _, 0) (λ i, wr64 (p * PG_SIZE + 8 * i) 0)) as (m' & Hm' & Hz & Ho); [done|].
    exists (p * PG_SIZE), (with_ram m' s2), rs'. rewrite (bind_Ret _ _ _ _ _ Hm'). split; [done|].
    constructor; rewrite ?Hpp'; simpl; try done; try (by apply Hfr).
    + rewrite insert_insert_eq. by eapply (rep_upd_page s1).
    + intros i Hi. rewrite !lookup_insert_ne by (intros ->; done). by apply F.
    + apply F.
    + by rewrite lookup_insert_eq.
    + intros i Hi. by rewrite !lookup_insert_ne by done.
  - left. unfold on_pm. rewrite (bind_Ret _ _ _ None s). 2:{ erewrite zoom_Ret by exact Hal. by destruct s. }
    split; [|done]. destruct rs as [|[p k] rs]; [done|].
    pose proof (proj1 (spec_alloc_None 1 _) Ha p k ltac:(set_solver)). pose proof (rep_pos _ _ R p k ltac:(set_solver)). lia.
Qed.
(** ** Steps that keep every translation *)

Record pt_step (root : Z) (s s' : mm) (rs rs' : list (Z * Z)) : Prop := {
  st_wf : pt_wf s' rs' root;
  st_tr : ∀ va, translate (ram s') root va = translate (ram s) root va;
  st_tables : ∀ q a, vpath q → table_at (ram s) root q = Some a → table_at (ram s') root q = Some a;
  st_new : ∀ q a, vpath q → table_at (ram s') root q = Some a →
    table_at (ram s) root q = Some a ∨
    phys_to_page a ∈ free_pages rs ∧ ref_count <$> page_desc (pm s') !! phys_to_page a = Some 1;
  st_links : ∀ q i t a, vpath (q ++ [i]) → table_at (ram s') root q = Some t → table_at (ram s') root (q ++ [i]) = Some a →
    table_at (ram s) root (q ++ [i]) = Some a ∧ word (ram s') (t + 8 * i) = word (ram s) (t + 8 * i) ∨
    word (ram s') (t + 8 * i) = make_pte_table a;
  st_entry : ∀ q a j, vpath q → table_at (ram s') root q = Some a → 0 ≤ j < 512 →
    pte_present (word (ram s') (a + 8 * j)) = true ∨
    table_at (ram s) root q = Some a ∧ word (ram s') (a + 8 * j) = word (ram s) (a + 8 * j) ∨
    table_at (ram s) root q = None ∧ word (ram s') (a + 8 * j) = 0;
  st_lost : ∀ k, k ∈ free_pages rs → k ∈ free_pages rs' ∨
    ∃ q, vpath q ∧ table_at (ram s') root q = Some (k * PG_SIZE) ∧ table_at (ram s) root q = None;
  st_free : free_pages rs' ⊆ free_pages rs;
  st_desc : ∀ i, i ∉ free_pages rs → page_desc (pm s') !! i = page_desc (pm s) !! i;
  st_nodes : ∀ x, x ≠ FreeList → (∀ i, i ∈ free_pages rs → x ≠ PageNode i) → nodes (pm s') !! x = nodes (pm s) !! x;
  st_ram : ∀ x, phys_to_page x ∉ free_pages rs →
    (∀ q a j, vpath q → table_at (ram s) root q = Some a → 0 ≤ j < 512 → x ≠ a + 8 * j) →
    word (ram s') x = word (ram s) x;
  st_rest : s' = MkMm (pm s') (page_count s) (ram s') (cpu_root s) (tlb s) (swp s) }.

Lemma pt_step_refl root s rs : pt_wf s rs root → pt_step root s s rs rs.
Proof. intros W. constructor; auto; by destruct s. Qed.

Lemma frame_page a : frame a → phys_to_page a * PG_SIZE = a.
Proof.
  intros [_ [x ->]]. unfold phys_to_page, PG_SHIFT, PG_SIZE. rewrite Z.shiftr_div_pow2 by lia. by rewrite Z.div_mul.
Qed.

Lemma pt_step_trans root s s1 s2 rs rs1 rs2 :
  pt_step root s s1 rs rs1 → pt_step root s1 s2 rs1 rs2 → pt_step root s s2 rs rs2.
Proof.
  intros A B. pose proof (st_free _ _ _ _ _ A) as Hf. constructor.
  - apply B.
  - intros va. by rewrite (st_tr _ _ _ _ _ B), (st_tr _ _ _ _ _ A).
  - intros q a ??. by apply (st_tables _ _ _ _ _ B), (st_tables _ _ _ _ _ A).
  - intros q a Hv Hq. destruct (st_new _ _ _ _ _ B q a Hv Hq) as [H1|[H1 H2]]; [|by right; split; [apply Hf|]].
    destruct (st_new _ _ _ _ _ A q a Hv H1) as [?|[? Hr]]; [by left|right]. split; [done|].
    rewrite (st_desc _ _ _ _ _ B); [done|]. by apply (wf_tables _ _ _ (st_wf _ _ _ _ _ A) q a Hv H1).
  - intros q i t a Hv Ht Ha. destruct (st_links _ _ _ _ _ B q i t a Hv Ht Ha) as [[H1 H2]|H1]; [|by right].
    destruct (table_at (ram s1) root q) as [t1|] eqn:Hq; [|by rewrite table_at_app, Hq in H1].
    assert (t1 = t) as -> by (apply (st_tables _ _ _ _ _ B) in Hq; [congruence|by eapply vpath_app]).
    destruct (st_links _ _ _ _ _ A q i t a Hv Hq H1) as [[H3 H4]|H3]; [left|right]; by rewrite ?H2, ?H4.
  - intros q a j Hv Hq Hj. destruct (st_entry _ _ _ _ _ B q a j Hv Hq Hj) as [?|[[H1 ->]|[H1 ->]]]; [by left|by apply (st_entry _ _ _ _ _ A)|].
    right. right. split; [|done]. destruct (table_at (ram s) root q) eqn:E; [|done].
    apply (st_tables _ _ _ _ _ A) in E; [congruence|done].
  - intros k [H1|(q & Hv & H1 & H2)]%(st_lost _ _ _ _ _ A).
    + destruct (st_lost _ _ _ _ _ B k H1) as [?|(q & Hv & H2 & H3)]; [by left|right]. exists q. split_and!; [done..|].
      destruct (table_at (ram s) root q) eqn:Hq; [|done]. apply (st_tables _ _ _ _ _ A) in Hq; [congruence|done].
    + right. exists q. split_and!; [done|by apply (st_tables _ _ _ _ _ B)|done].
  - intros i Hi. by apply Hf, (st_free _ _ _ _ _ B).
  - intros i Hi. rewrite (st_desc _ _ _ _ _ B), (st_desc _ _ _ _ _ A); auto.
  - intros x Hx Hi. rewrite (st_nodes _ _ _ _ _ B), (st_nodes _ _ _ _ _ A); [done..|]. intros i Hin. by apply Hi, (st_free _ _ _ _ _ A).
  - intros x Hx Ht. rewrite (st_ram _ _ _ _ _ B), (st_ram _ _ _ _ _ A); auto.
    intros q a j Hv Hq Hj. destruct (st_new _ _ _ _ _ A q a Hv Hq) as [H1|[H1 _]]; [by apply (Ht q)|].
    intros ->. apply Hx. destruct (wf_tables _ _ _ (st_wf _ _ _ _ _ A) q a Hv Hq) as [Hfr _].
    by rewrite phys_page_entry.
  - rewrite (st_rest _ _ _ _ _ B). by rewrite (st_rest _ _ _ _ _ A).
Qed.

(** A free page is none of the tables. *)
Lemma fresh_table s rs root pa q a j j' :
  pt_wf s rs root → frame pa → phys_to_page pa ∈ free_pages rs →
  vpath q → table_at (ram s) root q = Some a → 0 ≤ j < 512 → 0 ≤ j' < 512 → a + 8 * j ≠ pa + 8 * j'.
Proof.
  intros W Hfr Hfree Hv Hq Hj Hj' E. destruct (wf_tables _ _ _ W q a Hv Hq) as [Hfa Hna].
  by destruct (entry_inj _ _ _ _ Hfa Hfr Hj Hj' E) as [-> _].
Qed.

(** Linking a fresh table below entry [i] of the table [t] at path [p]. *)
Section link.
Context (s s' : mm) (rs rs' : list (Z * Z)) (root t pa i : Z) (p : list Z) (c : Z → Z).
Hypothesis W : pt_wf s rs root.
Hypothesis Hvp : vpath (p ++ [i]).
Hypothesis Hp : table_at (ram s) root p = Some t.
Hypothesis Hnone : table_at (ram s) root (p ++ [i]) = None.
Hypothesis Hfr : frame pa.
Hypothesis Hfree : free_pages rs ≡ₚ phys_to_page pa :: free_pages rs'.
Hypothesis Hentry : word (ram s') (t + 8 * i) = make_pte_table pa.
Hypothesis Hc : ∀ j, 0 ≤ j < 512 → word (ram s') (pa + 8 * j) = c j ∧ 0 ≤ c j < 2 ^ 64.
Hypothesis Hother : ∀ x, x ≠ t + 8 * i → (∀ j, 0 ≤ j < 512 → x ≠ pa + 8 * j) → word (ram s') x = word (ram s) x.
Hypothesis Hnochild : (S (S (length p)) < length walk_shifts)%nat → ∀ j, 0 ≤ j < 512 →
  pte_present (c j) && negb (pte_is_block (c j)) = false.

Lemma pa_free : phys_to_page pa ∈ free_pages rs.
Proof. rewrite Hfree. set_solver. Qed.

Lemma index_i : 0 ≤ i < 512.
Proof. by apply vpath_index in Hvp. Qed.

Lemma link_agree : agree_except (ram s) (ram s') root p i.
Proof.
  intros q a j Hv Hq Hj Hne. apply Hother; [|by intros; eapply fresh_table; eauto using pa_free].
  intros E. destruct (wf_tables _ _ _ W q a Hv Hq) as [Hfa _].
  destruct (wf_tables _ _ _ W p t (vpath_app _ _ Hvp) Hp) as [Hft _].
  destruct (entry_inj _ _ _ _ Hfa Hft Hj index_i E) as [-> ->].
  by rewrite (wf_tree _ _ _ W q p t Hv (vpath_app _ _ Hvp) Hq Hp) in Hne.
Qed.

(** The tree gains the fresh table at [p ++ [i]] and nothing else. *)
Lemma link_table_at q :
  vpath q → table_at (ram s') root q = if decide (q = p ++ [i]) then Some pa else table_at (ram s) root q.
Proof.
  intros Hv. destruct (decide ((p ++ [i]) `prefix_of` q)) as [[q' ->]|Hn].
  2:{ rewrite (table_at_agree _ _ _ _ _ _ link_agree) by done. case_decide; [by subst|done]. }
  assert (table_at (ram s') root (p ++ [i]) = Some pa) as Hnew.
  { rewrite table_at_app, (table_at_agree _ _ _ _ _ _ link_agree), Hp.
    - simpl. rewrite Hentry. by destruct (table_entry pa Hfr) as (-> & -> & -> & _).
    - by eapply vpath_app.
    - intros Hpre%prefix_length. rewrite length_app in Hpre. simpl in Hpre. lia. }
  rewrite (table_at_app (ram s')), (table_at_app (ram s)), Hnew, Hnone. simpl.
  destruct q' as [|j q'].
  - rewrite app_nil_r, decide_True by done. done.
  - rewrite decide_False by (intros E; apply (f_equal length) in E; rewrite !length_app in E; simpl in E; lia).
    pose proof (vpath_index _ _ _ Hv) as Hj. cbn [table_at]. destruct (Hc j Hj) as [-> _].
    rewrite Hnochild; [done| |done]. destruct Hv as [_ Hlen]. rewrite !length_app in Hlen. simpl in Hlen. lia.
Qed.

Lemma link_step :
  pmm_rep (pm s') rs' → (∀ k, k ∉ free_pages rs → page_desc (pm s') !! k = page_desc (pm s) !! k) →
  ref_count <$> page_desc (pm s') !! phys_to_page pa = Some 1 →
  (∀ x, x ≠ FreeList → (∀ i, i ∈ free_pages rs → x ≠ PageNode i) → nodes (pm s') !! x = nodes (pm s) !! x) →
  (∀ j, 0 ≤ j < 512 → c j = 0 ∨ pte_present (c j) = true) →
  s' = MkMm (pm s') (page_count s) (ram s') (cpu_root s) (tlb s) (swp s) →
  (∀ va pre ps rest, walk_shifts = pre ++ ps :: rest → level_index va <$> pre = p → level_index va ps = i →
     walk (ps :: rest) (ram s') t va = walk (ps :: rest) (ram s) t va) →
  pt_step root s s' rs rs' ∧ table_at (ram s') root (p ++ [i]) = Some pa ∧
  (∀ q, vpath q → q ≠ p ++ [i] → table_at (ram s') root q = table_at (ram s) root q) ∧
  agree_except (ram s) (ram s') root p i.
Proof.
  intros R Hdesc Href Hnodes Hcj Hrest Hwalk. pose proof index_i as Hi.
  assert (free_pages rs' ⊆ free_pages rs) as Hsub by (intros k; rewrite Hfree; set_solver).
  assert (phys_to_page pa ∉ free_pages rs') as Hpa.
  { pose proof (rep_nodup _ _ (wf_rep _ _ _ W)) as Hnd. rewrite Hfree in Hnd. by apply NoDup_cons in Hnd as [? _]. }
  assert (∀ q a, vpath q → table_at (ram s) root q = Some a → a ≠ pa) as Hne.
  { intros q a Hv Hq ->. by apply (fresh_table s rs root pa q pa 0 0 W Hfr pa_free Hv Hq). }
  split_and!; [constructor; try done|by rewrite link_table_at, decide_True|intros q Hv Hq; by rewrite link_table_at, decide_False|apply link_agree].
  - constructor; try done.
    + intros x. destruct (decide (x = t + 8 * i)) as [->|Hx].
      { rewrite Hentry. apply (entries_width pa 0 0 0 Hfr). lia. }
      destruct (decide (Exists (λ j, x = pa + 8 * j) (seqZ 0 512))) as [(j & Hj%elem_of_seqZ & ->)%Exists_exists|Hn].
      { destruct (Hc j) as [-> ?]; [lia|done]. }
      rewrite Hother; [apply W|done|]. intros j Hj ->. apply Hn, Exists_exists. exists j. rewrite elem_of_seqZ. split; [lia|done].
    + intros k Hk. apply (wf_frames _ _ _ W). by apply Hsub.
    + intros q a Hv Hq. rewrite link_table_at in Hq by done. case_decide; [by simplify_eq|].
      destruct (wf_tables _ _ _ W q a Hv Hq) as [? Hn]. split; [done|]. intros ?%Hsub. done.
    + intros q q' a Hv Hv' Hq Hq'. rewrite link_table_at in Hq, Hq' by done.
      repeat case_decide; [congruence|..|by apply (wf_tree _ _ _ W q q' a)].
      * injection Hq' as <-. by destruct (Hne q pa Hv Hq).
      * injection Hq as <-. by destruct (Hne q' pa Hv' Hq').
  - intros va. apply (walk_agree _ _ _ p i va link_agree). intros pre ps rest a Hsh Hpre Hps Ha.
    simplify_eq. by apply (Hwalk va pre).
  - intros q a Hv Hq. rewrite link_table_at by done. case_decide; [subst; congruence|done].
  - intros q a Hv Hq. rewrite link_table_at in Hq by done. case_decide; [|by left].
    simplify_eq. right. split; [rewrite Hfree; set_solver|done].
  - intros q j t' a Hv Ht' Ha. destruct (decide ((q, j) = (p, i))) as [[= -> ->]|Hne'].
    + right. rewrite link_table_at in Ht', Ha by (try done; by eapply vpath_app). rewrite decide_True in Ha by done.
      rewrite decide_False in Ht' by (intros E; apply (f_equal length) in E; rewrite length_app in E; simpl in E; lia).
      simplify_eq. done.
    + left. rewrite link_table_at in Ht', Ha by (try done; by eapply vpath_app).
      rewrite decide_False in Ha by (intros [-> ->]%app_inj_tail; by apply Hne'). split; [done|].
      case_decide as Hq; [|by apply (link_agree q t' j); [by eapply vpath_app|done|by eapply vpath_index|done]].
      subst q. exfalso. rewrite table_at_app, Hnone in Ha. done.
  - intros q a j Hv Hq Hj. rewrite link_table_at in Hq by done. case_decide as Hqp.
    + injection Hq as <-. destruct (Hc j Hj) as [-> _]. subst q. destruct (Hcj j Hj) as [->|?]; [right; right|by left]. done.
    + destruct (decide ((q, j) = (p, i))) as [[= -> ->]|Hne'].
      * left. simplify_eq. rewrite Hentry. by destruct (table_entry pa Hfr) as (-> & _).
      * right. left. split; [done|]. by apply (link_agree q a j).
  - intros k Hk. rewrite Hfree in Hk. apply elem_of_cons in Hk as [->|?]; [right|by left]. exists (p ++ [i]).
    rewrite link_table_at, decide_True, frame_page by done. done.
  - intros x Hx Ht. apply Hother; [by apply (Ht p); [by eapply vpath_app|..]|].
    intros j Hj ->. apply Hx. rewrite phys_page_entry, Hfree by done. set_solver.
Qed.
End link.

(** ** Splitting a block *)

(** The address range of sub-block [j] of a block. *)
Lemma sub_block e ps cs j :
  0 ≤ e < 2 ^ 64 → ps = cs + 9 → 12 ≤ cs → ps ≤ phys_bits → 0 ≤ j < 512 →
  let large := Z.land (pte_addr e) (Z.lnot (2 ^ ps - 1)) in
  u64 (large + Z.shiftl j cs) = large + j * 2 ^ cs ∧ frame (large + j * 2 ^ cs) ∧ (2 ^ cs | large + j * 2 ^ cs).
Proof.
  intros He -> Hcs Hps Hj large. destruct (addr_frame e He) as [Hr _]. pose proof phys_width as Hw.
  assert (large = pte_addr e / 2 ^ (cs + 9) * 2 ^ (cs + 9)) as Hlarge.
  { unfold large. rewrite land_lnot_mask by lia.
    pose proof (Z.div_mod (pte_addr e) (2 ^ (cs + 9)) ltac:(apply Z.pow_nonzero; lia)). lia. }
  set (k := pte_addr e / 2 ^ (cs + 9)) in *.
  assert (0 ≤ k) by (apply Z.div_pos; [lia|apply Z.pow_pos_nonneg; lia]).
  assert (k < 2 ^ (phys_bits - (cs + 9))) as Hk.
  { apply Z.div_lt_upper_bound; [apply Z.pow_pos_nonneg; lia|]. rewrite <- Z.pow_add_r by lia.
    replace (cs + 9 + (phys_bits - (cs + 9))) with phys_bits by lia. lia. }
  assert (2 ^ phys_bits = 2 ^ (phys_bits - (cs + 9)) * (512 * 2 ^ cs)) as Hpb.
  { change 512 with (2 ^ 9). rewrite <- !Z.pow_add_r by lia. f_equal. lia. }
  assert (2 ^ (cs + 9) = 512 * 2 ^ cs) as H9 by (rewrite Z.pow_add_r by lia; lia).
  assert (0 < 2 ^ cs) as Hpos by (apply Z.pow_pos_nonneg; lia).
  assert (large + j * 2 ^ cs = (k * 512 + j) * 2 ^ cs) as Heq by (rewrite Hlarge, H9; lia).
  assert (0 ≤ large + j * 2 ^ cs < 2 ^ phys_bits) as Hrange by (rewrite Heq, Hpb; nia).
  assert (2 ^ phys_bits ≤ 2 ^ 64) by (apply Z.pow_le_mono_r; lia).
  rewrite Z.shiftl_mul_pow2 by lia. rewrite u64_small by lia. split_and!; [done|split; [done|]|].
  - rewrite Heq. replace cs with (cs - 12 + 12) by lia. rewrite Z.pow_add_r, Z.mul_assoc by lia. apply Z.divide_factor_r.
  - rewrite Heq. apply Z.divide_factor_r.
Qed.

Lemma split_tr e ps cs va :
  0 ≤ e < 2 ^ 64 → pte_present e = true → pte_is_block e = true → ps = cs + 9 → 12 ≤ cs → ps ≤ phys_bits →
  let large := Z.land (pte_addr e) (Z.lnot (2 ^ ps - 1)) in
  leaf_tr (split_page_entry e (u64 (large + Z.shiftl (level_index va cs) cs)) cs) va cs = leaf_tr e va ps.
Proof.
  intros He Hpr Hbl Hps Hcs Hph large.
  destruct (sub_block e ps cs (level_index va cs) He Hps Hcs Hph (level_index_range _ _)) as (Hsub & Hf & Hd).
  fold large in Hsub, Hf, Hd. rewrite Hsub.
  destruct (split_entry e _ cs He Hpr Hbl Hf Hcs Hd) as (_ & _ & Ha & _ & Hx & Hu).
  unfold leaf_tr. fold large. rewrite Ha, !Hu, Hx, !land_mask by lia. f_equal.
  rewrite level_index_eq by lia. subst ps. rewrite (Z.add_comm cs 9), Z.pow_add_r by lia.
  rewrite (Z.mul_comm (2 ^ 9)), Z.rem_mul_r by (apply Z.pow_nonzero; lia) || (apply Z.pow_pos_nonneg; lia).
  change (2 ^ 9) with 512. lia.
Qed.

(** ** [descend_level] *)

Lemma adjacent_shifts pre ps cs post :
  walk_shifts = pre ++ ps :: cs :: post →
  ps = cs + 9 ∧ 12 ≤ cs ∧ ps ≤ phys_bits ∧ (post = [] ∨ 12 < cs).
Proof.
  intros Hsh. pose proof (phys_covers ps) as Hp. pose proof (phys_covers cs) as Hc. rewrite Hsh in Hp, Hc.
  assert (∀ k x y, (ps :: cs :: post) !! k = Some x → (ps :: cs :: post) !! S k = Some y → x = y + 9) as Hstep.
  { intros k x y Hx Hy. apply (shifts_steps (length pre + k)); rewrite Hsh.
    - by rewrite lookup_app_r, Nat.add_comm, Nat.add_sub by lia.
    - rewrite <- Nat.add_succ_r. by rewrite lookup_app_r, Nat.add_comm, Nat.add_sub by lia. }
  assert (ps = cs + 9) as Hpc by by apply (Hstep 0%nat).
  split_and!; [done|apply Hc; set_solver|apply Hp; set_solver|].
  destruct post as [|c2 post]; [by left|right].
  assert (cs = c2 + 9) as -> by by apply (Hstep 1%nat).
  pose proof (phys_covers c2). rewrite Hsh in *. assert (12 ≤ c2) by set_solver. lia.
Qed.

Lemma restrict_table pa x : frame pa → restrict (make_pte_table pa) x = x.
Proof. intros Hf. destruct (table_entry pa Hf) as (_ & _ & _ & Hu). unfold restrict. rewrite !Hu. by destruct x. Qed.

(** The walk through a new table entry. *)
Lemma walk_linked m t ps cs post pa va :
  word m (entry_at t va ps) = make_pte_table pa → frame pa →
  walk (ps :: cs :: post) m t va = walk (cs :: post) m pa va.
Proof.
  intros He Hf. cbn [walk]. rewrite He. destruct (table_entry pa Hf) as (-> & -> & -> & _). simpl.
  destruct (pte_present _); [|done]. destruct (_ || _); simpl; [by rewrite restrict_table|].
  destruct (walk post m _ va); simpl; [by rewrite restrict_table|done].
Qed.

Section descend.
Context (s : mm) (rs : list (Z * Z)) (root t i ps cs : Z) (p pre post : list Z).
Hypothesis W : pt_wf s rs root.
Hypothesis Hsh : walk_shifts = pre ++ ps :: cs :: post.
Hypothesis Hlen : length p = length pre.
Hypothesis Hvp : vpath (p ++ [i]).
Hypothesis Hp : table_at (ram s) root p = Some t.

Lemma same_level va pre' ps' rest' :
  walk_shifts = pre' ++ ps' :: rest' → level_index va <$> pre' = p → pre' = pre ∧ ps' = ps ∧ rest' = cs :: post.
Proof.
  intros Hsh' <-. rewrite length_fmap in Hlen. rewrite Hsh in Hsh'.
  apply app_inj_1 in Hsh' as [-> [= -> ->]]; done.
Qed.

Lemma table_entry_at : table_at (ram s) root (p ++ [i]) =
  let e := word (ram s) (t + 8 * i) in if pte_present e && negb (pte_is_block e) then Some (pte_addr e) else None.
Proof. rewrite table_at_app, Hp. done. Qed.

(** An empty slot gets a table of empty entries. *)
Lemma descend_empty s1 rs1 pa :
  pte_present (word (ram s) (t + 8 * i)) = false → new_table s s1 rs rs1 pa →
  let s' := with_ram (<[t + 8 * i := make_pte_table pa]> (ram s1)) s1 in
  pt_step root s s' rs rs1 ∧ table_at (ram s') root (p ++ [i]) = Some pa ∧
  (∀ q, vpath q → q ≠ p ++ [i] → table_at (ram s') root q = table_at (ram s) root q) ∧
  agree_except (ram s) (ram s') root p i.
Proof.
  intros He N s'. pose proof (vpath_index _ _ _ Hvp) as Hi. pose proof (nt_frame _ _ _ _ _ N) as Hf.
  assert (∀ j, 0 ≤ j < 512 → t + 8 * i ≠ pa + 8 * j) as Hne.
  { intros j Hj. eapply (fresh_table s rs root pa p); eauto using vpath_app. rewrite (nt_free _ _ _ _ _ N). set_solver. }
  assert (∀ j, 0 ≤ j < 512 → word (ram s') (pa + 8 * j) = 0) as Hz.
  { intros j Hj. simpl. rewrite word_insert, decide_False by auto. by apply (nt_zero _ _ _ _ _ N). }
  apply (link_step s s' rs rs1 root t pa i p (λ _, 0)); try done.
  - rewrite table_entry_at. simpl. by rewrite He.
  - apply N.
  - simpl. rewrite word_insert. by rewrite decide_True.
  - intros j Hj. split; [by apply Hz|lia].
  - simpl. intros x Hx Hx'. rewrite word_insert, decide_False by done. by apply (nt_ram _ _ _ _ _ N).
  - intros _ j Hj. by rewrite present_zero.
  - apply N.
  - apply N.
  - apply N.
  - apply N.
  - by left.
  - unfold s'. rewrite (nt_rest _ _ _ _ _ N). done.
  - intros va pre' ps' rest' Hsh' Hpre Hps. destruct (same_level va pre' ps' rest' Hsh' Hpre) as (-> & -> & ->).
    rewrite (walk_linked _ _ _ _ _ pa); [|unfold entry_at; rewrite Hps; simpl; by rewrite word_insert, decide_True|done].
    cbn [walk]. unfold entry_at at 1. rewrite Hz by apply level_index_range. rewrite present_zero.
    unfold entry_at. rewrite Hps, He. done.
Qed.

(** A block is split into a table of sub-blocks. *)
Lemma descend_block s1 rs1 pa m2 :
  let e := word (ram s) (t + 8 * i) in
  let c j := split_page_entry e (u64 (Z.land (pte_addr e) (Z.lnot (2 ^ ps - 1)) + Z.shiftl j cs)) cs in
  pte_present e = true → pte_is_block e = true → new_table s s1 rs rs1 pa →
  (∀ j, 0 ≤ j < 512 → word m2 (pa + 8 * j) = c j) →
  (∀ x, (∀ j, 0 ≤ j < 512 → x ≠ pa + 8 * j) → word m2 x = word (ram s1) x) →
  let s' := with_ram (<[t + 8 * i := make_pte_table pa]> m2) s1 in
  pt_step root s s' rs rs1 ∧ table_at (ram s') root (p ++ [i]) = Some pa ∧
  (∀ q, vpath q → q ≠ p ++ [i] → table_at (ram s') root q = table_at (ram s) root q) ∧
  agree_except (ram s) (ram s') root p i.
Proof.
  intros e c Hpr Hbl N Hm2 Hm2' s'. pose proof (vpath_index _ _ _ Hvp) as Hi. pose proof (nt_frame _ _ _ _ _ N) as Hf.
  destruct (adjacent_shifts _ _ _ _ Hsh) as (Hps & Hcs & Hph & Hlast).
  assert (0 ≤ e < 2 ^ 64) as He by apply (wf_words _ _ _ W).
  assert (∀ j, 0 ≤ j < 512 → t + 8 * i ≠ pa + 8 * j) as Hne.
  { intros j Hj. eapply (fresh_table s rs root pa p); eauto using vpath_app. rewrite (nt_free _ _ _ _ _ N). set_solver. }
  assert (∀ j, 0 ≤ j < 512 → pte_present (c j) = true ∧ (12 < cs → pte_is_block (c j) = true) ∧ 0 ≤ c j < 2 ^ 64) as Hc.
  { intros j Hj. unfold c. destruct (sub_block e ps cs j He Hps Hcs Hph Hj) as (-> & Hfj & Hdj).
    destruct (split_entry e _ cs He Hpr Hbl Hfj Hcs Hdj) as (? & ? & _). split_and!; [done|done|..];
      apply (entries_width _ 0 e cs Hfj He). }
  assert (∀ j, 0 ≤ j < 512 → word (ram s') (pa + 8 * j) = c j) as Hz.
  { intros j Hj. simpl. rewrite word_insert, decide_False by auto. auto. }
  apply (link_step s s' rs rs1 root t pa i p c); try done.
  - rewrite table_entry_at. cbv zeta. fold e. by rewrite Hpr, Hbl.
  - apply N.
  - simpl. rewrite word_insert. by rewrite decide_True.
  - intros j Hj. split; [by apply Hz|by apply Hc].
  - simpl. intros x Hx Hx'. rewrite word_insert, decide_False, Hm2' by done. by apply (nt_ram _ _ _ _ _ N).
  - intros Hl j Hj. destruct (Hc j Hj) as (_ & Hb & _). rewrite Hb, andb_false_r; [done|].
    destruct Hlast as [->|]; [|done]. rewrite Hsh, length_app in Hl. simpl in Hl. lia.
  - apply N.
  - apply N.
  - apply N.
  - apply N.
  - intros j Hj. right. by apply Hc.
  - unfold s'. rewrite (nt_rest _ _ _ _ _ N). done.
  - intros va pre' ps' rest' Hsh' Hpre Hidx. destruct (same_level va pre' ps' rest' Hsh' Hpre) as (-> & -> & ->).
    rewrite (walk_linked _ _ _ _ _ pa); [|unfold entry_at; rewrite Hidx; simpl; by rewrite word_insert, decide_True|done].
    pose proof (level_index_range va cs) as Hj. destruct (Hc _ Hj) as (Hpj & Hbj & _).
    cbn [walk]. unfold entry_at at 1. rewrite Hz, Hpj by done. unfold entry_at. rewrite Hidx. fold e.
    assert (bool_decide (post = []) || pte_is_block (c (level_index va cs)) = true) as Hleaf.
    { destruct Hlast as [->|Hlt]; [done|]. by rewrite Hbj, orb_true_r. }
    rewrite Hpr, Hbl, orb_true_r, Hz, Hleaf by done. f_equal. by apply split_tr.
Qed.

Lemma descend_level_spec create :
  (∃ s' rs' t', descend_level (t + 8 * i) create ps cs s = Ret (Some t') s' ∧ pt_step root s s' rs rs' ∧
     table_at (ram s') root (p ++ [i]) = Some t' ∧ (create = false → s' = s) ∧
     (∀ q, vpath q → q ≠ p ++ [i] → table_at (ram s') root q = table_at (ram s) root q) ∧
     agree_except (ram s) (ram s') root p i) ∨
  (descend_level (t + 8 * i) create ps cs s = Ret None s ∧ table_at (ram s) root (p ++ [i]) = None ∧
     (create = true → rs = [])).
Proof.
  unfold descend_level, rd64, gets. rewrite (bind_Ret _ _ s (word (ram s) (t + 8 * i)) s) by done.
  pose proof table_entry_at as Htab. simpl in Htab. set (e := word (ram s) (t + 8 * i)) in *.
  pose proof (alloc_table_page_spec s rs (wf_rep _ _ _ W) (wf_frames _ _ _ W)) as Hat.
  destruct (pte_present e) eqn:Hpr; [destruct (pte_is_block e) eqn:Hbl|].
  - destruct create; [|by right; unfold alloc_table_page].
    destruct Hat as [[-> Hat]|(pa & s1 & rs1 & Hat & N)]; rewrite (bind_Ret _ _ _ _ _ Hat); [by right|left].
    pose proof (nt_frame _ _ _ _ _ N) as Hf.
    assert (∀ j, 0 ≤ j < 512 → t + 8 * i ≠ pa + 8 * j) as Hne.
    { intros j Hj. eapply (fresh_table s rs root pa p); eauto using vpath_app, vpath_index.
      rewrite (nt_free _ _ _ _ _ N). set_solver. }
    match goal with |- context [forM _ ?g] => destruct (fill_page s1 pa
      (λ j, split_page_entry e (u64 (Z.land (pte_addr e) (Z.lnot (2 ^ ps - 1)) + Z.shiftl j cs)) cs) g)
      as (m2 & Hfill & Hin & Hout) end.
    { intros j s2 Hj Hs2. unfold bind. rewrite Hs2, (nt_ram _ _ _ _ _ N) by done. done. }
    rewrite (bind_Ret _ _ _ _ _ Hfill).
    destruct (descend_block s1 rs1 pa m2 Hpr Hbl N Hin Hout) as (Hstep & Htp & Hq & Hag).
    eexists _, rs1, pa. split; [done|]. split_and!; [exact Hstep|exact Htp|done|exact Hq|exact Hag].
  - left. exists s, rs, (pte_addr e). split_and!; try done. by apply pt_step_refl.
  - destruct create; [|by right; unfold alloc_table_page].
    destruct Hat as [[-> Hat]|(pa & s1 & rs1 & Hat & N)]; rewrite (bind_Ret _ _ _ _ _ Hat); [by right|left].
    destruct (descend_empty s1 rs1 pa) as (Hstep & Htp & Hq & Hag); [done..|].
    eexists _, rs1, pa. split; [done|]. split_and!; [exact Hstep|exact Htp|done|exact Hq|exact Hag].
Qed.
End descend.

(** ** [get_pte] *)

(** [ptep] is the leaf entry of [va]. *)
Definition leaf_entry m (root va ptep : Z) : Prop :=
  ∃ pre t, walk_shifts = pre ++ [12] ∧ table_at m root (level_index va <$> pre) = Some t ∧ ptep = entry_at t va 12.

Lemma vpath_indices va pre post :
  walk_shifts = pre ++ post → post ≠ [] → vpath (level_index va <$> pre).
Proof.
  intros Hsh Hne. split; [apply Forall_fmap, Forall_true; intros; apply level_index_range|].
  rewrite length_fmap, Hsh, length_app. destruct post; [done|]. simpl. lia.
Qed.

(** A change of the tree for the sake of [va]: of the tables only those on the
    way to its leaf, and of the entries only those that link these tables. *)
Record local_step (root va : Z) m m' : Prop := {
  ls_tables : ∀ q, vpath q → ¬ q `prefix_of` (level_index va <$> walk_shifts) → table_at m' root q = table_at m root q;
  ls_words : ∀ q a j, vpath q → table_at m root q = Some a → 0 ≤ j < 512 →
    ¬ (vpath (q ++ [j]) ∧ (q ++ [j]) `prefix_of` (level_index va <$> walk_shifts)) →
    word m' (a + 8 * j) = word m (a + 8 * j) }.

Lemma get_pte_loop_spec root va create post : ∀ pre s rs t,
  walk_shifts = pre ++ post → post ≠ [] → pt_wf s rs root →
  table_at (ram s) root (level_index va <$> pre) = Some t →
  ∃ r s' rs', get_pte_loop post t va create s = Ret r s' ∧ pt_step root s s' rs rs' ∧ (create = false → s' = s) ∧
    local_step root va (ram s) (ram s') ∧
    match r with Some ptep => leaf_entry (ram s') root va ptep | None => (create = true → rs' = []) ∧ ∀ ptep, ¬ leaf_entry (ram s') root va ptep end.
Proof.
  induction post as [|ps post IH]; intros pre s rs t Hsh Hne W Ht; [done|]. cbn [get_pte_loop].
  destruct post as [|cs post].
  - assert (ps = 12) as ->.
    { pose proof shifts_last as Hl. rewrite Hsh, last_snoc in Hl. by injection Hl. }
    exists (Some (entry_at t va 12)), s, rs. split_and!; [done|by apply pt_step_refl|done|done|]. by exists pre, t.
  - assert (vpath ((level_index va <$> pre) ++ [level_index va ps])) as Hv.
    { change [level_index va ps] with (level_index va <$> [ps]). rewrite <- fmap_app.
      apply (vpath_indices va _ (cs :: post)); [by rewrite <- app_assoc|done]. }
    destruct (descend_level_spec s rs root t (level_index va ps) ps cs (level_index va <$> pre) pre post
      W Hsh (length_fmap _ _) Hv Ht create) as [(s' & rs' & t' & Hd & St & Ht' & Hc & Hoth & Hag)|(Hd & Hnone & Hc)];
      unfold entry_at; rewrite (bind_Ret _ _ _ _ _ Hd).
    + destruct (IH (pre ++ [ps]) s' rs' t') as (r & s2 & rs2 & Hr & St2 & Hc2 & Hoth2 & Hres);
        [by rewrite <- app_assoc|done|apply St|by rewrite fmap_app|].
      exists r, s2, rs2. split_and!; [done|by eapply pt_step_trans| | |done].
      { intros Hf. by rewrite (Hc2 Hf), (Hc Hf). }
      assert (((level_index va <$> pre) ++ [level_index va ps]) `prefix_of` (level_index va <$> walk_shifts)) as Hpre.
      { exists (level_index va <$> cs :: post). by rewrite Hsh, fmap_app, <- app_assoc. }
      constructor.
      * intros q Hvq Hq. rewrite (ls_tables _ _ _ _ Hoth2) by done. apply Hoth; [done|]. by intros ->.
      * intros q a j Hvq Hq Hj Hn. rewrite (ls_words _ _ _ _ Hoth2 q); [|done|by apply (st_tables _ _ _ _ _ St)|done..].
        apply (Hag q); try done. intros [= -> ->]. by apply Hn.
    + exists None, s, rs. split_and!; [done|by apply pt_step_refl|done..|]. intros ptep (pre' & t' & Hsh' & Ht' & _).
      assert (∃ k, pre' = (pre ++ [ps]) ++ k) as [k ->].
      { rewrite Hsh, cons_middle, app_assoc in Hsh'. apply app_eq_inv in Hsh' as [(k & Hk & E)|(k & -> & E)]; [|by exists k].
        destruct k as [|x k]; [exists []; by rewrite Hk, !app_nil_r|]. apply (f_equal length) in E. rewrite length_app in E. simpl in E. lia. }
      rewrite !fmap_app, table_at_app in Ht'. change (level_index va <$> [ps]) with [level_index va ps] in Ht'. by rewrite Hnone in Ht'.
Qed.

Lemma get_pte_spec s rs root va create :
  pt_wf s rs root →
  ∃ r s' rs', get_pte root va create s = Ret r s' ∧ pt_step root s s' rs rs' ∧ (create = false → s' = s) ∧
    local_step root va (ram s) (ram s') ∧
    match r with Some ptep => leaf_entry (ram s') root va ptep | None => (create = true → rs' = []) ∧ ∀ ptep, ¬ leaf_entry (ram s') root va ptep end.
Proof.
  intros W. apply (get_pte_loop_spec root va create walk_shifts []); try done.
  pose proof shifts_last as Hl. by destruct walk_shifts.
Qed.

(** ** The walk seen from the leaf *)

(** User access allowed by the tables on a path. *)
Fixpoint path_access m (t : Z) p (w : bool) : bool :=
  match p with
  | [] => true
  | i :: p => let e := word m (t + 8 * i) in pte_user_table_accessible e w && path_access m (pte_addr e) p w
  end.
Definition restrict_path m (root : Z) p (x : tr) : tr :=
  MkTr (tr_pa x) (path_access m root p false && tr_read x) (path_access m root p true && tr_write x) (tr_exec x).

Lemma walk_through m va pre post : ∀ root t,
  table_at m root (level_index va <$> pre) = Some t → post ≠ [] →
  walk (pre ++ post) m root va = restrict_path m root (level_index va <$> pre) <$> walk post m t va.
Proof.
  induction pre as [|ps pre IH]; intros root t Ht Hne; simpl in *.
  - simplify_eq. destruct (walk post m t va) as [[]|]; done.
  - unfold entry_at. destruct (pte_present _) eqn:Hpr; [|done]. destruct (pte_is_block _) eqn:Hbl; [done|]. simpl in Ht.
    rewrite orb_false_r, bool_decide_eq_false_2 by (by destruct pre, post).
    rewrite (IH _ _ Ht Hne). destruct (walk post m t va) as [[]|]; [|done]. simpl.
    unfold restrict, restrict_path. simpl. by rewrite !andb_assoc.
Qed.

Definition same_page (va va' : Z) : Prop := level_index va' <$> walk_shifts = level_index va <$> walk_shifts.

Definition leaf_path (va : Z) : list Z := take (length walk_shifts - 1) (level_index va <$> walk_shifts).

Lemma leaf_path_pre va pre : walk_shifts = pre ++ [12] → leaf_path va = level_index va <$> pre.
Proof.
  intros Hsh. unfold leaf_path. rewrite Hsh, length_app, fmap_app, take_app_le by (rewrite length_fmap; simpl; lia).
  apply take_ge. rewrite length_fmap. simpl. lia.
Qed.

(** What the leaf entry says of the addresses of its page. *)
Lemma translate_leaf m root va va' ptep :
  leaf_entry m root va ptep → same_page va va' →
  translate m root va' = restrict_path m root (leaf_path va) <$>
    (if pte_present (word m ptep) then Some (leaf_tr (word m ptep) va' 12) else None).
Proof.
  intros (pre & t & Hsh & Ht & ->) Hs. rewrite (leaf_path_pre va pre Hsh).
  unfold same_page, translate in *. rewrite Hsh, !fmap_app in *.
  apply app_inj_1 in Hs as [Hpre [= Hidx]]; [|by rewrite !length_fmap]. rewrite <- Hpre in Ht |- *.
  rewrite (walk_through m va' pre [12] root t) by done.
  simpl. unfold entry_at. rewrite Hidx. done.
Qed.

(** Writing the leaf entry of [va]. *)
Lemma leaf_write s rs root va ptep v :
  pt_wf s rs root → leaf_entry (ram s) root va ptep → 0 ≤ v < 2 ^ 64 →
  let s' := with_ram (<[ptep := v]> (ram s)) s in
  pt_wf s' rs root ∧ leaf_entry (ram s') root va ptep ∧
  (∀ q, vpath q → table_at (ram s') root q = table_at (ram s) root q) ∧
  ∀ va', ¬ same_page va va' → translate (ram s') root va' = translate (ram s) root va'.
Proof.
  intros W (pre & t & Hsh & Ht & ->) Hv s'. pose proof (vpath_indices va pre [12] Hsh ltac:(done)) as Hvp.
  destruct (wf_tables _ _ _ W _ _ Hvp Ht) as [Hft _].
  assert (agree_except (ram s) (ram s') root (level_index va <$> pre) (level_index va 12)) as Hag.
  { intros q a j Hvq Hq Hj Hne. simpl. rewrite word_insert, decide_False; [done|]. intros E.
    destruct (wf_tables _ _ _ W _ _ Hvq Hq) as [Hfa _].
    destruct (entry_inj _ _ _ _ Hft Hfa (level_index_range _ _) Hj E) as [<- <-].
    by rewrite (wf_tree _ _ _ W _ _ _ Hvp Hvq Ht Hq) in Hne. }
  assert (∀ q, vpath q → table_at (ram s') root q = table_at (ram s) root q) as Htab.
  { intros q Hvq. apply (table_at_agree _ _ _ _ _ _ Hag Hvq). intros Hpre%prefix_length.
    destruct Hvq as [_ Hl]. rewrite length_app, length_fmap in Hpre. rewrite Hsh, length_app in Hl. simpl in *. lia. }
  split_and!; [constructor; simpl; try apply W|..|done|].
  - intros a. rewrite word_insert. case_decide; [done|apply W].
  - intros q a Hvq Hq. apply (wf_tables _ _ _ W q); [done|]. by rewrite <- Htab.
  - intros q q' a Hvq Hvq' Hq Hq'. apply (wf_tree _ _ _ W q q' a); try done; by rewrite <- Htab.
  - exists pre, t. split_and!; [done|by rewrite Htab|done].
  - intros va' Hns. apply (walk_agree _ _ _ _ _ va' Hag). intros pre' s0 rest a Hsh' Hpre Hidx _. exfalso. apply Hns.
    assert (length pre' = length pre) as Hl by (apply (f_equal length) in Hpre; by rewrite !length_fmap in Hpre).
    rewrite Hsh in Hsh'. apply app_inj_1 in Hsh' as [<- [= <- <-]]; [|done].
    unfold same_page. rewrite Hsh, !fmap_app, Hpre. simpl. by rewrite Hidx.
Qed.

(** ** [user_address] *)

Lemma user_walk_spec shifts s : ∀ t va w,
  user_walk shifts t va w s =
  match walk shifts (ram s) t va with
  | Some x => if (if w : bool then tr_write x else tr_read x) then Ret (tr_pa x) s else Fail E_Invalid s
  | None => Fail E_Invalid s
  end.
Proof.
  induction shifts as [|sh rest IH]; intros t va w; [done|]. cbn [user_walk walk].
  unfold rd64, gets. rewrite (bind_Ret _ _ s (word (ram s) (entry_at t va sh)) s) by done.
  set (e := word _ _). unfold ensure, bind. destruct (pte_present e); [|done]. simpl. destruct (_ || _).
  - simpl. destruct w, (pte_user_accessible e true) eqn:?, (pte_user_accessible e false) eqn:?; done.
  - destruct (pte_user_table_accessible e w) eqn:Ew; simpl; [rewrite IH|];
      (destruct (walk rest (ram s) (pte_addr e) va) as [[pa r wr x]|]; [|done]); destruct w; simpl; by rewrite Ew.
Qed.

(** ** [page_insert] *)

(** The state [page_insert] returns: the tables of [s1], the entry of the page
    in them, and the reference counted. *)
Record inserted (root page va perm : Z) (pg : Page) (s s1 s' : mm) (rs rs1 : list (Z * Z)) (ptep : Z) : Prop := {
  in_step : pt_step root s s1 rs rs1;
  in_local : local_step root va (ram s) (ram s1);
  in_leaf : leaf_entry (ram s1) root va ptep;
  in_absent : pte_present (word (ram s1) ptep) = false;
  in_wf : pt_wf s' rs1 root;
  in_ram : ram s' = <[ptep := make_pte_page (page * PG_SIZE) perm]> (ram s1);
  in_pm : pm s' = MkPmm (<[page := set_ref (ref_count pg + 1) pg]> (page_desc (pm s1))) (nodes (pm s1)) (free_page_count (pm s1));
  in_rest : page_count s' = page_count s ∧ cpu_root s' = cpu_root s ∧ swp s' = swp s }.

Lemma page_insert_spec s rs root page pg va perm :
  pt_wf s rs root → page_desc (pm s) !! page = Some pg → page ∉ free_pages rs → frame (page * PG_SIZE) →
  0 ≤ ref_count pg < 2 ^ 31 - 1 →
  (∃ s1 s' rs1 ptep, page_insert root page va perm s = Ret tt s' ∧ inserted root page va perm pg s s1 s' rs rs1 ptep) ∨
  (∃ e s' rs', page_insert root page va perm s = Fail e s' ∧ pt_step root s s' rs rs' ∧ local_step root va (ram s) (ram s') ∧
     (e = E_Exists ∧ is_Some (translate (ram s) root va) ∨ e = E_NoMem ∧ rs' = [])).
Proof.
  intros W Hpg Hnf Hfr Href. destruct (get_pte_spec s rs root va true W) as (r & s1 & rs1 & Hg & St & _ & Hl & Hr).
  unfold page_insert. rewrite (bind_Ret _ _ _ _ _ Hg). destruct r as [ptep|].
  2:{ right. exists E_NoMem, s1, rs1. split_and!; [done..|]. right. split; [done|]. by apply Hr. }
  pose proof (translate_leaf _ _ va va _ Hr eq_refl) as Htr. rewrite (st_tr _ _ _ _ _ St) in Htr.
  unfold rd64, gets. rewrite (bind_Ret _ _ s1 (word (ram s1) ptep) s1) by done.
  destruct (pte_present (word (ram s1) ptep)) eqn:Hpr; simpl.
  { right. exists E_Exists, s1, rs1. split_and!; [done..|]. left. split; [done|]. rewrite Htr. simpl. eauto. }
  left. rewrite bind_ret.
  assert (page_desc (pm s1) !! page = Some pg) as Hpg1 by (by rewrite (st_desc _ _ _ _ _ St)).
  erewrite bind_Ret by (apply on_pm_Ret, upd_page_Ret, Hpg1).
  destruct (page_to_phys_frame page Hfr) as [Hpp _]. rewrite Hpp.
  rewrite (s32_small (ref_count pg + 1)) by lia.
  set (s2 := with_pm _ s1). pose proof (st_wf _ _ _ _ _ St) as W1.
  assert (pt_wf s2 rs1 root) as W2.
  { constructor; try apply W1. simpl. eapply rep_upd_page; [apply W1| |done].
    intros Hin. apply Hnf. by apply (st_free _ _ _ _ _ St). }
  destruct (leaf_write s2 rs1 root va ptep (make_pte_page (page * PG_SIZE) perm) W2 Hr) as (W3 & _).
  { apply (entries_width (page * PG_SIZE) perm 0 0 Hfr). lia. }
  set (s3 := with_ram _ s2) in *. rewrite (bind_Ret _ _ s2 tt s3) by done.
  eexists s1, (if cpu_root s3 =? root then with_tlb (va :: tlb s3) s3 else s3), rs1, ptep. split.
  { unfold invalidate_tlb_page, get, whenM, bind. by destruct (cpu_root s3 =? root). }
  pose proof (st_rest _ _ _ _ _ St) as Hrest. constructor; try done.
  - destruct (cpu_root s3 =? root); [|done]. constructor; apply W3.
  - by case_match.
  - by case_match.
  - assert (page_count s3 = page_count s ∧ cpu_root s3 = cpu_root s ∧ swp s3 = swp s) as Hr3.
    { change (page_count s1 = page_count s ∧ cpu_root s1 = cpu_root s ∧ swp s1 = swp s). by rewrite Hrest. }
    by case_match.
Qed.

(** ** The properties *)

(** C24: [get_pte] changes no translation of any address, whether it follows,
    creates or splits tables: the tables stay a tree of allocated pages, no
    other page descriptor and no other memory changes.  The pointer it returns
    is the leaf entry of [va]; without [create] it changes nothing, and with
    [create] it returns null only when no free page is left. *)
Theorem get_pte_correct s rs root va create :
  pt_wf s rs root →
  ∃ r s' rs', get_pte root va create s = Ret r s' ∧ pt_step root s s' rs rs' ∧ (create = false → s' = s) ∧
    local_step root va (ram s) (ram s') ∧
    match r with Some ptep => leaf_entry (ram s') root va ptep | None => (create = true → rs' = []) ∧ ∀ ptep, ¬ leaf_entry (ram s') root va ptep end.
Proof. apply get_pte_spec. Qed.

(** C14: [page_insert] of an allocated page at an unmapped address makes the
    addresses of that page, and no other, translate to the page's frame with
    the requested permissions (as far as the tables above allow user access),
    and counts the reference; at a mapped address it fails with [Exists], and
    without memory for the tables with [NoMem], both changing no translation. *)
Theorem page_insert_correct s rs root page pg va perm :
  pt_wf s rs root → page_desc (pm s) !! page = Some pg → page ∉ free_pages rs → frame (page * PG_SIZE) →
  0 ≤ ref_count pg < 2 ^ 31 - 1 →
  (∃ s' rs', page_insert root page va perm s = Ret tt s' ∧ pt_wf s' rs' root ∧
     translate (ram s) root va = None ∧
     ref_count <$> page_desc (pm s') !! page = Some (ref_count pg + 1) ∧
     (∀ va', same_page va va' → ∃ x, translate (ram s') root va' = Some x ∧
        tr_pa x = page * PG_SIZE + va' mod PG_SIZE ∧ tr_exec x = negb (has perm VM_NOEXEC) ∧
        tr_read x = path_access (ram s') root (leaf_path va) false && has perm VM_USER ∧
        tr_write x = path_access (ram s') root (leaf_path va) true && (has perm VM_USER && has perm VM_WRITE)) ∧
     ∀ va', ¬ same_page va va' → translate (ram s') root va' = translate (ram s) root va') ∨
  (∃ e s' rs', page_insert root page va perm s = Fail e s' ∧ pt_step root s s' rs rs' ∧
     (e = E_Exists ∧ is_Some (translate (ram s) root va) ∨ e = E_NoMem ∧ rs' = [])).
Proof.
  intros W Hpg Hnf Hfr Href.
  destruct (page_insert_spec s rs root page pg va perm W Hpg Hnf Hfr Href)
    as [(s1 & s' & rs1 & ptep & E & [St _ Hr Hpr W' Hram Hpm _])|(e & s' & rs' & E & St & _ & He)];
    [left|right; by exists e, s', rs'].
  destruct (page_entry (page * PG_SIZE) perm Hfr) as (Hp & Ha & _ & _ & Hx & Hu).
  destruct (leaf_write s1 rs1 root va ptep (make_pte_page (page * PG_SIZE) perm) (st_wf _ _ _ _ _ St) Hr) as (_ & Hleaf & _ & Hother).
  { apply (entries_width (page * PG_SIZE) perm 0 0 Hfr). lia. }
  simpl in Hleaf, Hother. rewrite <- Hram in Hleaf, Hother. exists s', rs1. split_and!; [done|done|..].
  - rewrite <- (st_tr _ _ _ _ _ St), (translate_leaf _ _ va va _ Hr eq_refl), Hpr. done.
  - rewrite Hpm. simpl. by rewrite lookup_insert_eq.
  - intros va' Hs. assert (word (ram s') ptep = make_pte_page (page * PG_SIZE) perm) as Hw by (rewrite Hram, word_insert; by rewrite decide_True).
    rewrite (translate_leaf _ _ _ _ _ Hleaf Hs), Hw, Hp. simpl. eexists. split; [done|]. simpl.
    rewrite Ha, Hx, !Hu, andb_true_r. change 4096 with (2 ^ 12). rewrite (land_lnot_mask _ 12), (land_mask _ 12) by lia.
    unfold PG_SIZE. rewrite Z.mod_mul by lia. split_and!; try done. change (2 ^ 12) with 4096. lia.
  - intros va' Hs. rewrite (Hother va' Hs). apply (st_tr _ _ _ _ _ St).
Qed.

(** [user_address] returns the kernel alias of exactly the physical
    address the hardware translates [user_va] to, and only when [user_va] is
    a user address above the first page that user code itself may read (or
    write, when [write]); every other address is refused with [Invalid]. *)
Theorem user_address_correct s root user_va write :
  user_address (Some root) user_va write s =
  match translate (ram s) root user_va with
  | Some x =>
      if (PG_SIZE <=? user_va) && (user_va <? USER_SPACE_TOP) && (if write : bool then tr_write x else tr_read x)
      then Ret (tr_pa x) s else Fail E_Invalid s
  | None => Fail E_Invalid s
  end.
Proof.
  unfold user_address, ensure, bind, translate. destruct (_ && _); simpl.
  - apply user_walk_spec.
  - by destruct (walk _ _ _ _).
Qed.
End proofs.
