(* ===== verification/PageTableWitness.v ===== *)
(** * The page tables on the three architectures

    The laws of [Paging] hold of the three headers, and a concrete x86-64
    address space on which the theorems of [PageTableProofs] apply. *)

From S2P Require Import Prelude PagingX86 PagingAArch64 PagingRiscV64.
From S2P Require Import LibList Pmm PmmProofs Paging SwapSlots PageTable PageTableProofs.

(** C23: the page-table entries of x86-64, AArch64 and RISC-V Sv39 satisfy the
    laws the memory manager relies on: a table entry is present, is no block
    and holds its frame; a page entry holds its frame and exactly the
    requested write, user and execute permissions; splitting a block gives
    present sub-entries that map the same addresses with the same
    permissions; a zero entry is not present; entries are 64-bit words. *)
Theorem paging_laws :
  @PagingLaws x86_paging ∧ @PagingLaws aarch64_paging ∧ @PagingLaws riscv64_paging.
Proof. split_and!; [apply x86_laws|apply aarch64_laws|apply riscv64_laws]. Qed.

(** Page 1 is the root table, pages 2 to 7 are free, memory is zero. *)
Definition ex_free : pmm := Eval vm_compute in default ex_boot (out_state (init_memmap 2 6 ex_boot)).
Definition ex_mm : mm := MkMm ex_free 8 ∅ PG_SIZE [] (init_slots 64).

Lemma ex_free_rep : pmm_rep ex_free [(2, 6)].
Proof.
  destruct (init_memmap_spec ex_boot [] 2 6 ex_boot_rep) as (s1 & Hs1 & R1 & _); [lia| |].
  { intros i Hi. split; [|set_solver]. revert i Hi. apply Forall_forall. vm_compute. repeat constructor; eauto. }
  replace ex_free with s1; [done|]. apply (f_equal out_state) in Hs1.
  change (Some ex_free = Some s1) in Hs1. by injection Hs1.
Qed.

#[local] Existing Instance x86_paging.
#[local] Existing Instance x86_laws.

Lemma ex_frames i : 0 ≤ i < 8 → frame (i * PG_SIZE).
Proof. intros. unfold frame, PG_SIZE. simpl. split; [lia|]. exists i. lia. Qed.

Lemma ex_mm_wf : pt_wf ex_mm [(2, 6)] PG_SIZE.
Proof.
  assert (∀ p a, table_at (ram ex_mm) PG_SIZE p = Some a → p = [] ∧ a = PG_SIZE) as Hroot.
  { intros [|i p] a; [naive_solver|]. simpl. unfold word. by rewrite lookup_empty. }
  constructor.
  - apply ex_free_rep.
  - intros a. unfold word, ex_mm. simpl. rewrite lookup_empty. done.
  - intros i (p & k & [= -> ->]%list_elem_of_singleton & ?)%elem_of_free_pages. apply ex_frames. lia.
  - intros p a _ [-> ->]%Hroot. split; [apply (ex_frames 1); lia|]. apply (bool_decide_unpack _). by vm_compute.
  - intros p q a _ _ [-> _]%Hroot [-> _]%Hroot. done.
Qed.

Lemma get_pte_correct_witness :
  ∃ r s', get_pte PG_SIZE 0x400000 true ex_mm = Ret r s' ∧
    ∀ va, translate (ram s') PG_SIZE va = translate (ram ex_mm) PG_SIZE va.
Proof.
  destruct (get_pte_correct ex_mm [(2, 6)] PG_SIZE 0x400000 true ex_mm_wf) as (r & s' & rs' & Hg & St & _ & _).
  exists r, s'. split; [exact Hg|]. exact (st_tr _ _ _ _ _ St).
Defined.

Definition returns {S A} (o : Out S A) : bool := match o with Ret _ _ => true | _ => false end.

(** Page 0 is not free: it stands for a page its owner has allocated. *)
Lemma page_insert_correct_witness :
  ∃ s', page_insert PG_SIZE 0 0x400000 VM_USER_RW ex_mm = Ret tt s' ∧
    ∃ x, translate (ram s') PG_SIZE 0x400123 = Some x ∧ tr_pa x = 0x123.
Proof.
  destruct (page_insert_correct ex_mm [(2, 6)] PG_SIZE 0 Page0 0x400000 VM_USER_RW ex_mm_wf)
    as [(s' & rs' & Hp & _ & _ & _ & Htr & _)|(e & s' & rs' & Hp & _)].
  - by vm_compute.
  - apply (bool_decide_unpack _). by vm_compute.
  - apply (ex_frames 0). split; [done|]. by vm_compute.
  - split; [done|]. by vm_compute.
  - exists s'. split; [exact Hp|]. destruct (Htr 0x400123) as (x & Hx & Hpa & _); [by vm_compute|].
    exists x. split; [exact Hx|]. rewrite Hpa. by vm_compute.
  - exfalso. assert (returns (page_insert PG_SIZE 0 0x400000 VM_USER_RW ex_mm) = true) as Hr by by vm_compute.
    rewrite Hp in Hr. discriminate Hr.
Defined.
