(* ===== verification/Vmm.v ===== *)
(** * User memory access and mappings: [kernel/mm/vmm.cpp]

    [user_range_valid], [copy_from_user], [copy_to_user], [map_physical_range].
    Kernel buffers are lists of bytes; user memory is reached through the
    kernel alias [user_address] returns. *)

From S2P Require Import Prelude LibList Pmm PmmProofs Paging SwapSlots PageTable PageTableProofs.

(** ** Bytes of physical memory *)

Definition byte_get (m : gmap Z Z) (a : Z) : Z :=
  Z.shiftr (word m (a - a mod 8)) (8 * (a mod 8)) mod 2 ^ 8.
Definition byte_set (m : gmap Z Z) (a b : Z) : gmap Z Z :=
  let k := 8 * (a mod 8) in
  <[a - a mod 8 := Z.lor (Z.ldiff (word m (a - a mod 8)) (Z.shiftl 255 k)) (Z.shiftl b k)]> m.
Definition bytes_get (m : gmap Z Z) (a n : Z) : list Z := (λ i, byte_get m (a + i)) <$> seqZ 0 n.
Fixpoint bytes_set (m : gmap Z Z) (a : Z) (bs : list Z) : gmap Z Z :=
  match bs with
  | [] => m
  | b :: bs => bytes_set (byte_set m a b) (a + 1) bs
  end.

Section vmm.
Context `{Paging}.

Definition PG_MASK : Z := PG_SIZE - 1.

(** The bytes of the access that lie on the page of [user_va]. *)
Definition chunk_bytes (user_va byte_count : Z) : Z :=
  let chunk := PG_SIZE - Z.land user_va PG_MASK in
  if byte_count <? chunk then byte_count else chunk.

Fixpoint valid_loop (fuel : nat) (pgdir user_va byte_count : Z) (write : bool) : M mm bool :=
  match fuel with
  | O => halt OutOfFuel
  | S fuel =>
      if byte_count =? 0 then ret true
      else
        r <- try_ (user_address (Some pgdir) user_va write);;
        match r with
        | inr _ => ret false
        | inl _ =>
            let chunk := chunk_bytes user_va byte_count in
            valid_loop fuel pgdir (u64 (user_va + chunk)) (byte_count - chunk) write
        end
  end.

(** [mm] is the root table of the address space, if it has one. *)
Definition user_range_valid (pgdir : option Z) (user_va byte_count : Z) (write : bool) : M mm bool :=
  match pgdir with
  | None => ret false
  | Some pgdir =>
      if (user_va <? PG_SIZE) || (USER_SPACE_TOP <=? user_va) || (USER_SPACE_TOP - user_va <? byte_count)
      then ret false
      else valid_loop (S (Z.to_nat byte_count)) pgdir user_va byte_count write
  end.

(** The loop of [copy_user]: to user memory it consumes the kernel bytes, from
    user memory it returns them. *)
Fixpoint copy_loop (fuel : nat) (pgdir user_va byte_count : Z) (to_user : bool) (bytes : list Z) : M mm (list Z) :=
  match fuel with
  | O => halt OutOfFuel
  | S fuel =>
      if byte_count =? 0 then ret []
      else
        alias <- user_address (Some pgdir) user_va to_user;;
        let chunk := chunk_bytes user_va byte_count in
        if to_user then
          modify (λ s, with_ram (bytes_set (ram s) alias (take (Z.to_nat chunk) bytes)) s);;
          copy_loop fuel pgdir (u64 (user_va + chunk)) (byte_count - chunk) to_user (drop (Z.to_nat chunk) bytes)
        else
          got <- gets (λ s, bytes_get (ram s) alias chunk);;
          rest <- copy_loop fuel pgdir (u64 (user_va + chunk)) (byte_count - chunk) to_user bytes;;
          ret (got ++ rest)
  end.

Definition copy_user (pgdir : option Z) (user_va : Z) (bytes : list Z) (byte_count : Z) (to_user : bool) : M mm (list Z) :=
  ok <- user_range_valid pgdir user_va byte_count to_user;;
  ensure ok E_Invalid;;
  match pgdir with
  | None => fail E_Invalid
  | Some pgdir => copy_loop (S (Z.to_nat byte_count)) pgdir user_va byte_count to_user bytes
  end.
Definition copy_from_user (pgdir : option Z) (user_src_va byte_count : Z) : M mm (list Z) :=
  copy_user pgdir user_src_va [] byte_count false.
Definition copy_to_user (pgdir : option Z) (user_dst_va : Z) (kernel_src : list Z) : M mm unit :=
  copy_user pgdir user_dst_va kernel_src (Z.of_nat (length kernel_src)) true;; ret tt.

(** [map_physical_range]: [round_up] and [round_down] of [kernel/lib/math.h]. *)
Definition round_down (a n : Z) : Z := a - a mod n.
Definition round_up (a n : Z) : Z := u64 (a + n - 1) / n * n.

Fixpoint map_loop (page_count : nat) (pgdir va pa perm : Z) : M mm unit :=
  match page_count with
  | O => ret tt
  | S page_count =>
      ptep <- get_pte pgdir va true;;
      match ptep with
      | None => fail E_NoMem
      | Some ptep =>
          wr64 ptep (make_pte_page pa perm);;
          map_loop page_count pgdir (u64 (va + PG_SIZE)) (u64 (pa + PG_SIZE)) perm
      end
  end.
Definition map_physical_range (pgdir va byte_count pa perm : Z) : M mm unit :=
  let page_count := round_up byte_count PG_SIZE / PG_SIZE in
  map_loop (Z.to_nat page_count) pgdir (round_down va PG_SIZE) (round_down pa PG_SIZE) perm.
End vmm.

(** ** Lemmas on bytes *)

Lemma byte_get_testbit m a i :
  0 ≤ i → Z.testbit (byte_get m a) i = (i <? 8) && Z.testbit (word m (a - a mod 8)) (i + 8 * (a mod 8)).
Proof.
  intros Hi. unfold byte_get. pose proof (Z.mod_pos_bound a 8 ltac:(lia)).
  destruct (Z.ltb_spec i 8); [rewrite Z.mod_pow2_bits_low, Z.shiftr_spec by lia; done|].
  by rewrite Z.mod_pow2_bits_high by lia.
Qed.

Lemma byte_set_other m a b x : x ≠ a - a mod 8 → word (byte_set m a b) x = word m x.
Proof. intros. unfold byte_set. rewrite word_insert. by case_decide. Qed.

Lemma byte_get_set m a b x :
  0 ≤ b < 2 ^ 8 → byte_get (byte_set m a b) x = if decide (x = a) then b else byte_get m x.
Proof.
  intros Hb. pose proof (Z.mod_pos_bound a 8 ltac:(lia)). pose proof (Z.mod_pos_bound x 8 ltac:(lia)).
  pose proof (Z.div_mod a 8 ltac:(lia)). pose proof (Z.div_mod x 8 ltac:(lia)).
  apply Z.bits_inj'. intros i Hi. rewrite byte_get_testbit by done. unfold byte_set.
  assert (∀ j, 0 ≤ j → Z.testbit 255 j = (j <? 8)) as H255.
  { intros j Hj. change 255 with (2 ^ 8 - 2 ^ 0). rewrite mask_testbit by lia. by rewrite (proj2 (Z.leb_le 0 j)). }
  destruct (decide (x = a)) as [->|Hne].
  - rewrite word_insert, decide_True, Z.lor_spec, Z.ldiff_spec, !Z.shiftl_spec by lia.
    replace (i + 8 * (a mod 8) - 8 * (a mod 8)) with i by lia. rewrite H255 by lia.
    destruct (Z.ltb_spec i 8); simpl; [by rewrite andb_false_r|]. by rewrite (small_testbit b 8) by lia.
  - rewrite byte_get_testbit by done. destruct (Z.ltb_spec i 8); [|done]. rewrite !andb_true_l, word_insert.
    case_decide as E; [|done]. rewrite Z.lor_spec, Z.ldiff_spec, !Z.shiftl_spec, <- E by lia.
    assert (x mod 8 ≠ a mod 8) as Hmod by lia.
    destruct (Z.ltb_spec (i + 8 * (x mod 8) - 8 * (a mod 8)) 0).
    + rewrite (Z.testbit_neg_r 255), (Z.testbit_neg_r b) by lia. by rewrite andb_true_r, orb_false_r.
    + rewrite H255, (small_testbit b 8) by lia. rewrite (proj2 (Z.ltb_ge _ 8)) by lia. by rewrite andb_true_r, orb_false_r.
Qed.
