(* ===== verification/VmmProofs.v ===== *)
(** * Correctness of user memory access

    [user_range_valid] accepts exactly the ranges every byte of which user
    code may access; [copy_to_user] and [copy_from_user] move bytes between
    the kernel and the physical addresses the hardware translates to. *)

From S2P Require Import Prelude LibList Pmm PmmProofs Paging SwapSlots PageTable PageTableProofs Vmm.

#[local] Arguments seqZ : simpl never.

Section proofs.
Context `{PL : PagingLaws}.
Implicit Types (m : gmap Z Z).

(** ** Addresses of one page *)

Definition shift_tr (k : Z) (x : tr) : tr := MkTr (tr_pa x + k) (tr_read x) (tr_write x) (tr_exec x).

Lemma div_same_page va k s :
  12 ≤ s → 0 ≤ k → va mod 4096 + k < 4096 → (va + k) / 2 ^ s = va / 2 ^ s.
Proof.
  intros Hs Hk Hm. replace s with (12 + (s - 12)) by lia. rewrite Z.pow_add_r by lia.
  rewrite <- !Z.div_div by (try apply Z.pow_pos_nonneg; lia). f_equal.
  change (2 ^ 12) with 4096. pose proof (Z.div_mod va 4096 ltac:(lia)).
  symmetry. apply Z.div_unique with (va mod 4096 + k); [|lia]. pose proof (Z.mod_pos_bound va 4096 ltac:(lia)). lia.
Qed.

Lemma walk_offset m va k shifts : ∀ t,
  Forall (λ s, 12 ≤ s) shifts → 0 ≤ k → va mod 4096 + k < 4096 →
  walk shifts m t (va + k) = shift_tr k <$> walk shifts m t va.
Proof.
  induction shifts as [|s rest IH]; intros t Hall Hk Hm; [done|].
  apply Forall_cons in Hall as [Hs Hall]. cbn [walk].
  assert (level_index (va + k) s = level_index va s) as Hidx by (rewrite !level_index_eq, div_same_page by lia; done).
  unfold entry_at. rewrite Hidx. set (e := word m _).
  destruct (pte_present e); [|done]. destruct (_ || _); simpl.
  - unfold leaf_tr, shift_tr. simpl. do 2 f_equal. rewrite !(land_mask _ s) by lia.
    pose proof (Z.div_mod va (2 ^ s) ltac:(apply Z.pow_nonzero; lia)).
    pose proof (Z.div_mod (va + k) (2 ^ s) ltac:(apply Z.pow_nonzero; lia)) as Hd. rewrite div_same_page in Hd by lia. lia.
  - rewrite IH by done. by destruct (walk rest m (pte_addr e) va).
Qed.

Lemma translate_offset m root va k :
  0 ≤ k → va mod 4096 + k < 4096 → translate m root (va + k) = shift_tr k <$> translate m root va.
Proof.
  intros. apply walk_offset; [|done..]. apply Forall_forall. intros s Hs. by apply (phys_covers s).
Qed.

(** ** [user_range_valid] *)

Definition allowed m (root va : Z) (w : bool) : bool :=
  match translate m root va with Some x => if w then tr_write x else tr_read x | None => false end.
Definition paddr m (root va : Z) : Z := match translate m root va with Some x => tr_pa x | None => 0 end.

Lemma allowed_offset m root va k w :
  0 ≤ k → va mod 4096 + k < 4096 → allowed m root (va + k) w = allowed m root va w.
Proof. intros. unfold allowed. rewrite translate_offset by done. by destruct (translate m root va). Qed.

Lemma paddr_offset m root va k w :
  0 ≤ k → va mod 4096 + k < 4096 → allowed m root va w = true → paddr m root (va + k) = paddr m root va + k.
Proof. unfold allowed, paddr. intros. rewrite translate_offset by done. by destruct (translate m root va). Qed.

Lemma user_address_in s root va w :
  PG_SIZE ≤ va < USER_SPACE_TOP →
  user_address (Some root) va w s = if allowed (ram s) root va w then Ret (paddr (ram s) root va) s else Fail E_Invalid s.
Proof.
  intros Hva. unfold user_address, ensure. rewrite (proj2 (Z.leb_le _ _)), (proj2 (Z.ltb_lt _ _)) by lia.
  simpl. rewrite bind_ret, user_walk_spec. unfold allowed, paddr, translate. by destruct (walk _ _ _ _).
Qed.

Lemma chunk_spec va n :
  0 < n → let c := chunk_bytes va n in 1 ≤ c ≤ n ∧ va mod 4096 + c ≤ 4096.
Proof.
  intros Hn c. unfold c, chunk_bytes, PG_MASK, PG_SIZE. change (4096 - 1) with (2 ^ 12 - 1). rewrite land_mask by lia.
  change (2 ^ 12) with 4096. pose proof (Z.mod_pos_bound va 4096 ltac:(lia)). case_bool; lia.
Qed.

(** The bytes of a chunk share the permission of the first. *)
Lemma chunk_allowed m root va n w :
  0 < n → allowed m root va w = true → ∀ i, 0 ≤ i < chunk_bytes va n → allowed m root (va + i) w = true.
Proof. intros Hn Ha i Hi. destruct (chunk_spec va n Hn). rewrite allowed_offset; [done|lia..]. Qed.

Lemma valid_loop_spec s root w fuel : ∀ va n,
  (Z.to_nat n < fuel)%nat → 0 ≤ n → PG_SIZE ≤ va → va + n ≤ USER_SPACE_TOP →
  ∃ b, valid_loop fuel root va n w s = Ret b s ∧
    (b = true ↔ ∀ i, 0 ≤ i < n → allowed (ram s) root (va + i) w = true).
Proof.
  induction fuel as [|fuel IH]; intros va n Hf Hn Hva Htop; [lia|]. cbn [valid_loop].
  destruct (Z.eqb_spec n 0) as [->|Hn0]. { exists true. split; [done|]. split; [intros; lia|done]. }
  pose proof user_top as Ht. unfold PG_SIZE in *. destruct (chunk_spec va n ltac:(lia)) as [Hc Hp]. unfold try_ at 1, bind at 1.
  rewrite user_address_in by (unfold PG_SIZE; lia). destruct (allowed (ram s) root va w) eqn:Ha.
  - rewrite u64_small by lia. destruct (IH (va + chunk_bytes va n) (n - chunk_bytes va n)) as (b & Hb & Hiff); [lia..|].
    exists b. split; [done|]. rewrite Hiff. split; intros Hall i Hi.
    + destruct (Z.ltb_spec i (chunk_bytes va n)); [apply (chunk_allowed _ _ _ n); lia || done|].
      replace (va + i) with (va + chunk_bytes va n + (i - chunk_bytes va n)) by lia. apply Hall. lia.
    + rewrite <- Z.add_assoc. apply Hall. lia.
  - exists false. split; [done|]. split; [done|]. intros Hall. rewrite <- Ha.
    specialize (Hall 0 ltac:(lia)). by rewrite Z.add_0_r in Hall.
Qed.

Lemma user_range_valid_spec s root va n w :
  0 ≤ n → ∃ b, user_range_valid (Some root) va n w s = Ret b s ∧
    (b = true ↔ PG_SIZE ≤ va < USER_SPACE_TOP ∧ va + n ≤ USER_SPACE_TOP ∧
       ∀ i, 0 ≤ i < n → allowed (ram s) root (va + i) w = true).
Proof.
  intros Hn. unfold user_range_valid.
  destruct (Z.ltb_spec va PG_SIZE), (Z.leb_spec USER_SPACE_TOP va), (Z.ltb_spec (USER_SPACE_TOP - va) n); simpl;
    try (exists false; split; [done|split; [done|lia]]).
  destruct (valid_loop_spec s root w (S (Z.to_nat n)) va n) as (b & Hb & Hiff); [lia..|].
  exists b. split; [done|]. rewrite Hiff. split; [|naive_solver]. intros. split_and!; lia || done.
Qed.
(** ** Copying *)

Definition is_byte (b : Z) : Prop := 0 ≤ b < 2 ^ 8.

Lemma bytes_set_get bs : ∀ m a x, Forall is_byte bs →
  byte_get (bytes_set m a bs) x =
  if (a <=? x) && (x <? a + Z.of_nat (length bs)) then default 0 (bs !! Z.to_nat (x - a)) else byte_get m x.
Proof.
  induction bs as [|b bs IH]; intros m a x Hb; cbn [bytes_set length].
  { case_bool; simpl; lia || done. }
  apply Forall_cons in Hb as [Hb Hbs]. rewrite IH, byte_get_set by done.
  destruct (decide (x = a)) as [->|Hne].
  - case_bool; simpl; try lia. by rewrite Z.sub_diag.
  - destruct (Z.leb_spec (a + 1) x), (Z.ltb_spec x (a + 1 + Z.of_nat (length bs))), (Z.leb_spec a x),
      (Z.ltb_spec x (a + Z.of_nat (S (length bs)))); simpl; try lia; try done.
    by replace (Z.to_nat (x - a)) with (S (Z.to_nat (x - (a + 1)))) by lia.
Qed.

Lemma bytes_set_word bs : ∀ m a y,
  (∀ i, 0 ≤ i < Z.of_nat (length bs) → a + i - (a + i) mod 8 ≠ y) → word (bytes_set m a bs) y = word m y.
Proof.
  induction bs as [|b bs IH]; intros m a y Hy; [done|]. cbn [bytes_set length] in *. rewrite IH.
  - apply byte_set_other. specialize (Hy 0 ltac:(lia)). rewrite Z.add_0_r in Hy. congruence.
  - intros i Hi. specialize (Hy (i + 1) ltac:(lia)). by rewrite <- Z.add_assoc, (Z.add_comm 1 i).
Qed.

Lemma byte_set_range m a b : (∀ x, 0 ≤ word m x < 2 ^ 64) → is_byte b → ∀ x, 0 ≤ word (byte_set m a b) x < 2 ^ 64.
Proof.
  intros Hm Hb x. unfold byte_set. rewrite word_insert. case_decide; [|apply Hm].
  pose proof (Z.mod_pos_bound a 8 ltac:(lia)) as Hk. pose proof (Hm (a - a mod 8)) as Hw. unfold is_byte in Hb.
  apply width_of_bits.
  - apply Z.lor_nonneg. split; [apply Z.ldiff_nonneg; lia|apply Z.shiftl_nonneg; lia].
  - intros i Hi. rewrite Z.lor_spec, Z.ldiff_spec, (small_testbit _ 64), !Z.shiftl_spec by lia. cbn [andb orb].
    apply (small_testbit b 8); lia.
Qed.
Lemma bytes_set_range bs : ∀ m a, (∀ x, 0 ≤ word m x < 2 ^ 64) → Forall is_byte bs → ∀ x, 0 ≤ word (bytes_set m a bs) x < 2 ^ 64.
Proof.
  induction bs as [|b bs IH]; intros m a Hm Hb; [done|]. apply Forall_cons in Hb as [Hb Hbs]. cbn [bytes_set].
  apply IH; [by apply byte_set_range|done].
Qed.

(** Memory whose tables are those of [m]. *)
Definition same_tables m m' (root : Z) : Prop :=
  ∀ q a j, vpath q → table_at m root q = Some a → 0 ≤ j < 512 → word m' (a + 8 * j) = word m (a + 8 * j).

Lemma same_tables_translate m m' root :
  same_tables m m' root →
  (∀ va, translate m' root va = translate m root va) ∧
  (∀ q, vpath q → table_at m' root q = table_at m root q).
Proof.
  intros Hs. assert (agree_except m m' root [] (-1)) as Hag by (intros q a j ???? ; by apply (Hs q)). split.
  - intros va. apply (walk_agree _ _ _ _ _ va Hag). intros pre sh rest a _ _ Hidx _.
    pose proof (level_index_range va sh). lia.
  - intros q Hq. apply (table_at_agree _ _ _ _ _ _ Hag Hq). intros [k ->].
    pose proof (vpath_index [] _ _ Hq). lia.
Qed.

(** The range's bytes lie in distinct places, none of them in a table. *)
Record private m (root va n : Z) : Prop := {
  pv_inj : ∀ i j, 0 ≤ i < n → 0 ≤ j < n → paddr m root (va + i) = paddr m root (va + j) → i = j;
  pv_table : ∀ i q a j, 0 ≤ i < n → vpath q → table_at m root q = Some a → 0 ≤ j < 512 →
    paddr m root (va + i) - paddr m root (va + i) mod 8 ≠ a + 8 * j }.

Lemma private_rest m m' root va n c :
  same_tables m m' root → private m root va n → 0 ≤ c ≤ n → private m' root (va + c) (n - c).
Proof.
  intros Hs P Hc. destruct (same_tables_translate _ _ _ Hs) as [Htr Htab].
  assert (∀ v, paddr m' root v = paddr m root v) as Hp by (intros v; unfold paddr; by rewrite Htr). constructor.
  - intros i j Hi Hj. rewrite !Hp, <- !Z.add_assoc. intros E.
    pose proof (pv_inj _ _ _ _ P (c + i) (c + j) ltac:(lia) ltac:(lia) E). lia.
  - intros i q a j Hi Hq Ha Hj. rewrite !Hp, <- !Z.add_assoc. rewrite Htab in Ha by done.
    apply (pv_table _ _ _ _ P (c + i) q); [lia|done..].
Qed.

(** One chunk stored at the alias of its first byte. *)
Lemma chunk_store m root va n w bs :
  0 < n → allowed m root va w = true → private m root va n → Forall is_byte bs → n = Z.of_nat (length bs) →
  let c := chunk_bytes va n in
  let m1 := bytes_set m (paddr m root va) (take (Z.to_nat c) bs) in
  same_tables m m1 root ∧
  (∀ i, 0 ≤ i < c → byte_get m1 (paddr m root (va + i)) = default 0 (bs !! Z.to_nat i)) ∧
  (∀ x, (∀ i, 0 ≤ i < c → x ≠ paddr m root (va + i)) → byte_get m1 x = byte_get m x).
Proof.
  intros Hn Ha P Hb Hlen c m1. destruct (chunk_spec va n Hn) as [Hc Hp]. fold c in Hc, Hp.
  assert (length (take (Z.to_nat c) bs) = Z.to_nat c) as Hl by (rewrite length_take; lia).
  assert (∀ i, 0 ≤ i < c → paddr m root (va + i) = paddr m root va + i) as Hpa.
  { intros i Hi. apply (paddr_offset _ _ _ _ w); lia || done. }
  split_and!.
  - intros q a j Hq Ht Hj. apply bytes_set_word. intros i Hi. rewrite Hl in Hi. rewrite <- Hpa by lia.
    apply (pv_table _ _ _ _ P i q); [lia|done..].
  - intros i Hi. unfold m1. rewrite bytes_set_get, Hl, Hpa by (by try apply Forall_take).
    case_bool; simpl; try lia. replace (paddr m root va + i - paddr m root va) with i by lia.
    by rewrite lookup_take_lt by lia.
  - intros x Hx. unfold m1. rewrite bytes_set_get, Hl by (by apply Forall_take). case_bool; simpl; try done.
    exfalso. apply (Hx (x - paddr m root va)); [lia|]. rewrite Hpa by lia. lia.
Qed.

Lemma allowed_same m m' root va w : (∀ v, translate m' root v = translate m root v) → allowed m' root va w = allowed m root va w.
Proof. intros Htr. unfold allowed. by rewrite Htr. Qed.
Lemma paddr_same m m' root va : (∀ v, translate m' root v = translate m root v) → paddr m' root va = paddr m root va.
Proof. intros Htr. unfold paddr. by rewrite Htr. Qed.

Lemma copy_to_loop root fuel : ∀ va n bs s,
  (Z.to_nat n < fuel)%nat → n = Z.of_nat (length bs) → PG_SIZE ≤ va → va + n ≤ USER_SPACE_TOP →
  Forall is_byte bs → private (ram s) root va n → (∀ i, 0 ≤ i < n → allowed (ram s) root (va + i) true = true) →
  ∃ m', copy_loop fuel root va n true bs s = Ret [] (with_ram m' s) ∧ same_tables (ram s) m' root ∧
    (∀ i, 0 ≤ i < n → byte_get m' (paddr (ram s) root (va + i)) = default 0 (bs !! Z.to_nat i)) ∧
    (∀ x, (∀ i, 0 ≤ i < n → x ≠ paddr (ram s) root (va + i)) → byte_get m' x = byte_get (ram s) x) ∧
    ((∀ a, 0 ≤ word (ram s) a < 2 ^ 64) → ∀ a, 0 ≤ word m' a < 2 ^ 64).
Proof.
  induction fuel as [|fuel IH]; intros va n bs s Hf Hn Hva Htop Hb P Hal; [lia|]. cbn [copy_loop].
  destruct (Z.eqb_spec n 0) as [->|Hn0].
  { exists (ram s). split; [by destruct s|]. split; [done|]. split; [lia|]. done. }
  pose proof user_top as Ht. destruct (chunk_spec va n ltac:(lia)) as [Hc Hp].
  pose proof (Hal 0 ltac:(lia)) as Ha. rewrite Z.add_0_r in Ha.
  destruct (chunk_store (ram s) root va n true bs ltac:(lia) Ha P Hb Hn) as (Hs1 & Hin & Hout).
  set (c := chunk_bytes va n) in *. set (m1 := bytes_set _ _ _) in *.
  destruct (same_tables_translate _ _ _ Hs1) as [Htr Htab].
  rewrite (bind_Ret _ _ s (paddr (ram s) root va) s) by (rewrite user_address_in, Ha by lia; done).
  rewrite (bind_Ret _ _ s tt (with_ram m1 s)) by done. rewrite u64_small by (unfold PG_SIZE in *; lia).
  destruct (IH (va + c) (n - c) (drop (Z.to_nat c) bs) (with_ram m1 s)) as (m2 & Hrun & Hs2 & Hin2 & Hout2 & Hrg2).
  { lia. } { rewrite length_drop. lia. } { lia. } { lia. } { by apply Forall_drop. }
  { by apply private_rest with (m := ram s); [..|lia]. }
  { intros i Hi. simpl. rewrite (allowed_same (ram s) m1), <- Z.add_assoc by done. apply Hal. lia. }
  simpl in *. exists m2. split; [done|]. split; [|split; [|split]].
  - intros q a j Hq Hta Hj. rewrite (Hs2 q), (Hs1 q); try done. by rewrite Htab.
  - intros i Hi. destruct (Z.ltb_spec i c).
    + rewrite Hout2; [by rewrite Hin by lia|]. intros k Hk. rewrite (paddr_same (ram s) m1), <- Z.add_assoc by done. intros E.
      pose proof (pv_inj _ _ _ _ P i (c + k) ltac:(lia) ltac:(lia) E). lia.
    + specialize (Hin2 (i - c) ltac:(lia)). rewrite (paddr_same (ram s) m1), <- Z.add_assoc, lookup_drop in Hin2 by done.
      replace (c + (i - c)) with i in Hin2 by lia. rewrite Hin2. do 2 f_equal. lia.
  - intros x Hx. rewrite Hout2, Hout; [done|..].
    + intros i Hi. apply Hx. lia.
    + intros i Hi. rewrite (paddr_same (ram s) m1), <- Z.add_assoc by done. apply Hx. lia.
  - intros Hr. apply Hrg2. apply bytes_set_range; [done|by apply Forall_take].
Qed.

Lemma copy_from_loop root fuel : ∀ va n s bs,
  (Z.to_nat n < fuel)%nat → 0 ≤ n → PG_SIZE ≤ va → va + n ≤ USER_SPACE_TOP →
  (∀ i, 0 ≤ i < n → allowed (ram s) root (va + i) false = true) →
  copy_loop fuel root va n false bs s = Ret ((λ i, byte_get (ram s) (paddr (ram s) root (va + i))) <$> seqZ 0 n) s.
Proof.
  induction fuel as [|fuel IH]; intros va n s bs Hf Hn Hva Htop Hal; [lia|]. cbn [copy_loop].
  destruct (Z.eqb_spec n 0) as [->|Hn0]; [done|].
  pose proof user_top as Ht. destruct (chunk_spec va n ltac:(lia)) as [Hc Hp]. set (c := chunk_bytes va n) in *.
  pose proof (Hal 0 ltac:(lia)) as Ha. rewrite Z.add_0_r in Ha.
  rewrite (bind_Ret _ _ s (paddr (ram s) root va) s) by (rewrite user_address_in, Ha by lia; done).
  unfold gets. rewrite (bind_Ret _ _ s (bytes_get (ram s) (paddr (ram s) root va) c) s) by done.
  rewrite u64_small by (unfold PG_SIZE in *; lia).
  erewrite bind_Ret by (apply IH; try lia; intros i Hi; rewrite <- Z.add_assoc; apply Hal; lia).
  unfold ret. f_equal. unfold bytes_get. rewrite (seqZ_split 0 c n) by lia. rewrite fmap_app. f_equal.
  - apply list_fmap_ext. intros k i [-> Hi]%lookup_seqZ. rewrite (paddr_offset _ _ _ _ false); lia || done.
  - rewrite Z.add_0_l. replace (seqZ c (n - c)) with (Z.add c <$> seqZ 0 (n - c)) by (rewrite fmap_add_seqZ; f_equal; lia).
    rewrite <- list_fmap_compose. apply list_fmap_ext. intros k i _. simpl. do 2 f_equal. lia.
Qed.

(** ** Copies of valid ranges *)

Definition range_ok m (root va n : Z) (w : bool) : Prop :=
  PG_SIZE ≤ va < USER_SPACE_TOP ∧ va + n ≤ USER_SPACE_TOP ∧ ∀ i, 0 ≤ i < n → allowed m root (va + i) w = true.

Lemma range_valid s root va n w : 0 ≤ n → range_ok (ram s) root va n w → user_range_valid (Some root) va n w s = Ret true s.
Proof. intros Hn Hok. destruct (user_range_valid_spec s root va n w Hn) as (b & Hv & Hiff). by rewrite Hv, (proj2 Hiff Hok). Qed.
Lemma range_invalid s root va n w : 0 ≤ n → ¬ range_ok (ram s) root va n w → user_range_valid (Some root) va n w s = Ret false s.
Proof. intros Hn Hno. destruct (user_range_valid_spec s root va n w Hn) as ([] & Hv & Hiff); [|done]. by destruct Hno; apply Hiff. Qed.

Lemma copy_to_user_spec s root va bs : let n := Z.of_nat (length bs) in
  range_ok (ram s) root va n true → Forall is_byte bs → private (ram s) root va n →
  ∃ m', copy_to_user (Some root) va bs s = Ret tt (with_ram m' s) ∧ same_tables (ram s) m' root ∧
    (∀ i, 0 ≤ i < n → byte_get m' (paddr (ram s) root (va + i)) = default 0 (bs !! Z.to_nat i)) ∧
    (∀ x, (∀ i, 0 ≤ i < n → x ≠ paddr (ram s) root (va + i)) → byte_get m' x = byte_get (ram s) x) ∧
    ((∀ a, 0 ≤ word (ram s) a < 2 ^ 64) → ∀ a, 0 ≤ word m' a < 2 ^ 64).
Proof.
  intros n Hok Hb P. pose proof Hok as (Hva & Htop & Hal).
  destruct (copy_to_loop root (S (Z.to_nat n)) va n bs s) as (m' & Hrun & Hrest); try done; try lia.
  exists m'. split; [|done]. unfold copy_to_user, copy_user. fold n.
  rewrite bind_assoc, (bind_Ret _ _ _ _ _ (range_valid s root va n true ltac:(lia) Hok)), bind_assoc. unfold ensure. rewrite bind_ret.
  by rewrite (bind_Ret _ _ _ _ _ Hrun).
Qed.
Lemma copy_from_user_spec s root va n : 0 ≤ n → range_ok (ram s) root va n false →
  copy_from_user (Some root) va n s = Ret ((λ i, byte_get (ram s) (paddr (ram s) root (va + i))) <$> seqZ 0 n) s.
Proof.
  intros Hn Hok. pose proof Hok as (Hva & Htop & Hal). unfold copy_from_user, copy_user.
  rewrite (bind_Ret _ _ _ _ _ (range_valid s root va n false Hn Hok)). unfold ensure. rewrite bind_ret.
  by rewrite copy_from_loop by (done || lia).
Qed.

(** ** The properties *)

(** C25: [user_range_valid] is true exactly of the ranges that lie in user
    space above the first page and whose every byte user code may itself read
    (or write, when [write]) according to the hardware's translation. *)
Theorem user_range_valid_correct s root user_va byte_count write :
  0 ≤ byte_count →
  ∃ b, user_range_valid (Some root) user_va byte_count write s = Ret b s ∧
    (b = true ↔ PG_SIZE ≤ user_va < USER_SPACE_TOP ∧ user_va + byte_count ≤ USER_SPACE_TOP ∧
       ∀ i, 0 ≤ i < byte_count → allowed (ram s) root (user_va + i) write = true).
Proof. apply user_range_valid_spec. Qed.

Lemma walk_write_reads m va shifts : ∀ t x, walk shifts m t va = Some x → tr_write x = true → tr_read x = true.
Proof.
  induction shifts as [|sh rest IH]; intros t x; simpl; [done|].
  destruct (pte_present _); [|done]. destruct (_ || _).
  - intros [= <-]. simpl. apply write_reads.
  - destruct (walk rest m _ va) as [y|] eqn:Hy; [|done]. intros [= <-]. simpl.
    rewrite !andb_true_iff. intros [Ht Hw]. split; [by apply table_write_reads|by eapply IH].
Qed.

Lemma allowed_write_reads m root va : allowed m root va true = true → allowed m root va false = true.
Proof.
  unfold allowed, translate. destruct (walk _ _ _ _) as [x|] eqn:Hx; [|done]. by eapply walk_write_reads.
Qed.

(** C26: copying [bs] to a user range and back gives [bs].  [copy_to_user]
    either refuses the range with [Invalid], when some byte of it is outside
    user space or not writable by user code, and changes nothing; or stores
    the bytes, changing no byte outside the range and no translation, and then
    [copy_from_user] of the range returns exactly the bytes stored. *)
Theorem copy_user_roundtrip s root va bs :
  Forall is_byte bs → private (ram s) root va (Z.of_nat (length bs)) →
  let n := Z.of_nat (length bs) in
  (∃ s', copy_to_user (Some root) va bs s = Ret tt s' ∧ copy_from_user (Some root) va n s' = Ret bs s' ∧
     (∀ v, translate (ram s') root v = translate (ram s) root v) ∧
     ∀ x, (∀ i, 0 ≤ i < n → x ≠ paddr (ram s) root (va + i)) → byte_get (ram s') x = byte_get (ram s) x) ∨
  (copy_to_user (Some root) va bs s = Fail E_Invalid s ∧
     ¬ (PG_SIZE ≤ va < USER_SPACE_TOP ∧ va + n ≤ USER_SPACE_TOP ∧
        ∀ i, 0 ≤ i < n → allowed (ram s) root (va + i) true = true)).
Proof.
  intros Hb P n. destruct (user_range_valid_spec s root va n true ltac:(lia)) as (b & Hv & Hiff). destruct b; [left|right].
  2:{ split; [|intros HH; by apply Hiff in HH]. unfold copy_to_user, copy_user. fold n. by rewrite bind_assoc, (bind_Ret _ _ _ _ _ Hv). }
  destruct (copy_to_user_spec s root va bs (proj1 Hiff eq_refl) Hb P) as (m' & Hrun & Hs & Hin & Hout & _). fold n in Hin, Hout.
  destruct (proj1 Hiff eq_refl) as (Hva & Htop & Hal). destruct (same_tables_translate _ _ _ Hs) as [Htr _].
  exists (with_ram m' s). split_and!; [done| |done|done].
  rewrite copy_from_user_spec; [|lia|split_and!; [lia..|]; intros i Hi; simpl; rewrite (allowed_same (ram s) m') by done; by apply allowed_write_reads, Hal].
  f_equal. simpl. apply list_eq. intros k.
  rewrite list_lookup_fmap. destruct (decide (k < length bs)%nat) as [Hk|Hk].
  - rewrite (proj2 (lookup_seqZ 0 n k (Z.of_nat k))) by lia. simpl.
    rewrite (paddr_same (ram s) m'), Hin, Nat2Z.id by done || lia.
    by destruct (lookup_lt_is_Some_2 bs k Hk) as [x ->].
  - rewrite lookup_seqZ_ge by lia. simpl. symmetry. apply lookup_ge_None. lia.
Qed.
End proofs.
