(* ===== verification/Boot.v ===== *)
(** * Memory discovery at boot

    [normalize_available_range] and [page_init] of [kernel/mm/pmm.cpp], the
    boot memory map of [kernel/boot_info.h], [round_up] and [round_down] of
    [kernel/lib/math.h] (in [Vmm]). *)

From S2P Require Import Prelude LibList Pmm PmmProofs Paging SwapSlots PageTable PageTableProofs Vmm.

#[local] Arguments seqZ : simpl never.

(** [struct BootMemEntry] *)
Record BootMemEntry : Set := MkEntry { base_pa : Z; size_bytes : Z; mem_type : Z }.
Definition BOOT_MEM_AVAILABLE : Z := 1.
Definition available (e : BootMemEntry) : bool := mem_type e =? BOOT_MEM_AVAILABLE.

(** [__builtin_add_overflow], saturated. *)
Definition range_limit (base_pa size_bytes : Z) : Z :=
  if base_pa + size_bytes <? 2 ^ 64 then base_pa + size_bytes else 2 ^ 64 - 1.

Definition normalize_available_range (base_pa size_bytes min_pa : Z) : option (Z * Z) :=
  if size_bytes =? 0 then None
  else
    let limit := range_limit base_pa size_bytes in
    let begin := if base_pa <? min_pa then min_pa else base_pa in
    if limit <=? begin then None
    else
      let begin := round_up begin PG_SIZE in
      let limit := round_down limit PG_SIZE in
      if limit <=? begin then None else Some (begin, limit).

(** The highest address of available memory. *)
Definition max_pa_of (mmap : list BootMemEntry) : Z :=
  foldl (λ max_pa e,
    if available e then
      let limit := range_limit (base_pa e) (size_bytes e) in
      if max_pa <? limit then limit else max_pa
    else max_pa) 0 mmap.

Section page_init.
(** [KERNEL_END], [KERNEL_BASE] and [sizeof(Page)]. *)
Context (KERNEL_END KERNEL_BASE sizeof_Page : Z).

Definition descriptors_va : Z := round_up KERNEL_END PG_SIZE.
Definition valid_mem (page_count : Z) : Z := u64 (descriptors_va + page_count * sizeof_Page - KERNEL_BASE).

(** [page_init]: the return code and [Factory::page_count()]. *)
Definition page_init (mmap : list BootMemEntry) : M pmm (Z * Z) :=
  if bool_decide (mmap = []) then ret (-1, 0)
  else
    let max_pa := max_pa_of mmap in
    if max_pa =? 0 then ret (-1, 0)
    else
      let page_count := u32 (round_up max_pa PG_SIZE / PG_SIZE) in
      if page_count =? 0 then ret (-1, 0)
      else
        forM (seqZ 0 page_count) (λ i, upd_page i set_reserved);;
        forM mmap (λ e,
          if negb (available e) then ret tt
          else
            match normalize_available_range (base_pa e) (size_bytes e) (valid_mem page_count) with
            | None => ret tt
            | Some (begin, limit) => init_memmap (phys_to_page begin) ((limit - begin) / PG_SIZE)
            end);;
        ret (0, page_count).
End page_init.

(** ** What [normalize_available_range] computes *)

Lemma round_up_small a : 0 ≤ a ≤ 2 ^ 64 - PG_SIZE →
  a ≤ round_up a PG_SIZE < a + PG_SIZE ∧ (PG_SIZE | round_up a PG_SIZE).
Proof.
  intros Ha. unfold round_up, PG_SIZE in *. rewrite u64_small by lia.
  pose proof (Z.div_mod (a + 4096 - 1) 4096 ltac:(lia)). pose proof (Z.mod_pos_bound (a + 4096 - 1) 4096 ltac:(lia)).
  split; [lia|]. apply Z.divide_factor_r.
Qed.

Lemma round_down_spec a : round_down a PG_SIZE ≤ a < round_down a PG_SIZE + PG_SIZE ∧ (PG_SIZE | round_down a PG_SIZE).
Proof.
  unfold round_down, PG_SIZE. pose proof (Z.mod_pos_bound a 4096 ltac:(lia)). split; [lia|].
  exists (a / 4096). pose proof (Z.div_mod a 4096 ltac:(lia)). lia.
Qed.

(** A byte range that does not reach the end of the address space: the result
    is the whole pages of it that lie above [min_pa]. *)
Lemma normalize_spec base size min :
  0 ≤ base → 0 ≤ size → 0 ≤ min → base + size ≤ 2 ^ 64 - PG_SIZE → 
  match normalize_available_range base size min with
  | Some (b, l) => b < l ∧ (PG_SIZE | b) ∧ (PG_SIZE | l) ∧ min ≤ b ∧ base ≤ b ∧ l ≤ base + size
  | None => True
  end ∧
  ∀ p, (base ≤ p * PG_SIZE ∧ min ≤ p * PG_SIZE ∧ p * PG_SIZE + PG_SIZE ≤ base + size ↔
    ∃ b l, normalize_available_range base size min = Some (b, l) ∧ b ≤ p * PG_SIZE < l).
Proof.
  intros Hb Hs Hm Hlim. unfold normalize_available_range, range_limit. unfold PG_SIZE in Hlim.
  rewrite (proj2 (Z.ltb_lt (base + size) _)) by lia. cbv zeta.
  set (bg := if base <? min then min else base).
  assert (base ≤ bg ∧ min ≤ bg ∧ (bg = base ∨ bg = min)) as Hbg by (subst bg; case_bool; lia).
  destruct (Z.eqb_spec size 0) as [->|Hs0]; [split; [done|]; intros p; split; [unfold PG_SIZE; lia|naive_solver]|].
  destruct (Z.leb_spec (base + size) bg) as [Hge|Hlt].
  { split; [done|]. intros p. split; [unfold PG_SIZE; lia|naive_solver]. }
  destruct (round_up_small bg ltac:(unfold PG_SIZE; lia)) as [Hu [u Hu']].
  destruct (round_down_spec (base + size)) as [Hd [d Hd']].
  destruct (Z.leb_spec (round_down (base + size) PG_SIZE) (round_up bg PG_SIZE)).
  - split; [done|]. intros p. split; [unfold PG_SIZE in *; lia|naive_solver].
  - split; [split_and!; [lia|by exists u|by exists d|lia..]|]. intros p. split.
    + intros. eexists _, _. split; [done|]. unfold PG_SIZE in *. lia.
    + intros (b & l & [= <- <-] & ?). unfold PG_SIZE in *. lia.
Qed.

(** ** [page_init] *)
Section page_init_proofs.
Context (KERNEL_END KERNEL_BASE sizeof_Page : Z).
Notation valid_mem := (valid_mem KERNEL_END KERNEL_BASE sizeof_Page).
Notation page_init := (page_init KERNEL_END KERNEL_BASE sizeof_Page).

(** The run of whole pages of an entry above [min]. *)
Definition entry_run (min : Z) (e : BootMemEntry) : list (Z * Z) :=
  if available e then
    match normalize_available_range (base_pa e) (size_bytes e) min with
    | Some (b, l) => [(b / PG_SIZE, (l - b) / PG_SIZE)]
    | None => []
    end
  else [].

(** A map as firmware reports it: ranges below the end of the address space,
    the available ones pairwise disjoint. *)
Record mmap_ok (mmap : list BootMemEntry) : Prop := {
  mmap_range : ∀ e, e ∈ mmap → 0 ≤ base_pa e ∧ 0 ≤ size_bytes e ∧ base_pa e + size_bytes e ≤ 2 ^ 64 - PG_SIZE;
  mmap_disjoint : ∀ d e rest e', mmap = d ++ e :: rest → e' ∈ d → available e = true → available e' = true →
    base_pa e + size_bytes e ≤ base_pa e' ∨ base_pa e' + size_bytes e' ≤ base_pa e }.

(** The page [p] lies in the range of [e] and above [min]. *)
Definition page_in (min : Z) (e : BootMemEntry) (p : Z) : Prop :=
  available e = true ∧ base_pa e ≤ p * PG_SIZE ∧ min ≤ p * PG_SIZE ∧ p * PG_SIZE + PG_SIZE ≤ base_pa e + size_bytes e.

Lemma entry_run_pages min e p :
  0 ≤ base_pa e → 0 ≤ size_bytes e → base_pa e + size_bytes e ≤ 2 ^ 64 - PG_SIZE → 0 ≤ min →
  p ∈ free_pages (entry_run min e) ↔ page_in min e p.
Proof.
  intros Hb Hs Hl Hm. unfold entry_run, page_in. destruct (available e); [|set_solver].
  destruct (normalize_spec (base_pa e) (size_bytes e) min Hb Hs Hm Hl) as [Hn Hp]. specialize (Hp p). destruct (normalize_available_range _ _ _) as [[b l]|].
  - destruct Hn as (Hbl & [u ->] & [v ->] & _). rewrite elem_of_free_pages.
    replace (v * PG_SIZE - u * PG_SIZE) with ((v - u) * PG_SIZE) by lia. rewrite !Z.div_mul by done.
    split.
    + intros (q & k & [= -> ->]%list_elem_of_singleton & ?). split; [done|]. apply Hp.
      eexists _, _. split; [done|]. unfold PG_SIZE. lia.
    + intros [_ Hin]. apply Hp in Hin as (b & l & [= <- <-] & ?). exists u, (v - u). split; [set_solver|].
      unfold PG_SIZE in *. lia.
  - split; [set_solver|]. intros [_ Hin]. apply Hp in Hin as (b & l & ? & _). done.
Qed.

Lemma entry_run_pos min e : 0 ≤ base_pa e → 0 ≤ size_bytes e → base_pa e + size_bytes e ≤ 2 ^ 64 - PG_SIZE → 0 ≤ min →
  match normalize_available_range (base_pa e) (size_bytes e) min with
  | Some (b, l) => phys_to_page b = b / PG_SIZE ∧ 0 < (l - b) / PG_SIZE
  | None => True
  end.
Proof.
  intros Hb Hs Hl Hm. destruct (normalize_spec (base_pa e) (size_bytes e) min Hb Hs Hm Hl) as [Hn _].
  destruct (normalize_available_range _ _ _) as [[b l]|]; [|done]. destruct Hn as (Hbl & [u ->] & [v ->] & _).
  split; [unfold phys_to_page; by rewrite Z.shiftr_div_pow2|].
  replace (v * PG_SIZE - u * PG_SIZE) with ((v - u) * PG_SIZE) by lia. rewrite Z.div_mul by done. unfold PG_SIZE in *. lia.
Qed.

Lemma max_pa_bound mmap e : e ∈ mmap → available e = true → range_limit (base_pa e) (size_bytes e) ≤ max_pa_of mmap.
Proof.
  intros Hin Hav. unfold max_pa_of. set (f := λ _ _, _).
  assert (∀ l x, x ≤ foldl f x l) as Hmono.
  { induction l as [|e' l IH]; intros x; simpl; [lia|]. etransitivity; [|apply IH]. unfold f. repeat case_match; case_bool; lia. }
  apply list_elem_of_split in Hin as (l1 & l2 & ->). rewrite foldl_app. simpl. etransitivity; [|apply Hmono].
  unfold f. rewrite Hav. case_bool; lia.
Qed.

(** The reserved-flag loop touches flags only. *)
Lemma reserve_all s ps :
  pmm_rep s [] → (∀ i, i ∈ ps → is_Some (page_desc s !! i)) →
  ∃ s', forM ps (λ i, upd_page i set_reserved) s = Ret tt s' ∧ pmm_rep s' [] ∧
    ∀ i, is_Some (page_desc s' !! i) ↔ is_Some (page_desc s !! i).
Proof.
  intros R Hps. apply (forM_inv (λ _ s', pmm_rep s' [] ∧ ∀ i, is_Some (page_desc s' !! i) ↔ is_Some (page_desc s !! i))).
  { done. }
  intros d p rest s1 -> [R1 D]. destruct (proj2 (D p)) as [pg Hpg]; [apply Hps; set_solver|].
  rewrite (upd_page_Ret _ _ _ _ Hpg). eexists. split; [done|]. split; [eapply rep_upd_page; [done|set_solver|done]|].
  intros i. simpl. rewrite lookup_insert. case_decide; subst; [|apply D]. rewrite <- D. naive_solver.
Qed.

Lemma range_limit_small e : base_pa e + size_bytes e ≤ 2 ^ 64 - PG_SIZE →
  range_limit (base_pa e) (size_bytes e) = base_pa e + size_bytes e.
Proof. intros. unfold range_limit, PG_SIZE in *. by rewrite (proj2 (Z.ltb_lt _ _)) by lia. Qed.

(** The second traversal adds the runs of the entries one by one. *)
Lemma add_runs mmap min s n :
  mmap_ok mmap → 0 ≤ min → pmm_rep s [] → (∀ i, 0 ≤ i < n → is_Some (page_desc s !! i)) → max_pa_of mmap ≤ n * PG_SIZE →
  ∃ s', forM mmap (λ e,
      if negb (available e) then ret tt
      else match normalize_available_range (base_pa e) (size_bytes e) min with
           | None => ret tt
           | Some (begin, limit) => init_memmap (phys_to_page begin) ((limit - begin) / PG_SIZE)
           end) s = Ret tt s' ∧
    pmm_rep s' (mmap ≫= entry_run min).
Proof.
  intros Hok Hmin R Hdom Hmax.
  edestruct (forM_inv (λ d s', pmm_rep s' (d ≫= entry_run min) ∧
    ∀ i, is_Some (page_desc s' !! i) ↔ is_Some (page_desc s !! i)) mmap) as (s' & Hrun & R' & _); [done| |by eauto].
  intros d e rest s1 Hmmap [R1 D]. assert (e ∈ mmap) as He by (rewrite Hmmap; set_solver).
  destruct (mmap_range _ Hok e He) as (Hb & Hs & Hl).
  rewrite bind_app. cbn [mbind list_bind]. rewrite app_nil_r. unfold entry_run at 2.
  destruct (available e) eqn:Hav; simpl; [|exists s1; rewrite app_nil_r; done].
  pose proof (entry_run_pos min e Hb Hs Hl Hmin) as Hpos.
  assert (∀ p, p ∈ free_pages (entry_run min e) → 0 ≤ p < n ∧ p ∉ free_pages (d ≫= entry_run min)) as Hnew.
  { intros p (_ & Hp1 & _ & Hp3)%entry_run_pages; try done. split.
    - pose proof (max_pa_bound _ _ He Hav). rewrite range_limit_small in * by done. unfold PG_SIZE in *. lia.
    - intros (q & k & (e' & Hin & He')%list_elem_of_bind & Hk)%elem_of_free_pages.
      assert (e' ∈ mmap) as Hm' by (rewrite Hmmap; set_solver). destruct (mmap_range _ Hok e' Hm') as (? & ? & ?).
      assert (p ∈ free_pages (entry_run min e')) as (Hav' & ? & _ & ?)%entry_run_pages; try done.
      { apply elem_of_free_pages. eauto. }
      destruct (mmap_disjoint _ Hok d e rest e' Hmmap He' Hav Hav'); unfold PG_SIZE in *; lia. }
  revert Hnew Hpos. unfold entry_run at 1. rewrite Hav.
  destruct (normalize_available_range _ _ _) as [[b l]|]; [|by exists s1; rewrite app_nil_r].
  intros Hnew [-> Hpos]. unfold free_pages in Hnew. simpl in Hnew. rewrite app_nil_r in Hnew.
  destruct (init_memmap_spec s1 _ (b / PG_SIZE) ((l - b) / PG_SIZE) R1 Hpos) as (s2 & Hi & R2 & F).
  { intros i Hi. destruct (Hnew i Hi). split; [|done]. by apply D, Hdom. }
  exists s2. split_and!; [done..|]. intros i. rewrite (proj1 (proj2 F)). apply D.
Qed.

(** C27: on a memory map whose available ranges are disjoint and end below
    [2^44 - 4096], [page_init] succeeds, and the free pages are exactly the
    whole pages of the available ranges above the page-descriptor array. *)
Theorem page_init_correct mmap s :
  let page_count := (max_pa_of mmap + PG_SIZE - 1) / PG_SIZE in
  mmap_ok mmap → 0 < max_pa_of mmap ≤ 2 ^ 44 - PG_SIZE → pmm_rep s [] →
  (∀ i, 0 ≤ i < page_count → is_Some (page_desc s !! i)) →
  ∃ s' rs, page_init mmap s = Ret (0, page_count) s' ∧ pmm_rep s' rs ∧
    ∀ p, p ∈ free_pages rs ↔ ∃ e, e ∈ mmap ∧ page_in (valid_mem page_count) e p.
Proof.
  intros n Hok Hmax R Hdom.
  assert (round_up (max_pa_of mmap) PG_SIZE / PG_SIZE = n) as Hn.
  { unfold round_up, PG_SIZE in *. rewrite u64_small by lia. by rewrite Z.div_mul by lia. }
  assert (0 < n < 2 ^ 32 ∧ max_pa_of mmap ≤ n * PG_SIZE) as (Hn1 & Hn2).
  { unfold n, PG_SIZE in *. pose proof (Z.div_mod (max_pa_of mmap + 4096 - 1) 4096 ltac:(lia)).
    pose proof (Z.mod_pos_bound (max_pa_of mmap + 4096 - 1) 4096 ltac:(lia)). lia. }
  assert (mmap ≠ []) as Hne by (intros ->; unfold max_pa_of in Hmax; simpl in Hmax; lia).
  unfold page_init. rewrite bool_decide_eq_false_2, (proj2 (Z.eqb_neq (max_pa_of mmap) 0)), Hn, (u32_small n) by (done || lia).
  rewrite (proj2 (Z.eqb_neq n 0)) by lia.
  destruct (reserve_all s (seqZ 0 n) R) as (s1 & Hs1 & R1 & D1).
  { intros i Hi%elem_of_seqZ. apply Hdom. lia. }
  destruct (add_runs mmap (valid_mem n) s1 n Hok) as (s2 & Hs2 & R2); try done.
  { apply u64_range. } { intros i Hi. by apply D1, Hdom. }
  exists s2, (mmap ≫= entry_run (valid_mem n)). rewrite (bind_Ret _ _ _ _ _ Hs1), (bind_Ret _ _ _ _ _ Hs2).
  split_and!; [done..|]. intros p. rewrite elem_of_free_pages. split.
  - intros (q & k & (e & Hin & He)%list_elem_of_bind & Hk). exists e. split; [done|].
    destruct (mmap_range _ Hok e He) as (? & ? & ?). apply entry_run_pages; try done; [apply u64_range|].
    apply elem_of_free_pages. eauto.
  - intros (e & He & Hp). destruct (mmap_range _ Hok e He) as (? & ? & ?).
    apply entry_run_pages in Hp as (q & k & Hq & Hk)%elem_of_free_pages; try done; [|apply u64_range].
    exists q, k. split; [|done]. apply list_elem_of_bind. eauto.
Qed.
End page_init_proofs.

(** ** Ranges at the end of the address space *)


(** ** A concrete map: 32 KiB from 0, and 8 pages of descriptors *)

Definition ex_mmap : list BootMemEntry := [MkEntry 0x2000 0x2800 1; MkEntry 0x5000 0x1000 2; MkEntry 0x6000 0x2000 1].

Lemma page_init_correct_witness :
  ∃ s', page_init 0xFFFFFFFF80002000 0xFFFFFFFF80000000 32 ex_mmap ex_boot = Ret (0, 8) s'.
Proof.
  destruct (page_init_correct 0xFFFFFFFF80002000 0xFFFFFFFF80000000 32 ex_mmap ex_boot) as (s' & rs & Hp & _).
  - constructor.
    + apply Forall_forall. repeat constructor; by vm_compute.
    + intros d e rest e' E He' Ha Ha'.
      destruct d as [|e1 [|e2 [|e3 d]]]; injection E as; subst; [set_solver|discriminate Ha|..|by destruct d].
      apply elem_of_cons in He' as [->|He'%list_elem_of_singleton]; [right; by vm_compute|subst e'; discriminate Ha'].
  - by vm_compute.
  - apply ex_boot_rep.
  - intros i Hi. change (0 ≤ i < 8) in Hi.
    assert (i ∈ seqZ 0 8) as Hin by (apply elem_of_seqZ; lia). revert i Hi Hin. clear.
    assert (Forall (λ i, is_Some (page_desc ex_boot !! i)) (seqZ 0 8)) as HF by (by apply (bool_decide_unpack _); vm_compute).
    rewrite Forall_forall in HF. auto.
  - exists s'. exact Hp.
Defined.

