(* ===== verification/Mmio.v ===== *)
(** * Device memory mappings: [kernel/mm/mmio.cpp], [kernel/mm/mmio.h]

    [MmioAllocator]: first fit over the recorded mappings, which the code
    keeps in an intrusive list ordered by address ([LibList] shows that such a
    list is a sequence; here the sequence itself is the state).  The kernel
    page table is changed through [PageTable]. *)

From S2P Require Import Prelude LibList Pmm PmmProofs Paging SwapSlots PageTable PageTableProofs Vmm.

#[local] Arguments seqZ : simpl never.

(** [class MmioMapping]; [obj] is the kernel address of the object. *)
Record MmioMapping : Set := MkMapping { obj : Z; va_ : Z; span_ : Z; offset_ : Z; size_ : Z }.
Definition address (r : MmioMapping) : Z := u64 (va_ r + offset_ r).
Definition sizeof_MmioMapping : Z := 48.

Record mmio : Set := MkMmio {
  base_mm : mm;
  kernel_pgdir : option Z;
  mappings : list MmioMapping }.
Definition on_mm {A} (m : M mm A) : M mmio A :=
  zoom base_mm (λ t s, MkMmio t (kernel_pgdir s) (mappings s)) m.
Definition set_mappings (l : list MmioMapping) : M mmio unit :=
  modify (λ s, MkMmio (base_mm s) (kernel_pgdir s) l).

Section mmio.
Context `{Paging} (KERNEL_DEVIO_BASE : Z).

(** The search loop: how many mappings lie before the hole, and its address. *)
Fixpoint find_gap (span va : Z) (l : list MmioMapping) : nat * Z :=
  match l with
  | [] => (O, va)
  | current :: l =>
      if span <=? u64 (va_ current - va) then (O, va)
      else let '(k, va) := find_gap span (u64 (va_ current + span_ current)) l in (S k, va)
  end.

Definition unmap (pgdir va span : Z) : M mm unit :=
  forM (seqZ 0 (span / PG_SIZE)) (λ i, unmap_mmio_page pgdir (u64 (va + i * PG_SIZE)));;
  arch_invalidate_tlb_range va span.

(** The mapping loop, [mapped] bytes done, [pages] pages left. *)
Fixpoint map_pages (pages : nat) (pgdir va pa perm mapped : Z) : M mm unit :=
  match pages with
  | O => ret tt
  | S pages =>
      pte <- get_pte pgdir (u64 (va + mapped)) true;;
      match pte with
      | None => unmap pgdir va (mapped + PG_SIZE);; fail E_NoMem
      | Some pte =>
          e <- rd64 pte;; assert_ (negb (pte_present e));;
          wr64 pte (make_pte_page (u64 (pa + mapped)) perm);;
          map_pages pages pgdir va pa perm (mapped + PG_SIZE)
      end
  end.

(** [delete mapping] of a region that was never mapped, then the error. *)
Definition drop_region {A} (region : Z) (e : Error) : M mmio A :=
  on_mm (on_pm (kfree KERNEL_BASE region));; fail e.

Definition map (pa byte_count perm : Z) : M mmio MmioMapping :=
  ensure (negb (byte_count =? 0)) E_Invalid;;
  ensure (negb (has perm VM_USER)) E_Invalid;;
  let perm := Z.lor perm VM_NOEXEC in
  let offset := Z.land pa (PG_SIZE - 1) in
  ensure ((byte_count + offset <? 2 ^ 64) && (byte_count + offset + (PG_SIZE - 1) <? 2 ^ 64)) E_Invalid;;
  let span := Z.land (byte_count + offset + (PG_SIZE - 1)) (Z.lnot (PG_SIZE - 1)) in
  ensure (pa - offset + span <? 2 ^ 64) E_Invalid;;
  region <- on_mm (on_pm (kmalloc KERNEL_BASE sizeof_MmioMapping));;
  ensure (negb (region =? 0)) E_NoMem;;
  s <- get;;
  match kernel_pgdir s with
  | None => drop_region region E_NoMem
  | Some pgdir =>
      let '(k, va) := find_gap span KERNEL_DEVIO_BASE (mappings s) in
      if negb (va + span <? 2 ^ 64) then drop_region region E_NoMem
      else
        r <- try_ (on_mm (map_pages (Z.to_nat (span / PG_SIZE)) pgdir va (pa - offset) perm 0));;
        match r with
        | inr e => drop_region region e
        | inl _ =>
            on_mm (arch_invalidate_tlb_range va span);;
            let m := MkMapping region va span offset byte_count in
            s <- get;;
            set_mappings (take k (mappings s) ++ m :: drop k (mappings s));;
            ret m
        end
  end.

(** [release], of a mapping of the list. *)
Definition release (m : MmioMapping) : M mmio unit :=
  s <- get;;
  whenM (negb (span_ m =? 0))
    (set_mappings (filter (λ x, obj x ≠ obj m) (mappings s));;
     match kernel_pgdir s with
     | None => halt WildPointer
     | Some pgdir => on_mm (unmap pgdir (va_ m) (span_ m))
     end);;
  on_mm (on_pm (kfree KERNEL_BASE (obj m))).

(** [mmio_map]: a permanent mapping; 0 on failure. *)
Definition mmio_map (pa byte_count perm : Z) : M mmio Z :=
  r <- try_ (map pa byte_count perm);;
  match r with
  | inr _ => ret 0
  | inl m => ret (address m)
  end.

(** ** The recorded mappings are ordered and disjoint *)

(** [l] lies at or above [lo], in order, without overlap, inside the address space. *)
Fixpoint ordered (lo : Z) (l : list MmioMapping) : Prop :=
  match l with
  | [] => True
  | m :: l => lo ≤ va_ m ∧ 0 < span_ m ∧ va_ m + span_ m < 2 ^ 64 ∧ ordered (va_ m + span_ m) l
  end.

Lemma find_gap_spec span l : ∀ lo k va,
  0 ≤ lo < 2 ^ 64 → 0 < span → ordered lo l → find_gap span lo l = (k, va) → va + span < 2 ^ 64 →
  lo ≤ va ∧ ∀ m, va_ m = va → span_ m = span → ordered lo (take k l ++ m :: drop k l).
Proof.
  induction l as [|c l IH]; intros lo k va Hlo Hspan Hord; simpl.
  - intros [= <- <-] Hend. split; [lia|]. intros m Hm Hms. simpl. rewrite Hm, Hms. lia.
  - destruct Hord as (Hc & Hs & He & Hl). rewrite (u64_small (va_ c - lo)) by lia.
    destruct (Z.leb_spec span (va_ c - lo)).
    + intros [= <- <-] Hend. split; [lia|]. intros m Hm Hms. simpl. rewrite Hm, Hms. split_and!; [lia..|done].
    + rewrite u64_small by lia. destruct (find_gap span _ l) as [k' va'] eqn:Hg. intros [= <- <-] Hend.
      destruct (IH (va_ c + span_ c) k' va' ltac:(lia) Hspan Hl Hg Hend) as [Hge Hall]. split; [lia|].
      intros m Hm Hms. simpl. split_and!; [lia..|]. by apply Hall.
Qed.

(** Ordered mappings do not overlap. *)
Lemma ordered_bound lo l m : ordered lo l → m ∈ l → lo ≤ va_ m ∧ 0 < span_ m.
Proof.
  revert lo. induction l as [|c l IH]; intros lo Hord Hin; [set_solver|]. destruct Hord as (? & ? & ? & Hl).
  apply elem_of_cons in Hin as [->|Hin]; [lia|]. destruct (IH _ Hl Hin). lia.
Qed.
Lemma ordered_disjoint lo l1 m l2 m' :
  ordered lo (l1 ++ m :: l2) → m' ∈ l1 ++ l2 → va_ m' + span_ m' ≤ va_ m ∨ va_ m + span_ m ≤ va_ m'.
Proof.
  revert lo. induction l1 as [|c l1 IH]; intros lo (Hc & Hs & He & Hl) Hin.
  - right. by eapply (ordered_bound _ _ _ Hl).
  - apply elem_of_cons in Hin as [->|Hin]; [|by eapply IH].
    left. eapply (ordered_bound _ _ m Hl). set_solver.
Qed.
Lemma ordered_filter (P : MmioMapping → Prop) `{∀ x, Decision (P x)} lo l : ordered lo l → ordered lo (filter P l).
Proof.
  revert lo. induction l as [|c l IH]; intros lo Hord; [done|]. destruct Hord as (? & ? & ? & Hl).
  rewrite filter_cons. case_decide; [simpl; split_and!; auto|]. apply IH in Hl.
  destruct (filter P l) as [|d l'] eqn:E; [done|]. destruct Hl as (? & ? & ? & ?). simpl. split_and!; try done; lia.
Qed.

Lemma keeps_on_mm {A} (P : list MmioMapping → option Z → Prop) (m : M mm A) :
  keeps (λ s, P (mappings s) (kernel_pgdir s)) (on_mm m).
Proof. by apply keeps_zoom. Qed.

(** A failed [map] records nothing; a successful one inserts its mapping. *)
Lemma map_mappings pa n perm s s' :
  (∀ m, map pa n perm s = Ret m s' → ∃ k va, find_gap (span_ m) KERNEL_DEVIO_BASE (mappings s) = (k, va) ∧
     mappings s' = take k (mappings s) ++ m :: drop k (mappings s) ∧ va_ m = va ∧ va + span_ m < 2 ^ 64 ∧
     offset_ m = Z.land pa (PG_SIZE - 1) ∧ size_ m = n ∧
     span_ m = Z.land (n + offset_ m + (PG_SIZE - 1)) (Z.lnot (PG_SIZE - 1)) ∧ n ≠ 0) ∧
  (∀ e, map pa n perm s = Fail e s' → mappings s' = mappings s).
Proof.
  assert (∀ A (m : M mm A) t t', out_state (on_mm m t) = Some t' → mappings t' = mappings t ∧ kernel_pgdir t' = kernel_pgdir t) as Hon.
  { intros A m t t'. unfold on_mm, zoom. destruct (m (base_mm t)); simpl; by intros [= <-]. }
  assert (∀ A z e t u t', drop_region (A := A) z e t = Ret u t' → False) as Hdrop.
  { intros A z e t u t' HH. unfold drop_region in HH. step_inv HH. done. }
  assert (∀ A z e e' t t', drop_region (A := A) z e t = Fail e' t' → mappings t' = mappings t) as Hdrop'.
  { intros A z e e' t t' HH. unfold drop_region in HH. step_inv HH.
    - by apply (Hon _ (on_pm (kfree KERNEL_BASE z))); rewrite HH.
    - injection HH as <- <-. by eapply (Hon _ (on_pm (kfree KERNEL_BASE z))); rewrite H0. }
  assert (∀ A (m : M mm A) t r t', try_ (on_mm m) t = Ret r t' → mappings t' = mappings t) as Htry.
  { intros A m t r t' HH. unfold try_ in HH. pose proof (Hon A m t) as Ho.
    destruct (on_mm m t); injection HH as <- <- || done; by apply (Ho s0). }
  unfold map. split.
  - intros m HH. do 4 step_inv HH. step_inv HH.
    match goal with Hk : on_mm _ s = Ret _ _ |- _ => pose proof (Hon _ _ _ _ ltac:(by rewrite Hk)) as [Hm1 _]; clear Hk end.
    do 2 step_inv HH. match goal with Hg : get _ = Ret _ _ |- _ => injection Hg as <- <- end.
    destruct (kernel_pgdir _) as [pgdir|]; [|by apply Hdrop in HH].
    destruct (find_gap _ _ _) as [k va] eqn:Hgap. destruct (va + _ <? 2 ^ 64) eqn:Hend; [|by apply Hdrop in HH].
    simpl in HH. step_inv HH. match goal with Ht : try_ _ _ = Ret _ _ |- _ => apply Htry in Ht end.
    match goal with r : (unit + Error)%type |- _ => destruct r as [[]|e] end; [|by apply Hdrop in HH]. step_inv HH.
    match goal with Hk : on_mm _ _ = Ret _ _ |- _ => pose proof (Hon _ _ _ _ ltac:(by rewrite Hk)) as [Hm2 _]; clear Hk end.
    step_inv HH. match goal with Hg : get _ = Ret _ _ |- _ => injection Hg as <- <- end.
    step_inv HH. injection HH as <- <-. match goal with Hs : set_mappings _ _ = Ret _ _ |- _ => injection Hs as _ <- end.
    simpl. exists k, va. rewrite Hm1 in *. apply Z.ltb_lt in Hend. apply negb_true_iff, Z.eqb_neq in H0.
    split_and!; try done. rewrite Hm2. congruence.
  - intros e HH. do 4 (step_inv HH; [done|]). step_inv HH.
    { by apply (Hon _ (on_pm (kmalloc KERNEL_BASE sizeof_MmioMapping))); rewrite HH. }
    match goal with Hk : on_mm _ s = Ret _ _ |- _ => pose proof (Hon _ _ _ _ ltac:(by rewrite Hk)) as [Hm1 _]; clear Hk end.
    step_inv HH; [done|]. step_inv HH; [done|]. match goal with Hg : get _ = Ret _ _ |- _ => injection Hg as <- <- end.
    destruct (kernel_pgdir _) as [pgdir|]; [|apply Hdrop' in HH; congruence].
    destruct (find_gap _ _ _) as [k va] eqn:Hgap. destruct (va + _ <? 2 ^ 64) eqn:Hend; [|apply Hdrop' in HH; congruence].
    simpl in HH. step_inv HH; [unfold try_ in HH; by destruct (on_mm _ _)|].
    match goal with Ht : try_ _ _ = Ret _ _ |- _ => apply Htry in Ht end.
    match goal with r : (unit + Error)%type |- _ => destruct r as [[]|e'] end; [|apply Hdrop' in HH; congruence].
    step_inv HH; [|repeat (step_inv HH; [done|]); done].
    rewrite (proj1 (Hon _ (arch_invalidate_tlb_range va _) _ _ ltac:(by rewrite HH))). congruence.
Qed.

End mmio.
