(* ===== verification/VmmWitness.v ===== *)
(** * Concrete user and device mappings

    An x86-64 address space that maps the 2 MiB at 0x400000 to physical
    0x200000, writable by user code; and a device mapping in the address space
    of [PageTableWitness]. *)

From S2P Require Import Prelude PagingX86.
From S2P Require Import LibList Pmm PmmProofs Paging SwapSlots PageTable PageTableProofs Vmm VmmProofs Mmio PageTableWitness.

#[local] Existing Instance x86_paging.
#[local] Existing Instance x86_laws.

Definition ex_user_ram : gmap Z Z :=
  <[0x1000 := 0x2007]> (<[0x2000 := 0x3007]> (<[0x3010 := 0x200087]> ∅)).
Definition ex_user : mm := MkMm (MkPmm ∅ ∅ 0) 0 ex_user_ram 0x1000 [] (init_slots 64).

Lemma ex_user_word a :
  word ex_user_ram a = if decide (0x1000 = a) then 0x2007 else
    if decide (0x2000 = a) then 0x3007 else if decide (0x3010 = a) then 0x200087 else 0.
Proof. unfold ex_user_ram. rewrite !word_insert. unfold word. by rewrite lookup_empty. Qed.

(** The tables are the root, one below its first entry and one below that. *)
Lemma ex_user_tables q a :
  vpath q → table_at ex_user_ram 0x1000 q = Some a → a = 0x1000 ∨ a = 0x2000 ∨ a = 0x3000.
Proof.
  intros Hv. destruct q as [|i q]; [naive_solver|]. pose proof (vpath_index [] i q Hv) as Hi.
  cbn [table_at]. rewrite ex_user_word. destruct (decide (0x1000 = 0x1000 + 8 * i)) as [E|];
    [|rewrite !decide_False by lia; done]. change (table_at ex_user_ram 0x2000 q = Some a → a = 0x1000 ∨ a = 0x2000 ∨ a = 0x3000).
  destruct q as [|j q]; [naive_solver|]. pose proof (vpath_index [i] j q Hv) as Hj.
  cbn [table_at]. rewrite ex_user_word. rewrite decide_False by lia. destruct (decide (0x2000 = 0x2000 + 8 * j)) as [E'|];
    [|rewrite decide_False by lia; done]. change (table_at ex_user_ram 0x3000 q = Some a → a = 0x1000 ∨ a = 0x2000 ∨ a = 0x3000).
  destruct q as [|k q]; [naive_solver|]. pose proof (vpath_index [i; j] k q Hv) as Hk.
  cbn [table_at]. rewrite ex_user_word, !decide_False by lia. case_decide; done.
Qed.

Lemma ex_user_private : private ex_user_ram 0x1000 0x400ffe 4.
Proof.
  assert (∀ i, 0 ≤ i < 4 → paddr ex_user_ram 0x1000 (0x400ffe + i) = 0x200ffe + i) as Hp.
  { intros i Hi. assert (i = 0 ∨ i = 1 ∨ i = 2 ∨ i = 3) as [->|[->|[->| ->]]] by lia; by vm_compute. }
  constructor.
  - intros i j Hi Hj. rewrite !Hp by done. lia.
  - intros i q a j Hi Hv Ha Hj. rewrite Hp by done. pose proof (Z.mod_pos_bound (0x200ffe + i) 8 ltac:(lia)).
    destruct (ex_user_tables q a Hv Ha) as [->|[->| ->]]; lia.
Qed.

Lemma user_range_valid_correct_witness : user_range_valid (Some 0x1000) 0x400ffe 4 true ex_user = Ret true ex_user.
Proof.
  destruct (user_range_valid_correct ex_user 0x1000 0x400ffe 4 true) as (b & Hb & _); [lia|].
  pose proof Hb as E. vm_compute in E. injection E as <-. exact Hb.
Defined.

(** Four bytes across a page boundary. *)
Lemma copy_user_roundtrip_witness :
  ∃ s', copy_to_user (Some 0x1000) 0x400ffe [1; 2; 3; 4] ex_user = Ret tt s' ∧
    copy_from_user (Some 0x1000) 0x400ffe 4 s' = Ret [1; 2; 3; 4] s'.
Proof.
  destruct (copy_user_roundtrip ex_user 0x1000 0x400ffe [1; 2; 3; 4]) as [(s' & Hw & Hr & _)|[Hf _]].
  - repeat constructor; by vm_compute.
  - apply ex_user_private.
  - exists s'. split; [exact Hw|exact Hr].
  - exfalso. vm_compute in Hf. discriminate Hf.
Defined.

(** Page-aligned device registers at 0xFEC00010, mapped in an empty kernel table. *)
Definition ex_mmio : mmio := MkMmio ex_mm (Some PG_SIZE) [].

