(* ===== verification/Block.v ===== *)
(** * The block layer: [kernel/block/blk.h], [kernel/block/blk.cpp]

    The registry of block devices ([BlockManager]) and the interface of a
    device, over the fixed-capacity vector of [Zstl]. *)

From S2P Require Import Prelude Zstl Paging SwapSlots.

(** ** [BlockManager] *)

(** What the registry reads of a device. *)
Record dev_info : Set := MkDev { dev_type : DeviceType; block_count : Z; dev_name : string }.

Definition MAX_DEVICES : Z := 4.

Section registry.
Context {V : Type} `{IV : InplaceVector V Z} (CAP : nat) `{IVL : !InplaceVectorLaws V Z CAP} (HCAP : Z.of_nat CAP = MAX_DEVICES).
(** A [BlockDevice*] is its address, 0 is null. *)
Implicit Types (devices : list Z) (device : Z).

Definition size : M V Z := gets (λ v, Z.of_nat (length (iv_elems v))).

(** The checks of [register_devices] for device [i] of the array. *)
Definition check_device devices (i : nat) device : M V unit :=
  ensure (negb (device =? 0)) E_Invalid;;
  v <- get;;
  forM (iv_elems v) (λ registered, ensure (negb (registered =? device)) E_Exists);;
  forM (take i devices) (λ earlier, ensure (negb (earlier =? device)) E_Exists).

Definition register_devices (devices : option (list Z)) (count : Z) : M V unit :=
  ensure (negb (bool_decide (devices = None)) || (count =? 0)) E_Invalid;;
  n <- size;;
  ensure (count <=? MAX_DEVICES - n) E_Full;;
  let devices := take (Z.to_nat count) (default [] devices) in
  forM (zip (seq 0 (length devices)) devices) (λ d, check_device devices d.1 d.2);;
  forM devices (λ d,
    v <- get;;
    match iv_try_push_back d v with
    | Some v' => put v'
    | None => halt AssertFailed
    end).
Definition register_device (device : Z) : M V unit := register_devices (Some [device]) 1.

(** The size [BlockManager::print] shows: mebibytes and a decimal digit. *)
Definition print_size (block_count : Z) : Z * Z :=
  let size_bytes := u32 (block_count * 512) in
  let size_mb := size_bytes / (1024 * 1024) in
  let remainder := size_bytes mod (1024 * 1024) in
  (size_mb, u32 (remainder * 10) / (1024 * 1024)).

(** ** Registration is all or nothing *)

Lemma ensure_forM (l : list Z) (c : Z → bool) e (v : V) :
  forM l (λ x, ensure (c x) e) v = if forallb c l then Ret tt v else Fail e v.
Proof.
  induction l as [|x l IH]; [done|]. cbn. unfold ensure at 1. destruct (c x); simpl; [|done]. by rewrite bind_ret.
Qed.

(** What is checked of an array of devices. *)
Definition registrable (v : V) devices : Prop :=
  0 ∉ devices ∧ NoDup devices ∧ ∀ d, d ∈ devices → d ∉ iv_elems v.

Lemma forallb_neq (l : list Z) x : forallb (λ y, negb (y =? x)) l = bool_decide (x ∉ l).
Proof.
  induction l as [|y l IH]; cbn [forallb]; [symmetry; apply bool_decide_eq_true_2; set_solver|]. rewrite IH.
  destruct (Z.eqb_spec y x); simpl; [rewrite bool_decide_eq_false_2; set_solver|].
  apply bool_decide_ext. set_solver.
Qed.

Lemma check_device_spec devices i d (v : V) :
  check_device devices i d v =
  if negb (d =? 0) then if bool_decide (d ∉ iv_elems v ∧ d ∉ take i devices) then Ret tt v else Fail E_Exists v
  else Fail E_Invalid v.
Proof.
  unfold check_device. unfold ensure at 1. destruct (negb (d =? 0)); [|done]. rewrite bind_ret.
  unfold get. rewrite (bind_Ret _ _ v v v) by done. unfold bind. rewrite !ensure_forM, !forallb_neq.
  destruct (decide (d ∉ iv_elems v)); [rewrite (bool_decide_eq_true_2 (d ∉ iv_elems v)) by done|
    rewrite (bool_decide_eq_false_2 (d ∉ iv_elems v)), bool_decide_eq_false_2 by naive_solver; done].
  rewrite ensure_forM, forallb_neq. destruct (decide (d ∉ take i devices));
    [rewrite !bool_decide_eq_true_2 by done|rewrite !bool_decide_eq_false_2 by naive_solver]; done.
Qed.

(** The first loop accepts exactly the registrable arrays. *)
Lemma check_devices_spec (v : V) l2 : ∀ l1,
  0 ∉ l1 → NoDup l1 → (∀ d, d ∈ l1 → d ∉ iv_elems v) →
  let r := forM (zip (seq (length l1) (length l2)) l2) (λ d, check_device (l1 ++ l2) d.1 d.2) v in
  (r = Ret tt v ∧ registrable v (l1 ++ l2)) ∨
  (∃ e, r = Fail e v ∧ (e = E_Invalid ∨ e = E_Exists) ∧ ¬ registrable v (l1 ++ l2)).
Proof.
  induction l2 as [|d l2 IH]; intros l1 H0 Hnd Hne r.
  { left. split; [done|]. rewrite app_nil_r. done. }
  subst r. cbn [length seq zip zip_with forM]. unfold bind. cbn [fst snd].
  rewrite check_device_spec, take_app_length. destruct (Z.eqb_spec d 0) as [->|Hd0]; simpl.
  { right. exists E_Invalid. split_and!; [done|by left|]. intros (Hz & _). set_solver. }
  destruct (decide (d ∉ iv_elems v ∧ d ∉ l1)) as [[Hdv Hdl]|Hn].
  - rewrite bool_decide_eq_true_2 by done. specialize (IH (l1 ++ [d])).
    rewrite length_app, <- app_assoc in IH. simpl in IH. rewrite Nat.add_1_r in IH. apply IH.
    + set_solver.
    + apply NoDup_app. split_and!; [done|set_solver|apply NoDup_singleton].
    + set_solver.
  - rewrite bool_decide_eq_false_2 by done. right. exists E_Exists. split_and!; [done|by right|].
    intros (_ & Hnd' & Hv). apply Hn. split; [apply Hv; set_solver|].
    apply NoDup_app in Hnd' as (_ & Hdis & _). intros Hin. apply (Hdis d Hin). set_solver.
Qed.

(** The second loop cannot fail when there is room. *)
Lemma push_all l : ∀ v : V, (length (iv_elems v) + length l ≤ CAP)%nat →
  ∃ v', forM l (λ d, v <- get;; match iv_try_push_back d v with Some v' => put v' | None => halt AssertFailed end) v =
    Ret tt v' ∧ iv_elems v' = iv_elems v ++ l.
Proof.
  induction l as [|d l IH]; intros v Hroom; [exists v; by rewrite app_nil_r|]. simpl in Hroom.
  destruct (iv_push_room (CAP := CAP) d v ltac:(lia)) as (v1 & Hp & He).
  destruct (IH v1) as (v2 & Hr & He2); [rewrite He, length_app; simpl; lia|].
  exists v2. cbn [forM]. split; [|by rewrite He2, He, <- app_assoc].
  erewrite bind_Ret; [exact Hr|]. unfold get, bind. by rewrite Hp.
Qed.

(** Registering an array of devices is all or nothing.  It succeeds, and
    appends the devices in order, exactly when they fit, none is null, none is
    registered already and none occurs twice; otherwise it fails, with [Full]
    when they do not fit, and the registry is unchanged. *)
Theorem register_devices_atomic (v : V) l :
  (∃ v', register_devices (Some l) (Z.of_nat (length l)) v = Ret tt v' ∧ iv_elems v' = iv_elems v ++ l ∧
     registrable v l ∧ Z.of_nat (length (iv_elems v ++ l)) ≤ MAX_DEVICES) ∨
  (∃ e, register_devices (Some l) (Z.of_nat (length l)) v = Fail e v ∧
     (e = E_Full ∧ MAX_DEVICES < Z.of_nat (length (iv_elems v ++ l)) ∨ ¬ registrable v l)).
Proof.
  rewrite length_app.
  assert (register_devices (Some l) (Z.of_nat (length l)) v =
    (ensure (Z.of_nat (length l) <=? MAX_DEVICES - Z.of_nat (length (iv_elems v))) E_Full;;
     forM (zip (seq 0 (length l)) l) (λ d, check_device l d.1 d.2);;
     forM l (λ d, v <- get;; match iv_try_push_back d v with Some v' => put v' | None => halt AssertFailed end)) v) as ->.
  { unfold register_devices. rewrite bool_decide_eq_false_2 by done. simpl default. by rewrite Nat2Z.id, take_ge by lia. }
  unfold ensure. destruct (Z.leb_spec (Z.of_nat (length l)) (MAX_DEVICES - Z.of_nat (length (iv_elems v)))) as [Hroom|Hfull].
  2:{ right. exists E_Full. split; [done|]. left. split; [done|lia]. }
  destruct (check_devices_spec v l []) as [[Hr Hreg]|(e & Hr & _ & Hreg)]; [set_solver|constructor|set_solver| |].
  - left. simpl in Hr. rewrite bind_ret, (bind_Ret _ _ _ _ _ Hr). destruct (push_all l v) as (v' & Hp & He); [lia|].
    exists v'. split_and!; [done|done|done|lia].
  - right. exists e. simpl in Hr. rewrite bind_ret, (bind_Fail _ _ _ _ _ Hr). auto.
Qed.

End registry.

(** ** Lookup *)
Section lookup.
Context {V : Type} `{IV : InplaceVector V Z}.
(** The device objects. *)
Context (object : Z → dev_info).

Definition find_device_by_name (device_name : option string) (v : V) : Z :=
  match device_name with
  | None => 0
  | Some nm => default 0 (List.find (λ d, negb (d =? 0) && String.eqb (dev_name (object d)) nm) (iv_elems v))
  end.
Definition find_device_by_index (index : Z) (v : V) : Z :=
  if (index <? 0) || (Z.of_nat (length (iv_elems v)) <=? index) then 0
  else default 0 (iv_elems v !! Z.to_nat index).
Definition find_device_by_type (type : DeviceType) (v : V) : Z :=
  default 0 (List.find (λ d, negb (d =? 0) && bool_decide (dev_type (object d) = type)) (iv_elems v)).
Definition device_count (v : V) : Z := s32 (Z.of_nat (length (iv_elems v))).


(** A lookup by name returns the first registered device of that name, or
    null when there is none; a lookup by index the device registered at that
    position, or null outside the registry. *)
Theorem find_device_correct (v : V) nm index :
  (match find_device_by_name (Some nm) v with
   | 0 => ∀ d, d ∈ iv_elems v → d ≠ 0 → dev_name (object d) ≠ nm
   | d => ∃ l1 l2, iv_elems v = l1 ++ d :: l2 ∧ dev_name (object d) = nm ∧
            ∀ d', d' ∈ l1 → d' ≠ 0 → dev_name (object d') ≠ nm
   end) ∧
  (if (0 <=? index) && (index <? Z.of_nat (length (iv_elems v)))
   then iv_elems v !! Z.to_nat index = Some (find_device_by_index index v)
   else find_device_by_index index v = 0).
Proof.
  split.
  - unfold find_device_by_name. induction (iv_elems v) as [|d l IH]; simpl; [set_solver|].
    destruct (Z.eqb_spec d 0) as [->|Hd0]; simpl.
    + destruct (default 0 (List.find _ l)) as [|p|p]; [set_solver|..]; destruct IH as (l1 & l2 & -> & ? & ?);
        exists (0 :: l1), l2; split_and!; [done|done|set_solver|done|done|set_solver].
    + destruct (String.eqb_spec (dev_name (object d)) nm) as [<-|Hnm]; simpl.
      * destruct d; [done|..]; eexists [], l; split_and!; [done|done|set_solver|done|done|set_solver].
      * destruct (default 0 (List.find _ l)) as [|p|p]; [set_solver|..]; destruct IH as (l1 & l2 & -> & ? & ?);
          exists (d :: l1), l2; split_and!; [done|done|set_solver|done|done|set_solver].
  - unfold find_device_by_index. destruct (Z.leb_spec 0 index), (Z.ltb_spec index 0), (Z.ltb_spec index (Z.of_nat (length (iv_elems v)))),
      (Z.leb_spec (Z.of_nat (length (iv_elems v))) index); simpl; try lia; try done.
    destruct (lookup_lt_is_Some_2 (iv_elems v) (Z.to_nat index)) as [d Hd]; [lia|]. by rewrite Hd.
Qed.
End lookup.

(** The size column is exact below 4 GiB and starts again from zero there. *)
Lemma print_size_wraps bc : 0 ≤ bc →
  (bc < 2 ^ 23 → (print_size bc).1 = bc / 2048) ∧ print_size (bc + 2 ^ 23) = print_size bc.
Proof.
  intros Hbc. unfold print_size. cbn [fst]. split.
  - intros. rewrite u32_small by lia. change (1024 * 1024) with (512 * 2048). rewrite <- Z.div_div by lia.
    by rewrite Z.div_mul by lia.
  - replace ((bc + 2 ^ 23) * 512) with (bc * 512 + 1 * 2 ^ 32) by lia. unfold u32 at 1 3. by rewrite Z_mod_plus_full.
Qed.

Lemma register_devices_atomic_witness :
  let v : bvec Z 4 := BVec [16] (le_S _ _ (le_S _ _ (le_S _ _ (le_n 1)))) in
  (∃ v', register_devices (Some [32; 48]) 2 v = Ret tt v' ∧ iv_elems v' = [16; 32; 48] ∧
     registrable v [32; 48] ∧ Z.of_nat (length [16; 32; 48]) ≤ MAX_DEVICES) ∨
  (∃ e, register_devices (Some [32; 48]) 2 v = Fail e v ∧
     (e = E_Full ∧ MAX_DEVICES < Z.of_nat (length [16; 32; 48]) ∨ ¬ registrable v [32; 48])).
Proof. intros v. exact (register_devices_atomic (V := bvec Z 4) 4 eq_refl v [32; 48]). Defined.
