(* ===== verification/BlockDev.v ===== *)
(** * Block devices and bytes: the [BlockDevice] interface of [kernel/block/blk.h]

    A device transfers whole blocks of 512 bytes.  Its two virtual methods are
    an interface with the laws every client of the block layer relies on; a
    RAM disk is an instance.  The little-endian decoding of the packed on-disk
    structures is here too. *)

From S2P Require Import Prelude.

(** ** Bytes *)

Definition is_byte (b : Z) : Prop := 0 ≤ b < 256.

(** A little-endian field of a packed structure. *)
Fixpoint le (bs : list Z) : Z :=
  match bs with [] => 0 | b :: bs => b + 256 * le bs end.
Fixpoint to_le (n : nat) (x : Z) : list Z :=
  match n with O => [] | S n => x mod 256 :: to_le n (x / 256) end.
(** The [len] bytes of [bs] at [off]. *)
Definition slice (off len : nat) (bs : list Z) : list Z := take len (drop off bs).
Definition field (off len : nat) (bs : list Z) : Z := le (slice off len bs).
(** [memcpy] of [v] over the bytes of [bs] at [off]. *)
Definition splice (off : nat) (v bs : list Z) : list Z := take off bs ++ v ++ drop (off + length v) bs.

Lemma length_to_le n x : length (to_le n x) = n.
Proof. revert x. induction n; simpl; auto. Qed.

Lemma to_le_bytes n x : Forall is_byte (to_le n x).
Proof. revert x. induction n; simpl; constructor; auto. by apply Z.mod_pos_bound. Qed.

Lemma le_to_le n x : 0 ≤ x < 256 ^ Z.of_nat n → le (to_le n x) = x.
Proof.
  revert x. induction n as [|n IH]; intros x Hx; [simpl in *; lia|]. cbn [to_le le].
  rewrite Nat2Z.inj_succ, Z.pow_succ_r in Hx by lia.
  rewrite IH; [pose proof (Z.div_mod x 256); lia|].
  split; [apply Z.div_pos; lia|apply Z.div_lt_upper_bound; lia].
Qed.

Lemma le_range bs : Forall is_byte bs → 0 ≤ le bs < 256 ^ Z.of_nat (length bs).
Proof.
  induction 1 as [|b bs Hb _ IH]; [simpl; lia|]. cbn [le length].
  rewrite Nat2Z.inj_succ, Z.pow_succ_r by lia. unfold is_byte in Hb. lia.
Qed.

Lemma to_le_le bs : Forall is_byte bs → to_le (length bs) (le bs) = bs.
Proof.
  induction 1 as [|b bs Hb Hbs IH]; [done|]. cbn [length to_le le]. unfold is_byte in Hb. f_equal.
  - rewrite Z.mul_comm, Z_mod_plus_full. by apply Z.mod_small.
  - rewrite Z.mul_comm, Z_div_plus_full, Z.div_small by lia. done.
Qed.

Lemma length_slice off len bs : (off + len ≤ length bs)%nat → length (slice off len bs) = len.
Proof. intros. unfold slice. rewrite length_take, length_drop. lia. Qed.

Lemma slice_bytes off len bs : Forall is_byte bs → Forall is_byte (slice off len bs).
Proof. intros. by apply Forall_take, Forall_drop. Qed.

Lemma field_range off len bs : Forall is_byte bs → (off + len ≤ length bs)%nat → 0 ≤ field off len bs < 256 ^ Z.of_nat len.
Proof.
  intros Hb Hl. pose proof (le_range _ (slice_bytes off len bs Hb)) as H. by rewrite (length_slice off len bs Hl) in H.
Qed.

Lemma length_splice off v bs : (off + length v ≤ length bs)%nat → length (splice off v bs) = length bs.
Proof. intros. unfold splice. rewrite !length_app, length_take, length_drop. lia. Qed.

Lemma splice_bytes off v bs : Forall is_byte v → Forall is_byte bs → Forall is_byte (splice off v bs).
Proof. intros. unfold splice. rewrite !Forall_app. split_and!; [by apply Forall_take|done|by apply Forall_drop]. Qed.

Lemma slice_splice_same off v bs : (off ≤ length bs)%nat → slice off (length v) (splice off v bs) = v.
Proof. intros. unfold slice, splice. rewrite drop_app_length' by (rewrite length_take; lia). by rewrite take_app_length. Qed.

(** Bytes of a splice, one at a time. *)
Lemma splice_lookup off v bs i : (off + length v ≤ length bs)%nat →
  splice off v bs !! i = if decide (off ≤ i < off + length v)%nat then v !! (i - off)%nat else bs !! i.
Proof.
  intros Hl. unfold splice. destruct (decide _) as [Hi|Hi].
  - rewrite lookup_app_r by (rewrite length_take; lia). rewrite length_take, Nat.min_l by lia. by rewrite lookup_app_l by lia.
  - destruct (decide (i < off)%nat).
    + rewrite lookup_app_l by (rewrite length_take; lia). by rewrite lookup_take_lt by lia.
    + rewrite lookup_app_r by (rewrite length_take; lia). rewrite length_take, Nat.min_l by lia.
      rewrite lookup_app_r by lia. rewrite lookup_drop. f_equal. lia.
Qed.

Lemma slice_lookup off len bs i : slice off len bs !! i = if decide (i < len)%nat then bs !! (off + i)%nat else None.
Proof.
  unfold slice. destruct (decide _); [by rewrite lookup_take_lt, lookup_drop|by rewrite lookup_take_ge by lia].
Qed.

Lemma slice_splice_other off v bs o n : (off + length v ≤ length bs)%nat →
  (o + n ≤ off ∨ off + length v ≤ o)%nat → slice o n (splice off v bs) = slice o n bs.
Proof.
  intros Hl Ho. apply list_eq. intros i. rewrite !slice_lookup. destruct (decide _); [|done].
  rewrite splice_lookup by lia. by rewrite decide_False by lia.
Qed.

(** ** The interface *)

Definition BLOCK_SIZE_BYTES : Z := 512.

(** [read] and [write] of a device in state [D].  A read returns the buffer as
    the device leaves it, also when it fails; the error is [None] on success. *)
Class BlockDevice (D : Type) := {
  block_count : D → Z;
  dev_read : Z → nat → list Z → D → (option Error * list Z) * D;
  dev_write : Z → nat → list Z → D → option Error * D;
  sector : D → Z → list Z (** what the device stores *) }.

(** [n] consecutive sectors. *)
Fixpoint sectors `{BlockDevice D} (d : D) (lba : Z) (n : nat) : list Z :=
  match n with O => [] | S n => sector d lba ++ sectors d (lba + 1) n end.

Class BlockDeviceLaws (D : Type) `{BlockDevice D} := {
  block_count_range d : 0 ≤ block_count d < 2 ^ 32;
  sector_length d i : length (sector d i) = 512%nat;
  sector_bytes d i : Forall is_byte (sector d i);
  read_law d lba n buf r buf' d' : dev_read lba n buf d = ((r, buf'), d') → length buf = (512 * n)%nat →
    length buf' = (512 * n)%nat ∧ block_count d' = block_count d ∧ (∀ i, sector d' i = sector d i) ∧
    (r = None → buf' = sectors d lba n);
  read_bytes d lba n buf r buf' d' : dev_read lba n buf d = ((r, buf'), d') → Forall is_byte buf → Forall is_byte buf';
  write_law d lba n buf r d' : dev_write lba n buf d = (r, d') → length buf = (512 * n)%nat → Forall is_byte buf →
    block_count d' = block_count d ∧
    (∀ i, ¬ lba ≤ i < lba + Z.of_nat n → sector d' i = sector d i) ∧
    (r = None → sectors d' lba n = buf) }.

Section sectors.
Context {D : Type} `{BL : BlockDeviceLaws D}.

Lemma sectors_S (d : D) lba n : sectors d lba (S n) = sector d lba ++ sectors d (lba + 1) n.
Proof. done. Qed.
Lemma length_sectors (d : D) lba n : length (sectors d lba n) = (512 * n)%nat.
Proof.
  revert lba. induction n as [|n IH]; intros lba; [done|]. rewrite !sectors_S. rewrite length_app, sector_length, IH. lia.
Qed.
Lemma sectors_bytes (d : D) lba n : Forall is_byte (sectors d lba n).
Proof. revert lba. induction n as [|n IH]; intros lba; [constructor|]. rewrite !sectors_S. apply Forall_app. split; [apply sector_bytes|apply IH]. Qed.
Lemma sectors_ext (d d' : D) n : ∀ lba, (∀ i, lba ≤ i < lba + Z.of_nat n → sector d' i = sector d i) → sectors d' lba n = sectors d lba n.
Proof.
  induction n as [|n IH]; intros lba He; [done|]. rewrite !sectors_S. rewrite He by lia. f_equal. apply IH. intros i Hi. apply He. lia.
Qed.
End sectors.

(** A device on which transfers inside its capacity succeed. *)
Class ReliableDevice (D : Type) `{BlockDevice D} : Prop := {
  read_ok d lba n buf : 0 ≤ lba → lba + Z.of_nat n ≤ block_count d → (dev_read lba n buf d).1.1 = None;
  write_ok d lba n buf : 0 ≤ lba → lba + Z.of_nat n ≤ block_count d → (dev_write lba n buf d).1 = None }.
