(* ===== verification/AddrSpace.v ===== *)
(** * User address spaces

    What the lower half of a page table means: which user pages are mapped, to
    which frames and with which rights, and how [page_insert],
    [alloc_and_map_page] and the rewriting of an entry change that.  The
    invariant [as_rep] ties the tables of a root to a finite map from page
    numbers to frames; the loader, [exec], the swapper and the destruction of
    an address space are verified against it. *)

From S2P Require Import Prelude LibList Pmm PmmProofs Paging SwapSlots PageTable PageTableProofs Vmm VmmProofs.

(** The constants of [asm/page.h] and [asm/elf.h] that lay out the user half. *)
Class UserLayout := { EM_CURRENT : Z; USER_STACK_TOP : Z; USER_STACK_SIZE : Z }.
Definition x86_layout : UserLayout :=
  {| EM_CURRENT := 0x3E; USER_STACK_TOP := 0x00007FFFFFFFE000; USER_STACK_SIZE := 4 * PG_SIZE |}.
Definition aarch64_layout : UserLayout :=
  {| EM_CURRENT := 0xB7; USER_STACK_TOP := 0x00007FFFFFFFE000; USER_STACK_SIZE := 4 * PG_SIZE |}.
Definition riscv64_layout : UserLayout :=
  {| EM_CURRENT := 0xF3; USER_STACK_TOP := 0x0000004000000000 - 2 * PG_SIZE; USER_STACK_SIZE := 4 * PG_SIZE |}.

(** The user half is what the lower half of the root table maps; the stack lies
    in it (the [static_assert]s of [kernel/exec/exec.cpp]). *)
Class UserLayoutLaws `{Paging} `{UserLayout} := {
  user_half : ∃ s, head walk_shifts = Some s ∧ USER_SPACE_TOP = 2 ^ (s + 8);
  stack_pages : (PG_SIZE | USER_STACK_TOP) ∧ (PG_SIZE | USER_STACK_SIZE);
  levels : length walk_shifts = PT_WALK_LEVELS ∧ (2 ≤ PT_WALK_LEVELS)%nat;
  base_pos : 0 < KERNEL_BASE;
  stack_inside : 0 < USER_STACK_SIZE ∧ USER_STACK_SIZE + PG_SIZE < USER_STACK_TOP < USER_SPACE_TOP }.

Section aspace.
Context `{PL : PagingLaws} `{UL : !UserLayout} `{UU : !UserLayoutLaws}.
Implicit Types (m : gmap Z Z) (p q : list Z) (s : mm) (rs : list (Z * Z)).

(** ** Pages and paths *)

Definition upages : Z := USER_SPACE_TOP / PG_SIZE.
(** The tables below the lower half of the root. *)
Definition user_path q : Prop := ∃ i q', q = i :: q' ∧ 0 ≤ i < USER_TOP_ENTRIES.

Lemma user_top_pages : USER_SPACE_TOP = upages * PG_SIZE ∧ 0 < upages < 2 ^ 52.
Proof.
  destruct user_half as (s & Hs & E). pose proof user_top as Ht. unfold upages, PG_SIZE in *.
  pose proof (phys_covers s ltac:(by apply head_Some_elem_of)) as Hc.
  assert ((4096 | USER_SPACE_TOP)) as [x Hx].
  { rewrite E. change 4096 with (2 ^ 12). exists (2 ^ (s + 8 - 12)). rewrite <- Z.pow_add_r by lia. f_equal. lia. }
  rewrite Hx in *. rewrite Z.div_mul by lia. split; [done|]. lia.
Qed.

Lemma suffix_div shifts va va' : ∀ pre (s : Z) rest, walk_shifts = pre ++ s :: rest → shifts = s :: rest →
  level_index va' <$> shifts = level_index va <$> shifts → va' / 2 ^ (s + 9) = va / 2 ^ (s + 9) → va' / 2 ^ 12 = va / 2 ^ 12.
Proof.
  induction shifts as [|s0 shifts IH]; intros pre s rest Hsh E Hidx Hd; [done|]. injection E as -> ->.
  injection Hidx as Hi Hidx. pose proof (phys_covers s ltac:(rewrite Hsh; set_solver)) as Hs.
  rewrite !level_index_eq in Hi by lia.
  assert (∀ x, x / 2 ^ s = x / 2 ^ (s + 9) * 512 + x / 2 ^ s mod 512) as Hx.
  { intros x. rewrite Z.pow_add_r, <- Z.div_div by lia. change (2 ^ 9) with 512.
    pose proof (Z.div_mod (x / 2 ^ s) 512 ltac:(lia)). lia. }
  assert (va' / 2 ^ s = va / 2 ^ s) as Hds by (rewrite (Hx va'), (Hx va), Hd, Hi; done).
  destruct rest as [|s1 rest].
  - pose proof shifts_last as Hl. rewrite Hsh, last_snoc in Hl. by injection Hl as ->.
  - apply (IH (pre ++ [s]) s1 rest); [by rewrite <- app_assoc|done|done|].
    replace (s1 + 9) with s; [done|]. apply (shifts_steps (length pre)); rewrite Hsh.
    + by rewrite lookup_app_r, Nat.sub_diag by lia.
    + by rewrite lookup_app_r, Nat.sub_succ_l, Nat.sub_diag by lia.
Qed.

Lemma same_page_user va va' :
  0 ≤ va < USER_SPACE_TOP → 0 ≤ va' < USER_SPACE_TOP → same_page va va' ↔ va' / PG_SIZE = va / PG_SIZE.
Proof.
  intros Hva Hva'. destruct user_half as (s & Hs & E). split.
  - intros Hsp. destruct walk_shifts as [|s0 rest] eqn:Hsh; [done|]. injection Hs as ->.
    pose proof (phys_covers s ltac:(rewrite Hsh; set_solver)) as Hc.
    apply (suffix_div (s :: rest) va va' [] s rest); [done|done|by unfold same_page in Hsp; rewrite Hsh in Hsp|].
    assert (2 ^ (s + 8) < 2 ^ (s + 9)) by (apply Z.pow_lt_mono_r; lia). rewrite !Z.div_small by lia. done.
  - intros Hd. unfold same_page. apply list_fmap_ext. intros i sh Hi.
    assert (sh ∈ walk_shifts) as Hin by (by eapply list_elem_of_lookup_2).
    pose proof (phys_covers sh Hin) as Hc. rewrite !level_index_eq by lia. f_equal.
    replace sh with (12 + (sh - 12)) by lia. rewrite Z.pow_add_r, <- !Z.div_div by (try apply Z.pow_pos_nonneg; lia).
    change (2 ^ 12) with PG_SIZE. by rewrite Hd.
Qed.

Lemma user_index va : 0 ≤ va < USER_SPACE_TOP → ∃ s : Z, head walk_shifts = Some s ∧ 0 ≤ level_index va s < USER_TOP_ENTRIES.
Proof.
  intros Hva. destruct user_half as (s & Hs & E). exists s. split; [done|].
  pose proof (phys_covers s ltac:(by apply head_Some_elem_of)) as Hc. unfold USER_TOP_ENTRIES. rewrite level_index_eq by lia.
  assert (va / 2 ^ s < 256).
  { apply Z.div_lt_upper_bound; [apply Z.pow_pos_nonneg; lia|]. rewrite Z.pow_add_r in E by lia. lia. }
  pose proof (Z.div_pos va (2 ^ s) ltac:(lia) ltac:(apply Z.pow_pos_nonneg; lia)). rewrite Z.mod_small by lia. lia.
Qed.

(** ** The invariant *)

(** A mapped page: its frame and what the user program may do with it besides
    reading. *)
Record upage : Set := MkUpage { up_page : Z; up_write : bool; up_exec : bool }.

Definition maps_entry (e : Z) (u : upage) : Prop :=
  pte_present e = true ∧ pte_addr e = up_page u * PG_SIZE ∧ pte_writable e = up_write u ∧ pte_user e = true ∧
  pte_executable e = up_exec u ∧ ∀ w, pte_user_accessible e w = negb w || up_write u.

(** The nodes a mapped page may be listed with: the queues of the swapper and
    the other mapped pages. *)
Definition anode (A : gmap Z upage) (x : node) : Prop :=
  (∃ i, x = SwapList i) ∨ ∃ v u, A !! v = Some u ∧ x = PageNode (up_page u).
Definition linked (h : gmap node (ListNode node)) (A : gmap Z upage) (k : Z) : Prop :=
  ∃ l, ring h (PageNode k) l ∧ ∀ x, x ∈ l → anode A x.

Record as_rep s rs (root : Z) (A : gmap Z upage) : Prop := {
  as_wf : pt_wf s rs root;
  as_links : ∀ q i t a, vpath (q ++ [i]) → user_path (q ++ [i]) → table_at (ram s) root q = Some t →
    table_at (ram s) root (q ++ [i]) = Some a →
    (∀ w, pte_user_table_accessible (word (ram s) (t + 8 * i)) w = true) ∧
    ref_count <$> page_desc (pm s) !! phys_to_page a = Some 1;
  as_page : ∀ v u, A !! v = Some u → 0 ≤ v < upages ∧
    (∃ ptep, leaf_entry (ram s) root (v * PG_SIZE) ptep ∧ maps_entry (word (ram s) ptep) u) ∧
    frame (up_page u * PG_SIZE) ∧ up_page u ∉ free_pages rs ∧ ref_count <$> page_desc (pm s) !! up_page u = Some 1;
  as_node : ∀ v u, A !! v = Some u → linked (nodes (pm s)) A (up_page u);
  as_tables : ∀ v u q a, A !! v = Some u → vpath q → table_at (ram s) root q = Some a → phys_to_page a ≠ up_page u;
  as_none : ∀ v, 0 ≤ v < upages → A !! v = None → translate (ram s) root (v * PG_SIZE) = None;
  as_inj : ∀ v v' u u', A !! v = Some u → A !! v' = Some u' → up_page u = up_page u' → v = v' }.

(** The pages of an address space besides its root table, and what it could
    still get from the allocator. *)
Definition owned s (root : Z) (A : gmap Z upage) (k : Z) : Prop :=
  (∃ q, vpath q ∧ user_path q ∧ table_at (ram s) root q = Some (k * PG_SIZE)) ∨
  (∃ v u, A !! v = Some u ∧ up_page u = k).
Definition held s rs root A k : Prop := k ∈ free_pages rs ∨ owned s root A k.

(** No mapped page is queued for replacement. *)
Definition unqueued s (A : gmap Z upage) : Prop := ∀ v u, A !! v = Some u → ring (nodes (pm s)) (PageNode (up_page u)) [].

(** An operation on one address space: no page is lost, and nothing outside its
    own pages and the lower half of its root table changes. *)
Record as_frame (root : Z) s s' rs rs' (A A' : gmap Z upage) : Prop := {
  af_held : ∀ k, held s rs root A k ↔ held s' rs' root A' k;
  af_words : ∀ x, ¬ held s rs root A (phys_to_page x) → (∀ i, 0 ≤ i < USER_TOP_ENTRIES → x ≠ root + 8 * i) →
    word (ram s') x = word (ram s) x;
  af_kernel : ∀ va sh, head walk_shifts = Some sh → USER_TOP_ENTRIES ≤ level_index va sh →
    translate (ram s') root va = translate (ram s) root va;
  af_entries : ∀ v ptep, 0 ≤ v < upages → leaf_entry (ram s') root (v * PG_SIZE) ptep →
    pte_present (word (ram s') ptep) = true ∨ word (ram s') ptep = 0 ∨
    leaf_entry (ram s) root (v * PG_SIZE) ptep ∧ word (ram s') ptep = word (ram s) ptep;
  af_desc : ∀ k, ¬ held s rs root A k → page_desc (pm s') !! k = page_desc (pm s) !! k;
  af_nodes : ∀ x, x ≠ FreeList → (∀ k, held s rs root A k → x ≠ PageNode k) → nodes (pm s') !! x = nodes (pm s) !! x;
  af_queue : unqueued s A → unqueued s' A';
  af_rest : page_count s' = page_count s ∧ cpu_root s' = cpu_root s ∧ swp s' = swp s }.

Lemma as_frame_refl root s rs A : as_frame root s s rs rs A A.
Proof. constructor; try done. intros v ptep _ ?. by right; right. Qed.
Lemma as_frame_trans root s s1 s2 rs rs1 rs2 A A1 A2 :
  as_frame root s s1 rs rs1 A A1 → as_frame root s1 s2 rs1 rs2 A1 A2 → as_frame root s s2 rs rs2 A A2.
Proof.
  intros F G. constructor.
  - intros k. by rewrite (af_held _ _ _ _ _ _ _ F), (af_held _ _ _ _ _ _ _ G).
  - intros x Hx Hr. rewrite (af_words _ _ _ _ _ _ _ G), (af_words _ _ _ _ _ _ _ F); try done. by rewrite <- (af_held _ _ _ _ _ _ _ F).
  - intros va sh Hs Hi. by rewrite (af_kernel _ _ _ _ _ _ _ G va sh), (af_kernel _ _ _ _ _ _ _ F va sh).
  - intros v ptep Hv Hl. destruct (af_entries _ _ _ _ _ _ _ G v ptep Hv Hl) as [?|[?|[Hl' ->]]]; [by left|by right; left|].
    by apply (af_entries _ _ _ _ _ _ _ F).
  - intros k Hk. rewrite (af_desc _ _ _ _ _ _ _ G), (af_desc _ _ _ _ _ _ _ F); try done. by rewrite <- (af_held _ _ _ _ _ _ _ F).
  - intros x Hx Hh. rewrite (af_nodes _ _ _ _ _ _ _ G), (af_nodes _ _ _ _ _ _ _ F); try done. intros k ?. by apply Hh, (af_held _ _ _ _ _ _ _ F).
  - intros Hq. by apply G, F.
  - destruct (af_rest _ _ _ _ _ _ _ F) as (<- & <- & <-). apply G.
Qed.

Lemma linked_frame h h' (A A' : gmap Z upage) k :
  (∀ x, anode A x → h' !! x = h !! x ∧ anode A' x) → h' !! PageNode k = h !! PageNode k → linked h A k → linked h' A' k.
Proof.
  intros Hx Hk (l & Hr & Hl). exists l. split; [|intros x ?; by apply Hx, Hl].
  eapply ring_frame; [|done]. intros x [->|?]%elem_of_cons; [done|]. by apply Hx, Hl.
Qed.
Lemma anode_insert (A : gmap Z upage) v u x : (∀ u0, A !! v = Some u0 → up_page u0 = up_page u) → anode A x → anode (<[v := u]> A) x.
Proof.
  intros Hv [?|(v' & u' & Hu & ->)]; [by left|right]. destruct (decide (v' = v)) as [->|].
  - exists v, u. rewrite lookup_insert_eq, (Hv u') by done. done.
  - exists v', u'. by rewrite lookup_insert_ne.
Qed.

Lemma user_path_prefix q i r : user_path (q ++ i :: r) → user_path (q ++ [i]).
Proof. intros (j & q' & E & Hj). destruct q as [|x q]; simplify_eq/=; by eexists _, _. Qed.

Lemma leaf_entry_inj m root va e1 e2 : leaf_entry m root va e1 → leaf_entry m root va e2 → e1 = e2.
Proof.
  intros (pre & t & Hsh & Ht & ->) (pre' & t' & Hsh' & Ht' & ->). rewrite Hsh in Hsh'.
  apply app_inj_tail in Hsh' as [<- _]. congruence.
Qed.

Lemma path_access_all m w : ∀ p t,
  (∀ q i r t', p = q ++ i :: r → table_at m t q = Some t' → pte_user_table_accessible (word m (t' + 8 * i)) w = true) →
  is_Some (table_at m t p) → path_access m t p w = true.
Proof.
  induction p as [|i p IH]; intros t Hall [a Ha]; [done|]. cbn [table_at path_access] in *.
  rewrite (Hall [] i p t) by done. simpl. destruct (pte_present _ && _) eqn:Hp; [|done]. apply IH; [|by eexists].
  intros q j r t' -> Ht'. apply (Hall (i :: q) j r); [done|]. cbn [table_at]. by rewrite Hp.
Qed.

Lemma as_access s rs root A va w ptep :
  as_rep s rs root A → 0 ≤ va < USER_SPACE_TOP → leaf_entry (ram s) root va ptep →
  path_access (ram s) root (leaf_path va) w = true.
Proof.
  intros R Hva (pre & t & Hsh & Ht & _). rewrite (leaf_path_pre va pre Hsh).
  pose proof (vpath_indices va pre [12] Hsh ltac:(done)) as Hv. apply path_access_all; [|by eexists].
  intros q i r t' E Ht'.
  assert (user_path (level_index va <$> pre)) as Hu.
  { destruct (user_index va Hva) as (s0 & Hs0 & Hi). destruct pre as [|s1 pre]; [by destruct q|].
    rewrite Hsh in Hs0. injection Hs0 as ->. by eexists _, _. }
  rewrite E in *. assert (vpath (q ++ [i])) as Hvi.
  { rewrite cons_middle, app_assoc in Hv. by eapply vpath_app. }
  destruct (table_at (ram s) root (q ++ [i])) as [a|] eqn:Ha.
  - by destruct (as_links _ _ _ _ R q i t' a Hvi (user_path_prefix _ _ _ Hu) Ht' Ha).
  - rewrite cons_middle, app_assoc, table_at_app, Ha in Ht. done.
Qed.

Lemma page_div v k : 0 ≤ k < PG_SIZE → (v * PG_SIZE + k) / PG_SIZE = v ∧ (v * PG_SIZE + k) mod PG_SIZE = k.
Proof.
  intros Hk. unfold PG_SIZE in *. rewrite Z.div_add_l, Z.div_small, (Z.add_comm _ k), Z.mod_add, Z.mod_small by lia. lia.
Qed.

(** What the hardware does with a user address. *)
Lemma as_translate s rs root A va u :
  as_rep s rs root A → A !! (va / PG_SIZE) = Some u →
  translate (ram s) root va = Some (MkTr (up_page u * PG_SIZE + va mod PG_SIZE) true (up_write u) (up_exec u)).
Proof.
  intros R Hu. destruct (as_page _ _ _ _ R _ _ Hu) as (Hv & (ptep & Hl & Hp & Ha & Hw & _ & Hx & Hacc) & Hf & _).
  destruct user_top_pages as [Htop _]. pose proof (Z.div_mod va PG_SIZE ltac:(done)) as Hdm.
  pose proof (Z.mod_pos_bound va PG_SIZE ltac:(done)) as Hm. unfold PG_SIZE in Hm.
  set (v := va / PG_SIZE) in *. assert (va = v * PG_SIZE + va mod PG_SIZE) as Hva by lia.
  assert (0 ≤ v * PG_SIZE < USER_SPACE_TOP ∧ 0 ≤ va < USER_SPACE_TOP) as [H1 H2] by (unfold PG_SIZE in *; lia).
  assert (same_page (v * PG_SIZE) va) as Hs.
  { apply same_page_user; [done..|]. subst v. unfold PG_SIZE. by rewrite Z.div_mul. }
  rewrite (translate_leaf _ _ _ _ _ Hl Hs), Hp. simpl. unfold restrict_path, leaf_tr. simpl. rewrite !Hacc, Hx, Ha. simpl.
  rewrite !(as_access s rs root A _ _ ptep) by done. change 4096 with (2 ^ 12).
  rewrite (land_lnot_mask _ 12), (land_mask _ 12) by lia. change (2 ^ 12) with 4096. unfold PG_SIZE. rewrite Z.mod_mul by lia.
  f_equal. f_equal. lia.
Qed.

Lemma as_unmapped s rs root A va :
  as_rep s rs root A → 0 ≤ va < USER_SPACE_TOP → A !! (va / PG_SIZE) = None → translate (ram s) root va = None.
Proof.
  intros R Hva Hn. destruct user_top_pages as [Htop Hu]. pose proof (Z.div_mod va PG_SIZE ltac:(done)) as Hdm.
  pose proof (Z.mod_pos_bound va PG_SIZE ltac:(done)) as Hm. unfold PG_SIZE in Hm, Htop.
  assert (0 ≤ va / PG_SIZE < upages) as Hv.
  { unfold PG_SIZE. split; [apply Z.div_pos; lia|]. apply Z.div_lt_upper_bound; lia. }
  pose proof (as_none _ _ _ _ R _ Hv Hn) as E.
  replace va with (va / PG_SIZE * PG_SIZE + va mod PG_SIZE) by lia.
  rewrite translate_offset, E; [done|unfold PG_SIZE; lia|]. unfold PG_SIZE. rewrite Z.mod_mul by lia. lia.
Qed.

(** ** Steps of the walker *)

Lemma leaf_not_path va pre : walk_shifts = pre ++ [12] → ¬ vpath ((level_index va <$> pre) ++ [level_index va 12]).
Proof. intros Hsh [_ Hl]. rewrite length_app, length_fmap, Hsh, length_app in Hl. simpl in Hl. lia. Qed.

(** The walker keeps leaf entries. *)
Lemma local_leaf s s' rs rs' root va va' ptep :
  pt_step root s s' rs rs' → local_step root va (ram s) (ram s') → leaf_entry (ram s) root va' ptep →
  leaf_entry (ram s') root va' ptep ∧ word (ram s') ptep = word (ram s) ptep.
Proof.
  intros St Ls (pre & t & Hsh & Ht & ->). pose proof (vpath_indices va' pre [12] Hsh ltac:(done)) as Hv. split.
  - exists pre, t. split_and!; [done|by apply (st_tables _ _ _ _ _ St)|done].
  - unfold entry_at. apply (ls_words _ _ _ _ Ls (level_index va' <$> pre)); [done..|apply level_index_range|].
    intros [Hv' _]. by apply (leaf_not_path va' pre Hsh).
Qed.

Lemma prefix_user va q : 0 ≤ va < USER_SPACE_TOP → q ≠ [] → q `prefix_of` (level_index va <$> walk_shifts) → user_path q.
Proof.
  intros Hva Hq [r E]. destruct (user_index va Hva) as (s0 & Hs0 & Hi). destruct walk_shifts as [|s1 rest]; [done|].
  injection Hs0 as ->. destruct q as [|i q]; [done|]. injection E as <- _. by eexists _, _.
Qed.

Lemma table_owned s rs root q a :
  pt_wf s rs root → vpath q → table_at (ram s) root q = Some a → table_at (ram s) root q = Some (phys_to_page a * PG_SIZE).
Proof. intros W Hv Hq. rewrite frame_page; [done|]. by apply (wf_tables _ _ _ W q a). Qed.

Lemma owned_page s rs root q k :
  pt_wf s rs root → vpath q → table_at (ram s) root q = Some (k * PG_SIZE) → phys_to_page (k * PG_SIZE) = k ∧ k ∉ free_pages rs.
Proof.
  intros W Hv Hq. destruct (wf_tables _ _ _ W q _ Hv Hq) as [Hf Hn]. destruct (page_to_phys_frame k Hf) as [_ E].
  split; [done|by rewrite E in Hn].
Qed.

Lemma as_linked s rs root A (h : gmap node (ListNode node)) :
  as_rep s rs root A → (∀ x, anode A x → h !! x = nodes (pm s) !! x) → ∀ v u, A !! v = Some u → linked h A (up_page u).
Proof.
  intros R Hx v u Hu. eapply linked_frame; [| |by apply (as_node _ _ _ _ R v u Hu)]; [intros x ?; by auto|].
  apply Hx. right. by exists v, u.
Qed.

Lemma as_step s s' rs rs' root A va :
  as_rep s rs root A → 0 ≤ va < USER_SPACE_TOP → pt_step root s s' rs rs' → local_step root va (ram s) (ram s') →
  as_rep s' rs' root A.
Proof.
  intros R Hva St Ls. pose proof (as_wf _ _ _ _ R) as W. constructor.
  - apply St.
  - intros q i t a Hv Hu Ht Ha. pose proof (vpath_app _ _ Hv) as Hvq. split.
    + destruct (st_links _ _ _ _ _ St q i t a Hv Ht Ha) as [[H1 H2]| ->].
      * destruct (table_at (ram s) root q) as [t0|] eqn:Hq; [|by rewrite table_at_app, Hq in H1].
        assert (t0 = t) as -> by (apply (st_tables _ _ _ _ _ St) in Hq; [congruence|done]).
        rewrite H2. by destruct (as_links _ _ _ _ R q i t a).
      * destruct (wf_tables _ _ _ (st_wf _ _ _ _ _ St) _ _ Hv Ha) as [Hf _]. by destruct (table_entry a Hf) as (_ & _ & _ & ?).
    + destruct (st_new _ _ _ _ _ St _ a Hv Ha) as [H1|[_ ?]]; [|done].
      destruct (table_at (ram s) root q) as [t0|] eqn:Hq; [|by rewrite table_at_app, Hq in H1].
      rewrite (st_desc _ _ _ _ _ St); [by destruct (as_links _ _ _ _ R q i t0 a)|].
      by apply (wf_tables _ _ _ W (q ++ [i]) a).
  - intros v u Hu. destruct (as_page _ _ _ _ R v u Hu) as (? & (ptep & Hl & Hm) & ? & Hn & ?).
    destruct (local_leaf _ _ _ _ _ _ _ _ St Ls Hl) as [Hl' Hw].
    split; [done|]. split; [exists ptep; by rewrite Hw|]. split; [done|]. rewrite (st_desc _ _ _ _ _ St) by done. split; [|done].
    intros Hin. by apply Hn, (st_free _ _ _ _ _ St).
  - apply (as_linked _ _ _ _ _ R). intros x Hx. apply (st_nodes _ _ _ _ _ St); destruct Hx as [[i ->]|(v' & u' & Hu' & ->)]; try done.
    intros i Hi [= <-]. by apply (as_page _ _ _ _ R v' u' Hu').
  - intros v u q a Hu Hv Hq. destruct (st_new _ _ _ _ _ St q a Hv Hq) as [?|[Hf _]]; [by eapply (as_tables _ _ _ _ R)|].
    intros E. rewrite E in Hf. by apply (as_page _ _ _ _ R v u Hu).
  - intros v Hv Hn. rewrite (st_tr _ _ _ _ _ St). by apply (as_none _ _ _ _ R).
  - apply R.
Qed.

Lemma as_step_frame s s' rs rs' root A va :
  as_rep s rs root A → 0 ≤ va < USER_SPACE_TOP → pt_step root s s' rs rs' → local_step root va (ram s) (ram s') →
  as_frame root s s' rs rs' A A.
Proof.
  intros R Hva St Ls. pose proof (as_wf _ _ _ _ R) as W. pose proof (st_wf _ _ _ _ _ St) as W'. constructor.
  - intros k. split; (intros [Hk|[(q & Hv & Hu & Hq)|Hk]]; [| |by right; right]).
    + destruct (st_lost _ _ _ _ _ St k Hk) as [?|(q & Hv & Hq & Hn)]; [by left|right; left]. exists q. split_and!; try done.
      apply (prefix_user va); [done|by intros ->|]. destruct (decide (q `prefix_of` (level_index va <$> walk_shifts))); [done|].
      by rewrite (ls_tables _ _ _ _ Ls), Hn in Hq.
    + right. left. exists q. split_and!; try done. by apply (st_tables _ _ _ _ _ St).
    + left. by apply (st_free _ _ _ _ _ St).
    + destruct (st_new _ _ _ _ _ St q _ Hv Hq) as [?|[Hf _]]; [right; left; by exists q|left].
      by rewrite (proj1 (owned_page s' rs' root q k W' Hv Hq)) in Hf.
  - intros x Hx Hr. destruct (decide (word (ram s') x = word (ram s) x)) as [|Hne]; [done|]. exfalso.
    apply Hne, (st_ram _ _ _ _ _ St). { intros Hin. apply Hx. by left. }
    intros q a j Hv Hq Hj ->. apply Hne, (ls_words _ _ _ _ Ls q); try done. intros [Hvj Hpre].
    pose proof (prefix_user va (q ++ [j]) Hva ltac:(by destruct q) Hpre) as Hu. destruct q as [|i q].
    + simpl in Hq. injection Hq as <-. destruct Hu as (i & q' & [= <- _] & Hi). by apply (Hr j).
    + apply Hx. right. left. exists (i :: q). split; [done|]. split.
      { by apply (user_path_prefix [] i (q ++ [j])) in Hu as (? & ? & [= <- <-] & ?); eexists _, _. }
      destruct (wf_tables _ _ _ W _ _ Hv Hq) as [Hf _]. rewrite phys_page_entry by done. by eapply table_owned.
  - intros. apply St.
  - intros v ptep Hv (pre & t & Hsh & Ht & ->). pose proof (vpath_indices (v * PG_SIZE) pre [12] Hsh ltac:(done)) as Hvp.
    destruct (st_entry _ _ _ _ _ St _ t _ Hvp Ht (level_index_range (v * PG_SIZE) 12)) as [?|[[Ht' E]|[_ E]]];
      [by left|right; right|by right; left]. split; [by exists pre, t|done].
  - intros k Hk. apply (st_desc _ _ _ _ _ St). intros Hin. apply Hk. by left.
  - intros x Hx Hh. apply (st_nodes _ _ _ _ _ St); [done|]. intros i Hi. apply Hh. by left.
  - intros Hq v u Hu. eapply ring_frame; [|by apply (Hq v u)]. intros x ->%list_elem_of_singleton.
    apply (st_nodes _ _ _ _ _ St); [done|]. intros i Hi [= <-]. by apply (as_page _ _ _ _ R v u Hu).
  - rewrite (st_rest _ _ _ _ _ St). done.
Qed.

(** The contents of the mapped pages. *)
Definition keeps_pages (A : gmap Z upage) s s' : Prop :=
  ∀ x v u, A !! v = Some u → phys_to_page x = up_page u → word (ram s') x = word (ram s) x.

Lemma step_pages s s' rs rs' root A : as_rep s rs root A → pt_step root s s' rs rs' → keeps_pages A s s'.
Proof.
  intros R St x v u Hu Hx. apply (st_ram _ _ _ _ _ St); rewrite ?Hx; [by apply (as_page _ _ _ _ R v u Hu)|].
  intros q a j Hv Hq Hj ->. rewrite phys_page_entry in Hx by (try done; by apply (wf_tables _ _ _ (as_wf _ _ _ _ R) q a)).
  by apply (as_tables _ _ _ _ R v u q a).
Qed.

Lemma leaf_pages s rs root A va ptep e :
  as_rep s rs root A → leaf_entry (ram s) root va ptep → keeps_pages A s (with_ram (<[ptep := e]> (ram s)) s).
Proof.
  intros R (pre & t & Hsh & Ht & ->) x v u Hu Hx. cbn [ram with_ram]. rewrite word_insert, decide_False; [done|]. intros <-.
  pose proof (vpath_indices va pre [12] Hsh ltac:(done)) as Hv. unfold entry_at in Hx.
  rewrite phys_page_entry in Hx by (try apply level_index_range; by apply (wf_tables _ _ _ (as_wf _ _ _ _ R) _ _ Hv Ht)).
  by apply (as_tables _ _ _ _ R v u _ t Hu Hv).
Qed.

(** ** Changing the parts of the state *)

Lemma as_rep_same s s' rs root A : ram s' = ram s → pm s' = pm s → as_rep s rs root A → as_rep s' rs root A.
Proof. intros Hr Hp []. constructor; rewrite ?Hr, ?Hp; try done. destruct as_wf0. constructor; by rewrite ?Hr, ?Hp. Qed.

Lemma as_ram s rs root A m' :
  as_rep s rs root A → same_tables (ram s) m' root → (∀ a, 0 ≤ word m' a < 2 ^ 64) → as_rep (with_ram m' s) rs root A.
Proof.
  intros R Hs Hw. destruct (same_tables_translate _ _ _ Hs) as [Htr Htab]. pose proof (as_wf _ _ _ _ R) as W.
  constructor; simpl.
  - constructor; simpl; try apply W; [done|..].
    + intros q a Hv Hq. rewrite Htab in Hq by done. by apply (wf_tables _ _ _ W q).
    + intros q q' a Hv Hv'. rewrite !Htab by done. by apply (wf_tree _ _ _ W).
  - intros q i t a Hv Hu Ht Ha. rewrite Htab in Ht, Ha by (try done; by eapply vpath_app).
    rewrite (Hs q) by first [done|by eapply vpath_app|by eapply vpath_index]. by apply (as_links _ _ _ _ R q i t a).
  - intros v u Hu. destruct (as_page _ _ _ _ R v u Hu) as (? & (ptep & (pre & t & Hsh & Ht & ->) & Hm) & ?).
    pose proof (vpath_indices (v * PG_SIZE) pre [12] Hsh ltac:(done)) as Hv.
    split; [done|]. split; [|done]. exists (entry_at t (v * PG_SIZE) 12). split; [exists pre, t; by rewrite Htab|].
    unfold entry_at. rewrite (Hs (level_index (v * PG_SIZE) <$> pre)) by (try done; apply level_index_range). done.
  - apply R.
  - intros v u q a Hu Hv Hq. rewrite Htab in Hq by done. by eapply (as_tables _ _ _ _ R).
  - intros v ??. rewrite Htr. by apply (as_none _ _ _ _ R).
  - apply R.
Qed.

Lemma as_pm s rs root A pm' rs' :
  as_rep s rs root A → pmm_rep pm' rs' →
  (∀ k, k ∈ free_pages rs' → frame (k * PG_SIZE) ∧ (∀ q a, vpath q → table_at (ram s) root q = Some a → phys_to_page a ≠ k) ∧
     ∀ v u, A !! v = Some u → up_page u ≠ k) →
  (∀ k, owned s root A k → ref_count <$> page_desc pm' !! k = ref_count <$> page_desc (pm s) !! k) →
  (∀ v u, A !! v = Some u → linked (nodes pm') A (up_page u)) →
  as_rep (with_pm pm' s) rs' root A.
Proof.
  intros R Rp Hfree Href Hnodes. pose proof (as_wf _ _ _ _ R) as W. constructor; simpl; try apply R.
  - constructor; simpl; try apply W; [done|by intros k [? _]%Hfree|].
    intros q a Hv Hq. split; [by apply (wf_tables _ _ _ W q)|]. intros (_ & Hn & _)%Hfree. by apply (Hn q a).
  - intros q i t a Hv Hu Ht Ha. destruct (as_links _ _ _ _ R q i t a Hv Hu Ht Ha) as [? Hr]. split; [done|].
    rewrite Href; [done|]. left. exists (q ++ [i]). split_and!; [done..|]. by eapply table_owned.
  - intros v u Hu. destruct (as_page _ _ _ _ R v u Hu) as (? & ? & ? & _ & ?).
    split_and!; try done; [lia..| |]. { intros (_ & _ & Hn)%Hfree. by apply (Hn v u). }
    rewrite Href; [done|]. right. by exists v, u.
  - exact Hnodes.
Qed.

Lemma leaf_entry_other s rs root va va' e e' :
  pt_wf s rs root → leaf_entry (ram s) root va e → leaf_entry (ram s) root va' e' → ¬ same_page va va' → e ≠ e'.
Proof.
  intros W (pre & t & Hsh & Ht & ->) (pre' & t' & Hsh' & Ht' & ->) Hn E. rewrite Hsh in Hsh'.
  apply app_inj_tail in Hsh' as [<- _]. pose proof (vpath_indices va pre [12] Hsh ltac:(done)) as Hv.
  pose proof (vpath_indices va' pre [12] Hsh ltac:(done)) as Hv'.
  destruct (entry_inj t t' _ _ (proj1 (wf_tables _ _ _ W _ _ Hv Ht)) (proj1 (wf_tables _ _ _ W _ _ Hv' Ht'))
    (level_index_range _ _) (level_index_range _ _) E) as [<- Hi].
  apply Hn. unfold same_page. rewrite Hsh, !fmap_app. simpl. rewrite Hi. f_equal.
  by apply (wf_tree _ _ _ W _ _ t).
Qed.

(** The leaf entry of a user page is in the address space. *)
Lemma leaf_owned s rs root A va ptep :
  pt_wf s rs root → 0 ≤ va < USER_SPACE_TOP → leaf_entry (ram s) root va ptep →
  (∃ i, 0 ≤ i < USER_TOP_ENTRIES ∧ ptep = root + 8 * i) ∨ owned s root A (phys_to_page ptep).
Proof.
  intros W Hva (pre & t & Hsh & Ht & ->). destruct (user_index va Hva) as (s0 & Hs0 & Hi).
  pose proof (vpath_indices va pre [12] Hsh ltac:(done)) as Hv. destruct pre as [|s1 pre].
  - simpl in Ht. injection Ht as <-. rewrite Hsh in Hs0. injection Hs0 as <-. left. by eexists.
  - right. left. exists (level_index va <$> s1 :: pre). split; [done|].
    rewrite Hsh in Hs0. injection Hs0 as ->. split; [by eexists _, _|].
    unfold entry_at. rewrite phys_page_entry; [by eapply table_owned|by apply (wf_tables _ _ _ W _ _ Hv Ht)|apply level_index_range].
Qed.

Lemma same_page_v v v' : 0 ≤ v < upages → 0 ≤ v' < upages → same_page (v * PG_SIZE) (v' * PG_SIZE) → v' = v.
Proof.
  intros Hv Hv' Hs. destruct user_top_pages as [Ht _]. apply same_page_user in Hs; [|unfold PG_SIZE in *; lia..].
  unfold PG_SIZE in *. rewrite !Z.div_mul in Hs by lia. done.
Qed.

Lemma as_leaf_write s rs root A v u e ptep :
  as_rep s rs root A → 0 ≤ v < upages → leaf_entry (ram s) root (v * PG_SIZE) ptep → 0 ≤ e < 2 ^ 64 → maps_entry e u →
  frame (up_page u * PG_SIZE) → up_page u ∉ free_pages rs → ref_count <$> page_desc (pm s) !! up_page u = Some 1 →
  (∀ q a, vpath q → table_at (ram s) root q = Some a → phys_to_page a ≠ up_page u) →
  (∀ v' u', A !! v' = Some u' → up_page u' = up_page u → v' = v) → (∀ u0, A !! v = Some u0 → up_page u0 = up_page u) →
  linked (nodes (pm s)) A (up_page u) →
  as_rep (with_ram (<[ptep := e]> (ram s)) s) rs root (<[v := u]> A).
Proof.
  intros R Hv Hl He Hm Hf Hn Hr Ht Hd Hsame Hlk. pose proof (as_wf _ _ _ _ R) as W.
  destruct (leaf_write s rs root _ ptep e W Hl He) as (W' & Hl' & Htab & Hoth).
  assert (∀ x, x ≠ ptep → word (<[ptep := e]> (ram s)) x = word (ram s) x) as Hw.
  { intros x Hx. rewrite word_insert. by rewrite decide_False. }
  constructor; [done|..]; cbn [ram with_ram pm] in *.
  - intros q i t a Hvq Hu Hq Ha. rewrite Htab in Hq, Ha by (try done; by eapply vpath_app).
    rewrite Hw; [by apply (as_links _ _ _ _ R q i t a)|]. destruct Hl as (pre & t' & Hsh & Ht' & ->). intros E.
    pose proof (vpath_indices (v * PG_SIZE) pre [12] Hsh ltac:(done)) as Hvp. pose proof (vpath_app _ _ Hvq) as Hvq'.
    destruct (entry_inj t t' i _ (proj1 (wf_tables _ _ _ W _ _ Hvq' Hq)) (proj1 (wf_tables _ _ _ W _ _ Hvp Ht'))
      (vpath_index _ _ _ Hvq) (level_index_range _ _) E) as [<- ->].
    rewrite (wf_tree _ _ _ W _ _ _ Hvq' Hvp Hq Ht') in Hvq. by apply (leaf_not_path _ _ Hsh) in Hvq.
  - intros v' u'. rewrite lookup_insert. case_decide as Hvv; [intros [= <-]; subst v'|intros Hu'].
    + split; [done|]. split; [|done]. exists ptep. split; [done|]. rewrite word_insert. by rewrite decide_True.
    + destruct (as_page _ _ _ _ R v' u' Hu') as (Hv' & (ptep' & Hl2 & Hm2) & ?). split; [done|]. split; [|done].
      exists ptep'. assert (ptep ≠ ptep') as Hne.
      { eapply (leaf_entry_other s rs root); [done..|]. intros ?%same_page_v; done. }
      split; [|by rewrite Hw]. destruct Hl2 as (pre & t & Hsh & Ht2 & ->). exists pre, t. split_and!; [done| |done].
      rewrite Htab; [done|by apply (vpath_indices _ pre [12])].
  - assert (∀ k, linked (nodes (pm s)) A k → linked (nodes (pm s)) (<[v := u]> A) k) as Hmono.
    { intros k. apply linked_frame; [|done]. intros x ?. split; [done|by apply anode_insert]. }
    intros v' u'. rewrite lookup_insert. case_decide; [intros [= <-]; auto|]. intros ?. apply Hmono. by apply (as_node _ _ _ _ R v').
  - intros v' u' q a. rewrite lookup_insert. intros Hu Hvq Hq. rewrite Htab in Hq by done.
    case_decide; [simplify_eq; by eapply Ht|by eapply (as_tables _ _ _ _ R)].
  - intros v' Hv'. rewrite lookup_insert. case_decide; [done|]. intros Hnn. rewrite Hoth; [by apply (as_none _ _ _ _ R)|].
    by intros ?%same_page_v.
  - intros v1 v2 u1 u2. rewrite !lookup_insert. intros E1 E2 E. repeat case_decide; simplify_eq; try done.
    all: first [by eapply Hd|symmetry; by eapply Hd|by eapply (as_inj _ _ _ _ R)].
Qed.

(** Writing one leaf entry of the address space. *)
Lemma as_write_frame s rs root A A' v e ptep :
  as_rep s rs root A → 0 ≤ v < upages → leaf_entry (ram s) root (v * PG_SIZE) ptep → 0 ≤ e < 2 ^ 64 → pte_present e = true →
  (∀ k, (∃ v u, A !! v = Some u ∧ up_page u = k) ↔ (∃ v u, A' !! v = Some u ∧ up_page u = k)) →
  as_frame root s (with_ram (<[ptep := e]> (ram s)) s) rs rs A A'.
Proof.
  intros R Hv Hl He Hpr Hpages. pose proof (as_wf _ _ _ _ R) as W. destruct user_top_pages as [Htop _].
  assert (0 ≤ v * PG_SIZE < USER_SPACE_TOP) as Hva by (unfold PG_SIZE in *; lia).
  destruct (leaf_write s rs root _ ptep e W Hl He) as (_ & _ & Htab & Hoth). constructor; try done.
  - intros k. unfold held, owned. rewrite Hpages. cbn [ram with_ram] in *.
    by split; (intros [?|[(q & Hvq & Hu & Hq)|?]]; [by left| |by right; right]); right; left; exists q; (split_and!; [done..|]);
      [rewrite Htab|rewrite <- Htab].
  - intros x Hx Hr. cbn [ram with_ram]. rewrite word_insert, decide_False; [done|]. intros <-.
    destruct (leaf_owned s rs root A _ _ W Hva Hl) as [(i & Hi & ->)|Ho]; [by apply (Hr i)|]. apply Hx. by right.
  - intros va sh Hsh Hi. apply Hoth. intros Hs. destruct (user_index _ Hva) as (s0 & Hs0 & Hlt).
    rewrite Hsh in Hs0. injection Hs0 as <-. unfold same_page in Hs. destruct walk_shifts as [|s1 rest]; [done|].
    injection Hsh as <-. injection Hs as Hs _. lia.
  - intros v' ptep' Hv' (pre & t & Hsh & Ht & ->). cbn [ram with_ram] in *. rewrite word_insert. case_decide; [by left|right; right].
    split; [|done]. exists pre, t. rewrite <- Htab; [done|by apply (vpath_indices _ pre [12])].
  - intros Hq v' u' Hu'. destruct (proj2 (Hpages (up_page u'))) as (v2 & u2 & Hu2 & <-); [by exists v', u'|]. by apply (Hq v2 u2).
Qed.

(** ** Mapping a page *)

Lemma alloc_one (s : pmm) rs :
  pmm_rep s rs →
  rs = [] ∧ alloc 1 s = Ret None s ∨
  ∃ (p : Z) pg (s' : pmm) rs', alloc 1 s = Ret (Some p) s' ∧ pmm_rep s' rs' ∧ free_pages rs ≡ₚ p :: free_pages rs' ∧ p ∉ free_pages rs' ∧
    page_desc s' !! p = Some pg ∧ ref_count pg = 0 ∧ pmm_frame s s' (free_pages rs) ∧ ring (nodes s') (PageNode p) [] ∧
    (∀ i, ref_count <$> page_desc s' !! i = ref_count <$> page_desc s !! i) ∧ (coalesced rs → coalesced rs').
Proof.
  intros R. pose proof (alloc_spec s rs 1 R ltac:(lia)) as Hal. destruct (spec_alloc 1 rs) as [[p rs']|] eqn:Ha.
  - right. destruct Hal as (s1 & Hal & R1 & Hperm & F & Hiso & Href). change (seqZ p 1) with [p] in Hperm. simpl in Hperm.
    assert (p ∈ free_pages rs) as Hp by (rewrite Hperm; set_solver).
    destruct (rep_page _ _ R p Hp) as (pg0 & Hpg0 & Hr0). destruct (proj2 (proj1 (proj2 F) p) (mk_is_Some _ _ Hpg0)) as [pg Hpg].
    exists p, pg, s1, rs'. split_and!; try done; [| |intros Hco; eapply spec_alloc_coalesced; [|apply R|apply R|done|done]; lia].
    + pose proof (rep_nodup _ _ R) as Hnd. rewrite Hperm in Hnd. by apply NoDup_cons in Hnd as [? _].
    + pose proof (Href p) as E. rewrite Hpg, Hpg0 in E. simpl in E. congruence.
  - left. split; [|done]. destruct rs as [|[p k] rs]; [done|].
    pose proof (proj1 (spec_alloc_None 1 _) Ha p k ltac:(set_solver)). pose proof (rep_pos _ _ R p k ltac:(set_solver)). lia.
Qed.

(** A page outside the address space and outside the free list. *)
Record spare s rs (root : Z) (A : gmap Z upage) (page : Z) (pg : Page) : Prop := {
  sp_desc : page_desc (pm s) !! page = Some pg;
  sp_ref : ref_count pg = 0;
  sp_node : ring (nodes (pm s)) (PageNode page) [];
  sp_frame : frame (page * PG_SIZE);
  sp_free : page ∉ free_pages rs;
  sp_table : ∀ q a, vpath q → table_at (ram s) root q = Some a → phys_to_page a ≠ page;
  sp_user : ∀ v u, A !! v = Some u → up_page u ≠ page }.

Lemma spare_held s rs root A page pg : as_rep s rs root A → spare s rs root A page pg → ¬ held s rs root A page.
Proof.
  intros R Sp [?|[(q & Hv & _ & Hq)|(v & u & Hu & <-)]]; [by apply (sp_free _ _ _ _ _ _ Sp)| |by apply (sp_user _ _ _ _ _ _ Sp v u)].
  destruct (owned_page s rs root q page (as_wf _ _ _ _ R) Hv Hq) as [E _]. by apply (sp_table _ _ _ _ _ _ Sp q (page * PG_SIZE)).
Qed.

Lemma spare_step s s' rs rs' root A page pg va :
  spare s rs root A page pg → pt_step root s s' rs rs' → local_step root va (ram s) (ram s') → spare s' rs' root A page pg.
Proof.
  intros [] St Ls. constructor; try done.
  - by rewrite (st_desc _ _ _ _ _ St).
  - eapply ring_frame; [|done]. intros x ->%list_elem_of_singleton. apply (st_nodes _ _ _ _ _ St); [done|]. by intros i ? [= <-].
  - intros Hin. by apply sp_free0, (st_free _ _ _ _ _ St).
  - intros q a Hv Hq. destruct (st_new _ _ _ _ _ St q a Hv Hq) as [?|[Hf _]]; [by eapply sp_table0|]. intros E. by rewrite E in Hf.
Qed.

(** What [perm] grants, as an entry. *)
Definition grants (page perm : Z) : upage := MkUpage page (has perm VM_WRITE) (negb (has perm VM_NOEXEC)).
Lemma grants_entry page perm : frame (page * PG_SIZE) → has perm VM_USER = true →
  maps_entry (make_pte_page (page * PG_SIZE) perm) (grants page perm) ∧ 0 ≤ make_pte_page (page * PG_SIZE) perm < 2 ^ 64.
Proof.
  intros Hf Hu. destruct (page_entry (page * PG_SIZE) perm Hf) as (? & ? & ? & Hus & ? & Hacc).
  split; [|apply (entries_width _ perm 0 0 Hf); lia]. unfold maps_entry, grants. cbn [up_page up_write up_exec].
  rewrite Hus, Hu. split_and!; try done. intros w. rewrite Hacc, Hu. done.
Qed.

Lemma as_insert s rs root A page pg v perm :
  as_rep s rs root A → 0 ≤ v < upages → A !! v = None → spare s rs root A page pg → has perm VM_USER = true →
  (∃ s' rs', page_insert root page (v * PG_SIZE) perm s = Ret tt s' ∧ as_rep s' rs' root (<[v := grants page perm]> A) ∧
     (∀ k, held s rs root A k ∨ k = page ↔ held s' rs' root (<[v := grants page perm]> A) k) ∧
     (∀ x, ¬ held s rs root A (phys_to_page x) → (∀ i, 0 ≤ i < USER_TOP_ENTRIES → x ≠ root + 8 * i) →
        word (ram s') x = word (ram s) x) ∧
     (∀ va sh, head walk_shifts = Some sh → USER_TOP_ENTRIES ≤ level_index va sh → translate (ram s') root va = translate (ram s) root va) ∧
     (∀ v ptep, 0 ≤ v < upages → leaf_entry (ram s') root (v * PG_SIZE) ptep →
        pte_present (word (ram s') ptep) = true ∨ word (ram s') ptep = 0 ∨
        leaf_entry (ram s) root (v * PG_SIZE) ptep ∧ word (ram s') ptep = word (ram s) ptep) ∧
     (∀ k, ¬ held s rs root A k → k ≠ page → page_desc (pm s') !! k = page_desc (pm s) !! k) ∧
     (∀ x, x ≠ FreeList → (∀ k, held s rs root A k → x ≠ PageNode k) → nodes (pm s') !! x = nodes (pm s) !! x) ∧
     (unqueued s A → unqueued s' (<[v := grants page perm]> A)) ∧
     (page_count s' = page_count s ∧ cpu_root s' = cpu_root s ∧ swp s' = swp s) ∧ keeps_pages A s s') ∨
  (∃ s', page_insert root page (v * PG_SIZE) perm s = Fail E_NoMem s' ∧ as_rep s' [] root A ∧ as_frame root s s' rs [] A A ∧
     spare s' [] root A page pg ∧ keeps_pages A s s').
Proof.
  intros R Hv Hn Sp Hperm. destruct user_top_pages as [Htop _].
  assert (0 ≤ v * PG_SIZE < USER_SPACE_TOP) as Hva by (unfold PG_SIZE in *; lia).
  destruct (page_insert_spec s rs root page pg (v * PG_SIZE) perm (as_wf _ _ _ _ R)) as
    [(s1 & s' & rs1 & ptep & E & I)|(e & s' & rs' & E & St & Ls & [[_ [x Hx]]|[-> ->]])];
    [apply Sp|apply Sp|apply Sp|rewrite (sp_ref _ _ _ _ _ _ Sp); lia|..].
  2:{ by rewrite (as_none _ _ _ _ R v Hv Hn) in Hx. }
  2:{ right. exists s'. split_and!; [done|by eapply as_step|by eapply as_step_frame|by eapply spare_step|by eapply step_pages]. }
  left. destruct I as [St Ls Hl Hpr W' Hram Hpm Hrest].
  pose proof (as_step _ _ _ _ _ _ _ R Hva St Ls) as R1. pose proof (as_step_frame _ _ _ _ _ _ _ R Hva St Ls) as F1.
  pose proof (spare_step _ _ _ _ _ _ _ _ _ Sp St Ls) as Sp1. destruct (grants_entry page perm (sp_frame _ _ _ _ _ _ Sp) Hperm) as [Hm Hw].
  pose proof (spare_held _ _ _ _ _ _ R1 Sp1) as Hnh. set (pm1 := MkPmm _ _ _) in Hpm.
  assert (as_rep (with_pm pm1 s1) rs1 root A) as R2.
  { apply (as_pm s1 rs1); [done|eapply rep_upd_page; [apply R1|apply Sp1|apply Sp1]|..].
    - intros k Hk. split; [by apply R1|]. split; [|intros v' u Hu <-; by apply (as_page _ _ _ _ R1 v' u Hu)].
      intros q a Hvq Hq <-. by apply (wf_tables _ _ _ (as_wf _ _ _ _ R1) q a).
    - intros k Hk. simpl. rewrite lookup_insert_ne; [done|]. intros <-. apply Hnh. by right.
    - apply (as_linked _ _ _ _ _ R1). done. }
  assert (as_rep s' rs1 root (<[v := grants page perm]> A)) as R'.
  { eapply as_rep_same; [| |eapply (as_leaf_write (with_pm pm1 s1)); [exact R2|exact Hv|exact Hl|exact Hw|exact Hm|..]]; cbn; try done.
    - apply Sp.
    - apply Sp1.
    - rewrite lookup_insert_eq. simpl. by rewrite (sp_ref _ _ _ _ _ _ Sp).
    - apply Sp1.
    - intros v' u' Hu' Hpg. by destruct (sp_user _ _ _ _ _ _ Sp v' u' Hu').
    - congruence.
    - exists []. split; [apply Sp1|set_solver]. }
  exists s', rs1. split; [done|]. split; [done|].
  destruct (leaf_write s1 rs1 root (v * PG_SIZE) ptep _ (as_wf _ _ _ _ R1) Hl Hw) as (_ & _ & Htab & _).
  cbn [ram with_ram] in Htab. rewrite <- Hram in Htab.
  pose proof (as_write_frame s1 rs1 root A A v _ ptep R1 Hv Hl Hw (proj1 Hm) ltac:(done)) as F2.
  split; [|split; [|split; [|split; [|split; [|split; [|split; [|split; [done|]]]]]]]].
  - intros k. rewrite (af_held _ _ _ _ _ _ _ F1). unfold held, owned. split.
    + intros [[?|[(q & Hvq & Hu & Hq)|(v' & u' & Hu' & <-)]]| ->]; [by left|right..].
      * left. exists q. by rewrite Htab.
      * right. exists v', u'. rewrite lookup_insert_ne; [done|]. intros ->. congruence.
      * right. exists v, (grants page perm). by rewrite lookup_insert_eq.
    + intros [?|[(q & Hvq & Hu & Hq)|(v' & u' & Hu' & <-)]]; [by left; left|left; right; left; exists q; by rewrite <- Htab|].
      rewrite lookup_insert in Hu'. case_decide; [simplify_eq; by right|left; right; right; by exists v', u'].
  - intros x Hx Hr. rewrite Hram. etrans; [apply (af_words _ _ _ _ _ _ _ F2 x)|by apply F1]; [by rewrite <- (af_held _ _ _ _ _ _ _ F1)|done].
  - intros va sh Hsh Hi. rewrite Hram. etrans; [by apply (af_kernel _ _ _ _ _ _ _ F2 va sh)|by apply (af_kernel _ _ _ _ _ _ _ F1 va sh)].
  - intros v' ptep' Hv' Hl'. rewrite Hram in *. destruct (af_entries _ _ _ _ _ _ _ F2 v' ptep' Hv' Hl') as [?|[?|[Hl2 E2]]]; [by left|by right; left|].
    cbn [ram with_ram] in E2. rewrite E2. by apply F1.
  - intros k Hk Hne. rewrite Hpm. simpl. rewrite lookup_insert_ne by done. by apply F1.
  - intros x Hx Hh. rewrite Hpm. simpl. by apply F1.
  - intros Hq v' u'. rewrite Hpm. simpl. rewrite lookup_insert. case_decide; [intros [= <-]; apply Sp1|]. by apply F1.
  - intros x v' u Hu Hx. rewrite Hram. etrans; [by apply (leaf_pages s1 rs1 root A _ _ _ R1 Hl x v' u)|].
    by apply (step_pages s s1 rs rs1 root A R St x v' u).
Qed.

Lemma alloc_and_map_spec s rs root A v perm :
  as_rep s rs root A → 0 ≤ v < upages → A !! v = None → has perm VM_USER = true →
  (∃ page s' rs', alloc_and_map_page root (v * PG_SIZE) perm s = Ret (Some page) s' ∧
     as_rep s' rs' root (<[v := grants page perm]> A) ∧ as_frame root s s' rs rs' A (<[v := grants page perm]> A) ∧
     keeps_pages A s s') ∨
  (∃ s' rs', alloc_and_map_page root (v * PG_SIZE) perm s = Ret None s' ∧ as_rep s' rs' root A ∧
     as_frame root s s' rs rs' A A ∧ keeps_pages A s s' ∧ (length (free_pages rs') ≤ 1)%nat).
Proof.
  intros R Hv Hn Hperm. pose proof (as_wf _ _ _ _ R) as W. unfold alloc_and_map_page.
  destruct (alloc_one (pm s) rs (wf_rep _ _ _ W)) as [[-> E]|(p & pg & pm0 & rs0 & E & R0 & Hperm0 & Hp0 & Hpg & Hr0 & F0 & Hiso & Href & _)].
  { right. exists s, []. rewrite (bind_Ret _ _ s None s); [|unfold on_pm; erewrite zoom_Ret by exact E; by destruct s].
    split_and!; [done|done|apply as_frame_refl|done|simpl; lia]. }
  rewrite (bind_Ret _ _ _ _ _ (on_pm_Ret _ _ _ _ E)). set (s0 := with_pm pm0 s).
  assert (p ∈ free_pages rs) as Hp by (rewrite Hperm0; set_solver).
  assert (∀ k, held s rs root A k ↔ held s0 rs0 root A k ∨ k = p) as Hheld0.
  { intros k. unfold held. rewrite Hperm0, elem_of_cons. unfold owned. simpl. tauto. }
  assert (as_rep s0 rs0 root A) as RA.
  { apply (as_pm s rs); [done..| |by intros; apply Href|]; [intros k Hk; assert (k ∈ free_pages rs) as Hk' by (rewrite Hperm0; set_solver)|].
    split; [by apply W|]. split; [|intros v' u Hu <-; by apply (as_page _ _ _ _ R v' u Hu)].
    - intros q a Hvq Hq <-. by apply (wf_tables _ _ _ W q a).
    - apply (as_linked _ _ _ _ _ R). intros x Hx. apply F0; destruct Hx as [[i ->]|(v' & u' & Hu' & ->)]; try done.
      intros i Hi [= <-]. by apply (as_page _ _ _ _ R v' u' Hu'). }
  assert (spare s0 rs0 root A p pg) as Sp.
  { constructor; try done; [by apply W| |].
    - intros q a Hvq Hq <-. by apply (wf_tables _ _ _ W q a).
    - intros v' u Hu <-. by apply (as_page _ _ _ _ R v' u Hu). }
  assert (∀ k, ¬ held s rs root A k → page_desc pm0 !! k = page_desc (pm s) !! k) as Hd0.
  { intros k Hk. apply F0. intros Hin. apply Hk. by left. }
  assert (∀ x, x ≠ FreeList → (∀ k, held s rs root A k → x ≠ PageNode k) → nodes pm0 !! x = nodes (pm s) !! x) as Hn0.
  { intros x Hx Hh. apply F0; [done|]. intros i Hi. apply Hh. by left. }
  assert (unqueued s A → unqueued s0 A) as Hq0.
  { intros Hq v' u' Hu'. eapply ring_frame; [|by apply (Hq v' u')]. intros x ->%list_elem_of_singleton.
    apply F0; [done|]. intros i Hi [= <-]. by apply (as_page _ _ _ _ R v' u' Hu'). }
  destruct (as_insert s0 rs0 root A p pg v perm RA Hv Hn Sp Hperm) as
    [(s' & rs' & E' & R' & Hh & Hw & Hk & He & Hd & Hnd & Hq & Hrest & Hkp)|(s' & E' & R' & F & Sp' & Hkp)].
  - left. exists p, s', rs'. rewrite (bind_Ret _ _ s0 (inl tt) s') by (unfold try_; by rewrite E').
    split_and!; [done|done| |done]. constructor; try done.
    + intros k. by rewrite Hheld0, <- Hh.
    + intros x Hx Hr. apply (Hw x); [|done]. intros Hx'. apply Hx, Hheld0. by left.
    + intros k Hk'. rewrite Hd; [by apply Hd0|intros ?; apply Hk', Hheld0; by left|]. intros ->. apply Hk', Hheld0. by right.
    + intros x Hx Hxh. rewrite Hnd; [by apply Hn0|done|]. intros k ?. apply Hxh, Hheld0. by left.
    + intros ?. by apply Hq, Hq0.
  - right. rewrite (bind_Ret _ _ s0 (inr E_NoMem) s') by (unfold try_; by rewrite E').
    destruct (free_spec (pm s') [] p 1 (wf_rep _ _ _ (as_wf _ _ _ _ R')) ltac:(lia)) as (pm2 & E2 & R2 & F2 & Href2).
    { intros i Hi%elem_of_seqZ. assert (i = p) as -> by lia. split; [|apply Sp'].
      rewrite (sp_desc _ _ _ _ _ _ Sp'). simpl. by rewrite Hr0. }
    exists (with_pm pm2 s'), (spec_free p 1 []). rewrite (bind_Ret _ _ _ _ _ (on_pm_Ret _ _ _ _ E2)). split; [done|].
    assert (free_pages (spec_free p 1 []) ≡ₚ [p]) as Hfp.
    { by destruct (spec_free_correct p 1 [] ltac:(lia) (wf_rep _ _ _ (as_wf _ _ _ _ R')).(rep_pos _ _)) as (_ & -> & _). }
    split_and!; [| |done|by rewrite Hfp].
    + apply (as_pm s' []); [done..| |by intros; apply Href2|].
      * intros k. rewrite Hfp, list_elem_of_singleton. intros ->. split_and!; apply Sp'.
      * apply (as_linked _ _ _ _ _ R'). intros x Hx. apply F2; destruct Hx as [[i ->]|(v' & u' & Hu' & ->)]; try done.
        intros i Hi [= <-]. apply (sp_user _ _ _ _ _ _ Sp' v' u' Hu'). simpl in Hi. set_solver.
    + constructor; [| |intros va sh ??; by apply (af_kernel _ _ _ _ _ _ _ F va sh)|apply F| | | |apply F].
      * intros k. rewrite Hheld0, (af_held _ _ _ _ _ _ _ F). unfold held at 2. rewrite Hfp, list_elem_of_singleton.
        unfold held, owned. simpl. rewrite elem_of_nil. tauto.
      * intros x Hx Hr. apply (af_words _ _ _ _ _ _ _ F x); [|done]. intros ?. apply Hx, Hheld0. by left.
      * intros k Hk. simpl. destruct F2 as [-> _].
        -- rewrite (af_desc _ _ _ _ _ _ _ F); [by apply Hd0|]. intros ?. apply Hk, Hheld0. by left.
        -- simpl. intros Hin. apply Hk, Hheld0. right. set_solver.
      * intros x Hx Hxh. simpl. destruct F2 as (_ & _ & ->); [|done|].
        -- rewrite (af_nodes _ _ _ _ _ _ _ F); [by apply Hn0|done|]. intros k ?. apply Hxh, Hheld0. by left.
        -- simpl. intros i Hi. apply Hxh, Hheld0. right. set_solver.
      * intros Hq v' u' Hu'. eapply ring_frame; [|by apply (af_queue _ _ _ _ _ _ _ F (Hq0 Hq) v' u')].
        intros x ->%list_elem_of_singleton. apply F2; [done|]. simpl. intros i Hi [= <-].
        apply (sp_user _ _ _ _ _ _ Sp' v' u' Hu'). set_solver.
Qed.

(** ** Writing the contents of a page *)

Lemma phys_page_in (p x : Z) : p * PG_SIZE ≤ x < p * PG_SIZE + PG_SIZE → phys_to_page x = p.
Proof.
  intros Hx. unfold phys_to_page, PG_SHIFT, PG_SIZE in *. rewrite Z.shiftr_div_pow2 by lia. change (2 ^ 12) with 4096.
  symmetry. apply (Z.div_unique x 4096 p (x - p * 4096)); lia.
Qed.

Lemma as_page_write s rs root A v u m' :
  as_rep s rs root A → A !! v = Some u → (∀ x, phys_to_page x ≠ up_page u → word m' x = word (ram s) x) →
  (∀ a, 0 ≤ word m' a < 2 ^ 64) →
  as_rep (with_ram m' s) rs root A ∧ as_frame root s (with_ram m' s) rs rs A A.
Proof.
  intros R Hu Hw Hr.
  assert (same_tables (ram s) m' root) as Hs.
  { intros q a j Hv Hq Hj. apply Hw. rewrite phys_page_entry by (try done; by apply (wf_tables _ _ _ (as_wf _ _ _ _ R) q a)).
    by eapply (as_tables _ _ _ _ R). }
  destruct (same_tables_translate _ _ _ Hs) as [Htr Htab]. split; [by apply as_ram|]. constructor; try done.
  - intros k. unfold held, owned. cbn [ram with_ram].
    by split; (intros [?|[(q & Hv & Huq & Hq)|?]]; [by left| |by right; right]); right; left; exists q; (split_and!; [done..|]);
      [rewrite Htab|rewrite <- Htab].
  - intros x Hx _. apply Hw. intros E. apply Hx. right. right. by exists v, u.
  - intros v' ptep Hv' (pre & t & Hsh & Ht & ->). right. right. cbn [ram with_ram] in *.
    pose proof (vpath_indices (v' * PG_SIZE) pre [12] Hsh ltac:(done)) as Hvp. rewrite Htab in Ht by done.
    split; [by exists pre, t|]. apply (Hs _ t _ Hvp Ht (level_index_range _ _)).
Qed.

Lemma byte_get_word m m' a : word m' (a - a mod 8) = word m (a - a mod 8) → byte_get m' a = byte_get m a.
Proof. intros E. unfold byte_get. by rewrite E. Qed.

Lemma byte_page (p k : Z) : 0 ≤ k < PG_SIZE → phys_to_page (p * PG_SIZE + k - (p * PG_SIZE + k) mod 8) = p.
Proof.
  intros Hk. apply phys_page_in. unfold PG_SIZE in *. pose proof (Z.mod_pos_bound (p * 4096 + k) 8 ltac:(lia)).
  pose proof (Z.div_mod (p * 4096 + k) 8 ltac:(lia)). lia.
Qed.

Lemma keeps_bytes A s s' v u k :
  keeps_pages A s s' → A !! v = Some u → 0 ≤ k < PG_SIZE →
  byte_get (ram s') (up_page u * PG_SIZE + k) = byte_get (ram s) (up_page u * PG_SIZE + k).
Proof. intros Hk Hu Hr. apply byte_get_word. apply (Hk _ v u Hu). by apply byte_page. Qed.

(** Zeroing or filling a mapped page. *)
Lemma as_store s rs root A v u off bs :
  as_rep s rs root A → A !! v = Some u → Forall is_byte bs → 0 ≤ off → off + Z.of_nat (length bs) ≤ PG_SIZE →
  let s' := with_ram (bytes_set (ram s) (up_page u * PG_SIZE + off) bs) s in
  as_rep s' rs root A ∧ as_frame root s s' rs rs A A ∧
  (∀ v' u' k, A !! v' = Some u' → 0 ≤ k < PG_SIZE → byte_get (ram s') (up_page u' * PG_SIZE + k) =
     if decide (v' = v ∧ off ≤ k < off + Z.of_nat (length bs)) then nth (Z.to_nat (k - off)) bs 0
     else byte_get (ram s) (up_page u' * PG_SIZE + k)).
Proof.
  intros R Hu Hb Hoff Hlen s'.
  destruct (as_page_write s rs root A v u (bytes_set (ram s) (up_page u * PG_SIZE + off) bs) R Hu) as [R' F].
  { intros x Hx. apply bytes_set_word. intros i Hi E. apply Hx. rewrite <- E, <- Z.add_assoc. apply byte_page. lia. }
  { apply bytes_set_range; [apply R|done]. }
  split_and!; [done|done|]. intros v' u' k Hu' Hk. subst s'. cbn [ram with_ram]. rewrite bytes_set_get by done.
  destruct (decide (v' = v)) as [->|Hne].
  - simplify_eq. destruct (decide _) as [[_ Hin]|Hn].
    + rewrite (proj2 (Z.leb_le _ _)), (proj2 (Z.ltb_lt _ _)) by lia. cbn [andb].
      replace (up_page u * PG_SIZE + k - (up_page u * PG_SIZE + off)) with (k - off) by lia. symmetry. apply nth_lookup.
    + destruct (Z.leb_spec (up_page u * PG_SIZE + off) (up_page u * PG_SIZE + k)),
        (Z.ltb_spec (up_page u * PG_SIZE + k) (up_page u * PG_SIZE + off + Z.of_nat (length bs))); cbn [andb]; try done.
      destruct Hn. split; [done|lia].
  - rewrite decide_False by (by intros [? _]).
    destruct (Z.leb_spec (up_page u * PG_SIZE + off) (up_page u' * PG_SIZE + k)),
      (Z.ltb_spec (up_page u' * PG_SIZE + k) (up_page u * PG_SIZE + off + Z.of_nat (length bs))); cbn [andb]; try done.
    destruct Hne. apply (as_inj _ _ _ _ R v' v u' u Hu' Hu). unfold PG_SIZE in *. lia.
Qed.

(** ** Other address spaces *)

(** The tables and pages of the address space at [root2] are not of the one at
    [root]; the two may share the tables of the kernel half. *)
Definition apart s rs (root : Z) (A : gmap Z upage) (root2 : Z) (A2 : gmap Z upage) : Prop :=
  (∀ q a, vpath q → table_at (ram s) root2 q = Some a → ¬ held s rs root A (phys_to_page a) ∧ phys_to_page a ≠ phys_to_page root) ∧
  (∀ v u, A2 !! v = Some u → ¬ held s rs root A (up_page u) ∧ up_page u ≠ phys_to_page root).

(** An operation on one address space leaves the others and the contents of
    their pages as they are. *)
Lemma as_frame_other s s' rs rs' root A A' root2 A2 :
  as_frame root s s' rs rs' A A' → as_rep s' rs' root A' → frame root → as_rep s rs root2 A2 → apart s rs root A root2 A2 →
  as_rep s' rs' root2 A2 ∧ keeps_pages A2 s s'.
Proof.
  intros F R' Hf R2 [Ht Hp].
  assert (∀ x, ¬ held s rs root A (phys_to_page x) → phys_to_page x ≠ phys_to_page root → word (ram s') x = word (ram s) x) as Hw.
  { intros x Hx Hne. apply (af_words _ _ _ _ _ _ _ F); [done|]. intros i Hi ->. apply Hne.
    apply phys_page_entry; [done|]. unfold USER_TOP_ENTRIES in Hi. lia. }
  split; [|intros x v u Hu Hx; apply Hw; rewrite Hx; by apply (Hp v u)].
  assert (same_tables (ram s) (ram s') root2) as Hs.
  { intros q a j Hv Hq Hj. pose proof (phys_page_entry a j (proj1 (wf_tables _ _ _ (as_wf _ _ _ _ R2) q a Hv Hq)) Hj) as E.
    apply Hw; rewrite E; by apply (Ht q a). }
  destruct (same_tables_translate _ _ _ Hs) as [_ Htab].
  eapply as_rep_same; [| |apply (as_pm (with_ram (ram s') s) rs root2 A2 (pm s') rs')]; [done|done|..].
  - apply as_ram; [done|done|]. apply R'.
  - apply R'.
  - intros k Hk. assert (held s rs root A k) as Hh by (apply (af_held _ _ _ _ _ _ _ F); by left).
    split; [by apply R'|]. split; [|intros v u Hu <-; by destruct (Hp v u Hu)].
    intros q a Hv Hq <-. cbn [ram with_ram] in Hq. rewrite Htab in Hq by done. by destruct (Ht q a Hv Hq).
  - intros k Hk. cbn [pm with_ram]. rewrite (af_desc _ _ _ _ _ _ _ F); [done|].
    destruct Hk as [(q & Hv & _ & Hq)|(v & u & Hu & <-)]; [|by apply (Hp v u)].
    cbn [ram with_ram] in Hq. rewrite Htab in Hq by done.
    destruct (owned_page s rs root2 q k (as_wf _ _ _ _ R2) Hv Hq) as [<- _]. by apply (Ht q _ Hv Hq).
  - apply (as_linked _ _ _ _ _ R2). intros x Hx. apply (af_nodes _ _ _ _ _ _ _ F); destruct Hx as [[i ->]|(v & u & Hu & ->)]; try done.
    intros k Hk [= <-]. by destruct (Hp v u Hu).
Qed.
End aspace.
