(* ===== verification/Teardown.v ===== *)
(** * Destroying an address space

    [free_user_pgdir] walks the lower half of a root table and gives back the
    mapped pages, the tables and the swap slots.  The walk never writes a
    table, so it is a loop over the list of things it meets ([visits]); the
    theorem says that what becomes free is exactly what the address space
    held, each page once, and that every swap slot it referred to is free. *)

From S2P Require Import Prelude LibList Pmm PmmProofs Paging SwapSlots PageTable PageTableProofs Vmm VmmProofs AddrSpace.

#[local] Arguments forM : simpl never.
#[local] Arguments seqZ : simpl never.

(** ** Unlinking a mapped page *)

Lemma unlink_linked (h : gmap node (ListNode node)) (A : gmap Z upage) v u :
  A !! v = Some u → (∀ v' u', A !! v' = Some u' → up_page u' = up_page u → v' = v) →
  (∀ v' u', A !! v' = Some u' → linked h A (up_page u')) →
  ∃ h', unlink (PageNode (up_page u)) h = Some h' ∧ (∀ x, ¬ anode A x → h' !! x = h !! x) ∧
    (∀ l x, ring h (PageNode (up_page u)) l → x ∉ PageNode (up_page u) :: l → h' !! x = h !! x) ∧
    (∀ x, is_Some (h' !! x) ↔ is_Some (h !! x)) ∧
    ∀ v' u', delete v A !! v' = Some u' → linked h' (delete v A) (up_page u').
Proof.
  intros Hu Hinj Hl. destruct (Hl v u Hu) as (l & Hr & Hal). set (x := PageNode (up_page u)) in *.
  assert (anode A x) as Hx by (right; by exists v, u).
  assert (∃ h', unlink x h = Some h' ∧ untouched h h' (x :: l)) as (h' & E & U).
  { destruct l as [|y l]; [destruct (ring_unlink_single h x Hr) as (h' & ? & _ & ?); by exists h'|].
    destruct (ring_unlink h y l x []) as (h' & ? & _ & _ & ?); [by apply (ring_rotate h x [] y l)|].
    exists h'. split; [done|]. eapply untouched_weaken; [done|set_solver]. }
  exists h'. split; [done|]. split; [intros y Hy; apply U; intros [->|?]%elem_of_cons; [done|by apply Hy, Hal]|].
  split; [intros l0 y Hl0 Hy; rewrite (ring_unique _ _ _ _ Hl0 Hr) in Hy; by apply U|]. split; [apply U|].
  intros v' u' [Hne Hu']%lookup_delete_Some. destruct (Hl v' u' Hu') as (l' & Hr' & Hal').
  assert (∀ y, anode A y → y ≠ x → anode (delete v A) y) as Hdel.
  { intros y [?|(w & t & Hw & ->)] Hy; [by left|right]. exists w, t. rewrite lookup_delete_ne; [done|]. intros <-.
    apply Hy. unfold x. congruence. }
  assert (PageNode (up_page u') ≠ x) as Hne' by (intros [= ?]; apply Hne; symmetry; by apply (Hinj v' u')).
  destruct (decide (x ∈ l')) as [(l1 & l2 & ->)%list_elem_of_split|Hn].
  - destruct (ring_unlink h _ l1 x l2 Hr') as (h2 & E2 & Hr2 & _). rewrite E in E2. injection E2 as <-.
    exists (l1 ++ l2). split; [done|]. intros y Hy. apply Hdel; [apply Hal'; set_solver|]. intros ->.
    apply ring_NoDup in Hr' as [(_ & Hd1 & [Hd2 _]%NoDup_cons)%NoDup_app _]. set_solver.
  - exists l'. split.
    + eapply ring_frame; [|done]. intros y Hy. apply U. intros Hyx. by apply (ring_disjoint h x l _ l' y Hr Hr'); [set_solver|..].
    + intros y Hy. apply Hdel; [by apply Hal'|]. by intros ->.
Qed.

(** ** Flattening nested loops *)

Lemma forM_flat {S B C} (P : S → Prop) (f : B → M S unit) (g : C → M S unit) (h : B → list C) :
  (∀ c, keeps P (g c)) → (∀ b s, P s → f b s = forM (h b) g s) → ∀ l s, P s → forM l f s = forM (l ≫= h) g s.
Proof.
  intros Hg Hf. induction l as [|b l IH]; intros s Hs; [done|]. cbn [mbind list_bind]. rewrite forM_app.
  change (forM (b :: l) f) with (f b;; forM l f). unfold bind. rewrite Hf by done.
  pose proof (keeps_forM P (h b) g Hg) as Hk. destruct (forM (h b) g s) as [[] s1| |] eqn:E; [|done..]. apply IH, (Hk s s1 Hs). by rewrite E.
Qed.

Lemma forM_one {S B} (g : B → M S unit) b s : forM [b] g s = g b s.
Proof. unfold forM, bind. by destruct (g b s) as [[]| |]. Qed.

Lemma list_bind_bind {B C D} (l : list B) (f : B → list C) (g : C → list D) : (l ≫= f) ≫= g = l ≫= λ b, f b ≫= g.
Proof. induction l as [|b l IH]; [done|]. cbn [mbind list_bind]. rewrite bind_app. by f_equal. Qed.

Section teardown.
Context `{PL : PagingLaws} `{UL : !UserLayout} `{UU : !UserLayoutLaws}.
Implicit Types (m : gmap Z Z) (p q r : list Z) (s : mm) (rs : list (Z * Z)) (A : gmap Z upage).

(** ** The walk as a list *)

(** What the walk meets: the frame of a mapped page, a table below the root,
    the entry of a page that is not resident. *)
Inductive visit : Set := VUser (pa : Z) | VTable (pa : Z) | VSwap (entry : Z).
Definition do_visit (v : visit) : M mm unit :=
  match v with
  | VUser pa => release_user_page pa
  | VTable pa => free_table_page pa
  | VSwap entry => on_swp (release_entry entry)
  end.

Definition child_visits (sub : Z → list visit) (entry : Z) : list visit :=
  if pte_present entry && negb (pte_is_block entry) then sub (pte_addr entry) ++ [VTable (pte_addr entry)] else [].
Definition leaf_visits (entry : Z) : list visit :=
  if pte_present entry then [VUser (pte_addr entry)] else if entry =? 0 then [] else [VSwap entry].
Fixpoint visits (depth : nat) m (table : Z) : list visit :=
  seqZ 0 ENTRY_NUM ≫= λ i,
    match depth with
    | O => leaf_visits (word m (table + 8 * i))
    | S depth => child_visits (visits depth m) (word m (table + 8 * i))
    end.
Definition root_visits m (root : Z) : list visit :=
  seqZ 0 USER_TOP_ENTRIES ≫= λ i, child_visits (visits USER_PT_SUBTREE_DEPTH m) (word m (root + 8 * i)).

Lemma visit_ram m v : keeps (λ s, ram s = m) (do_visit v).
Proof.
  assert (∀ B (f : M pmm B), keeps (λ s, ram s = m) (on_pm f)) as Hpm by (intros; by apply keeps_zoom).
  destruct v; cbn [do_visit]; unfold release_user_page, free_table_page, whenM; [..|by apply keeps_zoom];
    repeat (apply keeps_bind; [first [apply Hpm|apply keeps_assert]|intros]); [|apply Hpm].
  case_match; [apply keeps_bind; intros; apply Hpm|apply keeps_ret].
Qed.

Lemma subtree_visits depth : ∀ table s, free_user_pt_subtree depth table s = forM (visits depth (ram s) table) do_visit s.
Proof.
  induction depth as [|depth IH]; intros table s; cbn [free_user_pt_subtree visits];
    (apply (forM_flat (λ s', ram s' = ram s)); [intros; apply visit_ram| |done]); intros i s' Hs';
    unfold rd64, gets; rewrite (bind_Ret _ _ s' _ s') by done; rewrite Hs'; set (e := word _ _).
  - unfold leaf_visits, whenM. destruct (pte_present e); cbn [negb]; [by rewrite forM_one|].
    destruct (e =? 0); cbn [negb]; [done|by rewrite forM_one].
  - unfold child_visits. destruct (pte_present e); cbn [negb andb]; [|done]. destruct (pte_is_block e); cbn [negb]; [done|].
    rewrite forM_app. unfold bind. rewrite IH, Hs'. destruct (forM _ _ s') as [[] s2|e2 s2|]; [by rewrite forM_one|done..].
Qed.

Lemma pgdir_visits root s :
  free_user_pgdir root s = (forM (root_visits (ram s) root) do_visit;; on_pm (kfree KERNEL_BASE (u64 (root + KERNEL_BASE)))) s.
Proof.
  unfold free_user_pgdir, root_visits. unfold bind. erewrite (forM_flat (λ s', ram s' = ram s)); [done|intros; apply visit_ram| |done].
  intros i s' Hs'. unfold rd64, gets. cbn beta. rewrite Hs'. set (e := word _ _). unfold child_visits.
  destruct (pte_present e); cbn [negb andb orb]; [|done]. destruct (pte_is_block e); cbn [negb]; [done|].
  rewrite forM_app. unfold bind. rewrite subtree_visits, Hs'. destruct (forM _ _ s') as [[] s2|e2 s2|]; [by rewrite forM_one|done..].
Qed.

(** The path at which something is met. *)
Definition seen m (root : Z) r (v : visit) : Prop :=
  (vpath r ∧ ∃ a, table_at m root r = Some a ∧ v = VTable a) ∨
  (∃ q i t, r = q ++ [i] ∧ S (length q) = length walk_shifts ∧ vpath q ∧ 0 ≤ i < 512 ∧ table_at m root q = Some t ∧
     v ∈ leaf_visits (word m (t + 8 * i))).

Lemma table_at_child m root q t i : table_at m root q = Some t →
  table_at m root (q ++ [i]) =
    let e := word m (t + 8 * i) in if pte_present e && negb (pte_is_block e) then Some (pte_addr e) else None.
Proof. intros Hq. by rewrite table_at_app, Hq. Qed.

Lemma seen_prefix m root q v p : seen m root (q ++ p) v → is_Some (table_at m root q) ∨ p = [].
Proof.
  intros [[_ (a & Ha & _)]|(q' & i & t & E & _ & _ & _ & Ht & _)].
  - left. rewrite table_at_app in Ha. destruct (table_at m root q); [by eexists|done].
  - destruct p as [|j p _] using rev_ind; [by right|left]. rewrite app_assoc in E. apply app_inj_tail in E as [<- _].
    rewrite table_at_app in Ht. destruct (table_at m root q); [by eexists|done].
Qed.

(** The walk below an entry, given the walk below its table. *)
Lemma child_visits_spec m root q t i depth v :
  vpath (q ++ [i]) → table_at m root q = Some t → (length q + S (S depth) = length walk_shifts)%nat →
  (∀ a, table_at m root (q ++ [i]) = Some a → v ∈ visits depth m a ↔ ∃ p, p ≠ [] ∧ seen m root ((q ++ [i]) ++ p) v) →
  v ∈ child_visits (visits depth m) (word m (t + 8 * i)) ↔ ∃ p, seen m root (q ++ i :: p) v.
Proof.
  intros Hv Ht Hlen IH. pose proof (table_at_child m root q t i Ht) as Hc. cbv zeta in Hc. unfold child_visits.
  assert (∀ p, q ++ i :: p = (q ++ [i]) ++ p) as Ea by (intros; by rewrite <- app_assoc).
  destruct (pte_present _ && _) eqn:He.
  - rewrite elem_of_app, list_elem_of_singleton, (IH _ Hc). split.
    + intros [(p & _ & Hp)| ->]; [exists p; by rewrite Ea|]. exists []. left. split; [done|]. by eexists.
    + intros [p Hp]. rewrite Ea in Hp. destruct p as [|j p]; [right|left; by exists (j :: p)]. rewrite app_nil_r in Hp.
      destruct Hp as [[_ (a & Ha & ->)]|(q' & k & t' & E & Hl & _)]; [congruence|].
      apply app_inj_tail in E as [<- _]. lia.
  - split; [intros []%elem_of_nil|]. intros [p Hp]. rewrite Ea in Hp. destruct (seen_prefix _ _ _ _ _ Hp) as [[a Ha]| ->]; [congruence|].
    rewrite app_nil_r in Hp. destruct Hp as [[_ (a & Ha & _)]|(q' & k & t' & E & Hl & _)]; [congruence|].
    apply app_inj_tail in E as [<- _]. lia.
Qed.

Lemma visits_spec m root v depth : ∀ q t,
  vpath q → table_at m root q = Some t → (length q + S depth = length walk_shifts)%nat →
  v ∈ visits depth m t ↔ ∃ p, p ≠ [] ∧ seen m root (q ++ p) v.
Proof.
  induction depth as [|depth IH]; intros q t Hv Ht Hlen; cbn [visits]; rewrite list_elem_of_bind; split.
  - intros (i & Hi & Hin%elem_of_seqZ). exists [i]. split; [done|]. right. exists q, i, t. unfold ENTRY_NUM in Hin. split_and!; try done; lia.
  - intros (p & Hp & [[[_ Hl] _]|(q' & i & t' & E & Hl & Hv' & Hi & Ht' & Hin)]).
    { rewrite length_app in Hl. destruct p; [done|]. simpl in Hl. lia. }
    apply app_inj_1 in E as [<- ->]; [|lia]. exists i. rewrite Ht in Ht'. injection Ht' as <-. split; [done|].
    apply elem_of_seqZ. unfold ENTRY_NUM. lia.
  - intros (i & Hi & Hin%elem_of_seqZ). unfold ENTRY_NUM in Hin.
    assert (vpath (q ++ [i])) as Hvi.
    { destruct Hv as [Hf _]. split; [apply Forall_app; split; [done|]; repeat constructor; lia|]. rewrite length_app. simpl. lia. }
    apply (child_visits_spec m root q t i depth v Hvi Ht) in Hi as [p Hp]; [by exists (i :: p)|lia|].
    intros a Ha. apply IH; [done..|]. rewrite length_app. simpl. lia.
  - intros (p & Hp & Hs). destruct p as [|i p]; [done|]. 
    assert (0 ≤ i < 512) as Hi.
    { destruct Hs as [[Hv' _]|(q' & j & t' & E & _ & Hv' & Hj & _)]; [by eapply vpath_index|].
      destruct p as [|k p _] using rev_ind; [by apply app_inj_tail in E as [_ ->]|].
      rewrite app_comm_cons, app_assoc in E. apply app_inj_tail in E as [<- _]. by eapply vpath_index. }
    assert (vpath (q ++ [i])) as Hvi.
    { destruct Hv as [Hf _]. split; [apply Forall_app; split; [done|]; repeat constructor; lia|]. rewrite length_app. simpl. lia. }
    exists i. split; [|apply elem_of_seqZ; unfold ENTRY_NUM; lia].
    apply (child_visits_spec m root q t i depth v Hvi Ht); [lia| |by exists p].
    intros a Ha. apply IH; [done..|]. rewrite length_app. simpl. lia.
Qed.

Lemma root_visits_spec m root v : v ∈ root_visits m root ↔ ∃ r, user_path r ∧ seen m root r v.
Proof.
  destruct levels as [HL H2]. unfold root_visits. rewrite list_elem_of_bind.
  assert (∀ i, 0 ≤ i < USER_TOP_ENTRIES → v ∈ child_visits (visits USER_PT_SUBTREE_DEPTH m) (word m (root + 8 * i)) ↔
    ∃ p, seen m root (i :: p) v) as Hc.
  { unfold USER_TOP_ENTRIES. intros i Hi. assert (vpath [i]) by (split; [repeat constructor; lia|simpl; lia]).
    apply (child_visits_spec m root [] root i); [done|done|unfold USER_PT_SUBTREE_DEPTH; simpl; lia|].
    intros a Ha. apply visits_spec; [done..|]. unfold USER_PT_SUBTREE_DEPTH. simpl. lia. }
  split.
  - intros (i & Hi & Hin%elem_of_seqZ). apply Hc in Hi as [p Hp]; [|lia]. exists (i :: p). split; [|done]. exists i, p. split; [done|lia].
  - intros (r & (i & p & -> & Hi) & Hs). exists i. split; [apply Hc; [done|by exists p]|]. apply elem_of_seqZ. lia.
Qed.

(** ** Every path of the user half is the path of a page *)

Lemma shifts_below : ∀ shifts pre (s : Z), walk_shifts = pre ++ s :: shifts → ∀ s' : Z, s' ∈ shifts → s' + 9 ≤ s.
Proof.
  induction shifts as [|s1 shifts IH]; intros pre s Hsh s' Hs'; [set_solver|].
  assert (s = s1 + 9) as ->.
  { apply (shifts_steps (length pre)); rewrite Hsh; [by rewrite lookup_app_r, Nat.sub_diag by lia|].
    by rewrite lookup_app_r, Nat.sub_succ_l, Nat.sub_diag by lia. }
  apply elem_of_cons in Hs' as [->|Hs']; [lia|]. specialize (IH (pre ++ [s1 + 9]) s1). rewrite <- app_assoc in IH.
  specialize (IH Hsh s' Hs'). lia.
Qed.

Lemma level_index_high (i va s s' : Z) : 0 ≤ s' → s' + 9 ≤ s → level_index (i * 2 ^ s + va) s' = level_index va s'.
Proof.
  intros H0 Hs. rewrite !level_index_eq by lia. replace s with (s - s' - 9 + 9 + s') by lia.
  rewrite (Z.pow_add_r 2 (s - s' - 9 + 9)), Z.mul_assoc, Z.div_add_l by lia.
  rewrite (Z.pow_add_r 2 (s - s' - 9)), Z.mul_assoc by lia. change (2 ^ 9) with 512. rewrite Z.add_comm. by apply Z.mod_add.
Qed.

Lemma path_va_suffix : ∀ shifts pre, walk_shifts = pre ++ shifts → ∀ r, length r = length shifts → Forall (λ i, 0 ≤ i < 512) r →
  ∃ va, (PG_SIZE | va) ∧ level_index va <$> shifts = r ∧
    match shifts, r with s :: _, i :: _ => i * 2 ^ s ≤ va < (i + 1) * 2 ^ s | _, _ => va = 0 end.
Proof.
  induction shifts as [|s shifts IH]; intros pre Hsh r Hl Hr.
  { exists 0. split_and!; [by exists 0|by destruct r|done]. }
  destruct r as [|i r]; [done|]. apply Forall_cons in Hr as [Hi Hr].
  destruct (IH (pre ++ [s])) with (r := r) as (va & Hd & Hidx & Hva); [by rewrite <- app_assoc|by injection Hl|done|].
  pose proof (phys_covers s ltac:(rewrite Hsh; set_solver)) as Hs.
  assert (0 ≤ va < 2 ^ s) as Hb.
  { destruct shifts as [|s1 shifts]; [subst va; lia|]. destruct r as [|i1 r]; [done|]. apply Forall_cons in Hr as [Hi1 _].
    pose proof (phys_covers s1 ltac:(rewrite Hsh; set_solver)) as Hs1.
    pose proof (shifts_below _ _ _ Hsh s1 ltac:(set_solver)) as Hle.
    assert (2 ^ (s1 + 9) ≤ 2 ^ s) by (apply Z.pow_le_mono_r; lia). rewrite Z.pow_add_r in * by lia. change (2 ^ 9) with 512 in *. nia. }
  exists (i * 2 ^ s + va). split; [|split; [|lia]].
  - apply Z.divide_add_r; [|done]. apply Z.divide_mul_r. exists (2 ^ (s - 12)). change PG_SIZE with (2 ^ 12).
    rewrite <- Z.pow_add_r by lia. f_equal. lia.
  - rewrite fmap_cons. f_equal.
    + rewrite level_index_eq by lia. rewrite Z.div_add_l, (Z.div_small va), Z.add_0_r by lia. by apply Z.mod_small.
    + rewrite <- Hidx. apply list_fmap_ext. intros k s' Hk%list_elem_of_lookup_2.
      apply level_index_high; [|by apply (shifts_below shifts pre s)]. pose proof (phys_covers s' ltac:(rewrite Hsh; set_solver)). lia.
Qed.

Lemma path_page r : user_path r → length r = length walk_shifts → Forall (λ i, 0 ≤ i < 512) r →
  ∃ v, 0 ≤ v < upages ∧ level_index (v * PG_SIZE) <$> walk_shifts = r.
Proof.
  intros (i & r' & -> & Hi) Hl Hr. destruct user_half as (s & Hs & Htop). destruct user_top_pages as [Hup _].
  destruct (path_va_suffix walk_shifts [] eq_refl _ Hl Hr) as (va & [v ->] & Hidx & Hva).
  exists v. split; [|done]. destruct walk_shifts as [|s1 rest] eqn:Hsh; [done|]. injection Hs as ->.
  pose proof (phys_covers s ltac:(rewrite Hsh; set_solver)) as Hc.
  rewrite Z.pow_add_r in Htop by lia. change (2 ^ 8) with 256 in Htop. unfold USER_TOP_ENTRIES in Hi.
  pose proof (Z.pow_pos_nonneg 2 s ltac:(lia) ltac:(lia)). unfold PG_SIZE in *. nia.
Qed.

(** ** What the walk frees *)

Definition visit_pages (v : visit) : list Z :=
  match v with VUser pa | VTable pa => [phys_to_page pa] | VSwap _ => [] end.

(** The walk meets the leaf entry of every user page. *)
Lemma leaf_visited m (root v ptep : Z) x : 0 ≤ v < upages → leaf_entry m root (v * PG_SIZE) ptep → x ∈ leaf_visits (word m ptep) →
  x ∈ root_visits m root.
Proof.
  intros Hv (pre & t & Hsh & Ht & ->) Hx. apply root_visits_spec. destruct user_top_pages as [Htop _].
  exists (level_index (v * PG_SIZE) <$> walk_shifts). split.
  { apply (prefix_user (v * PG_SIZE)); [unfold PG_SIZE in *; lia| |done]. rewrite Hsh, fmap_app. by destruct (level_index _ <$> pre). }
  right. exists (level_index (v * PG_SIZE) <$> pre), (level_index (v * PG_SIZE) 12), t. rewrite Hsh at 1. rewrite fmap_app.
  split_and!; [done|rewrite Hsh, length_app, length_fmap; simpl; lia|by apply (vpath_indices _ pre [12])|apply level_index_range..|done|done].
Qed.

Section space.
Context (s : mm) (rs : list (Z * Z)) (root : Z) (A : gmap Z upage) (R : as_rep s rs root A).
Let W : pt_wf s rs root := as_wf _ _ _ _ R.

(** A leaf entry met by the walk is the entry of a page. *)
Lemma seen_leaf q i t : user_path (q ++ [i]) → S (length q) = length walk_shifts → vpath q → 0 ≤ i < 512 →
  table_at (ram s) root q = Some t →
  ∃ v, 0 ≤ v < upages ∧ level_index (v * PG_SIZE) <$> walk_shifts = q ++ [i] ∧ leaf_entry (ram s) root (v * PG_SIZE) (t + 8 * i).
Proof.
  intros Hu Hl Hv Hi Ht. destruct (path_page (q ++ [i])) as (v & Hvu & Hidx); [done|rewrite length_app; simpl; lia| |].
  { apply Forall_app. split; [apply Hv|]. by apply Forall_singleton. }
  exists v. split_and!; [lia..|done|]. pose proof shifts_last as Hlast. destruct walk_shifts as [|s0 pre _] eqn:Hsh using rev_ind; [done|].
  rewrite last_snoc in Hlast. injection Hlast as ->. rewrite fmap_app in Hidx. simpl in Hidx. apply app_inj_tail in Hidx as [<- <-].
  by exists pre, t.
Qed.

Lemma seen_user r pa : user_path r → seen (ram s) root r (VUser pa) →
  ∃ v u, A !! v = Some u ∧ pa = up_page u * PG_SIZE ∧ level_index (v * PG_SIZE) <$> walk_shifts = r.
Proof.
  intros Hu [[_ (a & _ & [=])]|(q & i & t & -> & Hl & Hv & Hi & Ht & Hin)].
  destruct (seen_leaf q i t Hu Hl Hv Hi Ht) as (v & Hvu & Hidx & Hleaf). unfold leaf_visits in Hin.
  destruct (pte_present _) eqn:Hp; [|case_match; set_solver]. apply list_elem_of_singleton in Hin as [= ->].
  destruct (A !! v) as [u|] eqn:HA.
  - destruct (as_page _ _ _ _ R v u HA) as (_ & (ptep & Hl' & Hm) & _). rewrite (leaf_entry_inj _ _ _ _ _ Hl' Hleaf) in Hm.
    exists v, u. split_and!; [done|by destruct Hm as (_ & ? & _)|done].
  - pose proof (as_none _ _ _ _ R v Hvu HA) as E. rewrite (translate_leaf _ _ _ _ _ Hleaf ltac:(done)), Hp in E. done.
Qed.

Lemma user_seen v u : A !! v = Some u →
  seen (ram s) root (level_index (v * PG_SIZE) <$> walk_shifts) (VUser (up_page u * PG_SIZE)) ∧
  user_path (level_index (v * PG_SIZE) <$> walk_shifts).
Proof.
  intros Hu. destruct (as_page _ _ _ _ R v u Hu) as (Hv & (ptep & (pre & t & Hsh & Ht & ->) & Hp & Ha & _) & _). split.
  - right. exists (level_index (v * PG_SIZE) <$> pre), (level_index (v * PG_SIZE) 12), t. rewrite Hsh at 1. rewrite fmap_app.
    split_and!; [done|rewrite Hsh, length_app, length_fmap; simpl; lia|by apply (vpath_indices _ pre [12])|apply level_index_range..|done|].
    unfold leaf_visits. unfold entry_at in Hp, Ha. rewrite Hp, Ha. set_solver.
  - destruct user_top_pages as [Htop _]. apply (prefix_user (v * PG_SIZE)); [unfold PG_SIZE in *; lia| |done].
    intros E. apply (f_equal length) in E. rewrite length_fmap, Hsh, length_app in E. simpl in E. lia.
Qed.

Lemma seen_page r v k : user_path r → seen (ram s) root r v → k ∈ visit_pages v →
  (vpath r ∧ table_at (ram s) root r = Some (k * PG_SIZE)) ∨
  (∃ w u, A !! w = Some u ∧ up_page u = k ∧ level_index (w * PG_SIZE) <$> walk_shifts = r).
Proof.
  intros Hu Hs Hk. destruct v as [pa|pa|e]; [..|set_solver]; apply list_elem_of_singleton in Hk as ->.
  - right. destruct (seen_user r pa Hu Hs) as (w & u & HA & -> & Hr). exists w, u. split_and!; [done| |done].
    destruct (as_page _ _ _ _ R w u HA) as (_ & _ & Hf & _). by destruct (page_to_phys_frame _ Hf) as [_ ->].
  - left. destruct Hs as [[Hv (a & Ha & [= <-])]|(q & i & t & _ & _ & _ & _ & _ & Hin)].
    + split; [done|]. by eapply table_owned.
    + unfold leaf_visits in Hin. repeat case_match; set_solver.
Qed.

(** No page is met twice. *)
Lemma seen_unique r r' v v' k :
  user_path r → user_path r' → seen (ram s) root r v → seen (ram s) root r' v' → k ∈ visit_pages v → k ∈ visit_pages v' → r = r'.
Proof.
  intros Hu Hu' Hs Hs' Hk Hk'.
  destruct (seen_page r v k Hu Hs Hk) as [[Hv Ht]|(w & u & Hw & <- & <-)], (seen_page r' v' _ Hu' Hs' Hk') as [[Hv' Ht']|(w' & u' & Hw' & E & <-)].
  - by apply (wf_tree _ _ _ W r r' (k * PG_SIZE)).
  - subst k. destruct (as_tables _ _ _ _ R w' u' r _ Hw' Hv Ht). by destruct (owned_page s rs root r (up_page u') W Hv Ht).
  - destruct (as_tables _ _ _ _ R w u r' _ Hw Hv' Ht'). by destruct (owned_page s rs root r' (up_page u) W Hv' Ht').
  - by rewrite (as_inj _ _ _ _ R w w' u u' Hw Hw' (eq_sym E)).
Qed.

Lemma user_path_app q p : user_path q → user_path (q ++ p).
Proof. intros (i & q' & -> & Hi). by eexists _, _. Qed.

Lemma child_nodup q t i depth :
  user_path (q ++ [i]) → vpath (q ++ [i]) → table_at (ram s) root q = Some t → (length q + S (S depth) = length walk_shifts)%nat →
  (∀ a, table_at (ram s) root (q ++ [i]) = Some a → NoDup (visits depth (ram s) a ≫= visit_pages)) →
  NoDup (child_visits (visits depth (ram s)) (word (ram s) (t + 8 * i)) ≫= visit_pages).
Proof.
  intros Hu Hv Ht Hlen Hsub. pose proof (table_at_child _ _ _ _ i Ht) as Hc. cbv zeta in Hc. unfold child_visits.
  destruct (pte_present _ && _); [|constructor]. rewrite bind_app. apply NoDup_app. split_and!; [by apply Hsub| |].
  - intros k (w & Hk & Hw)%list_elem_of_bind Hk'. rewrite list_elem_of_bind in Hk'. destruct Hk' as (w' & Hk' & ->%list_elem_of_singleton).
    apply (visits_spec (ram s) root w depth (q ++ [i]) _ Hv Hc) in Hw as (p & Hp & Hs); [|rewrite length_app; simpl; lia].
    assert (q ++ [i] = (q ++ [i]) ++ p) as E.
    { eapply (seen_unique _ _ (VTable _) w k); [done|by apply user_path_app|left; split; [done|by eexists]|done..]. }
    rewrite <- (app_nil_r (q ++ [i])) in E at 1. by apply app_inv_head in E.
  - simpl. repeat constructor. set_solver.
Qed.

Lemma entries_nodup q (n : Z) (f : Z → list visit) :
  (∀ i w, 0 ≤ i < n → w ∈ f i → ∃ p, user_path (q ++ i :: p) ∧ seen (ram s) root (q ++ i :: p) w) →
  (∀ i, 0 ≤ i < n → NoDup (f i ≫= visit_pages)) → NoDup ((seqZ 0 n ≫= f) ≫= visit_pages).
Proof.
  intros Hseen Hnd. rewrite list_bind_bind. apply NoDup_bind; [|intros i Hi%elem_of_seqZ; apply Hnd; lia|apply NoDup_seqZ].
  intros i j k Hi%elem_of_seqZ Hj%elem_of_seqZ (w & Hk & Hw)%list_elem_of_bind (w' & Hk' & Hw')%list_elem_of_bind.
  destruct (Hseen i w ltac:(lia) Hw) as (p & Hu & Hs), (Hseen j w' ltac:(lia) Hw') as (p' & Hu' & Hs').
  pose proof (seen_unique _ _ _ _ k Hu Hu' Hs Hs' Hk Hk') as E. apply app_inv_head in E. congruence.
Qed.

Lemma vpath_snoc q i depth : vpath q → 0 ≤ i < 512 → (length q + S (S depth) = length walk_shifts)%nat → vpath (q ++ [i]).
Proof.
  intros [Hf _] Hi Hl. split; [|rewrite length_app; simpl; lia]. apply Forall_app. split; [done|by apply Forall_singleton].
Qed.

Lemma visits_nodup depth : ∀ q t, user_path q → vpath q → table_at (ram s) root q = Some t →
  (length q + S depth = length walk_shifts)%nat → NoDup (visits depth (ram s) t ≫= visit_pages).
Proof.
  induction depth as [|depth IH]; intros q t Hu Hv Ht Hlen; cbn [visits]; apply (entries_nodup q); unfold ENTRY_NUM.
  - intros i w Hi Hw. exists []. split; [by apply user_path_app|]. right. exists q, i, t. split_and!; try done; lia.
  - intros i Hi. unfold leaf_visits. repeat case_match; simpl; repeat constructor; set_solver.
  - intros i w Hi Hw. pose proof (vpath_snoc q i depth Hv Hi Hlen) as Hvi.
    apply (child_visits_spec (ram s) root q t i depth w Hvi Ht) in Hw as [p Hp]; [|lia|].
    + exists p. split; [by apply user_path_app|done].
    + intros a Ha. apply visits_spec; [done..|]. rewrite length_app. simpl. lia.
  - intros i Hi. pose proof (vpath_snoc q i depth Hv Hi Hlen) as Hvi. apply (child_nodup q); [by apply user_path_app|done..|].
    intros a Ha. apply (IH (q ++ [i])); [by apply user_path_app|done..|]. rewrite length_app. simpl. lia.
Qed.

Lemma root_nodup : NoDup (root_visits (ram s) root ≫= visit_pages).
Proof.
  destruct levels as [HL H2]. unfold root_visits. apply (entries_nodup []); unfold USER_TOP_ENTRIES, USER_PT_SUBTREE_DEPTH; intros i.
  all: intros; assert (user_path [i]) as Hu by (exists i, []; unfold USER_TOP_ENTRIES; split; [done|lia]);
    assert (vpath [i]) as Hv by (split; [apply Forall_singleton; lia|simpl; lia]).
  - edestruct (child_visits_spec (ram s) root [] root i) as [[p Hp] _]; [done|done| | |done|].
    + simpl. lia.
    + intros a Ha. apply visits_spec; [done..|]. simpl. lia.
    + exists p. split; [by apply (user_path_app [i])|done].
  - apply (child_nodup []); [done..|simpl; lia|]. intros a Ha. apply (visits_nodup _ [i]); [done..|]. simpl. lia.
Qed.

(** The walk meets the pages of the address space. *)
Lemma root_pages k : k ∈ root_visits (ram s) root ≫= visit_pages ↔ owned s root A k.
Proof.
  rewrite list_elem_of_bind. setoid_rewrite root_visits_spec. split.
  - intros (v & Hk & r & Hu & Hs). destruct (seen_page r v k Hu Hs Hk) as [[Hv Ht]|(w & u & Hw & <- & _)].
    + left. by exists r.
    + right. by exists w, u.
  - intros [(q & Hv & Hu & Hq)|(w & u & Hw & <-)].
    + exists (VTable (k * PG_SIZE)). split.
      * simpl. destruct (owned_page s rs root q k W Hv Hq) as [-> _]. set_solver.
      * exists q. split; [done|]. left. split; [done|]. by eexists.
    + destruct (user_seen w u Hw) as [Hs Hu]. eexists. split; [|by eexists].
      destruct (as_page _ _ _ _ R w u Hw) as (_ & _ & Hf & _). simpl. destruct (page_to_phys_frame _ Hf) as [_ ->]. set_solver.
Qed.

(** ** Giving the pages back *)

(** The state when the walk has met [d]. *)
Record torn (d : list visit) (s' : mm) (rs' : list (Z * Z)) (A' : gmap Z upage) : Prop := {
  to_rep : pmm_rep (pm s') rs';
  to_free : free_pages rs' ≡ₚ (d ≫= visit_pages) ++ free_pages rs;
  to_coalesced : coalesced rs → coalesced rs';
  to_desc : ∀ k, k ∉ free_pages rs' → page_desc (pm s') !! k = page_desc (pm s) !! k;
  to_dom : ∀ k, is_Some (page_desc (pm s') !! k) ↔ is_Some (page_desc (pm s) !! k);
  to_map : ∀ v u, A' !! v = Some u ↔ A !! v = Some u ∧ up_page u ∉ d ≫= visit_pages;
  to_node : ∀ v u, A' !! v = Some u → linked (nodes (pm s')) A' (up_page u);
  to_queue : unqueued s A → unqueued s' A' ∧
    ∀ x, x ≠ FreeList → (∀ k, k ∈ free_pages rs' → x ≠ PageNode k) → nodes (pm s') !! x = nodes (pm s) !! x;
  to_swap : swap_ok (swp s') ∧ (∀ e, entry_slot (swp s') e = entry_slot (swp s) e) ∧
    ∀ i, 0 ≤ i → used (slots (swp s')) i = true ↔ used (slots (swp s)) i = true ∧ ∀ e, VSwap e ∈ d → entry_slot (swp s) e ≠ Some i;
  to_rest : s' = MkMm (pm s') (page_count s) (ram s) (cpu_root s) (tlb s) (swp s') }.

Lemma torn_init : swap_ok (swp s) → torn [] s rs A.
Proof.
  intros Hsw. constructor; try done; [by apply W|set_solver|intros v u; by apply (as_node _ _ _ _ R v)| |by destruct s].
  split_and!; [done..|]. intros i _. split; [|by intros []]. intros ?. split; [done|set_solver].
Qed.

(** A page that is freed leaves the other mapped pages linked. *)
Lemma torn_page d s' rs' A' v k h' t' A'' :
  torn d s' rs' A' → visit_pages v = [k] → (∀ e, v ≠ VSwap e) →
  pmm_rep t' (spec_free k 1 rs') → free_pages (spec_free k 1 rs') ≡ₚ k :: free_pages rs' →
  (coalesced rs' → coalesced (spec_free k 1 rs')) →
  (∀ i, i ∉ k :: free_pages rs' → page_desc t' !! i = page_desc (pm s') !! i) →
  (∀ i, is_Some (page_desc t' !! i) ↔ is_Some (page_desc (pm s') !! i)) →
  (∀ x, x ≠ FreeList → (∀ i, i ∈ k :: free_pages rs' → x ≠ PageNode i) → nodes t' !! x = h' !! x) →
  (∀ w u, A'' !! w = Some u ↔ A' !! w = Some u ∧ up_page u ≠ k) →
  (∀ w u, A'' !! w = Some u → linked h' A'' (up_page u)) →
  (unqueued s' A' → ∀ x, x ≠ PageNode k → h' !! x = nodes (pm s') !! x) →
  torn (d ++ [v]) (with_pm t' s') (spec_free k 1 rs') A''.
Proof.
  intros T Hv Hnsw Rp Hperm Hco Hd Hdom Hn Hmap Hlk Hun.
  assert (∀ x, x ∈ (d ++ [v]) ≫= visit_pages ↔ x ∈ d ≫= visit_pages ∨ x = k) as Hin.
  { intros x. rewrite bind_app, elem_of_app. cbn [mbind list_bind]. rewrite Hv. set_solver. }
  assert (∀ w u, A'' !! w = Some u → A !! w = Some u ∧ up_page u ∉ k :: free_pages rs') as HA.
  { intros w u [[Hu Hnd]%(to_map _ _ _ _ T) Hk]%Hmap. split; [done|]. rewrite elem_of_cons, (to_free _ _ _ _ T), elem_of_app.
    intros [?|[?|?]]; [done..|]. by apply (as_page _ _ _ _ R w u Hu). }
  constructor; cbn [pm with_pm swp]; try done.
  - rewrite Hperm, (to_free _ _ _ _ T), bind_app. cbn [mbind list_bind]. rewrite Hv. simpl. solve_Permutation.
  - intros H0. by apply Hco, (to_coalesced _ _ _ _ T).
  - intros i. rewrite Hperm. intros Hi. rewrite Hd by done. apply (to_desc _ _ _ _ T). set_solver.
  - intros i. rewrite Hdom. apply (to_dom _ _ _ _ T).
  - intros w u. rewrite Hmap, (to_map _ _ _ _ T), Hin. tauto.
  - intros w u Hu. assert (∀ x, anode A'' x → nodes t' !! x = h' !! x) as Hx.
    { intros x [[i ->]|(w' & u' & Hu' & ->)]; apply Hn; try done. intros i Hi [= <-]. by apply HA in Hu' as [_ ?]. }
    eapply linked_frame; [| |by apply (Hlk w u Hu)]; [intros x ?; by auto|]. apply Hx. right. by exists w, u.
  - intros Hq. destruct (to_queue _ _ _ _ T Hq) as [Hq' Hx]. specialize (Hun Hq'). split.
    + intros w u Hu. pose proof (HA w u Hu) as [_ Hn']. destruct (proj1 (Hmap w u) Hu) as [Hu1 Hk]. eapply ring_frame; [|by apply (Hq' w u)].
      intros x ->%list_elem_of_singleton. cbn [pm with_pm]. rewrite Hn; [apply Hun; by intros [= ?]|done|]. intros i Hi [= <-]. done.
    + intros x Hxf Hxp. setoid_rewrite Hperm in Hxp. rewrite Hn by done. rewrite Hun by (apply Hxp; set_solver).
      apply Hx; [done|]. intros i Hi. apply Hxp. set_solver.
  - destruct (to_swap _ _ _ _ T) as (Ho & Hs & Hu). split_and!; try done. intros i Hi. rewrite (Hu i Hi).
    assert (∀ e, VSwap e ∈ d ++ [v] ↔ VSwap e ∈ d) as E; [|by setoid_rewrite E].
    intros e. rewrite elem_of_app, list_elem_of_singleton. split; [|by left]. intros [?|E]; [done|]. by destruct (Hnsw e).
  - rewrite (to_rest _ _ _ _ T). done.
Qed.

Lemma owned_ref k : owned s root A k → k ∉ free_pages rs ∧ ref_count <$> page_desc (pm s) !! k = Some 1.
Proof.
  intros [(q & Hv & Hu & Hq)|(v & u & Hu & <-)]; [|by destruct (as_page _ _ _ _ R v u Hu) as (_ & _ & _ & ? & ?)].
  destruct (owned_page s rs root q k W Hv Hq) as [Ek Hf]. split; [done|].
  destruct q as [|i q _] using rev_ind; [by destruct Hu as (? & ? & ? & _)|].
  destruct (table_at (ram s) root q) as [t|] eqn:Ht; [|by rewrite table_at_app, Ht in Hq].
  destruct (as_links _ _ _ _ R q i t _ Hv Hu Ht Hq) as [_ Hr]. by rewrite Ek in Hr.
Qed.

(** The page the walk meets next. *)
Lemma next_page d v rest s' rs' A' k :
  root_visits (ram s) root = d ++ v :: rest → visit_pages v = [k] → torn d s' rs' A' →
  k ∉ d ≫= visit_pages ∧ k ∉ free_pages rs' ∧ ∃ pg, page_desc (pm s') !! k = Some pg ∧ ref_count pg = 1.
Proof.
  intros E Hv T. pose proof root_nodup as Hnd. rewrite E, bind_app in Hnd. apply NoDup_app in Hnd as (_ & Hd & _).
  assert (k ∈ (v :: rest) ≫= visit_pages) as Hk by (cbn [mbind list_bind]; rewrite Hv; set_solver).
  destruct (owned_ref k) as [Hnf Hr]. { apply root_pages. rewrite E, bind_app. set_solver. }
  assert (k ∉ d ≫= visit_pages) as Hnd by (intros ?; by apply (Hd k)). split; [done|].
  assert (k ∉ free_pages rs') as Hn. { rewrite (to_free _ _ _ _ T), elem_of_app. by intros [?|?]. }
  split; [done|]. rewrite <- (to_desc _ _ _ _ T k Hn) in Hr. apply fmap_Some in Hr as (pg & Hpg & ?). by exists pg.
Qed.

Lemma torn_table d pa rest s' rs' A' :
  root_visits (ram s) root = d ++ VTable pa :: rest → torn d s' rs' A' →
  ∃ s2 rs2 A2, do_visit (VTable pa) s' = Ret tt s2 ∧ torn (d ++ [VTable pa]) s2 rs2 A2.
Proof.
  intros E T. destruct (next_page d _ rest s' rs' A' (phys_to_page pa) E eq_refl T) as (Hnd & Hnf & pg & Hpg & Hr).
  destruct (drop_page (pm s') rs' (phys_to_page pa) pg (nodes (pm s')) (to_rep _ _ _ _ T) Hnf Hpg) as
    (t' & Ef & Rp & Hperm & Hco & Hd & Hdom & Hn); [done..|].
  assert (∀ w u, A' !! w = Some u → up_page u ≠ phys_to_page pa) as Hne.
  { intros w u [Hu _]%(to_map _ _ _ _ T) Ek.
    assert (VTable pa ∈ root_visits (ram s) root) as (r & Hur & Hs)%root_visits_spec by (rewrite E; set_solver).
    destruct Hs as [[Hv (a & Ha & [= <-])]|(q & i & t & _ & _ & _ & _ & _ & Hin)]; [|unfold leaf_visits in Hin; repeat case_match; set_solver].
    by apply (as_tables _ _ _ _ R w u r pa Hu Hv Ha). }
  eexists _, _, A'. split.
  - cbn [do_visit]. unfold free_table_page. rewrite (bind_Ret _ _ _ _ _ (on_pm_Ret _ _ _ _ (get_page_Ret _ _ _ Hpg))), Hr.
    cbn [assert_ PAGE_REF_INIT]. erewrite bind_Ret by done. erewrite bind_Ret by (by apply on_pm_Ret). change (1 - 1) with 0.
    eapply on_pm_Ret. exact Ef.
  - eapply (torn_page d s' rs' A' (VTable pa) (phys_to_page pa) (nodes (pm s'))); try done; [|apply T].
    intros w u. split; [|by intros []]. intros Hu. split; [done|]. by eapply Hne.
Qed.

Lemma torn_user d pa rest s' rs' A' :
  root_visits (ram s) root = d ++ VUser pa :: rest → torn d s' rs' A' →
  ∃ s2 rs2 A2, do_visit (VUser pa) s' = Ret tt s2 ∧ torn (d ++ [VUser pa]) s2 rs2 A2.
Proof.
  intros E T. destruct (next_page d _ rest s' rs' A' (phys_to_page pa) E eq_refl T) as (Hnd & Hnf & pg & Hpg & Hr).
  assert (VUser pa ∈ root_visits (ram s) root) as (r & Hur & Hs)%root_visits_spec by (rewrite E; set_solver).
  destruct (seen_user r pa Hur Hs) as (w & u & Hu & -> & _).
  destruct (as_page _ _ _ _ R w u Hu) as (_ & _ & Hf & _). destruct (page_to_phys_frame _ Hf) as [_ Ek].
  rewrite Ek in *. assert (A' !! w = Some u) as Hu' by (by apply (to_map _ _ _ _ T)).
  assert (∀ w' u', A' !! w' = Some u' → up_page u' = up_page u → w' = w) as Hinj.
  { intros w' u' [Hw' _]%(to_map _ _ _ _ T) ?. by apply (as_inj _ _ _ _ R w' w u' u). }
  destruct (unlink_linked (nodes (pm s')) A' w u Hu' Hinj (to_node _ _ _ _ T)) as (h' & Eh & Hh & Hhr & Hhd & Hlk).
  destruct (drop_page (pm s') rs' (up_page u) pg h' (to_rep _ _ _ _ T) Hnf Hpg) as
    (t' & Ef & Rp & Hperm & Hco & Hd & Hdom & Hn); [|done|].
  { intros x Hx. apply Hh. intros [[i ->]|(w' & u' & [Hw' Hn']%(to_map _ _ _ _ T) & ->)]; destruct Hx as [?|(j & Hj & [= <-])]; try done.
    rewrite (to_free _ _ _ _ T), elem_of_app in Hj. destruct Hj as [?|?]; [done|]. by apply (as_page _ _ _ _ R w' u' Hw'). }
  eexists _, _, (delete w A'). split.
  - cbn [do_visit]. unfold release_user_page. rewrite Ek.
    rewrite (bind_Ret _ _ _ _ _ (on_pm_Ret _ _ _ _ (get_page_Ret _ _ _ Hpg))), Hr. change (0 <? 1) with true. cbv iota zeta.
    erewrite bind_Ret by (by apply on_pm_Ret). change (1 - 1 =? 0) with true. cbv iota beta delta [whenM]. erewrite bind_Ret by (apply on_pm_Ret, on_nodes_Ret, Eh).
    eapply on_pm_Ret. exact Ef.
  - eapply (torn_page d s' rs' A' _ (up_page u) h'); try done; [by simpl; rewrite Ek|..].
    + intros w' u'. rewrite lookup_delete_Some. split.
      * intros [Hne Hw']. split; [done|]. intros E'. by apply Hne, eq_sym, (Hinj w' u').
      * intros [Hw' Hne]. split; [|done]. intros ->. congruence.
    + intros Hq x Hx. apply (Hhr [] x (Hq w u Hu')). set_solver.
Qed.

Lemma torn_swap d e s' rs' A' : torn d s' rs' A' → ∃ s2, do_visit (VSwap e) s' = Ret tt s2 ∧ torn (d ++ [VSwap e]) s2 rs' A'.
Proof.
  intros T. destruct (to_swap _ _ _ _ T) as (Ho & Hs & Hu). destruct (release_entry_spec (swp s') e Ho) as (w' & E & Ho' & Hs' & Hu').
  exists (with_swp w' s'). split; [by apply zoom_Ret|].
  assert ((d ++ [VSwap e]) ≫= visit_pages = d ≫= visit_pages) as Ed by (rewrite bind_app; apply app_nil_r).
  destruct T as [T1 T2 T3 T4 T5 T6 T7 T8 _ T9]. constructor; rewrite ?Ed; cbn [pm swp with_swp]; try done; [|by rewrite T9].
  split_and!; [done|intros; by rewrite Hs'|]. intros i Hi. rewrite (Hu' i Hi), andb_true_iff, (Hu i Hi), negb_true_iff, bool_decide_eq_false, Hs.
  setoid_rewrite elem_of_app. setoid_rewrite list_elem_of_singleton. split.
  - intros [[? H1] H2]. split; [done|]. intros e' [?|[= ->]]; [by apply H1|done].
  - intros [? H1]. split; [split; [done|]|]; [intros; apply H1; by left|apply H1; by right].
Qed.

Lemma teardown_loop : swap_ok (swp s) →
  ∃ s' rs' A', forM (root_visits (ram s) root) do_visit s = Ret tt s' ∧ torn (root_visits (ram s) root) s' rs' A'.
Proof.
  intros Hsw. destruct (forM_inv (λ d s', ∃ rs' A', torn d s' rs' A') (root_visits (ram s) root) do_visit s) as (s' & E & rs' & A' & T).
  - exists rs, A. by apply torn_init.
  - intros d [pa|pa|e] rest s1 E (rs1 & A1 & T).
    + destruct (torn_user d pa rest s1 rs1 A1 E T) as (s2 & rs2 & A2 & ? & ?). eauto.
    + destruct (torn_table d pa rest s1 rs1 A1 E T) as (s2 & rs2 & A2 & ? & ?). eauto.
    + destruct (torn_swap d e s1 rs1 A1 T) as (s2 & ? & ?). eauto.
  - by exists s', rs', A'.
Qed.

(** ** [free_user_pgdir] *)

(** A root table of its own: one page from [kmalloc], in the direct map. *)
Definition private_root (pgdir : Z) (t : mm) : Prop :=
  pgdir + KERNEL_BASE < 2 ^ 64 ∧
  ∃ pg, page_desc (pm t) !! phys_to_page pgdir = Some pg ∧ ref_count pg = 0 ∧ block_page_count pg = 1.

(** A swap slot some page of the address space is in. *)
Definition swapped (t : mm) (pgdir i : Z) : Prop :=
  ∃ v ptep, 0 ≤ v < upages ∧ leaf_entry (ram t) pgdir (v * PG_SIZE) ptep ∧
    pte_present (word (ram t) ptep) = false ∧ entry_slot (swp t) (word (ram t) ptep) = Some i.

Lemma swapped_visit i : swapped s root i ↔ ∃ e, VSwap e ∈ root_visits (ram s) root ∧ entry_slot (swp s) e = Some i.
Proof.
  setoid_rewrite root_visits_spec. split.
  - intros (v & ptep & Hv & Hl & Hp & He). exists (word (ram s) ptep). split; [|done]. apply root_visits_spec, (leaf_visited _ _ v ptep); [done..|].
    unfold leaf_visits. rewrite Hp. destruct (Z.eqb_spec (word (ram s) ptep) 0) as [E|]; [|set_solver].
    rewrite E in He. unfold entry_slot in He. change (has 0 ENTRY_HAS_PERMISSIONS) with false in He. by rewrite andb_false_r in He.
  - intros (e & (r & Hu & [[_ (a & _ & [=])]|(q & j & t & -> & Hl & Hv & Hj & Ht & Hin)]) & He).
    destruct (seen_leaf q j t Hu Hl Hv Hj Ht) as (v & Hvu & _ & Hleaf). exists v, (t + 8 * j). split; [done|]. split; [done|].
    unfold leaf_visits in Hin. destruct (pte_present _); [set_solver|]. split; [done|]. destruct (_ =? 0); [set_solver|].
    apply list_elem_of_singleton in Hin as [= <-]. done.
Qed.

Lemma root_not_held : ¬ held s rs root A (phys_to_page root).
Proof.
  assert (vpath []) as Hv by (split; [constructor|destruct levels as [-> ?]; simpl; lia]).
  destruct (wf_tables _ _ _ W [] root Hv eq_refl) as [Hf Hn].
  intros [?|[(q & Hvq & Hu & Hq)|(v & u & Hu & E)]]; [done|..].
  - rewrite frame_page in Hq by done. apply (wf_tree _ _ _ W q [] root Hvq Hv) in Hq as ->; [|done]. by destruct Hu as (? & ? & ? & _).
  - by apply (as_tables _ _ _ _ R v u [] root Hu Hv).
Qed.

Lemma free_user_pgdir_spec :
  private_root root s → swap_ok (swp s) →
  ∃ s' rs', free_user_pgdir root s = Ret tt s' ∧ pmm_rep (pm s') rs' ∧ (coalesced rs → coalesced rs') ∧
    (∀ k, k ∈ free_pages rs' ↔ k = phys_to_page root ∨ held s rs root A k) ∧
    (∀ k, k ≠ phys_to_page root → ¬ held s rs root A k → page_desc (pm s') !! k = page_desc (pm s) !! k) ∧
    (∀ k, is_Some (page_desc (pm s') !! k) ↔ is_Some (page_desc (pm s) !! k)) ∧
    (unqueued s A → ∀ x, x ≠ FreeList → (∀ k, k ∈ free_pages rs' → x ≠ PageNode k) → nodes (pm s') !! x = nodes (pm s) !! x) ∧
    (swap_ok (swp s') ∧ (∀ e, entry_slot (swp s') e = entry_slot (swp s) e) ∧
     ∀ i, 0 ≤ i → used (slots (swp s')) i = true ↔ used (slots (swp s)) i = true ∧ ¬ swapped s root i) ∧
    s' = MkMm (pm s') (page_count s) (ram s) (cpu_root s) (tlb s) (swp s').
Proof.
  intros (Hb & pg & Hpg & Hr & Hblk) Hsw. destruct (teardown_loop Hsw) as (s1 & rs1 & A1 & E & T).
  assert (∀ k, k ∈ free_pages rs1 ↔ held s rs root A k) as Hfree.
  { intros k. rewrite (to_free _ _ _ _ T), elem_of_app, root_pages. unfold held. tauto. }
  assert (vpath []) as Hv by (split; [constructor|destruct levels as [-> ?]; simpl; lia]).
  destruct (wf_tables _ _ _ W [] root Hv eq_refl) as [Hf _]. pose proof root_not_held as Hroot.
  assert (phys_to_page root ∉ free_pages rs1) as Hnf by (by rewrite Hfree).
  rewrite <- (to_desc _ _ _ _ T _ Hnf) in Hpg.
  destruct (free_spec (pm s1) rs1 (phys_to_page root) 1 (to_rep _ _ _ _ T) ltac:(lia)) as (t' & Ef & R' & (Fd & Fs & Fn) & _).
  { intros i Hi%elem_of_seqZ. assert (i = phys_to_page root) as -> by lia. split; [|done]. rewrite Hpg. simpl. by rewrite Hr. }
  destruct (spec_free_correct (phys_to_page root) 1 rs1 ltac:(lia) (rep_pos _ _ (to_rep _ _ _ _ T))) as (_ & Hperm & Hco).
  change (seqZ (phys_to_page root) 1) with [phys_to_page root] in *.
  assert (kfree KERNEL_BASE (u64 (root + KERNEL_BASE)) (pm s1) = Ret tt t') as Ek.
  { pose proof base_pos. destruct Hf as [Hr0 _]. unfold kfree, kva_to_page. rewrite (u64_small (root + _)), (proj2 (Z.eqb_neq _ 0)) by lia.
    replace (root + KERNEL_BASE - KERNEL_BASE) with root by lia. rewrite (u64_small root) by lia.
    rewrite (bind_Ret _ _ _ _ _ (get_page_Ret _ _ _ Hpg)), Hblk. exact Ef. }
  exists (with_pm t' s1), (spec_free (phys_to_page root) 1 rs1). split.
  { rewrite pgdir_visits. rewrite (bind_Ret _ _ _ _ _ E). eapply on_pm_Ret. exact Ek. }
  destruct (to_swap _ _ _ _ T) as (Ho & Hs & Hu). cbn [pm swp with_pm]. split_and!; try done.
  - intros Hc. by apply Hco, (to_coalesced _ _ _ _ T).
  - intros k. rewrite Hperm, elem_of_app, list_elem_of_singleton. by rewrite Hfree.
  - intros k Hne Hk. rewrite Fd by (rewrite elem_of_app, list_elem_of_singleton, Hfree; tauto). apply (to_desc _ _ _ _ T). by rewrite Hfree.
  - intros k. rewrite Fs. apply (to_dom _ _ _ _ T).
  - intros Hq x Hx Hxp. setoid_rewrite Hperm in Hxp. rewrite Fn by done. apply (to_queue _ _ _ _ T Hq); [done|].
    intros k Hk. apply Hxp. set_solver.
  - intros i Hi. rewrite (Hu i Hi), swapped_visit. naive_solver.
  - rewrite (to_rest _ _ _ _ T). done.
Qed.
End space.

End teardown.
