(* ===== verification/Elf.v ===== *)
(** * Executable images: [base/elf.h], [kernel/exec/elf_loader.cpp]

    The ELF64 headers, [elf::is_elf], [elf::validate] and [elf::load].  The
    file is the kernel buffer it was read into, a list of bytes; reading past
    the end of the buffer is a wild access. *)

From S2P Require Import Prelude LibList Pmm Paging SwapSlots PageTable Vmm BlockDev AddrSpace.

(** ** Headers: [base/elf.h] *)

Definition ELF_PT_LOAD : Z := 1.
Definition ELF_PF_X : Z := 1.
Definition ELF_PF_W : Z := 2.
Definition ELF_MAGIC : Z := 0x464C457F.
Definition EM_AARCH64 : Z := 0xB7.
Definition EM_RISCV : Z := 0xF3.
Definition EM_X86_64 : Z := 0x3E.

Record ElfHeader : Set := MkElf {
  e_magic : Z; e_elf : list Z; e_type : Z; e_machine : Z; e_version : Z; e_entry : Z; e_phoff : Z; e_shoff : Z;
  e_flags : Z; e_ehsize : Z; e_phentsize : Z; e_phnum : Z; e_shentsize : Z; e_shnum : Z; e_shstrndx : Z }.
Definition ELF_HEADER_SIZE : Z := 64.
Definition ElfHeader_of (bs : list Z) : ElfHeader :=
  MkElf (field 0 4 bs) (slice 4 12 bs) (field 16 2 bs) (field 18 2 bs) (field 20 4 bs) (field 24 8 bs)
    (field 32 8 bs) (field 40 8 bs) (field 48 4 bs) (field 52 2 bs) (field 54 2 bs) (field 56 2 bs)
    (field 58 2 bs) (field 60 2 bs) (field 62 2 bs).

Record ProgramHeader : Set := MkProg {
  p_type : Z; p_flags : Z; p_offset : Z; p_va : Z; p_pa : Z; p_filesz : Z; p_memsz : Z; p_align : Z }.
Definition PROGRAM_HEADER_SIZE : Z := 56.
Definition ProgramHeader_of (bs : list Z) : ProgramHeader :=
  MkProg (field 0 4 bs) (field 4 4 bs) (field 8 8 bs) (field 16 8 bs) (field 24 8 bs) (field 32 8 bs)
    (field 40 8 bs) (field 48 8 bs).

(** [n] bytes of a buffer at an offset. *)
Definition read_bytes {S} (data : list Z) (off n : Z) : M S (list Z) :=
  if off + n <=? Z.of_nat (length data) then ret (slice (Z.to_nat off) (Z.to_nat n) data) else halt WildPointer.

Section elf.
Context `{Paging} `{UserLayout}.

Definition elf_is_valid (eh : ElfHeader) : bool :=
  (e_magic eh =? ELF_MAGIC) && (nth 0 (e_elf eh) 0 =? 2) && (e_version eh =? 1) && (e_machine eh =? EM_CURRENT).
Definition is_executable (eh : ElfHeader) : bool :=
  elf_is_valid eh && (e_type eh =? 2) && negb (e_phoff eh =? 0) && negb (e_phnum eh =? 0).

Definition is_elf {S} (data : option (list Z)) (size : Z) : M S bool :=
  match data with
  | None => ret false
  | Some data =>
      if size <? ELF_HEADER_SIZE then ret false
      else bs <- read_bytes data 0 ELF_HEADER_SIZE;; ret (elf_is_valid (ElfHeader_of bs))
  end.

(** The program header at index [i] of the table at [phoff]. *)
Definition program_header {S} (data : list Z) (off : Z) : M S ProgramHeader :=
  bs <- read_bytes data off PROGRAM_HEADER_SIZE;; ret (ProgramHeader_of bs).

(** The loop of [validate]: the header indices left, and whether a segment that
    may be executed holds the entry point. *)
Fixpoint validate_loop {S} (data : list Z) (eh : ElfHeader) (file_size : Z) (idx : list Z) (executable_entry : bool) : M S bool :=
  match idx with
  | [] => ret executable_entry
  | i :: idx =>
      ph <- program_header data (u64 (e_phoff eh + i * PROGRAM_HEADER_SIZE));;
      if negb (p_type ph =? ELF_PT_LOAD) then validate_loop data eh file_size idx executable_entry
      else
        ensure (p_filesz ph <=? p_memsz ph) E_Invalid;;
        ensure ((p_offset ph <=? file_size) && (p_filesz ph <=? u64 (file_size - p_offset ph))) E_Invalid;;
        if p_memsz ph =? 0 then validate_loop data eh file_size idx executable_entry
        else
          ensure ((PG_SIZE <=? p_va ph) && (p_va ph <? USER_SPACE_TOP)) E_Invalid;;
          ensure (p_memsz ph <=? u64 (USER_SPACE_TOP - p_va ph)) E_Invalid;;
          let end_ := u64 (p_va ph + p_memsz ph) in
          ensure ((end_ <=? USER_STACK_TOP - USER_STACK_SIZE) || (USER_STACK_TOP <=? p_va ph)) E_Invalid;;
          validate_loop data eh file_size idx
            (executable_entry || has (p_flags ph) ELF_PF_X && (p_va ph <=? e_entry eh) && (e_entry eh <? end_))
  end.

Definition validate {S} (data : option (list Z)) (file_size : Z) : M S unit :=
  match data with
  | None => fail E_Invalid
  | Some data =>
      ensure (ELF_HEADER_SIZE <=? file_size) E_Invalid;;
      bs <- read_bytes data 0 ELF_HEADER_SIZE;;
      let eh := ElfHeader_of bs in
      ensure (elf_is_valid eh && is_executable eh) E_Invalid;;
      ensure ((e_ehsize eh =? ELF_HEADER_SIZE) && (e_phentsize eh =? PROGRAM_HEADER_SIZE)) E_Invalid;;
      ensure ((ELF_HEADER_SIZE <=? e_phoff eh) && (e_phoff eh <=? file_size)) E_Invalid;;
      let table_size := u64 (e_phnum eh * PROGRAM_HEADER_SIZE) in
      ensure (table_size <=? u64 (file_size - e_phoff eh)) E_Invalid;;
      ensure ((PG_SIZE <=? e_entry eh) && (e_entry eh <? USER_SPACE_TOP)) E_Invalid;;
      executable_entry <- validate_loop data eh file_size (seqZ 0 (e_phnum eh)) false;;
      ensure executable_entry E_Invalid
  end.

(** ** [load] *)

(** [memset(phys_to_virt(page_to_phys(page)), 0, PG_SIZE)] *)
Definition zero_page (page : Z) : M mm unit :=
  forM (seqZ 0 512) (λ i, wr64 (page_to_phys page + 8 * i) 0).

(** The body of the loop over the pages of a segment: merge the rights of a page
    an earlier segment mapped, or map a fresh zero page. *)
Definition map_user_page (pgdir va perm : Z) : M mm unit :=
  existing <- get_pte pgdir va false;;
  merged <- match existing with
    | Some p =>
        e <- rd64 p;;
        if pte_present e then wr64 p (make_pte_page (pte_addr e) (merge_user_page_perm e perm));; ret true
        else ret false
    | None => ret false
    end;;
  if merged : bool then ret tt
  else
    page <- alloc_and_map_page pgdir va perm;;
    match page with None => fail E_NoMem | Some page => zero_page page end.
Fixpoint map_pages (n : nat) (pgdir va perm : Z) : M mm unit :=
  match n with
  | O => ret tt
  | S n => map_user_page pgdir va perm;; map_pages n pgdir (u64 (va + PG_SIZE)) perm
  end.

(** [iterate_pages] of [asm/mmu.h]: [func] of every part of the range that lies
    on one page. *)
Fixpoint iterate_pages {S} (fuel : nat) (va size : Z) (func : Z → Z → M S unit) : M S unit :=
  match fuel with
  | O => halt OutOfFuel
  | S fuel =>
      if size <=? 0 then ret tt
      else
        let chunk := chunk_bytes va size in
        func va chunk;;
        iterate_pages fuel (u64 (va + chunk)) (size - chunk) func
  end.

(** The callback of [load]: [base] is the segment's address, so that the source
    pointer is [p_offset + (va - base)]. *)
Definition copy_chunk (data : list Z) (pgdir offset base va chunk : Z) : M mm unit :=
  ptep <- get_pte pgdir va false;;
  e <- match ptep with Some p => rd64 p | None => ret 0 end;;
  assert_ (match ptep with Some _ => pte_present e | None => false end);;
  bs <- read_bytes data (offset + (va - base)) chunk;;
  modify (λ s, with_ram (bytes_set (ram s) (pte_addr e + Z.land va PG_MASK) bs) s).

Definition load_segment (data : list Z) (pgdir : Z) (ph : ProgramHeader) : M mm unit :=
  if negb (p_type ph =? ELF_PT_LOAD) || (p_memsz ph =? 0) then ret tt
  else
    let perm := user_page_perm (has (p_flags ph) ELF_PF_W) (has (p_flags ph) ELF_PF_X) in
    let seg_start := round_down (p_va ph) PG_SIZE in
    let seg_end := round_up (u64 (p_va ph + p_memsz ph)) PG_SIZE in
    map_pages (Z.to_nat ((seg_end - seg_start + PG_SIZE - 1) / PG_SIZE)) pgdir seg_start perm;;
    whenM (0 <? p_filesz ph)
      (iterate_pages (S (Z.to_nat (p_filesz ph))) (p_va ph) (p_filesz ph)
         (copy_chunk data pgdir (p_offset ph) (p_va ph))).

Definition load (data : option (list Z)) (size : Z) (pgdir : option Z) : M mm Z :=
  match data, pgdir with
  | Some data, Some pgdir =>
      validate (Some data) size;;
      bs <- read_bytes data 0 ELF_HEADER_SIZE;;
      let eh := ElfHeader_of bs in
      forM (seqZ 0 (e_phnum eh)) (λ i,
        ph <- program_header data (u64 (e_phoff eh + i * e_phentsize eh));;
        load_segment data pgdir ph);;
      ret (e_entry eh)
  | _, _ => fail E_Invalid
  end.
End elf.
