(* ===== verification/ElfProofs.v ===== *)
(** * Correctness of the ELF loader

    [validate] accepts exactly the images [valid_image] describes; [load] maps
    exactly the pages its segments touch, with the union of their rights and
    the contents of the file, zero elsewhere. *)

From S2P Require Import Prelude LibList Pmm PmmProofs Paging SwapSlots PageTable PageTableProofs Vmm VmmProofs BlockDev AddrSpace Elf.

(** ** What an image says *)

Section image.
Context `{Paging} `{UserLayout}.

Definition elf_header (data : list Z) : ElfHeader := ElfHeader_of (slice 0 64 data).
Definition prog_at (data : list Z) (i : Z) : ProgramHeader :=
  ProgramHeader_of (slice (Z.to_nat (e_phoff (elf_header data) + i * PROGRAM_HEADER_SIZE)) 56 data).
Definition segments (data : list Z) : list ProgramHeader := prog_at data <$> seqZ 0 (e_phnum (elf_header data)).

(** A segment that occupies memory. *)
Definition loadable (ph : ProgramHeader) : bool := (p_type ph =? ELF_PT_LOAD) && negb (p_memsz ph =? 0).
Definition segment_ok (size : Z) (ph : ProgramHeader) : bool :=
  negb (p_type ph =? ELF_PT_LOAD) ||
  (p_filesz ph <=? p_memsz ph) && (p_offset ph + p_filesz ph <=? size) &&
  ((p_memsz ph =? 0) ||
   (PG_SIZE <=? p_va ph) && (p_va ph + p_memsz ph <=? USER_SPACE_TOP) &&
   ((p_va ph + p_memsz ph <=? USER_STACK_TOP - USER_STACK_SIZE) || (USER_STACK_TOP <=? p_va ph))).
Definition holds_entry (entry : Z) (ph : ProgramHeader) : bool :=
  loadable ph && has (p_flags ph) ELF_PF_X && (p_va ph <=? entry) && (entry <? p_va ph + p_memsz ph).

Definition valid_image (data : list Z) : bool :=
  let size := Z.of_nat (length data) in
  let eh := elf_header data in
  (ELF_HEADER_SIZE <=? size) && (elf_is_valid eh && is_executable eh) &&
  ((e_ehsize eh =? ELF_HEADER_SIZE) && (e_phentsize eh =? PROGRAM_HEADER_SIZE)) &&
  ((ELF_HEADER_SIZE <=? e_phoff eh) && (e_phoff eh + e_phnum eh * PROGRAM_HEADER_SIZE <=? size)) &&
  ((PG_SIZE <=? e_entry eh) && (e_entry eh <? USER_SPACE_TOP)) &&
  (forallb (segment_ok size) (segments data) && existsb (holds_entry (e_entry eh)) (segments data)).

(** The memory image of a list of segments: the pages they touch, the rights on
    a page, and the byte at an address (later segments overwrite earlier ones,
    and what no segment fills is zero). *)
Definition touches (v : Z) (ph : ProgramHeader) : bool :=
  loadable ph && (p_va ph / PG_SIZE <=? v) && (v * PG_SIZE <? p_va ph + p_memsz ph).
Definition img_page (segs : list ProgramHeader) (v : Z) : bool := existsb (touches v) segs.
Definition img_write (segs : list ProgramHeader) (v : Z) : bool :=
  existsb (λ ph, touches v ph && has (p_flags ph) ELF_PF_W) segs.
Definition img_exec (segs : list ProgramHeader) (v : Z) : bool :=
  existsb (λ ph, touches v ph && has (p_flags ph) ELF_PF_X) segs.
Definition fills (va : Z) (ph : ProgramHeader) : bool :=
  loadable ph && (p_va ph <=? va) && (va <? p_va ph + p_filesz ph).
Definition img_byte (data : list Z) (segs : list ProgramHeader) (va : Z) : Z :=
  fold_left (λ b ph, if fills va ph then nth (Z.to_nat (p_offset ph + (va - p_va ph))) data 0 else b) segs 0.
End image.

(** ** [validate] *)

Section validate.
Context `{PL : PagingLaws} `{UL : !UserLayout} `{UU : !UserLayoutLaws}.

(** Fields are unsigned integers of their width. *)
Lemma slice_field off n bs i len :
  Forall is_byte bs → (i + len ≤ n)%nat → (off + n ≤ length bs)%nat → 0 ≤ field i len (slice off n bs) < 256 ^ Z.of_nat len.
Proof. intros Hb Hi Hl. apply field_range; [by apply slice_bytes|]. rewrite length_slice; lia. Qed.

Record ph_range (ph : ProgramHeader) : Prop := {
  pr_offset : 0 ≤ p_offset ph < 2 ^ 64; pr_va : 0 ≤ p_va ph < 2 ^ 64;
  pr_filesz : 0 ≤ p_filesz ph < 2 ^ 64; pr_memsz : 0 ≤ p_memsz ph < 2 ^ 64 }.
Lemma prog_range off data :
  Forall is_byte data → (off + 56 ≤ length data)%nat → ph_range (ProgramHeader_of (slice off 56 data)).
Proof.
  intros Hb Hl. constructor; cbn [p_offset p_va p_filesz p_memsz ProgramHeader_of];
    (etrans; [|change (2 ^ 64) with (256 ^ Z.of_nat 8)] || idtac); apply (slice_field off 56 data _ 8 Hb); lia.
Qed.
Lemma header_range data : Forall is_byte data → (64 ≤ length data)%nat →
  0 ≤ e_phoff (elf_header data) < 2 ^ 64 ∧ 0 ≤ e_phnum (elf_header data) < 2 ^ 16 ∧ 0 ≤ e_entry (elf_header data) < 2 ^ 64.
Proof.
  intros Hb Hl. cbn [elf_header ElfHeader_of e_phoff e_phnum e_entry].
  split_and!; [apply (slice_field 0 64 data 32 8 Hb)|apply (slice_field 0 64 data 32 8 Hb)|apply (slice_field 0 64 data 56 2 Hb)
    |apply (slice_field 0 64 data 56 2 Hb)|apply (slice_field 0 64 data 24 8 Hb)|apply (slice_field 0 64 data 24 8 Hb)]; lia.
Qed.

Lemma read_bytes_Ret {S} data off n (s : S) :
  0 ≤ off → 0 ≤ n → off + n ≤ Z.of_nat (length data) →
  read_bytes data off n s = Ret (slice (Z.to_nat off) (Z.to_nat n) data) s.
Proof. intros. unfold read_bytes. by rewrite (proj2 (Z.leb_le _ _)). Qed.

Lemma program_header_Ret {S} data i (s : S) :
  0 ≤ e_phoff (elf_header data) → 0 ≤ i → Z.of_nat (length data) < 2 ^ 64 →
  e_phoff (elf_header data) + i * 56 + 56 ≤ Z.of_nat (length data) →
  program_header data (u64 (e_phoff (elf_header data) + i * PROGRAM_HEADER_SIZE)) s = Ret (prog_at data i) s.
Proof.
  intros ????. unfold program_header, prog_at. change PROGRAM_HEADER_SIZE with 56. rewrite u64_small by lia.
  erewrite bind_Ret by (apply read_bytes_Ret; lia). done.
Qed.

Lemma validate_loop_spec {S} data (s : S) idx : ∀ b,
  let size := Z.of_nat (length data) in
  Forall is_byte data → size < 2 ^ 64 → (64 ≤ length data)%nat →
  Forall (λ i, 0 ≤ i ∧ e_phoff (elf_header data) + i * 56 + 56 ≤ size) idx →
  validate_loop data (elf_header data) size idx b s =
    if forallb (segment_ok size) (prog_at data <$> idx)
    then Ret (b || existsb (holds_entry (e_entry (elf_header data))) (prog_at data <$> idx)) s else Fail E_Invalid s.
Proof.
  induction idx as [|i idx IH]; intros b size Hb Hs H64 Hall; cbn [validate_loop fmap list_fmap forallb existsb].
  { by rewrite orb_false_r. }
  apply Forall_cons in Hall as [[Hi Hoff] Hall]. pose proof (header_range data Hb H64) as (Hph & _ & _).
  erewrite bind_Ret by (apply program_header_Ret; lia || done).
  set (ph := prog_at data i). assert (ph_range ph) as [Ho Hv Hf Hm].
  { apply prog_range; [done|]. change PROGRAM_HEADER_SIZE with 56. lia. }
  pose proof user_top as [Ht0 Ht]. unfold PG_SIZE in Ht0. pose proof stack_inside as [Hst0 Hst].
  unfold segment_ok at 1, holds_entry at 1, loadable. change (p_type ph =? ELF_PT_LOAD) with (p_type ph =? 1).
  destruct (Z.eqb_spec (p_type ph) 1); cbn [negb orb andb]; [|by apply IH]. unfold ensure at 1.
  destruct (Z.leb_spec (p_filesz ph) (p_memsz ph)); [|done]. rewrite bind_ret. cbn [andb].
  assert ((p_offset ph <=? size) && (p_filesz ph <=? u64 (size - p_offset ph)) = (p_offset ph + p_filesz ph <=? size)) as ->.
  { destruct (Z.leb_spec (p_offset ph) size); cbn [andb]; [rewrite u64_small by lia|]; case_bool; lia. }
  unfold ensure at 1. destruct (Z.leb_spec (p_offset ph + p_filesz ph) size); [|done]. rewrite bind_ret. cbn [andb].
  destruct (Z.eqb_spec (p_memsz ph) 0); cbn [negb orb andb]; [by apply IH|].
  assert (PG_SIZE = 4096) as Hpg by done. rewrite Hpg.
  destruct (Z.leb_spec 4096 (p_va ph)); cbn [andb]; [|done].
  destruct (Z.ltb_spec (p_va ph) USER_SPACE_TOP); cbn [andb ensure].
  2:{ rewrite (proj2 (Z.leb_gt (p_va ph + p_memsz ph) _)) by lia. done. }
  rewrite bind_ret, u64_small by lia. unfold ensure at 1.
  destruct (Z.leb_spec (p_memsz ph) (USER_SPACE_TOP - p_va ph)).
  2:{ rewrite (proj2 (Z.leb_gt (p_va ph + p_memsz ph) _)) by lia. done. }
  rewrite bind_ret, (proj2 (Z.leb_le (p_va ph + p_memsz ph) _)), u64_small by lia. cbn [andb]. unfold ensure at 1.
  destruct (_ || _); [|done]. rewrite bind_ret, IH by done. cbn [andb]. by rewrite orb_assoc.
Qed.

Lemma validate_spec {S} data (s : S) :
  Forall is_byte data → Z.of_nat (length data) < 2 ^ 64 →
  validate (Some data) (Z.of_nat (length data)) s = if valid_image data then Ret tt s else Fail E_Invalid s.
Proof.
  intros Hb Hs. unfold validate, valid_image. set (size := Z.of_nat (length data)) in *. cbv zeta.
  change ELF_HEADER_SIZE with 64. change PROGRAM_HEADER_SIZE with 56.
  unfold ensure at 1. destruct (Z.leb_spec 64 size); [|done]. rewrite bind_ret. cbn [andb].
  erewrite bind_Ret by (apply read_bytes_Ret; lia). change (ElfHeader_of _) with (elf_header data).
  destruct (header_range data Hb ltac:(lia)) as (Hph & Hn & He). set (eh := elf_header data) in *.
  unfold ensure at 1. destruct (elf_is_valid eh && is_executable eh); [|done]. rewrite bind_ret. cbn [andb].
  unfold ensure at 1. destruct (_ && (e_phentsize eh =? 56)); [|done]. rewrite bind_ret. cbn [andb].
  destruct (Z.leb_spec 64 (e_phoff eh)); cbn [andb]; [|done].
  destruct (Z.leb_spec (e_phoff eh) size); cbn [ensure].
  2:{ by rewrite (proj2 (Z.leb_gt (e_phoff eh + e_phnum eh * 56) _)) by lia. }
  rewrite bind_ret, !u64_small by lia. unfold ensure at 1. destruct (Z.leb_spec (e_phnum eh * 56) (size - e_phoff eh)).
  2:{ by rewrite (proj2 (Z.leb_gt (e_phoff eh + e_phnum eh * 56) _)) by lia. }
  rewrite bind_ret, (proj2 (Z.leb_le (e_phoff eh + e_phnum eh * 56) _)) by lia. cbn [andb].
  unfold ensure at 1. destruct (_ && (e_entry eh <? USER_SPACE_TOP)); [|done]. rewrite bind_ret. cbn [andb].
  pose proof (validate_loop_spec data s (seqZ 0 (e_phnum eh)) false Hb Hs ltac:(lia)) as HL. fold size eh in HL.
  unfold bind. rewrite HL. 2:{ apply Forall_forall. intros i Hi%elem_of_seqZ. lia. }
  change (prog_at data <$> seqZ 0 (e_phnum eh)) with (segments data). destruct (forallb _ _); [|done].
  cbn [orb andb]. unfold ensure. by destruct (existsb _ _).
Qed.

(** What a valid image guarantees the loader. *)
Lemma valid_image_inv data :
  Forall is_byte data → valid_image data = true →
  let eh := elf_header data in let size := Z.of_nat (length data) in
  64 ≤ size ∧ e_phentsize eh = PROGRAM_HEADER_SIZE ∧ 0 ≤ e_phoff eh ∧
  Forall (λ i, 0 ≤ i ∧ e_phoff eh + i * 56 + 56 ≤ size) (seqZ 0 (e_phnum eh)) ∧
  Forall (λ ph, ph_range ph ∧ segment_ok size ph = true) (prog_at data <$> seqZ 0 (e_phnum eh)) ∧
  img_exec (segments data) (e_entry eh / PG_SIZE) = true.
Proof.
  intros Hb Hv eh size. unfold valid_image in Hv. fold size eh in Hv. cbv zeta in Hv.
  repeat match type of Hv with _ && _ = true => let H := fresh "V" in apply andb_prop in Hv as [Hv H] end.
  apply Z.leb_le in Hv. change ELF_HEADER_SIZE with 64 in *. destruct (header_range data Hb ltac:(lia)) as (Hph & Hn & _). fold eh in Hph, Hn.
  apply andb_prop in V2 as [_ Hps%Z.eqb_eq]. apply andb_prop in V1 as [Hp1%Z.leb_le Hp2%Z.leb_le]. change PROGRAM_HEADER_SIZE with 56 in *.
  apply andb_prop in V as [Hseg Hent].
  assert (Forall (λ i, 0 ≤ i ∧ e_phoff eh + i * 56 + 56 ≤ size) (seqZ 0 (e_phnum eh))) as Hidx.
  { apply Forall_forall. intros i Hi%elem_of_seqZ. lia. }
  split_and!; [done|done|lia|done|..].
  - apply Forall_fmap, Forall_forall. intros i Hi. pose proof (proj1 (Forall_forall _ _) Hidx i Hi) as [? ?]. split.
    + apply prog_range; [done|]. change PROGRAM_HEADER_SIZE with 56. fold eh. lia.
    + apply (proj1 (forallb_forall _ _) Hseg), list_elem_of_In. by apply list_elem_of_fmap_2.
  - unfold img_exec. apply existsb_exists in Hent as (ph & Hin & Hh). apply existsb_exists. exists ph. split; [done|].
    unfold holds_entry in Hh. apply andb_prop in Hh as [[[Hl Hx]%andb_prop He1%Z.leb_le]%andb_prop He2%Z.ltb_lt].
    unfold touches. rewrite Hl, Hx. cbn [andb]. rewrite andb_true_r. unfold PG_SIZE. fold eh in He1, He2.
    pose proof (Z.div_le_mono (p_va ph) (e_entry eh) 4096 ltac:(lia) He1). pose proof (Z.mul_div_le (e_entry eh) 4096 ltac:(lia)).
    rewrite (proj2 (Z.leb_le _ _)), (proj2 (Z.ltb_lt _ _)) by lia. done.
Qed.
End validate.

(** ** Mapping the pages of a segment *)

Section load.
Context `{PL : PagingLaws} `{UL : !UserLayout} `{UU : !UserLayoutLaws}.
Context (root : Z).
Implicit Types (s : mm) (rs : list (Z * Z)) (A : gmap Z upage).

Lemma perm_bits w x :
  has (user_page_perm w x) VM_USER = true ∧ has (user_page_perm w x) VM_WRITE = w ∧ negb (has (user_page_perm w x) VM_NOEXEC) = x.
Proof. by destruct w, x. Qed.

Lemma zero_page_spec s rs A v u :
  as_rep s rs root A → A !! v = Some u →
  ∃ s', zero_page (up_page u) s = Ret tt s' ∧ as_rep s' rs root A ∧ as_frame root s s' rs rs A A ∧
    (∀ k, 0 ≤ k < PG_SIZE → byte_get (ram s') (up_page u * PG_SIZE + k) = 0) ∧
    keeps_pages (delete v A) s s'.
Proof.
  intros R Hu. destruct (as_page _ _ _ _ R v u Hu) as (_ & _ & Hf & _). destruct (page_to_phys_frame _ Hf) as [Hpp Hpp'].
  unfold zero_page. rewrite Hpp.
  destruct (fill_page s (up_page u * PG_SIZE) (λ _, 0) (λ i, wr64 (up_page u * PG_SIZE + 8 * i) 0)) as (m' & E & Hz & Ho); [done|].
  assert (∀ x, phys_to_page x ≠ up_page u → word m' x = word (ram s) x) as Hw.
  { intros x Hx. apply Ho. intros j Hj ->. apply Hx. by rewrite phys_page_entry. }
  destruct (as_page_write s rs root A v u m' R Hu Hw) as [R' F].
  { intros x. destruct (decide (Exists (λ j, x = up_page u * PG_SIZE + 8 * j) (seqZ 0 512))) as [(j & Hj%elem_of_seqZ & ->)%Exists_exists|Hn].
    - rewrite Hz; lia.
    - rewrite Ho; [apply R|]. intros j Hj ->. apply Hn, Exists_exists. exists j. rewrite elem_of_seqZ. split; [lia|done]. }
  exists (with_ram m' s). split_and!; [done|done|done| |].
  - intros k Hk. unfold byte_get. cbn [ram with_ram]. unfold PG_SIZE in *.
    replace (up_page u * 4096 + k - (up_page u * 4096 + k) mod 8) with (up_page u * 4096 + 8 * (k / 8)).
    + rewrite Hz; [by rewrite Z.shiftr_0_l|]. pose proof (Z.div_lt_upper_bound k 8 512 ltac:(lia) ltac:(lia)). pose proof (Z.div_pos k 8 ltac:(lia) ltac:(lia)). lia.
    + replace (up_page u * 4096 + k) with (k + (up_page u * 512) * 8) by lia. rewrite Z.mod_add by lia.
      pose proof (Z.div_mod k 8 ltac:(lia)). lia.
  - intros x v' u' [Hne Hu']%lookup_delete_Some Hx. apply Hw. rewrite Hx. intros E'.
    by apply Hne, (as_inj _ _ _ _ R v v' u u').
Qed.

(** The page of a segment after it was mapped: the rights accumulate, a fresh
    page is zero. *)
Definition mapped_page s (w x : bool) (o : option upage) (u' : upage) : Prop :=
  match o with
  | Some u => u' = MkUpage (up_page u) (up_write u || w) (up_exec u || x)
  | None => up_write u' = w ∧ up_exec u' = x ∧ ∀ k, 0 ≤ k < PG_SIZE → byte_get (ram s) (up_page u' * PG_SIZE + k) = 0
  end.

Lemma map_fresh s rs A v perm w x :
  has perm VM_USER = true ∧ has perm VM_WRITE = w ∧ negb (has perm VM_NOEXEC) = x →
  as_rep s rs root A → 0 ≤ v < upages → A !! v = None →
  let m := (page <- alloc_and_map_page root (v * PG_SIZE) perm;;
            match page with None => fail E_NoMem | Some page => zero_page page end) in
  (∃ s' rs' u', m s = Ret tt s' ∧ as_rep s' rs' root (<[v := u']> A) ∧ as_frame root s s' rs rs' A (<[v := u']> A) ∧
     mapped_page s' w x None u' ∧ keeps_pages A s s') ∨
  (∃ s' rs', m s = Fail E_NoMem s' ∧ as_rep s' rs' root A ∧ as_frame root s s' rs rs' A A ∧ (length (free_pages rs') ≤ 1)%nat).
Proof.
  intros (Hpu & Hpw & Hpx) R Hv Hn m.
  destruct (alloc_and_map_spec s rs root A v _ R Hv Hn Hpu) as
    [(page & s1 & rs1 & E & R1 & F1 & K1)|(s1 & rs1 & E & R1 & F1 & _ & Hfew)]; unfold m; rewrite (bind_Ret _ _ _ _ _ E).
  - left. destruct (zero_page_spec s1 rs1 _ v (grants page perm) R1 (lookup_insert_eq _ _ _)) as (s2 & E2 & R2 & F2 & Hz & K2).
    exists s2, rs1, (grants page perm). split_and!; [exact E2|done|by eapply as_frame_trans| |].
    + unfold grants in *. cbn [mapped_page up_write up_exec]. rewrite Hpw, Hpx. split_and!; [done..|]. exact Hz.
    + intros y v' u' Hu' Hy. rewrite (K2 y v' u'); [by apply (K1 y v' u')| |done]. by rewrite delete_insert_id.
  - right. by exists s1, rs1.
Qed.

Lemma map_merge s rs A v w x u ptep :
  as_rep s rs root A → A !! v = Some u → leaf_entry (ram s) root (v * PG_SIZE) ptep →
  let e := word (ram s) ptep in
  let s' := with_ram (<[ptep := make_pte_page (pte_addr e) (merge_user_page_perm e (user_page_perm w x))]> (ram s)) s in
  let u' := MkUpage (up_page u) (up_write u || w) (up_exec u || x) in
  pte_present e = true ∧ as_rep s' rs root (<[v := u']> A) ∧ as_frame root s s' rs rs A (<[v := u']> A) ∧ keeps_pages A s s'.
Proof.
  intros R Hu Hl e s' u'. destruct (as_page _ _ _ _ R v u Hu) as (Hv & (p' & Hl' & He) & Hf & Hnf & Hr).
  rewrite (leaf_entry_inj _ _ _ _ _ Hl' Hl) in He. fold e in He. destruct He as (Hp & Ha & Hw & _ & Hx & _).
  assert (merge_user_page_perm e (user_page_perm w x) = user_page_perm (up_write u || w) (up_exec u || x)) as Hm.
  { unfold merge_user_page_perm. destruct (perm_bits w x) as (_ & -> & ->). by rewrite Hw, Hx. }
  destruct (perm_bits (up_write u || w) (up_exec u || x)) as (Hpu & Hpw & Hpx).
  destruct (grants_entry (up_page u) (user_page_perm (up_write u || w) (up_exec u || x)) Hf Hpu) as [Hg Hgw].
  assert (grants (up_page u) (user_page_perm (up_write u || w) (up_exec u || x)) = u') as Hgu by (unfold grants; by rewrite Hpw, Hpx).
  rewrite Hgu in Hg. unfold s'. rewrite Hm, Ha. split_and!; [done| | |by eapply leaf_pages].
  - apply as_leaf_write; try done.
    + intros q a Hvq Hq. by apply (as_tables _ _ _ _ R v u q a).
    + intros v' u0 Hu0 E. by apply (as_inj _ _ _ _ R v' v u0 u).
    + intros u0 Hu0. by simplify_eq.
    + by apply (as_node _ _ _ _ R v u).
  - eapply as_write_frame; [done..|apply Hg|]. intros k. split; intros (v' & u0 & Hu0 & <-).
    + destruct (decide (v' = v)) as [->|]; [|exists v', u0; by rewrite lookup_insert_ne].
      exists v, u'. rewrite lookup_insert_eq. simplify_eq. done.
    + rewrite lookup_insert in Hu0. case_decide; simplify_eq; [by exists v', u|by exists v', u0].
Qed.

Lemma map_user_page_spec s rs A v w x :
  as_rep s rs root A → 0 ≤ v < upages →
  let m := map_user_page root (v * PG_SIZE) (user_page_perm w x) in
  (∃ s' rs' u', m s = Ret tt s' ∧ as_rep s' rs' root (<[v := u']> A) ∧ as_frame root s s' rs rs' A (<[v := u']> A) ∧
     mapped_page s' w x (A !! v) u' ∧ keeps_pages A s s') ∨
  (∃ s' rs', m s = Fail E_NoMem s' ∧ as_rep s' rs' root A ∧ as_frame root s s' rs rs' A A ∧ (length (free_pages rs') ≤ 1)%nat).
Proof.
  intros R Hv m. destruct (get_pte_spec s rs root (v * PG_SIZE) false (as_wf _ _ _ _ R)) as (r & s0 & rs0 & Hg & _ & Hs0 & _ & Hr).
  rewrite (Hs0 eq_refl) in Hg, Hr. unfold m, map_user_page. rewrite (bind_Ret _ _ _ _ _ Hg).
  destruct (A !! v) as [u|] eqn:Hu.
  - destruct (as_page _ _ _ _ R v u Hu) as (_ & (p & Hl & _) & _). destruct r as [p'|]; [|by destruct Hr as [_ Hr]; destruct (Hr p)].
    destruct (map_merge s rs A v w x u p' R Hu Hr) as (Hp & R' & F' & K'). left.
    unfold rd64, gets. rewrite bind_assoc, (bind_Ret _ _ s (word (ram s) p') s) by done. rewrite Hp.
    rewrite bind_assoc. eexists _, _, _. split; [reflexivity|]. split_and!; [exact R'|exact F'|done|exact K'].
  - pose proof (map_fresh s rs A v _ w x (perm_bits w x) R Hv Hu) as Hnew. destruct r as [p|]; [|rewrite bind_ret; exact Hnew].
    pose proof (as_none _ _ _ _ R v Hv Hu) as Hn. rewrite (translate_leaf _ _ _ _ _ Hr eq_refl) in Hn.
    unfold rd64, gets. rewrite bind_assoc, (bind_Ret _ _ s (word (ram s) p) s) by done.
    destruct (pte_present _); [done|]. rewrite bind_ret. exact Hnew.
Qed.

(** What mapping the pages [v .. v + n) does to the address space. *)
Definition mapped s' (w x : bool) (v n : Z) A A' : Prop :=
  ∀ v', if decide (v ≤ v' < v + n) then ∃ u', A' !! v' = Some u' ∧ mapped_page s' w x (A !! v') u' else A' !! v' = A !! v'.

Lemma map_pages_spec w x n : ∀ v s rs A,
  as_rep s rs root A → 0 ≤ v → v + Z.of_nat n ≤ upages →
  (∃ s' rs' A', map_pages n root (v * PG_SIZE) (user_page_perm w x) s = Ret tt s' ∧ as_rep s' rs' root A' ∧
     as_frame root s s' rs rs' A A' ∧ mapped s' w x v (Z.of_nat n) A A' ∧ keeps_pages A s s') ∨
  (∃ s' rs' A', map_pages n root (v * PG_SIZE) (user_page_perm w x) s = Fail E_NoMem s' ∧ as_rep s' rs' root A' ∧
     as_frame root s s' rs rs' A A' ∧ (length (free_pages rs') ≤ 1)%nat).
Proof.
  induction n as [|n IH]; intros v s rs A R Hv Hn.
  { left. exists s, rs, A. split_and!; [done|done|apply as_frame_refl| |done]. intros v'. rewrite decide_False by lia. done. }
  cbn [map_pages]. destruct (map_user_page_spec s rs A v w x R ltac:(lia)) as
    [(s1 & rs1 & u & E & R1 & F1 & M1 & K1)|(s1 & rs1 & E & R1 & F1 & Hfew)].
  2:{ right. exists s1, rs1, A. rewrite (bind_Fail _ _ _ _ _ E). by split_and!. }
  rewrite (bind_Ret _ _ _ _ _ E). destruct user_top_pages as [Htop Hup].
  assert (u64 (v * PG_SIZE + PG_SIZE) = (v + 1) * PG_SIZE) as -> by (unfold PG_SIZE in *; rewrite u64_small; lia).
  destruct (IH (v + 1) s1 rs1 _ R1 ltac:(lia) ltac:(lia)) as [(s2 & rs2 & A2 & E2 & R2 & F2 & M2 & K2)|(s2 & rs2 & A2 & E2 & R2 & F2 & Hfew)].
  2:{ right. exists s2, rs2, A2. split_and!; [done|done|by eapply as_frame_trans|done]. }
  left. exists s2, rs2, A2. split_and!; [done|done|by eapply as_frame_trans| |].
  - intros v'. pose proof (M2 v') as H2. destruct (decide (v' = v)) as [->|Hne].
    + rewrite decide_False, lookup_insert_eq in H2 by lia. rewrite decide_True by lia. exists u. split; [done|].
      destruct (A !! v) as [u0|]; [done|]. destruct M1 as (? & ? & Hz). split_and!; [done..|]. intros k Hk.
      rewrite <- (Hz k Hk). by apply (keeps_bytes _ s1 s2 v u k K2 (lookup_insert_eq _ _ _)).
    + rewrite lookup_insert_ne in H2 by done. destruct (decide (v + 1 ≤ v' < v + 1 + Z.of_nat n)), (decide (v ≤ v' < v + Z.of_nat (S n))); done || lia.
  - intros y v' u' Hu' Hy. rewrite <- (K1 y v' u' Hu' Hy). destruct (decide (v' = v)) as [->|Hne].
    + rewrite Hu' in M1. simpl in M1. subst u. by apply (K2 y v _ (lookup_insert_eq _ _ _)).
    + apply (K2 y v' u'); [by rewrite lookup_insert_ne|done].
Qed.

(** ** Copying the contents of a segment *)

Lemma leaf_same m va va' ptep : same_page va va' → leaf_entry m root va ptep → leaf_entry m root va' ptep.
Proof.
  intros Hs (pre & t & Hsh & Ht & ->). unfold same_page in Hs. rewrite Hsh, !fmap_app in Hs.
  apply app_inj_1 in Hs as [Hpre [= Hidx]]; [|by rewrite !length_fmap].
  exists pre, t. rewrite Hpre. split_and!; [done..|]. unfold entry_at. by rewrite Hidx.
Qed.

Lemma nth_slice off n (bs : list Z) i : (i < n)%nat → nth i (slice off n bs) 0 = nth (off + i) bs 0.
Proof. intros Hi. rewrite !nth_lookup, slice_lookup. by rewrite decide_True. Qed.

Lemma copy_chunk_spec data offset base s rs A va chunk u :
  as_rep s rs root A → Forall is_byte data → 0 ≤ va < USER_SPACE_TOP → A !! (va / PG_SIZE) = Some u →
  0 < chunk → va mod PG_SIZE + chunk ≤ PG_SIZE → 0 ≤ offset → base ≤ va →
  offset + (va - base) + chunk ≤ Z.of_nat (length data) →
  ∃ s', copy_chunk data root offset base va chunk s = Ret tt s' ∧ as_rep s' rs root A ∧ as_frame root s s' rs rs A A ∧
    ∀ v u k, A !! v = Some u → 0 ≤ k < PG_SIZE → byte_get (ram s') (up_page u * PG_SIZE + k) =
      if decide (va ≤ v * PG_SIZE + k < va + chunk) then nth (Z.to_nat (offset + (v * PG_SIZE + k - base))) data 0
      else byte_get (ram s) (up_page u * PG_SIZE + k).
Proof.
  intros R Hb Hva Hu Hc Hm Ho Hbase Hl. destruct (as_page _ _ _ _ R _ _ Hu) as (Hv & (p & Hp & Hpr & Ha & _) & _).
  destruct user_top_pages as [Htop _]. pose proof (Z.div_mod va PG_SIZE ltac:(done)) as Hdm.
  pose proof (Z.mod_pos_bound va PG_SIZE ltac:(done)) as Hmb. set (v := va / PG_SIZE) in *.
  assert (leaf_entry (ram s) root va p) as Hleaf.
  { eapply leaf_same; [|done]. apply same_page_user; [unfold PG_SIZE in *; lia|done|]. unfold v, PG_SIZE. by rewrite Z.div_mul. }
  destruct (get_pte_spec s rs root va false (as_wf _ _ _ _ R)) as (r & s0 & rs0 & Hg & _ & Hs0 & _ & Hr).
  rewrite (Hs0 eq_refl) in Hg, Hr. unfold copy_chunk. rewrite (bind_Ret _ _ _ _ _ Hg).
  destruct r as [p'|]; [|by destruct Hr as [_ Hr]; destruct (Hr p)]. rewrite (leaf_entry_inj _ _ _ _ _ Hr Hleaf).
  unfold rd64, gets. rewrite (bind_Ret _ _ s (word (ram s) p) s), Hpr by done. unfold assert_. rewrite bind_ret.
  erewrite bind_Ret by (apply read_bytes_Ret; lia). unfold PG_MASK. change (PG_SIZE - 1) with (2 ^ 12 - 1).
  rewrite land_mask, Ha by lia. change (va mod 2 ^ 12) with (va mod PG_SIZE).
  set (bs := slice _ _ data). assert (length bs = Z.to_nat chunk) as Hbs by (apply length_slice; lia).
  destruct (as_store s rs root A v u (va mod PG_SIZE) bs R Hu (slice_bytes _ _ _ Hb) ltac:(lia) ltac:(lia)) as (R' & F' & Hbytes).
  eexists. split; [done|]. split; [exact R'|]. split; [exact F'|]. intros v' u' k Hu' Hk. rewrite (Hbytes v' u' k Hu' Hk).
  destruct (decide (v' = v ∧ _)) as [[-> Hin]|Hn], (decide (va ≤ _ < _)) as [Hin'|Hn']; try done.
  - unfold bs. rewrite nth_slice by lia. f_equal. lia.
  - destruct Hn'. lia.
  - destruct Hn. assert (v' = v) as -> by (unfold PG_SIZE in *; lia). split; [done|lia].
Qed.

Lemma iterate_copy data offset base fuel : ∀ va size s rs A,
  as_rep s rs root A → Forall is_byte data → 0 ≤ va → va + size ≤ USER_SPACE_TOP → 0 ≤ size → (Z.to_nat size < fuel)%nat →
  (∀ x, va ≤ x < va + size → is_Some (A !! (x / PG_SIZE))) → 0 ≤ offset → base ≤ va →
  offset + (va - base) + size ≤ Z.of_nat (length data) →
  ∃ s', iterate_pages fuel va size (copy_chunk data root offset base) s = Ret tt s' ∧ as_rep s' rs root A ∧
    as_frame root s s' rs rs A A ∧
    ∀ v u k, A !! v = Some u → 0 ≤ k < PG_SIZE → byte_get (ram s') (up_page u * PG_SIZE + k) =
      if decide (va ≤ v * PG_SIZE + k < va + size) then nth (Z.to_nat (offset + (v * PG_SIZE + k - base))) data 0
      else byte_get (ram s) (up_page u * PG_SIZE + k).
Proof.
  induction fuel as [|fuel IH]; intros va size s rs A R Hb Hva Htop Hsz Hf Hmap Ho Hbase Hl; [lia|]. cbn [iterate_pages].
  destruct (Z.leb_spec size 0).
  { exists s. split_and!; [done|done|apply as_frame_refl|]. intros v u k ??. rewrite decide_False by lia. done. }
  destruct (chunk_spec va size ltac:(lia)) as [Hc1 Hc2]. set (c := chunk_bytes va size) in *.
  destruct (Hmap va ltac:(lia)) as [u Hu]. change 4096 with PG_SIZE in Hc2.
  destruct (copy_chunk_spec data offset base s rs A va c u R Hb ltac:(lia) Hu ltac:(lia) Hc2 Ho Hbase ltac:(lia)) as (s1 & E1 & R1 & F1 & B1).
  rewrite (bind_Ret _ _ _ _ _ E1). pose proof user_top. rewrite u64_small by lia.
  destruct (IH (va + c) (size - c) s1 rs A R1 Hb ltac:(lia) ltac:(lia) ltac:(lia) ltac:(lia)) as (s2 & E2 & R2 & F2 & B2); [|done|lia..|].
  { intros x Hx. apply Hmap. lia. }
  exists s2. split_and!; [done|done|by eapply as_frame_trans|]. intros v u' k Hu' Hk. rewrite (B2 v u' k Hu' Hk), (B1 v u' k Hu' Hk).
  repeat case_decide; done || lia.
Qed.

(** ** The whole image *)

(** The memory after the segments [segs]. *)
Record loaded (data : list Z) (segs : list ProgramHeader) s A : Prop := {
  ld_dom : ∀ v, is_Some (A !! v) ↔ img_page segs v = true;
  ld_perm : ∀ v u, A !! v = Some u → up_write u = img_write segs v ∧ up_exec u = img_exec segs v;
  ld_bytes : ∀ v u k, A !! v = Some u → 0 ≤ k < PG_SIZE →
    byte_get (ram s) (up_page u * PG_SIZE + k) = img_byte data segs (v * PG_SIZE + k) }.

Lemma img_byte_snoc data segs ph va :
  img_byte data (segs ++ [ph]) va =
  if fills va ph then nth (Z.to_nat (p_offset ph + (va - p_va ph))) data 0 else img_byte data segs va.
Proof. unfold img_byte. by rewrite fold_left_app. Qed.

(** Outside its pages an image has neither rights nor contents. *)
Lemma img_outside data size segs v k :
  img_page segs v = false → 0 ≤ k < PG_SIZE → Forall (λ ph, ph_range ph ∧ segment_ok size ph = true) segs →
  img_write segs v = false ∧ img_exec segs v = false ∧ img_byte data segs (v * PG_SIZE + k) = 0.
Proof.
  intros Hp Hk Hok. unfold img_write, img_exec, img_page in *.
  assert (∀ ph, ph ∈ segs → touches v ph = false) as Ht.
  { intros ph Hin. destruct (touches v ph) eqn:E; [|done]. rewrite <- Hp. symmetry. apply existsb_exists. exists ph.
    by rewrite <- list_elem_of_In. }
  split_and!.
  - apply not_true_is_false. intros (ph & Hin & [E _]%andb_prop)%existsb_exists. apply list_elem_of_In in Hin. by rewrite Ht in E.
  - apply not_true_is_false. intros (ph & Hin & [E _]%andb_prop)%existsb_exists. apply list_elem_of_In in Hin. by rewrite Ht in E.
  - clear Hp. induction segs as [|ph segs IH] using rev_ind; [done|]. apply Forall_app in Hok as [Hok [[Hr Hs] _]%Forall_cons].
    rewrite img_byte_snoc, IH; [|done|intros; apply Ht; set_solver].
    assert (fills (v * PG_SIZE + k) ph = false) as ->; [|done].
    pose proof (Ht ph ltac:(set_solver)) as E. unfold touches, fills, loadable in *.
    destruct (p_type ph =? ELF_PT_LOAD) eqn:Hty; [|done]. unfold segment_ok in Hs. rewrite Hty in Hs. cbn [negb orb andb] in *.
    destruct (p_memsz ph =? 0); [done|]. cbn [negb andb] in *. apply andb_prop in Hs as [[Hs _]%andb_prop _].
    apply Z.leb_le in Hs. destruct Hr. unfold PG_SIZE in *. pose proof (Z.div_mod (p_va ph) 4096 ltac:(lia)).
    pose proof (Z.mod_pos_bound (p_va ph) 4096 ltac:(lia)). case_bool; cbn [andb] in *; try done; lia.
Qed.

Lemma img_snoc segs ph v :
  img_page (segs ++ [ph]) v = img_page segs v || touches v ph ∧
  img_write (segs ++ [ph]) v = img_write segs v || touches v ph && has (p_flags ph) ELF_PF_W ∧
  img_exec (segs ++ [ph]) v = img_exec segs v || touches v ph && has (p_flags ph) ELF_PF_X.
Proof. unfold img_page, img_write, img_exec. rewrite !existsb_app. simpl. by rewrite !orb_false_r. Qed.

Lemma loaded_skip data segs ph s A : loaded data segs s A → loadable ph = false → loaded data (segs ++ [ph]) s A.
Proof.
  intros [Hd Hp Hb] Hl. assert (∀ v, touches v ph = false) as Ht by (intros; unfold touches; by rewrite Hl).
  constructor; intros v; destruct (img_snoc segs ph v) as (E1 & E2 & E3); rewrite Ht, ?orb_false_r in *; cbn [andb] in *; rewrite ?orb_false_r in *.
  - rewrite E1. apply Hd.
  - rewrite E2, E3. apply Hp.
  - intros u k Hu Hk. rewrite img_byte_snoc. unfold fills. rewrite Hl. cbn [andb]. by apply Hb.
Qed.

(** The pages of a loadable segment. *)
Lemma segment_pages size ph :
  ph_range ph → segment_ok size ph = true → loadable ph = true →
  let v := p_va ph / PG_SIZE in
  let n := (p_va ph + p_memsz ph + 4095) / 4096 - v in
  p_filesz ph ≤ p_memsz ph ∧ p_offset ph + p_filesz ph ≤ size ∧ p_va ph + p_memsz ph ≤ USER_SPACE_TOP ∧
  round_down (p_va ph) PG_SIZE = v * PG_SIZE ∧
  (round_up (u64 (p_va ph + p_memsz ph)) PG_SIZE - v * PG_SIZE + PG_SIZE - 1) / PG_SIZE = n ∧
  0 ≤ v ∧ 0 ≤ n ∧ v + n ≤ upages ∧ ∀ v', touches v' ph = bool_decide (v ≤ v' < v + n).
Proof.
  intros [_ Hv _ Hm] Hok Hl v n. pose proof Hl as Hl'. unfold loadable in Hl'. apply andb_prop in Hl' as [Hty Hz].
  unfold segment_ok in Hok. rewrite Hty in Hok. cbn [negb orb] in Hok. apply andb_prop in Hok as [[H1 H2]%andb_prop H3].
  destruct (p_memsz ph =? 0) eqn:Hmz; [done|]. cbn [orb] in H3. apply andb_prop in H3 as [[H4 H5]%andb_prop _].
  apply Z.leb_le in H1, H2, H4, H5. apply Z.eqb_neq in Hmz. destruct user_top_pages as [Htop Hup].
  unfold PG_SIZE in *. set (en := p_va ph + p_memsz ph) in *.
  pose proof (Z.div_mod (p_va ph) 4096 ltac:(lia)) as Hd. pose proof (Z.mod_pos_bound (p_va ph) 4096 ltac:(lia)) as Hmb.
  pose proof (Z.div_mod (en + 4095) 4096 ltac:(lia)) as Hd2. pose proof (Z.mod_pos_bound (en + 4095) 4096 ltac:(lia)) as Hmb2.
  fold v in Hd. unfold n. set (e := (en + 4095) / 4096) in *.
  assert (round_up (u64 en) 4096 = e * 4096) as Hup'.
  { unfold round_up. rewrite (u64_small en), u64_small by lia. unfold e. do 2 f_equal. lia. }
  split_and!; try lia.
  - unfold round_down. lia.
  - rewrite Hup'. symmetry. apply Z.div_unique with 4095; lia.
  - intros v'. unfold touches. rewrite Hl. cbn [andb]. unfold PG_SIZE. fold v en.
    case_bool_decide; destruct (Z.leb_spec v v'), (Z.ltb_spec (v' * 4096) en); cbn [andb]; lia || done.
Qed.

Section segment.
Context (data : list Z) (Hbyte : Forall is_byte data) (Hsize : Z.of_nat (length data) < 2 ^ 64).
Notation size := (Z.of_nat (length data)).
Notation ok := (λ ph, ph_range ph ∧ segment_ok size ph = true).

Lemma loaded_segment segs ph s s1 s2 A A1 w x :
  let v := p_va ph / PG_SIZE in
  let n := (p_va ph + p_memsz ph + 4095) / 4096 - v in
  loaded data segs s A → Forall ok segs → ok ph → loadable ph = true → w = has (p_flags ph) ELF_PF_W → x = has (p_flags ph) ELF_PF_X →
  mapped s1 w x v n A A1 → keeps_pages A s s1 →
  (∀ v u k, A1 !! v = Some u → 0 ≤ k < PG_SIZE → byte_get (ram s2) (up_page u * PG_SIZE + k) =
      if decide (p_va ph ≤ v * PG_SIZE + k < p_va ph + p_filesz ph) then nth (Z.to_nat (p_offset ph + (v * PG_SIZE + k - p_va ph))) data 0
      else byte_get (ram s1) (up_page u * PG_SIZE + k)) →
  loaded data (segs ++ [ph]) s2 A1.
Proof.
  intros v n [Hd Hp Hb] Hall [Hr Hok] Hl -> -> HM HK HB.
  destruct (segment_pages size ph Hr Hok Hl) as (_ & _ & _ & _ & _ & Hv & Hn & _ & Htouch). fold v n in Htouch.
  assert (∀ v', A !! v' = None → img_page segs v' = false) as Hnone.
  { intros v' E. apply not_true_is_false. rewrite <- Hd, E. by intros []. }
  constructor.
  - intros v'. destruct (img_snoc segs ph v') as (-> & _). rewrite Htouch, orb_true_iff, bool_decide_eq_true, <- Hd.
    specialize (HM v'). case_decide; [destruct HM as (u' & -> & _); by split; [right|]|rewrite HM; tauto].
  - intros v' u Hu. destruct (img_snoc segs ph v') as (_ & -> & ->). rewrite Htouch. specialize (HM v').
    case_decide as Hin; [rewrite bool_decide_true by done|rewrite bool_decide_false, !orb_false_r by done; apply Hp; by rewrite <- HM].
    destruct HM as (u' & Hu' & Hmp). assert (u' = u) as -> by congruence. cbn [andb]. destruct (A !! v') as [u0|] eqn:E; cbn [mapped_page] in Hmp.
    + subst u. cbn [up_write up_exec]. by destruct (Hp v' u0 E) as [-> ->].
    + destruct Hmp as (-> & -> & _). by destruct (img_outside data size segs v' 0 (Hnone v' E) ltac:(done) Hall) as (-> & -> & _).
  - intros v' u k Hu Hk. rewrite (HB v' u k Hu Hk), img_byte_snoc. unfold fills. rewrite Hl. cbn [andb].
    case_decide as Hin; [by rewrite (proj2 (Z.leb_le _ _)), (proj2 (Z.ltb_lt _ _)) by lia|].
    replace ((p_va ph <=? v' * PG_SIZE + k) && (v' * PG_SIZE + k <? p_va ph + p_filesz ph)) with false by (case_bool; simpl; lia).
    specialize (HM v'). destruct (A !! v') as [u0|] eqn:E.
    + rewrite <- (Hb v' u0 k E Hk), <- (keeps_bytes A s s1 v' u0 k HK E Hk). do 3 f_equal.
      case_decide; [destruct HM as (u' & Hu' & Hmp)|]; [assert (u' = u) as -> by congruence; cbn [mapped_page] in Hmp; by rewrite Hmp|congruence].
    + destruct (img_outside data size segs v' k (Hnone v' E) Hk Hall) as (_ & _ & ->).
      case_decide; [|congruence]. destruct HM as (u' & Hu' & (_ & _ & Hz)). assert (u' = u) as -> by congruence. by apply Hz.
Qed.

Lemma load_segment_spec segs ph s rs A :
  as_rep s rs root A → loaded data segs s A → Forall ok segs → ok ph →
  (∃ s' rs' A', load_segment data root ph s = Ret tt s' ∧ as_rep s' rs' root A' ∧ as_frame root s s' rs rs' A A' ∧
     loaded data (segs ++ [ph]) s' A') ∨
  (∃ s' rs' A', load_segment data root ph s = Fail E_NoMem s' ∧ as_rep s' rs' root A' ∧ as_frame root s s' rs rs' A A' ∧
     (length (free_pages rs') ≤ 1)%nat).
Proof.
  intros R L Hall [Hr Hok]. unfold load_segment. destruct (loadable ph) eqn:Hl.
  2:{ left. exists s, rs, A. split_and!; [|done|apply as_frame_refl|by apply loaded_skip]. unfold loadable in Hl.
      by destruct (p_type ph =? ELF_PT_LOAD), (p_memsz ph =? 0). }
  destruct (segment_pages size ph Hr Hok Hl) as (Hf & Ho & Htop & -> & -> & Hv & Hn & Hvn & Htouch).
  replace (negb (p_type ph =? ELF_PT_LOAD) || (p_memsz ph =? 0)) with false by (unfold loadable in Hl; by destruct (_ =? _), (_ =? _)).
  destruct (map_pages_spec (has (p_flags ph) ELF_PF_W) (has (p_flags ph) ELF_PF_X) (Z.to_nat ((p_va ph + p_memsz ph + 4095) / 4096 - p_va ph / PG_SIZE))
    _ s rs A R Hv ltac:(lia)) as [(s1 & rs1 & A1 & E & R1 & F1 & M1 & K1)|(s1 & rs1 & A1 & E & R1 & F1 & Hfew)].
  2:{ right. exists s1, rs1, A1. rewrite (bind_Fail _ _ _ _ _ E). by split_and!. }
  left. rewrite (bind_Ret _ _ _ _ _ E). rewrite Z2Nat.id in M1 by done. destruct Hr as [Hr1 Hr2 Hr3 Hr4].
  destruct (Z.ltb_spec 0 (p_filesz ph)) as [Hpos|Hzero]; cbn [whenM].
  - destruct (iterate_copy data (p_offset ph) (p_va ph) (S (Z.to_nat (p_filesz ph))) (p_va ph) (p_filesz ph) s1 rs1 A1 R1 Hbyte)
      as (s2 & E2 & R2 & F2 & B2); try lia.
    { intros y Hy. specialize (M1 (y / PG_SIZE)). rewrite decide_True in M1; [destruct M1 as (u & -> & _); by eexists|].
      apply (bool_decide_eq_true (_ ≤ _ < _)). rewrite <- Htouch. unfold touches. rewrite Hl. cbn [andb]. unfold PG_SIZE in *.
      pose proof (Z.div_le_mono (p_va ph) y 4096 ltac:(lia) ltac:(lia)). pose proof (Z.mul_div_le y 4096 ltac:(lia)).
      rewrite (proj2 (Z.leb_le _ _)), (proj2 (Z.ltb_lt _ _)) by lia. done. }
    exists s2, rs1, A1. split_and!; [done|done|by eapply as_frame_trans|by eapply loaded_segment].
  - exists s1, rs1, A1. split_and!; [done|done|done|]. eapply loaded_segment; try done.
    intros v' u k _ _. by rewrite decide_False by lia.
Qed.

Lemma load_loop idx : ∀ segs s rs A,
  as_rep s rs root A → loaded data segs s A → Forall ok segs → Forall (λ i, 0 ≤ i ∧ e_phoff (elf_header data) + i * 56 + 56 ≤ size) idx →
  Forall ok (prog_at data <$> idx) → 0 ≤ e_phoff (elf_header data) →
  let m := forM idx (λ i, ph <- program_header data (u64 (e_phoff (elf_header data) + i * PROGRAM_HEADER_SIZE));; load_segment data root ph) in
  (∃ s' rs' A', m s = Ret tt s' ∧ as_rep s' rs' root A' ∧ as_frame root s s' rs rs' A A' ∧
     loaded data (segs ++ (prog_at data <$> idx)) s' A') ∨
  (∃ s' rs' A', m s = Fail E_NoMem s' ∧ as_rep s' rs' root A' ∧ as_frame root s s' rs rs' A A' ∧
     (length (free_pages rs') ≤ 1)%nat).
Proof.
  induction idx as [|i idx IH]; intros segs s rs A R L Hall Hi Hok Hph m.
  { left. exists s, rs, A. rewrite app_nil_r. split_and!; [done|done|apply as_frame_refl|done]. }
  apply Forall_cons in Hi as [[Hi0 Hi1] Hi]. cbn [fmap list_fmap] in *. apply Forall_cons in Hok as [Hoki Hok]. unfold m. cbn [forM].
  rewrite bind_assoc. erewrite bind_Ret by (apply program_header_Ret; lia || done).
  destruct (load_segment_spec segs (prog_at data i) s rs A R L Hall Hoki) as
    [(s1 & rs1 & A1 & E & R1 & F1 & L1)|(s1 & rs1 & A1 & E & R1 & F1 & Hfew)].
  2:{ right. exists s1, rs1, A1. rewrite (bind_Fail _ _ _ _ _ E). by split_and!. }
  rewrite (bind_Ret _ _ _ _ _ E).
  destruct (IH (segs ++ [prog_at data i]) s1 rs1 A1 R1 L1) as [(s2 & rs2 & A2 & E2 & R2 & F2 & L2)|(s2 & rs2 & A2 & E2 & R2 & F2 & Hfew)]; try done.
  - apply Forall_app. split; [done|]. by apply Forall_singleton.
  - left. exists s2, rs2, A2. rewrite <- app_assoc in L2. split_and!; [done|done|by eapply as_frame_trans|done].
  - right. exists s2, rs2, A2. split_and!; [done|done|by eapply as_frame_trans|done].
Qed.
End segment.
End load.

(** ** The property *)

Section correct.
Context `{PL : PagingLaws} `{UL : !UserLayout} `{UU : !UserLayoutLaws}.

Lemma elf_load_spec data s rs root :
  as_rep s rs root ∅ → Forall is_byte data → Z.of_nat (length data) < 2 ^ 64 →
  let run := load (Some data) (Z.of_nat (length data)) (Some root) s in
  if valid_image data then
    (∃ s' rs' A, run = Ret (e_entry (elf_header data)) s' ∧ as_rep s' rs' root A ∧ as_frame root s s' rs rs' ∅ A ∧
       loaded data (segments data) s' A) ∨
    (∃ s' rs' A, run = Fail E_NoMem s' ∧ as_rep s' rs' root A ∧ as_frame root s s' rs rs' ∅ A ∧ (length (free_pages rs') ≤ 1)%nat)
  else run = Fail E_Invalid s.
Proof.
  intros R Hb Hs run. pose proof (validate_spec data s Hb Hs) as Hval. unfold run, load.
  destruct (valid_image data) eqn:Hvi; [|by rewrite (bind_Fail _ _ _ _ _ Hval)]. rewrite (bind_Ret _ _ _ _ _ Hval).
  destruct (valid_image_inv data Hb Hvi) as (H64 & Hsz & Hph & Hidx & Hok & Hent).
  erewrite bind_Ret by (apply read_bytes_Ret; change ELF_HEADER_SIZE with 64; lia).
  change (ElfHeader_of _) with (elf_header data). rewrite Hsz.
  destruct (load_loop root data Hb Hs (seqZ 0 (e_phnum (elf_header data))) [] s rs ∅ R) as
    [(s' & rs' & A & E & R' & F & Hl)|(s' & rs' & A & E & R' & F & Hfew)]; [|done..| |].
  - constructor; [intros v; rewrite lookup_empty; split; [by intros []|done]|intros v u Hu; by rewrite lookup_empty in Hu|intros v u k Hu; by rewrite lookup_empty in Hu].
  - left. exists s', rs', A. by rewrite (bind_Ret _ _ _ _ _ E).
  - right. exists s', rs', A. by rewrite (bind_Fail _ _ _ _ _ E).
Qed.

(** What a program sees of a loaded image. *)
Lemma loaded_view data segs s rs root A va :
  as_rep s rs root A → loaded data segs s A → 0 ≤ va < USER_SPACE_TOP →
  match translate (ram s) root va with
  | Some x =>
      img_page segs (va / PG_SIZE) = true ∧ tr_read x = true ∧ tr_write x = img_write segs (va / PG_SIZE) ∧
      tr_exec x = img_exec segs (va / PG_SIZE) ∧ byte_get (ram s) (tr_pa x) = img_byte data segs va
  | None => img_page segs (va / PG_SIZE) = false
  end.
Proof.
  intros R' [Hd Hp Hby] Hva. destruct (A !! (va / PG_SIZE)) as [u|] eqn:Hu.
  - rewrite (as_translate _ _ _ _ _ _ R' Hu). cbn [tr_read tr_write tr_exec tr_pa]. destruct (Hp _ _ Hu) as [-> ->].
    split_and!; [by apply Hd; rewrite Hu|done..|]. rewrite (Hby _ _ _ Hu) by (by apply Z.mod_pos_bound).
    f_equal. pose proof (Z.div_mod va PG_SIZE ltac:(done)). lia.
  - rewrite (as_unmapped _ _ _ _ _ R' Hva Hu). apply not_true_is_false. intros Him. apply (proj2 (Hd _)) in Him. rewrite Hu in Him. by destruct Him.
Qed.

(** C38: loading an executable into an empty address space.  An image that is not
    valid is refused with [Invalid] before anything changes.  A valid one is
    loaded, or the loader runs out of memory with at most one page left, in
    which case the pages it mapped belong to the address space.  After a
    successful load exactly the user pages the segments touch are mapped, they
    are readable, writable or executable as the union of the segments on the
    page asks, they hold the bytes of the file and zeros elsewhere, the entry
    point is executable, and neither the kernel half nor any memory outside
    the address space changed. *)
Theorem elf_load_correct data s rs root :
  as_rep s rs root ∅ → Forall is_byte data → Z.of_nat (length data) < 2 ^ 64 →
  let run := load (Some data) (Z.of_nat (length data)) (Some root) s in
  let segs := segments data in
  let entry := e_entry (elf_header data) in
  if valid_image data then
    ∃ s' rs' A, as_rep s' rs' root A ∧ as_frame root s s' rs rs' ∅ A ∧
      (run = Fail E_NoMem s' ∧ (length (free_pages rs') ≤ 1)%nat ∨
       run = Ret entry s' ∧ img_exec segs (entry / PG_SIZE) = true ∧
       ∀ va, 0 ≤ va < USER_SPACE_TOP →
         match translate (ram s') root va with
         | Some x =>
             img_page segs (va / PG_SIZE) = true ∧ tr_read x = true ∧ tr_write x = img_write segs (va / PG_SIZE) ∧
             tr_exec x = img_exec segs (va / PG_SIZE) ∧ byte_get (ram s') (tr_pa x) = img_byte data segs va
         | None => img_page segs (va / PG_SIZE) = false
         end)
  else run = Fail E_Invalid s.
Proof.
  intros R Hb Hs run segs entry. pose proof (elf_load_spec data s rs root R Hb Hs) as H0. cbv zeta in H0. fold run in H0.
  destruct (valid_image data) eqn:Hvi; [|done]. destruct (valid_image_inv data Hb Hvi) as (_ & _ & _ & _ & _ & Hent).
  destruct H0 as [(s' & rs' & A & E & R' & F & Hl)|(s' & rs' & A & E & R' & F & Hfew)]; exists s', rs', A; split_and!; try done.
  - right. split_and!; [done|done|]. intros va Hva. by apply (loaded_view data segs s' rs' root A).
  - by left.
Qed.
End correct.
