(* ===== verification/Exec.v ===== *)
(** * User images: [kernel/exec/exec.cpp]

    Building the address space of a new program: [create_user_pgdir],
    [setup_user_stack], the [MemoryDesc] that owns the root table
    ([kernel/mm/vmm.h]), and [UserImage::load], which gives everything back
    when a step fails.  A [pde_t*] is the physical address it aliases. *)

From S2P Require Import Prelude LibList Pmm Paging SwapSlots PageTable AddrSpace Elf.

(** [exec.h] *)
Definition MAX_BINARY_SIZE : Z := 1024 * 1024.

Section exec.
Context `{Paging} `{UserLayout}.
(** [vmm::Manager::kernel_pgdir()] *)
Context (kernel_pgdir : Z).

Definition create_user_pgdir : M mm Z :=
  p <- on_pm (kmalloc KERNEL_BASE PG_SIZE);;
  ensure (negb (p =? 0)) E_NoMem;;
  let pgdir := u64 (p - KERNEL_BASE) in
  forM (seqZ 0 512) (λ i, wr64 (pgdir + 8 * i) 0);;
  forM (seqZ USER_TOP_ENTRIES (PAGE_TABLE_ENTRIES - USER_TOP_ENTRIES)) (λ i,
    e <- rd64 (kernel_pgdir + 8 * i);; wr64 (pgdir + 8 * i) e);;
  ret pgdir.

(** The loop of [setup_user_stack]; [n] pages are left. *)
Fixpoint stack_loop (n : nat) (pgdir va : Z) : M mm unit :=
  match n with
  | O => ret tt
  | S n =>
      page <- alloc_and_map_page pgdir va VM_USER_RW;;
      match page with None => fail E_NoMem | Some page => zero_page page end;;
      stack_loop n pgdir (u64 (va + PG_SIZE))
  end.
Definition setup_user_stack (pgdir : option Z) : M mm Z :=
  match pgdir with
  | None => fail E_Invalid
  | Some pgdir =>
      let user_stack_bottom_va := USER_STACK_TOP - USER_STACK_SIZE in
      stack_loop (Z.to_nat ((USER_STACK_TOP - user_stack_bottom_va) / PG_SIZE)) pgdir user_stack_bottom_va;;
      ret USER_STACK_TOP
  end.

(** ** [MemoryDesc]: its address, and the root table it owns *)
Definition MEMORY_DESC_SIZE : Z := 56.
Record MemoryDesc : Set := MkMemory { md_addr : Z; md_pgdir : option Z }.

(** [new (sys::nothrow) MemoryDesc()]: the constructor of [swap_list] links it
    to itself. *)
Definition new_memory : M mm MemoryDesc :=
  p <- on_pm (kmalloc KERNEL_BASE MEMORY_DESC_SIZE);;
  ensure (negb (p =? 0)) E_NoMem;;
  on_pm (on_nodes (λ h, Some (init_node (SwapList p) h)));;
  ret (MkMemory p None).
(** [delete memory], with the destructor [~MemoryDesc]. *)
Definition delete_memory (m : MemoryDesc) : M mm unit :=
  match md_pgdir m with None => ret tt | Some pgdir => free_user_pgdir pgdir end;;
  on_pm (kfree KERNEL_BASE (md_addr m)).

(** A [unique_ptr<MemoryDesc>] in scope: an error return deletes it. *)
Definition owning_memory {A} (m : MemoryDesc) (k : M mm A) : M mm A :=
  r <- try_ k;;
  match r with
  | inl a => ret a
  | inr e => delete_memory m;; fail e
  end.

(** ** [class UserImage] *)
Record UserImage : Set := MkImage { memory_ : MemoryDesc; entry_va_ : Z; stack_va_ : Z }.

Definition image_load (data : list Z) (size : Z) : M mm UserImage :=
  memory <- new_memory;;
  pgdir <- owning_memory memory create_user_pgdir;;
  let memory := MkMemory (md_addr memory) (Some pgdir) in
  owning_memory memory (
    entry_va <- load (Some data) size (md_pgdir memory);;
    stack_va <- setup_user_stack (md_pgdir memory);;
    ret (MkImage memory entry_va stack_va)).
End exec.
