(* ===== verification/ExecProofs.v ===== *)
(** * Correctness of user images

    [UserImage::load] works on pages that were free: it either hands over an
    address space that holds the program, a zeroed stack and the kernel half,
    or gives back every page it took.  No other address space changes. *)

From S2P Require Import Prelude LibList Pmm PmmProofs Paging SwapSlots PageTable PageTableProofs Vmm VmmProofs AddrSpace Teardown Elf ElfProofs Exec.

#[local] Arguments forM : simpl never.
#[local] Arguments seqZ : simpl never.

Section exec.
Context `{PL : PagingLaws} `{UL : !UserLayout} `{UU : !UserLayoutLaws}.
Implicit Types (m : gmap Z Z) (p q : list Z) (s : mm) (rs : list (Z * Z)) (A : gmap Z upage).

(** ** Working on free pages only *)

(** The two states differ in pages that were free in the first one. *)
Record only_free s s' rs : Prop := {
  of_words : ∀ x, phys_to_page x ∉ free_pages rs → word (ram s') x = word (ram s) x;
  of_desc : ∀ k, k ∉ free_pages rs → page_desc (pm s') !! k = page_desc (pm s) !! k;
  of_nodes : ∀ x, x ≠ FreeList → (∀ i, i ∈ free_pages rs → x ≠ PageNode i) →
    (∀ a, kva_to_page KERNEL_BASE a ∈ free_pages rs → x ≠ SwapList a) → nodes (pm s') !! x = nodes (pm s) !! x;
  of_swap : swap_ok (swp s) → swap_ok (swp s') ∧ (∀ e, entry_slot (swp s') e = entry_slot (swp s) e) ∧
    ∀ i, 0 ≤ i → used (slots (swp s')) i = used (slots (swp s)) i;
  of_rest : page_count s' = page_count s ∧ cpu_root s' = cpu_root s }.

Lemma only_free_refl s rs : only_free s s rs.
Proof. constructor; done. Qed.
Lemma only_free_trans s s1 s2 rs rs1 :
  only_free s s1 rs → only_free s1 s2 rs1 → (∀ k, k ∈ free_pages rs1 → k ∈ free_pages rs) → only_free s s2 rs.
Proof.
  intros F G Hsub. constructor.
  - intros x Hx. rewrite (of_words _ _ _ G), (of_words _ _ _ F); auto.
  - intros k Hk. rewrite (of_desc _ _ _ G), (of_desc _ _ _ F); auto.
  - intros x Hx Hp Ha. rewrite (of_nodes _ _ _ G), (of_nodes _ _ _ F); auto.
  - intros Hs. destruct (of_swap _ _ _ F Hs) as (H1 & H2 & H3). destruct (of_swap _ _ _ G H1) as (H4 & H5 & H6).
    split_and!; [done|intros; by rewrite H5, H2|]. intros i Hi. by rewrite H6, H3.
  - destruct (of_rest _ _ _ F) as [<- <-]. apply G.
Qed.

Lemma only_free_pm s pm' rs : pmm_frame (pm s) pm' (free_pages rs) → only_free s (with_pm pm' s) rs.
Proof. intros (Hd & _ & Hn). constructor; try done. intros x Hx Hp _. by apply Hn. Qed.

Lemma only_free_ram s m' rs (k : Z) :
  k ∈ free_pages rs → (∀ x, phys_to_page x ≠ k → word m' x = word (ram s) x) → only_free s (with_ram m' s) rs.
Proof. intros Hk Hm. constructor; try done. intros x Hx. apply Hm. intros E; by rewrite E in Hx. Qed.

(** Tables that were not free are still tables. *)
Lemma only_free_wf s s' rs rs' (root : Z) :
  only_free s s' rs → pt_wf s rs root → pmm_rep (pm s') rs' → (∀ a, 0 ≤ word (ram s') a < 2 ^ 64) →
  (∀ k, k ∈ free_pages rs' → k ∈ free_pages rs) → pt_wf s' rs' root ∧ same_tables (ram s) (ram s') root.
Proof.
  intros F W Rp Hw Hsub.
  assert (same_tables (ram s) (ram s') root) as Hs.
  { intros q a j Hv Hq Hj. destruct (wf_tables _ _ _ W q a Hv Hq) as [Hf Hn]. apply (of_words _ _ _ F). by rewrite phys_page_entry. }
  destruct (same_tables_translate _ _ _ Hs) as [_ Htab]. split; [|done]. constructor; try done.
  - intros i Hi. by apply W, Hsub.
  - intros q a Hv Hq. rewrite Htab in Hq by done. destruct (wf_tables _ _ _ W q a Hv Hq) as [? Hn]. split; [done|]. intros ?. by apply Hn, Hsub.
  - intros q q' a Hv Hv'. rewrite !Htab by done. by apply (wf_tree _ _ _ W).
Qed.

(** The queues a page is on are not in free memory. *)
Definition queues_live s rs A : Prop := ∀ v u l a, A !! v = Some u →
  ring (nodes (pm s)) (PageNode (up_page u)) l → SwapList a ∈ l → kva_to_page KERNEL_BASE a ∉ free_pages rs.

Lemma only_free_other s s' rs rs' (root2 : Z) A2 :
  only_free s s' rs → pmm_rep (pm s') rs' → (∀ a, 0 ≤ word (ram s') a < 2 ^ 64) →
  (∀ k, k ∈ free_pages rs' → k ∈ free_pages rs) → as_rep s rs root2 A2 → queues_live s rs A2 →
  as_rep s' rs' root2 A2 ∧ keeps_pages A2 s s'.
Proof.
  intros F Rp Hw Hsub R2 Hq2. pose proof (as_wf _ _ _ _ R2) as W.
  destruct (only_free_wf _ _ _ _ _ F W Rp Hw Hsub) as [_ Hs]. destruct (same_tables_translate _ _ _ Hs) as [_ Htab].
  assert (∀ v u, A2 !! v = Some u → up_page u ∉ free_pages rs) as Hpg by (intros v u Hu; by apply (as_page _ _ _ _ R2 v u Hu)).
  split; [|intros x v u Hu Hx; apply (of_words _ _ _ F); rewrite Hx; by eapply Hpg].
  eapply as_rep_same; [| |apply (as_pm (with_ram (ram s') s) rs root2 A2 (pm s') rs')]; [done|done|by apply as_ram|done|..].
  - intros k Hk. split; [by apply W, Hsub|]. split; [|intros v u Hu <-; by eapply (Hpg v u), Hsub].
    intros q a Hv Hq <-. cbn [ram with_ram] in Hq. rewrite Htab in Hq by done. by apply (wf_tables _ _ _ W q a Hv Hq), Hsub.
  - intros k Hk. cbn [pm with_ram]. rewrite (of_desc _ _ _ F); [done|].
    destruct Hk as [(q & Hv & _ & Hq)|(v & u & Hu & <-)]; [|by eapply Hpg].
    cbn [ram with_ram] in Hq. rewrite Htab in Hq by done. by destruct (owned_page s rs root2 q k W Hv Hq).
  - intros v u Hu. destruct (as_node _ _ _ _ R2 v u Hu) as (l & Hr & Hl). exists l. split; [|done].
    eapply ring_frame; [|done]. intros x Hx. apply (of_nodes _ _ _ F).
    + intros ->. apply elem_of_cons in Hx as [?|Hx]; [done|]. by destruct (Hl _ Hx) as [[? ?]|(? & ? & _ & ?)].
    + intros i Hi ->. apply elem_of_cons in Hx as [[= ->]|Hx]; [by apply (Hpg v u)|].
      destruct (Hl _ Hx) as [[? ?]|(v' & u' & Hu' & [= ->])]; [done|]. by apply (Hpg v' u').
    + intros a Ha ->. apply elem_of_cons in Hx as [?|Hx]; [done|]. by apply (Hq2 v u l a Hu Hr Hx).
Qed.

(** An operation on an address space that was made of free pages. *)
Lemma only_free_as s s1 s2 rs rs1 rs2 (root : Z) A1 A2 :
  only_free s s1 rs → as_frame root s1 s2 rs1 rs2 A1 A2 → frame root → phys_to_page root ∈ free_pages rs →
  (∀ k, held s1 rs1 root A1 k → k ∈ free_pages rs) → only_free s s2 rs.
Proof.
  intros F G Hf Hr Hh. destruct (af_rest _ _ _ _ _ _ _ G) as (E1 & E2 & E3). constructor.
  - intros x Hx. rewrite (af_words _ _ _ _ _ _ _ G); [by apply (of_words _ _ _ F)|by intros ?; apply Hx, Hh|].
    intros i Hi ->. apply Hx. rewrite phys_page_entry; [done|done|]. unfold USER_TOP_ENTRIES in Hi. lia.
  - intros k Hk. rewrite (af_desc _ _ _ _ _ _ _ G); [by apply F|]. by intros ?%Hh.
  - intros x Hx Hp Ha. rewrite (af_nodes _ _ _ _ _ _ _ G); [by apply (of_nodes _ _ _ F)|done|]. intros k ?. by apply Hp, Hh.
  - rewrite E3. apply F.
  - rewrite E1, E2. apply F.
Qed.

(** ** One page of kernel memory *)

(** A page from [kmalloc], at its direct-mapped address. *)
Definition kva_of (k : Z) : Z := KERNEL_BASE + k * PG_SIZE.
Definition kpage (t : pmm) (k : Z) : Prop := ∃ pg, page_desc t !! k = Some pg ∧ ref_count pg = 0 ∧ block_page_count pg = 1.

Lemma kmalloc_page (t : pmm) rs (b : Z) :
  pmm_rep t rs → direct_mapped KERNEL_BASE t → 0 < b ≤ PG_SIZE →
  (kmalloc KERNEL_BASE b t = Ret 0 t ∧ rs = []) ∨
  (∃ k t' rs', kmalloc KERNEL_BASE b t = Ret (kva_of k) t' ∧ kva_of k ≠ 0 ∧ 0 ≤ k ∧ kva_of k < 2 ^ 64 ∧ pmm_rep t' rs' ∧
     free_pages rs ≡ₚ k :: free_pages rs' ∧ k ∉ free_pages rs' ∧ kpage t' k ∧ pmm_frame t t' (free_pages rs) ∧ (coalesced rs → coalesced rs')).
Proof.
  intros Rp Hd Hb. unfold kmalloc. rewrite (proj2 (Z.eqb_neq b 0)), (u64_small (b + _ - _)) by (unfold PG_SIZE in *; lia).
  replace ((b + PG_SIZE - 1) / PG_SIZE) with 1 by (unfold PG_SIZE in *; apply (Z.div_unique _ _ _ (b - 1)); lia).
  destruct (alloc_one t rs Rp) as [[-> E]|(k & pg & t' & rs' & E & R' & Hperm & Hn & Hpg & Hr & F & _ & _ & Hco)];
    rewrite (bind_Ret _ _ _ _ _ E); [by left|right].
  rewrite (bind_Ret _ _ _ _ _ (upd_page_Ret _ _ _ _ Hpg)), (u32_small 1) by lia.
  assert (is_Some (page_desc t !! k)) as Hk by (apply F; by eexists). destruct (Hd k Hk) as [H0 Hlt]. fold (kva_of k) in Hlt.
  exists k, (MkPmm (<[k := set_block 1 pg]> (page_desc t')) (nodes t') (free_page_count t')), rs'.
  rewrite (page_to_kva_small KERNEL_BASE base_pos t) by done. fold (kva_of k). pose proof base_pos. split_and!; try done.
  - unfold kva_of, PG_SIZE. lia.
  - by eapply rep_upd_page.
  - exists (set_block 1 pg). cbn [page_desc]. by rewrite lookup_insert_eq.
  - destruct F as (Fd & Fs & Fn). split_and!; [|intros i; rewrite <- Fs; cbn [page_desc]|done].
    + intros i Hi. cbn [page_desc]. rewrite lookup_insert_ne; [by apply Fd|]. intros <-. apply Hi. rewrite Hperm. set_solver.
    + rewrite lookup_insert_is_Some'. split; [intros [<-|?]; [by eexists|done]|by right].
Qed.

Lemma kfree_page (t : pmm) rs (k : Z) :
  pmm_rep t rs → kpage t k → k ∉ free_pages rs → kva_of k ≠ 0 → 0 ≤ k → kva_of k < 2 ^ 64 →
  ∃ t' rs', kfree KERNEL_BASE (kva_of k) t = Ret tt t' ∧ pmm_rep t' rs' ∧ free_pages rs' ≡ₚ k :: free_pages rs ∧
    pmm_frame t t' (k :: free_pages rs) ∧ (coalesced rs → coalesced rs').
Proof.
  intros Rp (pg & Hpg & Hr & Hb) Hn H0 Hk Hlt. pose proof base_pos. unfold kfree, kva_to_page. rewrite (proj2 (Z.eqb_neq _ 0)) by done.
  unfold kva_of in *. replace (KERNEL_BASE + k * PG_SIZE - KERNEL_BASE) with (k * PG_SIZE) by lia.
  rewrite (u64_small (k * PG_SIZE)) by (unfold PG_SIZE in *; lia).
  replace (phys_to_page (k * PG_SIZE)) with k by (symmetry; apply phys_page_in; unfold PG_SIZE; lia).
  rewrite (bind_Ret _ _ _ _ _ (get_page_Ret _ _ _ Hpg)), Hb.
  destruct (free_spec t rs k 1 Rp ltac:(lia)) as (t' & E & R' & F & _).
  { intros i Hi%elem_of_seqZ. assert (i = k) as -> by lia. split; [|done]. rewrite Hpg. simpl. by rewrite Hr. }
  destruct (spec_free_correct k 1 rs ltac:(lia) (rep_pos _ _ Rp)) as (_ & Hperm & Hco). change (seqZ k 1) with [k] in *.
  by exists t', (spec_free k 1 rs).
Qed.

(** ** The kernel's memory between operations *)

Context (kernel_pgdir : Z).

Record mem_ok s rs : Prop := {
  mo_wf : pt_wf s rs kernel_pgdir;
  mo_direct : direct_mapped KERNEL_BASE (pm s);
  mo_swap : swap_ok (swp s) }.

Lemma mem_ok_free s s' rs rs' :
  only_free s s' rs → mem_ok s rs → pmm_rep (pm s') rs' → (∀ a, 0 ≤ word (ram s') a < 2 ^ 64) →
  (∀ k, k ∈ free_pages rs' → k ∈ free_pages rs) → mem_ok s' rs'.
Proof.
  intros F [W Hd Hs] Rp Hw Hsub. constructor.
  - by destruct (only_free_wf _ _ _ _ _ F W Rp Hw Hsub).
  - intros i Hi. destruct (decide (i ∈ free_pages rs)) as [Hin|Hn]; [|rewrite (of_desc _ _ _ F i Hn) in Hi; by apply Hd].
    apply Hd. destruct (rep_page _ _ (wf_rep _ _ _ W) i Hin) as (pg & ? & _). by eexists.
  - by apply (of_swap _ _ _ F).
Qed.


(** ** [create_user_pgdir] *)

Lemma copy_half s (dst src : Z) :
  (∀ i j, 0 ≤ i < 512 → 0 ≤ j < 512 → dst + 8 * i ≠ src + 8 * j) →
  ∃ m', forM (seqZ USER_TOP_ENTRIES (PAGE_TABLE_ENTRIES - USER_TOP_ENTRIES)) (λ i, e <- rd64 (src + 8 * i);; wr64 (dst + 8 * i) e) s =
      Ret tt (with_ram m' s) ∧
    (∀ i, USER_TOP_ENTRIES ≤ i < 512 → word m' (dst + 8 * i) = word (ram s) (src + 8 * i)) ∧
    (∀ x, (∀ j, USER_TOP_ENTRIES ≤ j < 512 → x ≠ dst + 8 * j) → word m' x = word (ram s) x).
Proof.
  intros Hdis. unfold USER_TOP_ENTRIES, PAGE_TABLE_ENTRIES. change (512 - 256) with 256.
  destruct (forM_inv (λ d s', ∃ m', s' = with_ram m' s ∧ (∀ i, i ∈ d → word m' (dst + 8 * i) = word (ram s) (src + 8 * i)) ∧
    ∀ x, (∀ j, 256 ≤ j < 512 → x ≠ dst + 8 * j) → word m' x = word (ram s) x) (seqZ 256 256)
    (λ i, e <- rd64 (src + 8 * i);; wr64 (dst + 8 * i) e) s) as (s' & Hrun & m' & -> & Hin & Hout).
  - exists (ram s). split_and!; [by destruct s|set_solver|done].
  - intros d i rest s' Hl (m' & -> & Hin & Hout).
    assert (256 ≤ i < 512) as Hi by (assert (i ∈ seqZ 256 256) as Hi%elem_of_seqZ by (rewrite Hl; set_solver); lia).
    eexists. split; [done|]. exists (<[dst + 8 * i := word m' (src + 8 * i)]> m'). split_and!; [done|..].
    + intros j Hj. rewrite word_insert. case_decide.
      * replace j with i by lia. apply Hout. intros j' Hj'. apply not_eq_sym, Hdis; lia.
      * apply Hin. set_solver by lia.
    + intros x Hx. rewrite word_insert, decide_False by (by apply not_eq_sym, Hx). by apply Hout.
  - exists m'. split_and!; [done| |done]. intros i ?. apply Hin, elem_of_seqZ. lia.
Qed.

(** A root table with an empty lower half and the upper half of [kernel_pgdir]. *)
Section fresh.
Context (s s' : mm) (rs rs' : list (Z * Z)) (root : Z).
Context (W : pt_wf s rs kernel_pgdir) (Hf : frame root) (Hfree : free_pages rs ≡ₚ phys_to_page root :: free_pages rs').
Context (Rp : pmm_rep (pm s') rs') (Hw : ∀ a, 0 ≤ word (ram s') a < 2 ^ 64) (F : only_free s s' rs).
Context (Hlow : ∀ i, 0 ≤ i < USER_TOP_ENTRIES → word (ram s') (root + 8 * i) = 0).
Context (Hhigh : ∀ i, USER_TOP_ENTRIES ≤ i < 512 → word (ram s') (root + 8 * i) = word (ram s) (kernel_pgdir + 8 * i)).

Let Hsub : ∀ k, k ∈ free_pages rs' → k ∈ free_pages rs.
Proof. intros k ?. rewrite Hfree. set_solver. Qed.
Let Hkt : same_tables (ram s) (ram s') kernel_pgdir.
Proof. by destruct (only_free_wf _ _ _ _ _ F W Rp Hw Hsub). Qed.
Let Hv0 : vpath [].
Proof. split; [constructor|destruct levels as [-> ?]; simpl; lia]. Qed.

Lemma fresh_word i : 0 ≤ i < 512 →
  word (ram s') (root + 8 * i) = if decide (i < USER_TOP_ENTRIES) then 0 else word (ram s') (kernel_pgdir + 8 * i).
Proof.
  intros Hi. case_decide; [apply Hlow; lia|]. rewrite Hhigh by lia. symmetry. by apply (Hkt [] kernel_pgdir i Hv0).
Qed.

Lemma fresh_table_at i q : vpath (i :: q) →
  table_at (ram s') root (i :: q) = if decide (i < USER_TOP_ENTRIES) then None else table_at (ram s) kernel_pgdir (i :: q).
Proof.
  intros Hv. destruct (same_tables_translate _ _ _ Hkt) as [_ Htab]. rewrite <- (Htab (i :: q) Hv).
  cbn [table_at]. rewrite fresh_word by (by apply (vpath_index [] i q)). case_decide; [by rewrite present_zero|done].
Qed.

Lemma fresh_root : phys_to_page root ∈ free_pages rs ∧ phys_to_page root ∉ free_pages rs'.
Proof.
  rewrite Hfree. split; [set_solver|]. pose proof (rep_nodup _ _ (wf_rep _ _ _ W)) as Hnd. rewrite Hfree in Hnd.
  by apply NoDup_cons in Hnd as [? _].
Qed.

Lemma fresh_wf : pt_wf s' rs' root.
Proof.
  destruct fresh_root as [Hin Hn]. constructor; try done.
  - intros k Hk. by apply W, Hsub.
  - intros [|i q] a Hv Hq; [injection Hq as <-; done|]. rewrite fresh_table_at in Hq by done. case_decide; [done|].
    destruct (wf_tables _ _ _ W _ _ Hv Hq) as [? Hnf]. split; [done|]. intros ?. by apply Hnf, Hsub.
  - assert (∀ i q a, vpath (i :: q) → table_at (ram s') root (i :: q) = Some a → a ≠ root) as Hne.
    { intros i q a Hv Hq ->. rewrite fresh_table_at in Hq by done. case_decide; [done|]. by apply (wf_tables _ _ _ W _ _ Hv Hq). }
    intros [|i q] [|j q'] a Hv Hv' Hq Hq'; [done|..].
    + injection Hq as <-. by destruct (Hne j q' root Hv' Hq').
    + injection Hq' as <-. by destruct (Hne i q root Hv Hq).
    + rewrite fresh_table_at in Hq, Hq' by done. repeat case_decide; try done. by apply (wf_tree _ _ _ W _ _ a).
Qed.

(** No address space of its own yet. *)
Lemma fresh_user q a : vpath q → user_path q → table_at (ram s') root q = Some a → False.
Proof. intros Hv (i & q' & -> & Hi) Hq. rewrite fresh_table_at, decide_True in Hq by (done || lia). done. Qed.

Lemma fresh_held k : held s' rs' root ∅ k ↔ k ∈ free_pages rs'.
Proof.
  split; [|by left]. intros [?|[(q & Hv & Hu & Hq)|(v & u & Hu & _)]]; [done|by destruct (fresh_user q _ Hv Hu Hq)|by rewrite lookup_empty in Hu].
Qed.

Lemma walk_step_none (sh : Z) rest m t va : pte_present (word m (entry_at t va sh)) = false → walk (sh :: rest) m t va = None.
Proof. intros E. cbn [walk]. by rewrite E. Qed.

Lemma fresh_as : as_rep s' rs' root ∅.
Proof.
  constructor; [apply fresh_wf|..]; try (by intros v u; rewrite lookup_empty).
  - intros q i t a Hv Hu _ Ha. by destruct (fresh_user _ _ Hv Hu Ha).
  - intros v Hv _. destruct user_top_pages as [Htop _].
    destruct (user_index (v * PG_SIZE)) as (sh & Hsh & Hi); [unfold PG_SIZE in *; lia|].
    unfold translate. destruct walk_shifts as [|s0 rest]; [done|]. injection Hsh as ->. apply walk_step_none.
    unfold entry_at. rewrite Hlow by done. apply present_zero.
Qed.

(** The kernel half is the kernel's. *)
Lemma fresh_kernel va sh : head walk_shifts = Some sh → USER_TOP_ENTRIES ≤ level_index va sh →
  translate (ram s') root va = translate (ram s) kernel_pgdir va.
Proof.
  intros Hsh Hi. destruct (same_tables_translate _ _ _ Hkt) as [Htr _]. rewrite <- Htr. unfold translate.
  destruct walk_shifts as [|s0 rest]; [done|]. injection Hsh as ->. cbn [walk]. unfold entry_at.
  rewrite fresh_word by apply level_index_range. by rewrite decide_False by lia.
Qed.

(** No page is swapped out. *)
Lemma fresh_leaf v ptep : 0 ≤ v < upages → leaf_entry (ram s') root (v * PG_SIZE) ptep → False.
Proof.
  intros Hv (pre & t & Hsh & Ht & _). destruct user_top_pages as [Htop _]. destruct levels as [HL H2].
  pose proof (vpath_indices (v * PG_SIZE) pre [12] Hsh ltac:(done)) as Hvp. eapply (fresh_user _ t Hvp); [|done].
  apply (prefix_user (v * PG_SIZE)); [unfold PG_SIZE in *; lia| |rewrite Hsh, fmap_app; by eexists].
  intros E. apply (f_equal length) in E. rewrite Hsh, length_app in HL. rewrite length_fmap in E. simpl in *. lia.
Qed.
End fresh.

(** An address space that maps nothing but the kernel. *)
Record new_space s s' rs rs' (root : Z) : Prop := {
  ns_rep : as_rep s' rs' root ∅;
  ns_root : private_root root s';
  ns_frame : frame root;
  ns_free : free_pages rs ≡ₚ phys_to_page root :: free_pages rs';
  ns_only : only_free s s' rs;
  ns_mem : mem_ok s' rs';
  ns_held : ∀ k, held s' rs' root ∅ k ↔ k ∈ free_pages rs';
  ns_leaf : ∀ v ptep, 0 ≤ v < upages → leaf_entry (ram s') root (v * PG_SIZE) ptep → False;
  ns_kernel : ∀ va sh, head walk_shifts = Some sh → USER_TOP_ENTRIES ≤ level_index va sh →
    translate (ram s') root va = translate (ram s) kernel_pgdir va }.

Lemma create_user_pgdir_spec s rs :
  mem_ok s rs →
  (create_user_pgdir kernel_pgdir s = Fail E_NoMem s ∧ rs = []) ∨
  (∃ root s' rs', create_user_pgdir kernel_pgdir s = Ret root s' ∧ new_space s s' rs rs' root).
Proof.
  intros M0. pose proof (mo_wf _ _ M0) as W. unfold create_user_pgdir. assert (0 < PG_SIZE ≤ PG_SIZE) as Hb by done.
  destruct (kmalloc_page (pm s) rs PG_SIZE (wf_rep _ _ _ W) (mo_direct _ _ M0) Hb) as
    [[E ->]|(k & t & rs' & E & Hnz & Hk0 & Hlt & Rp & Hfree & Hnf & Hkp & F & _)].
  { left. split; [|done]. rewrite (bind_Ret _ _ s 0 s); [done|]. unfold on_pm. erewrite zoom_Ret by exact E. by destruct s. }
  right. rewrite (bind_Ret _ _ _ _ _ (on_pm_Ret _ _ _ _ E)), (proj2 (Z.eqb_neq _ 0)) by done. cbn [negb ensure]. erewrite bind_Ret by done.
  assert (k ∈ free_pages rs) as Hkf by (rewrite Hfree; set_solver). pose proof (wf_frames _ _ _ W k Hkf) as Hf.
  destruct (page_to_phys_frame k Hf) as [_ Hpp]. pose proof base_pos.
  assert (u64 (kva_of k - KERNEL_BASE) = k * PG_SIZE) as -> by (unfold kva_of in *; rewrite u64_small; unfold PG_SIZE in *; lia).
  set (root := k * PG_SIZE) in *. cbv zeta.
  destruct (fill_page (with_pm t s) root (λ _, 0) (λ i, wr64 (root + 8 * i) 0)) as (m1 & E1 & Hz & Ho); [done|].
  rewrite (bind_Ret _ _ _ _ _ E1). cbn [ram with_pm] in Ho. clear E1.
  assert (vpath []) as Hv0 by (split; [constructor|destruct levels as [-> ?]; simpl; lia]).
  destruct (wf_tables _ _ _ W [] kernel_pgdir Hv0 eq_refl) as [Hfk Hnk].
  assert (∀ i j, 0 ≤ i < 512 → 0 ≤ j < 512 → root + 8 * i ≠ kernel_pgdir + 8 * j) as Hdis.
  { intros i j Hi Hj Eij. apply (f_equal phys_to_page) in Eij. rewrite !phys_page_entry, Hpp in Eij by done. by rewrite <- Eij in Hnk. }
  destruct (copy_half (with_ram m1 (with_pm t s)) root kernel_pgdir Hdis) as (m2 & E2 & Hc & Ho2). rewrite (bind_Ret _ _ _ _ _ E2). clear E2.
  cbn [ram with_ram] in *. unfold USER_TOP_ENTRIES in *. set (s' := with_ram m2 (with_pm t s)).
  assert (∀ x, phys_to_page x ≠ k → word m2 x = word (ram s) x) as Hout.
  { intros x Hx. assert (∀ j, 0 ≤ j < 512 → x ≠ root + 8 * j) as Hne.
    { intros j Hj ->. apply Hx. rewrite phys_page_entry by assumption. exact Hpp. }
    rewrite Ho2, Ho; [reflexivity|exact Hne|]. intros j Hj. apply Hne. lia. }
  assert (only_free s s' rs) as F'.
  { eapply (only_free_trans s (with_pm t s)); [by apply only_free_pm|apply (only_free_ram _ _ rs k); [done|exact Hout]|done]. }
  assert (∀ i, 0 ≤ i < 256 → word m2 (root + 8 * i) = 0) as Hlow by (intros i Hi; rewrite Ho2 by lia; apply Hz; lia).
  assert (∀ i, 256 ≤ i < 512 → word m2 (root + 8 * i) = word (ram s) (kernel_pgdir + 8 * i)) as Hhigh.
  { intros i Hi. rewrite Hc by done. apply Ho. intros j Hj. by apply not_eq_sym, Hdis; [|lia]. }
  assert (∀ a, 0 ≤ word m2 a < 2 ^ 64) as Hw.
  { intros a. destruct (decide (Exists (λ j, a = root + 8 * j) (seqZ 0 512))) as [(j & Hj%elem_of_seqZ & ->)%Exists_exists|Hn].
    - destruct (Z.ltb_spec j 256); [rewrite Hlow; lia|rewrite Hhigh by lia; apply W].
    - rewrite Ho2, Ho; [apply W|..]; intros j Hj ->; apply Hn, Exists_exists; exists j; rewrite elem_of_seqZ; (split; [lia|done]). }
  assert (free_pages rs ≡ₚ phys_to_page root :: free_pages rs') as Hfr by (by rewrite Hpp).
  exists root, s', rs'. split; [reflexivity|]. constructor; [| |exact Hf|exact Hfr|exact F'|..].
  - apply (fresh_as s s' rs rs' root); assumption.
  - split; [unfold root; unfold kva_of in Hlt; lia|]. rewrite Hpp. exact Hkp.
  - apply (mem_ok_free s s' rs rs'); [assumption..|]. intros i ?. rewrite Hfree. set_solver.
  - apply (fresh_held s s' rs rs' root); assumption.
  - apply (fresh_leaf s s' rs rs' root); assumption.
  - apply (fresh_kernel s s' rs rs' root); assumption.
Qed.

(** ** The descriptor of an address space *)

Lemma kva_page (k : Z) : 0 ≤ k → kva_of k < 2 ^ 64 → kva_to_page KERNEL_BASE (kva_of k) = k.
Proof.
  intros Hk Hlt. pose proof base_pos. unfold kva_to_page, kva_of in *.
  replace (KERNEL_BASE + k * PG_SIZE - KERNEL_BASE) with (k * PG_SIZE) by lia. rewrite u64_small by (unfold PG_SIZE in *; lia).
  apply phys_page_in. unfold PG_SIZE. lia.
Qed.

Lemma rep_swap_node (t : pmm) rs (a : Z) :
  pmm_rep t rs → pmm_rep (MkPmm (page_desc t) (init_node (SwapList a) (nodes t)) (free_page_count t)) rs.
Proof.
  intros []. constructor; cbn [page_desc nodes free_page_count]; try done.
  - eapply ring_frame; [|done]. intros x Hx. unfold init_node. rewrite lookup_insert_ne; [done|]. intros <-.
    apply elem_of_cons in Hx as [?|([? ?] & ? & _)%list_elem_of_fmap]; done.
  - intros i Hi. unfold init_node. rewrite lookup_insert_ne by done. by apply rep_nodes.
Qed.

Lemma new_memory_spec s rs :
  mem_ok s rs →
  (new_memory s = Fail E_NoMem s ∧ rs = []) ∨
  (∃ k s' rs', new_memory s = Ret (MkMemory (kva_of k) None) s' ∧ kva_of k ≠ 0 ∧ 0 ≤ k ∧ kva_of k < 2 ^ 64 ∧
     only_free s s' rs ∧ mem_ok s' rs' ∧ free_pages rs ≡ₚ k :: free_pages rs' ∧ k ∉ free_pages rs' ∧ kpage (pm s') k).
Proof.
  intros M0. pose proof (mo_wf _ _ M0) as W. unfold new_memory. assert (0 < MEMORY_DESC_SIZE ≤ PG_SIZE) as Hb by done.
  destruct (kmalloc_page (pm s) rs _ (wf_rep _ _ _ W) (mo_direct _ _ M0) Hb) as
    [[E ->]|(k & t & rs' & E & Hnz & Hk0 & Hlt & Rp & Hfree & Hnf & Hkp & F & _)].
  { left. split; [|done]. rewrite (bind_Ret _ _ s 0 s); [done|]. unfold on_pm. erewrite zoom_Ret by exact E. by destruct s. }
  right. rewrite (bind_Ret _ _ _ _ _ (on_pm_Ret _ _ _ _ E)), (proj2 (Z.eqb_neq _ 0)) by done. cbn [negb ensure]. erewrite bind_Ret by done.
  erewrite bind_Ret by (eapply on_pm_Ret, on_nodes_Ret; done). cbn [pm with_pm].
  set (s' := with_pm _ _). pose proof (rep_swap_node t rs' (kva_of k) Rp) as Rp'.
  assert (k ∈ free_pages rs) as Hkf by (rewrite Hfree; set_solver).
  assert (only_free s s' rs) as F'.
  { eapply (only_free_trans s (with_pm t s)); [by apply only_free_pm| |done]. constructor; try done.
    intros x _ _ Hx. cbn [s' pm with_pm nodes]. unfold init_node. rewrite lookup_insert_ne; [done|]. apply not_eq_sym, Hx. by rewrite kva_page. }
  exists k, s', rs'. split_and!; try done. apply (mem_ok_free s s' rs rs'); try done; [apply W|]. intros i ?. rewrite Hfree. set_solver.
Qed.

(** ** An address space under construction *)

(** [s] is the state before, [k] the page of the descriptor. *)
Record building s s2 rs rs2 (k root : Z) A : Prop := {
  bu_rep : as_rep s2 rs2 root A;
  bu_only : only_free s s2 rs;
  bu_root : private_root root s2;
  bu_frame : frame root;
  bu_desc : kpage (pm s2) k;
  bu_addr : kva_of k ≠ 0 ∧ 0 ≤ k ∧ kva_of k < 2 ^ 64;
  bu_pages : ∀ j, j ∈ free_pages rs ↔ j = k ∨ j = phys_to_page root ∨ held s2 rs2 root A j;
  bu_apart : k ≠ phys_to_page root ∧ ¬ held s2 rs2 root A k;
  bu_queue : unqueued s2 A;
  bu_swap : ∀ i, ¬ swapped s2 root i;
  bu_kernel : ∀ va sh, head walk_shifts = Some sh → USER_TOP_ENTRIES ≤ level_index va sh →
    translate (ram s2) root va = translate (ram s) kernel_pgdir va }.

Lemma building_start s s1 s2 rs rs1 rs2 (k root : Z) :
  mem_ok s rs → only_free s s1 rs → free_pages rs ≡ₚ k :: free_pages rs1 → kpage (pm s1) k → kva_of k ≠ 0 ∧ 0 ≤ k ∧ kva_of k < 2 ^ 64 →
  mem_ok s1 rs1 → new_space s1 s2 rs1 rs2 root → building s s2 rs rs2 k root ∅.
Proof.
  intros M0 F Hfree Hkp Haddr M1 N. pose proof (rep_nodup _ _ (wf_rep _ _ _ (mo_wf _ _ M0))) as Hnd.
  rewrite Hfree, (ns_free _ _ _ _ _ N) in Hnd. apply NoDup_cons in Hnd as [Hk [Hr _]%NoDup_cons].
  apply not_elem_of_cons in Hk as [Hkr Hk2]. assert (k ∉ free_pages rs1) as Hk1.
  { rewrite (ns_free _ _ _ _ _ N), elem_of_cons. by intros [?|?]. }
  constructor; try apply N; try done.
  - eapply only_free_trans; [exact F|apply N|]. intros j ?. rewrite Hfree. set_solver.
  - destruct Hkp as (pg & Hpg & ?). exists pg. by rewrite (of_desc _ _ _ (ns_only _ _ _ _ _ N) k Hk1).
  - intros j. rewrite Hfree, (ns_free _ _ _ _ _ N), !elem_of_cons, (ns_held _ _ _ _ _ N). done.
  - by rewrite (ns_held _ _ _ _ _ N).
  - intros i (v & ptep & Hv & Hl & _). by apply (ns_leaf _ _ _ _ _ N v ptep).
  - intros va sh Hsh Hi. rewrite (ns_kernel _ _ _ _ _ N va sh Hsh Hi).
    assert (same_tables (ram s) (ram s1) kernel_pgdir) as Hs; [|by apply (same_tables_translate _ _ _ Hs)].
    eapply (only_free_wf s s1 rs rs1); [done|apply M0|apply M1..|]. intros j ?. rewrite Hfree. set_solver.
Qed.

Lemma building_step s s2 s3 rs rs2 rs3 (k root : Z) A A' :
  building s s2 rs rs2 k root A → as_rep s3 rs3 root A' → as_frame root s2 s3 rs2 rs3 A A' → building s s3 rs rs3 k root A'.
Proof.
  intros B R3 F. pose proof (root_not_held _ _ _ _ (bu_rep _ _ _ _ _ _ _ B)) as Hroot. destruct (bu_apart _ _ _ _ _ _ _ B) as [Hne Hk].
  constructor; try apply B; try done.
  - eapply only_free_as; [apply B|done|apply B|apply (bu_pages _ _ _ _ _ _ _ B); by right; left|].
    intros j ?. apply (bu_pages _ _ _ _ _ _ _ B). by right; right.
  - destruct (bu_root _ _ _ _ _ _ _ B) as (Hb & pg & Hpg & ?). split; [done|]. exists pg. by rewrite (af_desc _ _ _ _ _ _ _ F).
  - destruct (bu_desc _ _ _ _ _ _ _ B) as (pg & Hpg & ?). exists pg. by rewrite (af_desc _ _ _ _ _ _ _ F).
  - intros j. rewrite (bu_pages _ _ _ _ _ _ _ B), (af_held _ _ _ _ _ _ _ F). done.
  - by rewrite <- (af_held _ _ _ _ _ _ _ F).
  - by apply F, B.
  - intros i (v & ptep & Hv & Hl & Hp & He). destruct (af_rest _ _ _ _ _ _ _ F) as (_ & _ & Esw). rewrite Esw in He.
    destruct (af_entries _ _ _ _ _ _ _ F v ptep Hv Hl) as [?|[E|[Hl2 E]]]; [congruence|rewrite E in He|].
    + unfold entry_slot in He. change (has 0 ENTRY_HAS_PERMISSIONS) with false in He. by rewrite andb_false_r in He.
    + apply (bu_swap _ _ _ _ _ _ _ B i). exists v, ptep. by rewrite <- E.
  - intros va sh Hsh Hi. rewrite (af_kernel _ _ _ _ _ _ _ F va sh Hsh Hi). by apply (bu_kernel _ _ _ _ _ _ _ B va sh).
Qed.

(** Freeing the descriptor's page. *)
Lemma kfree_desc s2 rs2 (k : Z) :
  pmm_rep (pm s2) rs2 → kpage (pm s2) k → k ∉ free_pages rs2 → kva_of k ≠ 0 ∧ 0 ≤ k ∧ kva_of k < 2 ^ 64 →
  ∃ t rs', on_pm (kfree KERNEL_BASE (kva_of k)) s2 = Ret tt (with_pm t s2) ∧ pmm_rep t rs' ∧ free_pages rs' ≡ₚ k :: free_pages rs2 ∧
    only_free s2 (with_pm t s2) rs'.
Proof.
  intros Rp Hkp Hk (H0 & H1 & H2). destruct (kfree_page (pm s2) rs2 k Rp Hkp Hk H0 H1 H2) as (t & rs' & E & R' & Hperm & (Fd & Fs & Fn) & _).
  exists t, rs'. split_and!; [by apply on_pm_Ret|done..|]. apply only_free_pm. split_and!.
  - intros i. rewrite Hperm. apply Fd.
  - apply Fs.
  - intros x Hx Hp. apply Fn; [done|]. intros i Hi. apply Hp. by rewrite Hperm.
Qed.

(** An address space that is given up leaves the memory as it was. *)
Lemma building_discard s s2 rs rs2 (k root : Z) A :
  mem_ok s rs → building s s2 rs rs2 k root A →
  ∃ s' rs', delete_memory (MkMemory (kva_of k) (Some root)) s2 = Ret tt s' ∧ only_free s s' rs ∧ mem_ok s' rs' ∧
    ∀ j, j ∈ free_pages rs' ↔ j ∈ free_pages rs.
Proof.
  intros M0 B. destruct (of_swap _ _ _ (bu_only _ _ _ _ _ _ _ B) (mo_swap _ _ M0)) as (Hsw & Hes & Hus).
  destruct (bu_apart _ _ _ _ _ _ _ B) as [Hne Hk]. pose proof (bu_pages _ _ _ _ _ _ _ B) as Hpages.
  destruct (free_user_pgdir_spec s2 rs2 root A (bu_rep _ _ _ _ _ _ _ B) (bu_root _ _ _ _ _ _ _ B) Hsw) as
    (s3 & rs3 & E3 & R3 & _ & Hfree3 & Hd3 & _ & Hn3 & (Hsw3 & Hes3 & Hus3) & Hs3).
  unfold delete_memory. cbn [md_pgdir md_addr]. rewrite (bind_Ret _ _ _ _ _ E3).
  assert (only_free s s3 rs) as F3.
  { constructor.
    - intros x Hx. rewrite Hs3. cbn [ram]. by apply B.
    - intros j Hj. rewrite Hpages in Hj. rewrite Hd3 by tauto. apply B. rewrite Hpages. tauto.
    - intros x Hx Hp Ha. rewrite (Hn3 (bu_queue _ _ _ _ _ _ _ B)); [by apply (of_nodes _ _ _ (bu_only _ _ _ _ _ _ _ B))|done|].
      intros j Hj. apply Hp. rewrite Hpages. rewrite Hfree3 in Hj. tauto.
    - intros _. split_and!; [done|intros; by rewrite Hes3, Hes|]. intros i Hi. rewrite <- Hus by done. apply eq_true_iff_eq. rewrite (Hus3 i Hi).
      split; [by intros []|]. intros ?. split; [done|]. by apply B.
    - rewrite Hs3. apply B. }
  destruct (kfree_desc s3 rs3 k R3) as (t & rs' & E' & R' & Hperm & F').
  { destruct (bu_desc _ _ _ _ _ _ _ B) as (pg & Hpg & ?). exists pg. by rewrite Hd3. }
  { rewrite Hfree3. by intros [?|?]. }
  { apply B. }
  assert (∀ j, j ∈ free_pages rs' ↔ j ∈ free_pages rs) as Hj.
  { intros j. rewrite Hperm, elem_of_cons, Hfree3, Hpages. done. }
  exists (with_pm t s3), rs'. assert (only_free s (with_pm t s3) rs) as Fall.
  { eapply only_free_trans; [exact F3|exact F'|]. intros j. by rewrite Hj. }
  split_and!; [done|done| |done]. apply (mem_ok_free s _ rs rs'); [done|done|done| |by intros j ?%Hj].
  intros a. cbn [ram with_pm]. rewrite Hs3. cbn [ram]. apply (bu_rep _ _ _ _ _ _ _ B).
Qed.

(** ** The stack *)

Definition stacked s (v n : Z) A A' : Prop := ∀ w,
  if (v <=? w) && (w <? v + n) then
    ∃ u, A' !! w = Some u ∧ up_write u = true ∧ up_exec u = false ∧
      ∀ k, 0 ≤ k < PG_SIZE → byte_get (ram s) (up_page u * PG_SIZE + k) = 0
  else A' !! w = A !! w.

Lemma stack_loop_spec (root : Z) n : ∀ (v : Z) s rs A,
  as_rep s rs root A → 0 ≤ v → v + Z.of_nat n ≤ upages → (∀ w, v ≤ w < v + Z.of_nat n → A !! w = None) →
  (∃ s' rs' A', stack_loop n root (v * PG_SIZE) s = Ret tt s' ∧ as_rep s' rs' root A' ∧ as_frame root s s' rs rs' A A' ∧
     keeps_pages A s s' ∧ stacked s' v (Z.of_nat n) A A') ∨
  (∃ s' rs' A', stack_loop n root (v * PG_SIZE) s = Fail E_NoMem s' ∧ as_rep s' rs' root A' ∧ as_frame root s s' rs rs' A A' ∧
     (length (free_pages rs') ≤ 1)%nat).
Proof.
  destruct user_top_pages as [Htop Hup].
  induction n as [|n IH]; intros v s rs A R Hv Hn Hnone.
  { left. exists s, rs, A. split_and!; [done|done|apply as_frame_refl|done|]. intros w. case_bool; try done; lia. }
  cbn [stack_loop]. rewrite <- bind_assoc.
  destruct (map_fresh root s rs A v VM_USER_RW true false ltac:(done) R ltac:(lia) ltac:(apply Hnone; lia)) as
    [(s1 & rs1 & u & E & R1 & F1 & (Hw & Hx & Hz) & K1)|(s1 & rs1 & E & R1 & F1 & Hfew)].
  2:{ right. exists s1, rs1, A. by rewrite (bind_Fail _ _ _ _ _ E). }
  rewrite (bind_Ret _ _ _ _ _ E). rewrite u64_small by (unfold PG_SIZE in *; lia).
  replace (v * PG_SIZE + PG_SIZE) with ((v + 1) * PG_SIZE) by lia.
  destruct (IH (v + 1) s1 rs1 (<[v := u]> A) R1) as [(s2 & rs2 & A2 & E2 & R2 & F2 & K2 & St)|(s2 & rs2 & A2 & E2 & R2 & F2 & Hfew)]; [lia..| | |].
  - intros w Hw'. rewrite lookup_insert_ne by lia. apply Hnone. lia.
  - left. exists s2, rs2, A2. split_and!; [done|done|by eapply as_frame_trans| |].
    + intros y v' u' Hu' Hy. rewrite (K2 y v' u'); [by apply (K1 y v' u')| |done]. rewrite lookup_insert_ne; [done|].
      intros <-. rewrite Hnone in Hu' by lia. done.
    + intros w. specialize (St w). destruct (decide (w = v)) as [->|Hne].
      * rewrite (proj2 (Z.leb_gt (v + 1) v)) in St by lia. cbn [andb] in St. rewrite lookup_insert_eq in St.
        rewrite (proj2 (Z.leb_le v v)), (proj2 (Z.ltb_lt v (v + _))) by lia. cbn [andb]. exists u. split_and!; try done.
        intros k Hk. rewrite (keeps_bytes _ _ _ v u k K2) by (rewrite ?lookup_insert_eq; done). by apply Hz.
      * rewrite lookup_insert_ne in St by done. replace (v + 1 + Z.of_nat n) with (v + Z.of_nat (S n)) in St by lia.
        assert ((v + 1 <=? w) = (v <=? w)) as Hle by (case_bool; lia). by rewrite Hle in St.
  - right. exists s2, rs2, A2. split_and!; [done|done|by eapply as_frame_trans|done].
Qed.

Definition stack_page (v : Z) : bool :=
  ((USER_STACK_TOP - USER_STACK_SIZE) / PG_SIZE <=? v) && (v <? USER_STACK_TOP / PG_SIZE).

Lemma stack_pages_eq : ∃ b n : Z, USER_STACK_TOP - USER_STACK_SIZE = b * PG_SIZE ∧ USER_STACK_SIZE = n * PG_SIZE ∧ 0 ≤ b ∧ 0 < n ∧
  b + n ≤ upages ∧ ∀ v, stack_page v = (b <=? v) && (v <? b + n).
Proof.
  destruct stack_pages as [[t Ht] [n Hn]]. destruct stack_inside as [H0 H1]. destruct user_top_pages as [Htop _].
  assert (USER_STACK_TOP - USER_STACK_SIZE = (t - n) * PG_SIZE) as Eb by lia.
  exists (t - n), n. split_and!; [done|done|unfold PG_SIZE in *; lia..|]. intros v. unfold stack_page. rewrite Eb, Ht.
  unfold PG_SIZE. rewrite !Z.div_mul by lia. by replace (t - n + n) with t by lia.
Qed.

(** The segments of a valid image leave the stack alone. *)
Lemma image_off_stack data v :
  Forall is_byte data → valid_image data = true → stack_page v = true → img_page (segments data) v = false.
Proof.
  intros Hb Hv Hs. destruct (valid_image_inv data Hb Hv) as (_ & _ & _ & _ & Hok & _). fold (segments data) in Hok.
  destruct stack_pages_eq as (b & n & Eb & En & _ & _ & _ & Hsp). rewrite Hsp in Hs.
  apply andb_prop in Hs as [H1%Z.leb_le H2%Z.ltb_lt]. apply not_true_is_false. intros (ph & Hin & Ht)%existsb_exists.
  apply list_elem_of_In in Hin. destruct (proj1 (Forall_forall _ _) Hok ph Hin) as [Hr Hseg].
  unfold touches in Ht. apply andb_prop in Ht as [[Hl H3%Z.leb_le]%andb_prop H4%Z.ltb_lt].
  unfold loadable in Hl. apply andb_prop in Hl as [Hty Hz]. unfold segment_ok in Hseg. rewrite Hty in Hseg. cbn [negb orb] in Hseg.
  apply andb_prop in Hseg as [_ Hseg]. destruct (p_memsz ph =? 0); [done|]. cbn [orb] in Hseg. apply andb_prop in Hseg as [_ Hseg].
  pose proof (Z.div_mod (p_va ph) PG_SIZE ltac:(done)). pose proof (Z.mod_pos_bound (p_va ph) PG_SIZE ltac:(done)).
  apply orb_prop in Hseg as [Hseg%Z.leb_le|Hseg%Z.leb_le]; unfold PG_SIZE in *; lia.
Qed.

(** What the new program sees. *)
Definition image_view (data : list Z) s (root : Z) : Prop := ∀ va, 0 ≤ va < USER_SPACE_TOP →
  let segs := segments data in let v := va / PG_SIZE in
  match translate (ram s) root va with
  | Some x =>
      tr_read x = true ∧
      if stack_page v then tr_write x = true ∧ tr_exec x = false ∧ byte_get (ram s) (tr_pa x) = 0
      else img_page segs v = true ∧ tr_write x = img_write segs v ∧ tr_exec x = img_exec segs v ∧
           byte_get (ram s) (tr_pa x) = img_byte data segs va
  | None => img_page segs v = false ∧ stack_page v = false
  end.

Lemma image_stack_view data s1 s2 rs2 (root b n : Z) A1 A2 :
  as_rep s2 rs2 root A2 → loaded data (segments data) s1 A1 → keeps_pages A1 s1 s2 → stacked s2 b n A1 A2 →
  (∀ v, stack_page v = (b <=? v) && (v <? b + n)) → image_view data s2 root.
Proof.
  intros R [Hd Hp Hb] K St Hsp va Hva. cbv zeta. set (v := va / PG_SIZE). specialize (St v). rewrite <- Hsp in St.
  pose proof (Z.mod_pos_bound va PG_SIZE ltac:(done)) as Hm. pose proof (Z.div_mod va PG_SIZE ltac:(done)) as Hdm. fold v in Hdm.
  destruct (stack_page v).
  - destruct St as (u & Hu & Hw & Hx & Hz). rewrite (as_translate s2 rs2 root A2 va u R Hu). cbn [tr_read tr_write tr_exec tr_pa].
    split_and!; [done..|]. by apply Hz.
  - destruct (A1 !! v) as [u|] eqn:Hu.
    + rewrite (as_translate s2 rs2 root A2 va u R St). cbn [tr_read tr_write tr_exec tr_pa]. destruct (Hp v u Hu) as [-> ->].
      split_and!; [done|by apply Hd; rewrite Hu|done..|]. rewrite (keeps_bytes _ _ _ v u _ K Hu Hm), (Hb v u _ Hu Hm). f_equal. lia.
    + rewrite (as_unmapped s2 rs2 root A2 va R Hva) by done. split; [|done]. apply not_true_is_false. intros Him.
      apply (proj2 (Hd v)) in Him. rewrite Hu in Him. by destruct Him.
Qed.

(** ** [UserImage::load] *)

(** Loading the program and its stack into an empty address space. *)
Lemma populate_spec data s rs (k root : Z) s2 rs2 :
  Forall is_byte data → Z.of_nat (length data) < 2 ^ 64 → building s s2 rs rs2 k root ∅ →
  let memory := MkMemory (kva_of k) (Some root) in
  let run := (entry_va <- load (Some data) (Z.of_nat (length data)) (md_pgdir memory);;
              stack_va <- setup_user_stack (md_pgdir memory);; ret (MkImage memory entry_va stack_va)) s2 in
  ∃ s3 rs3 A, building s s3 rs rs3 k root A ∧
    (run = Ret (MkImage memory (e_entry (elf_header data)) USER_STACK_TOP) s3 ∧ valid_image data = true ∧ image_view data s3 root ∨
     ∃ e, run = Fail e s3 ∧ e = if valid_image data then E_NoMem else E_Invalid).
Proof.
  intros Hby Hlen B memory run. pose proof (elf_load_spec data s2 rs2 root (bu_rep _ _ _ _ _ _ _ B) Hby Hlen) as Hl. cbv zeta in Hl.
  unfold run, memory. cbn [md_pgdir]. destruct (valid_image data) eqn:Hvi.
  2:{ exists s2, rs2, ∅. split; [done|]. right. exists E_Invalid. by rewrite (bind_Fail _ _ _ _ _ Hl). }
  destruct Hl as [(s3 & rs3 & A & E & R3 & F3 & L)|(s3 & rs3 & A & E & R3 & F3 & _)].
  2:{ exists s3, rs3, A. split; [by eapply building_step|]. right. exists E_NoMem. by rewrite (bind_Fail _ _ _ _ _ E). }
  rewrite (bind_Ret _ _ _ _ _ E). pose proof (building_step _ _ _ _ _ _ _ _ _ _ B R3 F3) as B3.
  destruct stack_pages_eq as (b & n & Eb & En & Hb0 & Hn & Hup & Hsp). unfold setup_user_stack.
  replace ((USER_STACK_TOP - (USER_STACK_TOP - USER_STACK_SIZE)) / PG_SIZE) with n.
  2:{ replace (USER_STACK_TOP - (USER_STACK_TOP - USER_STACK_SIZE)) with (n * PG_SIZE) by lia. unfold PG_SIZE. by rewrite Z.div_mul. }
  rewrite Eb. destruct (stack_loop_spec root (Z.to_nat n) b s3 rs3 A R3) as
    [(s4 & rs4 & A4 & E4 & R4 & F4 & K4 & St)|(s4 & rs4 & A4 & E4 & R4 & F4 & _)]; [lia..| | |].
  - intros w Hw. destruct (A !! w) eqn:Hu; [|done]. pose proof (proj1 (ld_dom _ _ _ _ L w) (mk_is_Some _ _ Hu)) as Him.
    rewrite (image_off_stack data w Hby Hvi) in Him; [done|]. rewrite Hsp. apply andb_true_intro. split; [apply Z.leb_le|apply Z.ltb_lt]; lia.
  - exists s4, rs4, A4. split; [by eapply building_step|]. left. rewrite Z2Nat.id in St by lia. cbv zeta.
    erewrite bind_Ret by (erewrite bind_Ret by exact E4; done). split_and!; [done|done|].
    by apply (image_stack_view data s3 s4 rs4 root b n A A4).
  - exists s4, rs4, A4. split; [by eapply building_step|]. right. exists E_NoMem. cbv zeta.
    erewrite bind_Fail by (erewrite bind_Fail by exact E4; done). done.
Qed.

Lemma owning_Ret {B} (d : MemoryDesc) (f : M mm B) s b s' : f s = Ret b s' → owning_memory d f s = Ret b s'.
Proof. intros E. unfold owning_memory. by erewrite bind_Ret by (unfold try_; rewrite E; done). Qed.
Lemma owning_Fail {B} (d : MemoryDesc) (f : M mm B) s e s1 s' :
  f s = Fail e s1 → delete_memory d s1 = Ret tt s' → owning_memory d f s = Fail e s'.
Proof.
  intros E E'. unfold owning_memory. erewrite bind_Ret by (unfold try_; rewrite E; done). cbv beta iota. by rewrite (bind_Ret _ _ _ _ _ E').
Qed.

Lemma image_load_spec data s rs :
  mem_ok s rs → Forall is_byte data → Z.of_nat (length data) < 2 ^ 64 →
  let run := image_load kernel_pgdir data (Z.of_nat (length data)) s in
  (∃ s' rs' k root A, run = Ret (MkImage (MkMemory (kva_of k) (Some root)) (e_entry (elf_header data)) USER_STACK_TOP) s' ∧
     valid_image data = true ∧ building s s' rs rs' k root A ∧ image_view data s' root ∧ mem_ok s' rs') ∨
  (∃ e s' rs', run = Fail e s' ∧ (e = E_NoMem ∨ e = E_Invalid ∧ valid_image data = false) ∧
     only_free s s' rs ∧ mem_ok s' rs' ∧ ∀ j, j ∈ free_pages rs' ↔ j ∈ free_pages rs).
Proof.
  intros M0 Hby Hlen run. unfold run, image_load.
  destruct (new_memory_spec s rs M0) as [[E ->]|(k & s1 & rs1 & E & H0 & H1 & H2 & F1 & M1 & Hfree & Hk & Hkp)].
  { right. exists E_NoMem, s, []. rewrite (bind_Fail _ _ _ _ _ E). split_and!; [done|by left|apply only_free_refl|done|done]. }
  rewrite (bind_Ret _ _ _ _ _ E).
  destruct (create_user_pgdir_spec s1 rs1 M1) as [[E2 ->]|(root & s2 & rs2 & E2 & N)].
  { destruct (kfree_desc s1 [] k (wf_rep _ _ _ (mo_wf _ _ M1)) Hkp Hk ltac:(done)) as (t & rs' & Ef & R' & Hperm & F').
    assert (∀ j, j ∈ free_pages rs' ↔ j ∈ free_pages rs) as Hj by (intros j; rewrite Hperm, Hfree; done).
    assert (only_free s (with_pm t s1) rs) as Fall by (eapply only_free_trans; [exact F1|exact F'|intros j; by rewrite Hj]).
    right. exists E_NoMem, (with_pm t s1), rs'. split_and!; [|by left|done| |done].
    - erewrite (bind_Fail (owning_memory _ _)); [done|]. by apply (owning_Fail _ _ _ _ _ _ E2).
    - apply (mem_ok_free s _ rs rs'); [done|done|done|apply M1|by intros j ?%Hj]. }
  rewrite (bind_Ret _ _ _ _ _ (owning_Ret _ _ _ _ _ E2)). cbn [md_addr].
  pose proof (building_start s s1 s2 rs rs1 rs2 k root M0 F1 Hfree Hkp ltac:(done) M1 N) as B.
  destruct (populate_spec data s rs k root s2 rs2 Hby Hlen B) as (s3 & rs3 & A & B3 & [(E3 & Hvi & Hview)|(e & E3 & He)]).
  - left. exists s3, rs3, k, root, A. split_and!; [by apply owning_Ret|done..|].
    apply (mem_ok_free s s3 rs rs3); [apply B3|done|apply (bu_rep _ _ _ _ _ _ _ B3)..|].
    intros j Hj. apply (bu_pages _ _ _ _ _ _ _ B3). right. right. by left.
  - destruct (building_discard s s3 rs rs3 k root A M0 B3) as (s' & rs' & E' & F' & M' & Hj).
    right. exists e, s', rs'. split_and!; [|destruct (valid_image data); subst e; [by left|by right]|done..].
    by apply (owning_Fail _ _ _ _ _ _ E3).
Qed.

(** C2: preparing a user image ([UserImage::load]).  On success the new address
    space is well formed and owns its root table; it maps exactly the pages of
    the program, with the bytes and the rights of its segments, and the pages
    of the stack, zeroed, writable and not executable; the kernel half is the
    kernel's; and the pages that were free before are the descriptor, the root
    table, and what the address space holds or is still free.  On failure
    (invalid image, or out of memory at any point) the set of free pages is
    what it was.  In both cases only memory that was free is touched, the swap
    slots are unchanged, and every other address space and the contents of its
    pages are as before. *)
Theorem image_load_correct data s rs :
  mem_ok s rs → Forall is_byte data → Z.of_nat (length data) < 2 ^ 64 →
  let run := image_load kernel_pgdir data (Z.of_nat (length data)) s in
  ∃ s' rs', mem_ok s' rs' ∧ only_free s s' rs ∧
    (∀ root2 A2, as_rep s rs root2 A2 → queues_live s rs A2 → as_rep s' rs' root2 A2 ∧ keeps_pages A2 s s') ∧
    ((∃ k root A, run = Ret (MkImage (MkMemory (kva_of k) (Some root)) (e_entry (elf_header data)) USER_STACK_TOP) s' ∧
        valid_image data = true ∧ as_rep s' rs' root A ∧ private_root root s' ∧ image_view data s' root ∧
        (∀ va sh, head walk_shifts = Some sh → USER_TOP_ENTRIES ≤ level_index va sh →
           translate (ram s') root va = translate (ram s) kernel_pgdir va) ∧
        ∀ j, j ∈ free_pages rs ↔ j = k ∨ j = phys_to_page root ∨ held s' rs' root A j) ∨
     (∃ e, run = Fail e s' ∧ (e = E_NoMem ∨ e = E_Invalid ∧ valid_image data = false) ∧
        ∀ j, j ∈ free_pages rs' ↔ j ∈ free_pages rs)).
Proof.
  intros M0 Hby Hlen run.
  assert (∀ s' rs', only_free s s' rs → mem_ok s' rs' → (∀ j, j ∈ free_pages rs' → j ∈ free_pages rs) →
    ∀ root2 A2, as_rep s rs root2 A2 → queues_live s rs A2 → as_rep s' rs' root2 A2 ∧ keeps_pages A2 s s') as Hother.
  { intros s' rs' F M' Hsub root2 A2. apply only_free_other; try done; apply (mo_wf _ _ M'). }
  destruct (image_load_spec data s rs M0 Hby Hlen) as
    [(s' & rs' & k & root & A & E & Hvi & B & Hview & M')|(e & s' & rs' & E & He & F & M' & Hj)]; exists s', rs'.
  - assert (∀ j, j ∈ free_pages rs' → j ∈ free_pages rs) as Hsub.
    { intros j Hj. apply (bu_pages _ _ _ _ _ _ _ B). right. right. by left. }
    split_and!; [done|apply B|apply Hother; [apply B|done..]|]. left. exists k, root, A. split_and!; try done; apply B.
  - split_and!; [done|done|apply Hother; [done..|by intros j ?%Hj]|]. right. by exists e.
Qed.
End exec.
