(* ===== verification/ExecWitness.v ===== *)
(** * User address spaces on the three architectures

    The layouts of [asm/page.h] satisfy what [AddrSpace] relies on, and a
    concrete x86-64 machine: 24 pages, of which page 1 is the kernel's root
    table and pages 2 to 21 are free, on which a small executable is loaded. *)

From S2P Require Import Prelude PagingX86 PagingAArch64 PagingRiscV64.
From S2P Require Import LibList Pmm PmmProofs Paging SwapSlots PageTable PageTableProofs Vmm VmmProofs AddrSpace Teardown Elf ElfProofs Exec ExecProofs.

Lemma x86_user : @UserLayoutLaws x86_paging x86_layout.
Proof. constructor; [by exists 39|split; by apply Z.mod_divide|split; [done|simpl; lia]|done|by vm_compute]. Qed.
Lemma aarch64_user : @UserLayoutLaws aarch64_paging aarch64_layout.
Proof. constructor; [by exists 39|split; by apply Z.mod_divide|split; [done|simpl; lia]|done|by vm_compute]. Qed.
Lemma riscv64_user : @UserLayoutLaws riscv64_paging riscv64_layout.
Proof. constructor; [by exists 30|split; by apply Z.mod_divide|split; [done|simpl; lia]|done|by vm_compute]. Qed.

(** ** Memory *)

Definition big_boot : pmm := MkPmm
  (list_to_map ((λ i, (i, Page0)) <$> seqZ 0 24))
  (init_node FreeList (foldr (λ i, init_node (PageNode i)) ∅ (seqZ 0 24))) 0.
Definition big_free : pmm := Eval vm_compute in default big_boot (out_state (init_memmap 2 20 big_boot)).
Definition big_mm : mm := MkMm big_free 24 ∅ PG_SIZE [] (init_slots 64).

Lemma big_boot_rep : pmm_rep big_boot [].
Proof.
  constructor; try done; try (intros ?? []%elem_of_nil); try (intros ? []%elem_of_nil); [..|constructor].
  - split; [repeat constructor; set_solver|by vm_compute].
  - intros i [p Hp]. revert i p Hp.
    change (map_Forall (λ i _, is_Some (nodes big_boot !! PageNode i)) (page_desc big_boot)).
    by apply (bool_decide_unpack _); vm_compute.
Qed.

Lemma big_free_rep : pmm_rep big_free [(2, 20)].
Proof.
  destruct (init_memmap_spec big_boot [] 2 20 big_boot_rep) as (s1 & Hs1 & R1 & _); [lia| |].
  { intros i Hi. split; [|set_solver]. revert i Hi. apply Forall_forall, (bool_decide_unpack _). by vm_compute. }
  replace big_free with s1; [done|]. apply (f_equal out_state) in Hs1.
  change (Some big_free = Some s1) in Hs1. by injection Hs1.
Qed.

#[local] Existing Instance x86_paging.
#[local] Existing Instance x86_laws.
#[local] Existing Instance x86_layout.
#[local] Existing Instance x86_user.

Lemma big_frames i : 0 ≤ i < 24 → frame (i * PG_SIZE).
Proof. intros. unfold frame, PG_SIZE. simpl. split; [lia|]. exists i. lia. Qed.

Lemma big_wf : pt_wf big_mm [(2, 20)] PG_SIZE.
Proof.
  assert (∀ p a, table_at (ram big_mm) PG_SIZE p = Some a → p = [] ∧ a = PG_SIZE) as Hroot.
  { intros [|i p] a; [naive_solver|]. simpl. unfold word. by rewrite lookup_empty. }
  constructor.
  - apply big_free_rep.
  - intros a. unfold word, big_mm. simpl. rewrite lookup_empty. done.
  - intros i (p & k & [= -> ->]%list_elem_of_singleton & ?)%elem_of_free_pages. apply big_frames. lia.
  - intros p a _ [-> ->]%Hroot. split; [apply (big_frames 1); lia|]. apply (bool_decide_unpack _). by vm_compute.
  - intros p q a _ _ [-> _]%Hroot [-> _]%Hroot. done.
Qed.

Lemma big_ok : mem_ok PG_SIZE big_mm [(2, 20)].
Proof.
  constructor; [apply big_wf| |by intros _; apply ex_slots_wf].
  intros i [p Hp]. revert i p Hp. change (map_Forall (λ i _, 0 ≤ i ∧ KERNEL_BASE + i * PG_SIZE < 2 ^ 64) (page_desc (pm big_mm))).
  by apply (bool_decide_unpack _); vm_compute.
Qed.

(** ** An executable: one segment of two pages, 124 bytes of it in the file *)

Definition le (n : nat) (v : Z) : list Z := (λ i, Z.shiftr v (8 * Z.of_nat i) mod 256) <$> seq 0 n.
Definition ex_elf : list Z := Eval vm_compute in
  [0x7F; 0x45; 0x4C; 0x46; 2; 1; 1; 0] ++ le 8 0 ++
  le 2 2 ++ le 2 0x3E ++ le 4 1 ++ le 8 0x400078 ++ le 8 64 ++ le 8 0 ++ le 4 0 ++ le 2 64 ++ le 2 56 ++ le 2 1 ++ le 2 0 ++ le 2 0 ++ le 2 0 ++
  le 4 1 ++ le 4 5 ++ le 8 0 ++ le 8 0x400000 ++ le 8 0 ++ le 8 124 ++ le 8 5000 ++ le 8 0x1000 ++
  [0xF4; 0xEB; 0xFD; 0x90].

Lemma ex_elf_bytes : Forall is_byte ex_elf.
Proof. unfold is_byte. apply (bool_decide_unpack _). by vm_compute. Qed.
Lemma ex_elf_valid : valid_image ex_elf = true.
Proof. by vm_compute. Qed.

Definition returns_value {S A} (o : Out S A) : bool := match o with Ret _ _ => true | _ => false end.

Lemma ex_image_loads : returns_value (image_load PG_SIZE ex_elf 124 big_mm) = true.
Proof. by vm_compute. Qed.

Lemma image_load_correct_witness :
  ∃ img s' root, image_load PG_SIZE ex_elf 124 big_mm = Ret img s' ∧ md_pgdir (memory_ img) = Some root ∧
    entry_va_ img = 0x400078 ∧ image_view ex_elf s' root.
Proof.
  destruct (image_load_correct PG_SIZE ex_elf big_mm [(2, 20)] big_ok ex_elf_bytes) as
    (s' & rs' & _ & _ & _ & [(k & root & A & E & _ & _ & _ & Hview & _)|(e & E & _)]); [by vm_compute|..].
  - eexists _, s', root. split; [exact E|]. split; [reflexivity|]. split; [by vm_compute|exact Hview].
  - exfalso. pose proof ex_image_loads as Hr. change 124 with (Z.of_nat (length ex_elf)) in Hr. rewrite E in Hr. discriminate Hr.
Defined.


(** The lower half of the root table is empty. *)
Lemma big_as : as_rep big_mm [(2, 20)] PG_SIZE ∅.
Proof.
  assert (∀ p a, table_at (ram big_mm) PG_SIZE p = Some a → p = []) as Hroot.
  { intros [|i p] a; [done|]. simpl. unfold word. by rewrite lookup_empty. }
  constructor; [apply big_wf|..]; try (by intros v u; rewrite lookup_empty).
  - intros q i t a _ _ _ Ha%Hroot. by destruct q.
Qed.

Lemma elf_load_correct_witness :
  ∃ s', load (Some ex_elf) 124 (Some PG_SIZE) big_mm = Ret 0x400078 s' ∧
    ∃ x, translate (ram s') PG_SIZE 0x400078 = Some x ∧ tr_exec x = true ∧ tr_write x = false ∧ byte_get (ram s') (tr_pa x) = 0xF4.
Proof.
  assert (returns_value (load (Some ex_elf) 124 (Some PG_SIZE) big_mm) = true) as Hr by by vm_compute.
  pose proof (elf_load_correct ex_elf big_mm [(2, 20)] PG_SIZE big_as ex_elf_bytes eq_refl) as Hl. cbv zeta in Hl.
  rewrite ex_elf_valid in Hl. destruct Hl as (s' & rs' & A & _ & _ & [(E & _)|(E & _ & Hview)]).
  - exfalso. change 124 with (Z.of_nat (length ex_elf)) in Hr. rewrite E in Hr. discriminate Hr.
  - exists s'. split; [exact E|]. clear E Hr. specialize (Hview 0x400078 ltac:(by vm_compute)).
    destruct (translate (ram s') PG_SIZE 0x400078) as [x|]; [|vm_compute in Hview; discriminate Hview].
    destruct Hview as (_ & _ & Hw & Hx & Hb). exists x. split; [reflexivity|]. rewrite Hw, Hx, Hb. by vm_compute.
Defined.

(** ** The loaded program *)

Definition ex_proc : mm := default big_mm (out_state (image_load PG_SIZE ex_elf 124 big_mm)).

Lemma one_run (t : pmm) rs p k : pmm_rep t rs → ring (nodes t) FreeList [PageNode p] → block_page_count <$> page_desc t !! p = Some k → rs = [(p, k)].
Proof.
  intros R Hr Hk. pose proof (ring_unique _ _ _ _ (rep_ring _ _ R) Hr) as E. destruct rs as [|[p' k'] [|? ?]]; simplify_eq/=.
  pose proof (rep_block _ _ R p k' ltac:(left)). by simplify_eq.
Qed.

Lemma ex_proc_ring : ring (nodes (pm ex_proc)) FreeList [PageNode 16] ∧ block_page_count <$> page_desc (pm ex_proc) !! 16 = Some 6.
Proof. split; [split; [repeat constructor; set_solver|by vm_compute]|by vm_compute]. Qed.

Lemma ex_proc_rep : ∃ A, as_rep ex_proc [(16, 6)] 12288 A ∧ direct_mapped KERNEL_BASE (pm ex_proc) ∧ unqueued ex_proc A.
Proof.
  destruct (image_load_spec PG_SIZE ex_elf big_mm [(2, 20)] big_ok ex_elf_bytes) as
    [(s' & rs' & k & root & A & E & _ & B & _ & M')|(e & s' & rs' & E & _)]; [by vm_compute|..].
  - change (Z.of_nat (length ex_elf)) with 124 in E.
    assert (s' = ex_proc) as -> by (unfold ex_proc; by rewrite E).
    assert (root = 12288) as ->.
    { assert (match image_load PG_SIZE ex_elf 124 big_mm with Ret img _ => md_pgdir (memory_ img) | _ => None end = Some 12288) as Hr by (by vm_compute).
      rewrite E in Hr. by injection Hr. }
    destruct ex_proc_ring as [Hr Hk].
    rewrite (one_run _ _ 16 6 (wf_rep _ _ _ (mo_wf _ _ _ M')) Hr Hk) in *. exists A. split_and!; [apply B|apply M'|apply B].
  - exfalso. pose proof ex_image_loads as Hr. change 124 with (Z.of_nat (length ex_elf)) in Hr. rewrite E in Hr. discriminate Hr.
Qed.
