(* ===== verification/RamDisk.v ===== *)
(** * A block device in memory

    An instance of the interface of [BlockDev] on which every transfer inside
    the capacity succeeds; the concrete volumes of the examples live on it. *)

From S2P Require Import Prelude BlockDev.

Record ram : Set := MkRam { ram_count : Z; ram_data : gmap Z (list Z) }.

(** A sector: 512 bytes, zero where nothing was written. *)
Definition norm (bs : list Z) : list Z := take 512 (((λ b, b mod 256) <$> bs) ++ replicate 512 0).
Definition ram_sector (d : ram) (i : Z) : list Z := norm (default [] (ram_data d !! i)).

Fixpoint ram_read (d : ram) (lba : Z) (n : nat) : list Z :=
  match n with O => [] | S n => ram_sector d lba ++ ram_read d (lba + 1) n end.
Fixpoint ram_write (lba : Z) (n : nat) (buf : list Z) (m : gmap Z (list Z)) : gmap Z (list Z) :=
  match n with O => m | S n => ram_write (lba + 1) n (drop 512 buf) (<[lba := take 512 buf]> m) end.

Definition in_range (d : ram) (lba : Z) (n : nat) : bool := (0 <=? lba) && (lba + Z.of_nat n <=? u32 (ram_count d)).

#[export] Instance ram_device : BlockDevice ram := {|
  block_count d := u32 (ram_count d);
  dev_read lba n buf d := if in_range d lba n then (None, ram_read d lba n, d) else (Some E_Invalid, buf, d);
  dev_write lba n buf d :=
    if in_range d lba n then (None, MkRam (ram_count d) (ram_write lba n buf (ram_data d))) else (Some E_Invalid, d);
  sector := ram_sector |}.

Lemma length_norm bs : length (norm bs) = 512%nat.
Proof. unfold norm. rewrite length_take, length_app, length_replicate. lia. Qed.
Lemma norm_bytes bs : Forall is_byte (norm bs).
Proof.
  apply Forall_take, Forall_app. split; [|by apply Forall_replicate]. apply Forall_fmap, Forall_true. intros b. apply Z.mod_pos_bound. lia.
Qed.
Lemma norm_id bs : length bs = 512%nat → Forall is_byte bs → norm bs = bs.
Proof.
  intros Hl Hb. unfold norm. replace ((λ b, b mod 256) <$> bs) with bs.
  - by rewrite <- Hl, take_app_length.
  - clear Hl. induction Hb as [|b bs H _ IH]; [done|]. cbn. f_equal; [|done]. symmetry. by apply Z.mod_small.
Qed.

Lemma ram_read_sectors d n : ∀ lba, ram_read d lba n = sectors d lba n.
Proof. induction n as [|n IH]; intros lba; [done|]. cbn. by rewrite IH. Qed.
Lemma length_ram_read d n : ∀ lba, length (ram_read d lba n) = (512 * n)%nat.
Proof. induction n as [|n IH]; intros lba; [done|]. cbn [ram_read]. unfold ram_sector. rewrite length_app, length_norm, IH. lia. Qed.

Lemma ram_write_other n : ∀ lba buf m i, ¬ lba ≤ i < lba + Z.of_nat n → ram_write lba n buf m !! i = m !! i.
Proof.
  induction n as [|n IH]; intros lba buf m i Hi; [done|]. cbn [ram_write]. rewrite IH by lia. by rewrite lookup_insert_ne by lia.
Qed.
Lemma ram_write_read c n : ∀ lba buf m, length buf = (512 * n)%nat → Forall is_byte buf →
  ram_read (MkRam c (ram_write lba n buf m)) lba n = buf.
Proof.
  induction n as [|n IH]; intros lba buf m Hl Hb; [by destruct buf|]. cbn [ram_read ram_write].
  rewrite IH by (try (by apply Forall_drop); rewrite length_drop; lia).
  unfold ram_sector. cbn [ram_data]. rewrite ram_write_other by lia. rewrite lookup_insert_eq. change (norm (take 512 buf) ++ drop 512 buf = buf).
  rewrite norm_id; [apply take_drop|rewrite length_take; lia|by apply Forall_take].
Qed.

#[export] Instance ram_laws : BlockDeviceLaws ram.
Proof.
  split.
  - intros d. apply Z.mod_pos_bound. lia.
  - intros. apply length_norm.
  - intros. apply norm_bytes.
  - intros d lba n buf r buf' d'. cbn. destruct (in_range d lba n); intros [= <- <- <-] Hl; (split; [|split; [done|split; [done|]]]).
    + apply length_ram_read.
    + intros _. apply ram_read_sectors.
    + done.
    + done.
  - intros d lba n buf r buf' d'. cbn. destruct (in_range d lba n); intros [= <- <- <-] ?; [|done].
    rewrite ram_read_sectors. clear. revert lba. induction n; intros lba; [constructor|]. apply Forall_app. split; [apply norm_bytes|done].
  - intros d lba n buf r d'. cbn. destruct (in_range d lba n); intros [= <- <-] Hl Hb; (split; [done|split; [|try done]]).
    + intros i Hi. unfold ram_sector. cbn. by rewrite ram_write_other.
    + intros _. rewrite <- ram_read_sectors. by apply ram_write_read.
    + done.
Qed.

#[export] Instance ram_reliable : ReliableDevice ram.
Proof.
  split; intros d lba n buf H0 H1; cbn in *; unfold in_range;
    by rewrite (proj2 (Z.leb_le _ _) H0), (proj2 (Z.leb_le _ _) H1).
Qed.
