(* ===== verification/Swap.v ===== *)
(** * Swapping: [kernel/mm/swap.cpp], [kernel/mm/swap_fifo.cpp], [vmm::pg_fault]

    The FIFO queue of an address space, the search for the address of a page,
    [swap::in], [swap::out] with the transfers to the swap device, and the page
    fault handler.  The state is the memory manager's with the swap device; the
    bitmap of slots and the swap entries are in [SwapSlots].  An operation runs
    under [io_lock_] and, when it changes the tables, with interrupts off; the
    checks it repeats after a transfer are here as they are written. *)

From S2P Require Import Prelude LibList Pmm Paging SwapSlots PageTable Vmm BlockDev AddrSpace Exec.

(** [trap.h] *)
Definition PAGE_FAULT_PROTECTION : Z := 1.
Definition PAGE_FAULT_WRITE : Z := 2.
Definition PAGE_FAULT_USER : Z := 4.
Definition PAGE_FAULT_EXECUTE : Z := 16.

Section scan.
Context `{Paging}.

(** The loop of [scan_pt_for_pa] over the entries [ixs] of a table; [sub] scans
    the table below an entry.  0 is not found. *)
Fixpoint scan_loop (m : gmap Z Z) (is_leaf : bool) (sub : Z → Z → Z) (shift table base_va target_pa : Z) (ixs : list Z) : Z :=
  match ixs with
  | [] => 0
  | i :: ixs =>
      let continue := scan_loop m is_leaf sub shift table base_va target_pa ixs in
      let entry := word m (table + 8 * i) in
      if negb (pte_present entry) then continue
      else
        let va := Z.lor base_va (Z.shiftl i shift) in
        if is_leaf then if pte_addr entry =? target_pa then va else continue
        else if pte_is_block entry then continue
        else
          let result := sub (pte_addr entry) va in
          if negb (result =? 0) then result else continue
  end.
(** [scan_pt_for_pa] from the level whose shifts are left. *)
Fixpoint scan_pt_for_pa (m : gmap Z Z) (shifts : list Z) (entries table base_va target_pa : Z) : Z :=
  match shifts with
  | [] => 0
  | shift :: rest =>
      scan_loop m (bool_decide (rest = [])) (λ table va, scan_pt_for_pa m rest PAGE_TABLE_ENTRIES table va target_pa)
        shift table base_va target_pa (seqZ 0 entries)
  end.
Definition find_va_for_page (pgdir : option Z) (page : Z) : M mm Z :=
  match pgdir with
  | None => ret 0
  | Some pgdir => gets (λ s, scan_pt_for_pa (ram s) walk_shifts USER_TOP_ENTRIES pgdir 0 (page_to_phys page))
  end.
End scan.

(** ** [SwapManager] *)

Definition list_empty (x : node) : M mm bool := s <- get;; deref (empty_list (nodes (pm s)) x).

Definition map_swappable (mem : MemoryDesc) (page : Z) : M mm unit :=
  b <- list_empty (PageNode page);;
  ensure b E_Invalid;;
  on_pm (on_nodes (add_before (SwapList (md_addr mem)) (PageNode page))).
Definition swap_out_victim (mem : MemoryDesc) : M mm Z :=
  b <- list_empty (SwapList (md_addr mem));;
  if b then fail E_NotFound
  else
    victim <- on_pm (next_of (SwapList (md_addr mem)));;
    on_pm (on_nodes (unlink victim));;
    on_pm (container victim).

(** ** Transfers *)

Section swap.
Context `{Paging} {D : Type} `{BD : BlockDevice D}.
Notation S := (mm * D)%type.
(** [vmm::Manager::kernel_pgdir()] *)
Context (kernel_pgdir : Z).

Definition in_mm {A} (m : M mm A) : M S A := zoom fst (λ t s, (t, s.2)) m.
Definition no_device (s : S) : bool := bool_decide (device_type (swp s.1) = None).
Definition blocks : nat := Z.to_nat BLOCKS_PER_PAGE.

(** The slot's place on the device. *)
Definition swap_slot (entry : Z) : M S Z :=
  n <- gets no_device;; ensure (negb n) E_NoDevice;;
  slot <- in_mm (on_swp (allocated_slot entry));;
  ensure (negb (slot =? 0)) E_Invalid;;
  ret (u32 ((slot - 1) * BLOCKS_PER_PAGE)).
Definition swapfs_read (entry page : Z) : M S unit :=
  start_lba <- swap_slot entry;;
  λ s,
    let pa := page_to_phys page in
    let '((r, buf), d) := dev_read start_lba blocks (bytes_get (ram s.1) pa PG_SIZE) s.2 in
    let s' := (with_ram (bytes_set (ram s.1) pa buf) s.1, d) in
    match r with None => Ret tt s' | Some e => Fail e s' end.
Definition swapfs_write (entry page : Z) : M S unit :=
  start_lba <- swap_slot entry;;
  λ s,
    let '(r, d) := dev_write start_lba blocks (bytes_get (ram s.1) (page_to_phys page) PG_SIZE) s.2 in
    match r with None => Ret tt (s.1, d) | Some e => Fail e (s.1, d) end.

(** [swapfs_init] with the device [BlockManager::find_device] finds, by its
    number of blocks. *)
Definition swapfs_init (device : option Z) : M mm Z :=
  s <- get;;
  if negb (bool_decide (device_type (swp s) = None)) then ret 0
  else
    match device with
    | None => ret (-1)
    | Some block_count =>
        if slot_limit_of block_count <=? 1 then ret (-1)
        else
          p <- on_pm (kmalloc KERNEL_BASE ((slot_limit_of block_count + 7) / 8));;
          if p =? 0 then ret (-1)
          else modify (with_swp (init_slots block_count));; ret 0
    end.

(** ** [swap::in] *)

(** With the page that will hold the contents: the transfer and the mapping. *)
Definition fill_page (mem : MemoryDesc) (pgdir va ptep entry page : Z) : M S Z :=
  r <- try_ (swapfs_read entry page);;
  match r with
  | inr error => in_mm (on_pm (free page 1));; fail error
  | inl _ =>
      now <- in_mm (rd64 ptep);;
      if negb (now =? entry) then in_mm (on_pm (free page 1));; fail E_Busy
      else
        let perm := user_page_perm (has entry ENTRY_WRITE) (has entry ENTRY_EXECUTE) in
        r <- try_ (in_mm (map_swappable mem page;; page_insert pgdir page va perm));;
        match r with
        | inr error =>
            in_mm (on_pm (on_nodes (unlink (PageNode page))));;
            in_mm (on_pm (free page 1));;
            fail error
        | inl _ => in_mm (on_swp (release_entry entry));; ret page
        end
  end.
Definition swap_in (mem : MemoryDesc) (va : Z) : M S Z :=
  match md_pgdir mem with
  | None => fail E_Invalid
  | Some pgdir =>
      ensure (negb (pgdir =? kernel_pgdir) && (PG_SIZE <=? va) && (va <? USER_SPACE_TOP)) E_Invalid;;
      n <- gets no_device;; ensure (negb n) E_NoDevice;;
      ptep <- in_mm (get_pte pgdir va false);;
      match ptep with
      | None => fail E_NotFound
      | Some ptep =>
          entry <- in_mm (rd64 ptep);;
          slot <- (if pte_present entry then ret 0 else in_mm (on_swp (allocated_slot entry)));;
          ensure (negb (pte_present entry) && negb (slot =? 0)) E_Invalid;;
          page <- in_mm (on_pm (alloc 1));;
          match page with
          | None => fail E_NoMem
          | Some page => fill_page mem pgdir va ptep entry page
          end
      end
  end.

(** ** [swap::out] *)

(** The failed attempt: the page goes back to the front of the queue. *)
Definition requeue (mem : MemoryDesc) (victim : Z) : M S unit :=
  in_mm (on_pm (on_nodes (add_after (SwapList (md_addr mem)) (PageNode victim)))).

(** The transfer of a page that may go, and the switch of its entry. *)
Definition evict_page (mem : MemoryDesc) (pgdir victim va ptep slot resident : Z) : M S bool :=
  let entry := swap_entry slot (pte_writable resident) (pte_executable resident) in
  error <- try_ (swapfs_write entry victim);;
  now <- in_mm (rd64 ptep);;
  pg <- in_mm (on_pm (get_page victim));;
  if (match error with inl _ => false | inr _ => true end) || negb (now =? resident) || negb (ref_count pg =? 1) then
    in_mm (on_swp (release_entry entry));;
    requeue mem victim;;
    ret false
  else
    in_mm (wr64 ptep entry;; invalidate_tlb_page pgdir va;;
      on_pm (upd_page victim (λ pg, set_ref (ref_count pg - 1) pg));; on_pm (free victim 1));;
    ret true.

(** One iteration: whether a page was swapped out. *)
Definition evict (mem : MemoryDesc) (pgdir : Z) : M S bool :=
  r <- try_ (in_mm (swap_out_victim mem));;
  match r with
  | inr _ => ret false
  | inl victim =>
      va <- in_mm (find_va_for_page (Some pgdir) victim);;
      ptep <- (if negb (va =? 0) then in_mm (get_pte pgdir va false) else ret None);;
      reserved <- try_ (in_mm (on_swp reserve_slot));;
      resident <- (match ptep with Some ptep => in_mm (rd64 ptep) | None => ret 0 end);;
      pg <- in_mm (on_pm (get_page victim));;
      match ptep, reserved with
      | Some ptep, inl slot =>
          if negb (pte_present resident) || negb (pte_user resident) || negb (ref_count pg =? 1) then
            in_mm (on_swp (release_entry (Z.lor (Z.shiftl slot 8) ENTRY_HAS_PERMISSIONS)));;
            requeue mem victim;;
            ret false
          else evict_page mem pgdir victim va ptep slot resident
      | None, inl slot =>
          in_mm (on_swp (release_entry (Z.lor (Z.shiftl slot 8) ENTRY_HAS_PERMISSIONS)));;
          requeue mem victim;;
          ret false
      | _, inr _ => requeue mem victim;; ret false
      end
  end.

Fixpoint out_loop (n : nat) (mem : MemoryDesc) (pgdir swapped : Z) : M S Z :=
  match n with
  | O => ret swapped
  | Datatypes.S n => b <- evict mem pgdir;; if b then out_loop n mem pgdir (swapped + 1) else ret swapped
  end.
(** [current]: whether [mem] is the memory of the running task. *)
Definition swap_out (mem : option MemoryDesc) (current : bool) (page_count in_timer_tick : Z) : M S Z :=
  match mem with
  | None => ret 0
  | Some mem =>
      match md_pgdir mem with
      | None => ret 0
      | Some pgdir =>
          if (pgdir =? kernel_pgdir) || negb current || (page_count <=? 0) || negb (in_timer_tick =? 0) then ret 0
          else
            s <- get;;
            if no_device s || bool_decide (slots (swp s.1) = []) then ret 0
            else out_loop (Z.to_nat page_count) mem pgdir 0
      end
  end.

(** ** [vmm::pg_fault] *)
Definition pg_fault (mem : option MemoryDesc) (error_code fault_va : Z) : M S Z :=
  match mem with
  | None => ret (-1)
  | Some mem =>
      match md_pgdir mem with
      | None => ret (-1)
      | Some pgdir =>
          if (fault_va <? PG_SIZE) || (USER_SPACE_TOP <=? fault_va) || has error_code PAGE_FAULT_PROTECTION || negb (has error_code PAGE_FAULT_USER)
          then ret (-1)
          else
            let fault_va := round_down fault_va PG_SIZE in
            ptep <- in_mm (get_pte pgdir fault_va false);;
            match ptep with
            | None => ret (-1)
            | Some ptep =>
                e <- in_mm (rd64 ptep);;
                if (e =? 0) || pte_present e then ret (-1)
                else if negb (has e ENTRY_HAS_PERMISSIONS) || (has error_code PAGE_FAULT_WRITE && negb (has e ENTRY_WRITE)) ||
                        (has error_code PAGE_FAULT_EXECUTE && negb (has e ENTRY_EXECUTE))
                then ret (-1)
                else
                  r <- try_ (swap_in mem fault_va);;
                  ret (match r with inl _ => 0 | inr _ => -1 end)
            end
      end
  end.
End swap.
