(* ===== verification/SwapScan.v ===== *)
(** * Finding the address of a page

    [find_va_for_page] searches the lower half of the page tables for a leaf
    entry that maps a frame.  In an address space whose frames are mapped once
    it finds exactly the address of the page. *)

From S2P Require Import Prelude LibList Pmm PmmProofs Paging SwapSlots PageTable PageTableProofs Vmm VmmProofs AddrSpace BlockDev Exec Swap.

#[local] Arguments seqZ : simpl never.

Section scan.
Context `{PL : PagingLaws} `{UL : !UserLayout} `{UU : !UserLayoutLaws}.
Implicit Types (m : gmap Z Z) (s : mm) (A : gmap Z upage).

(** ** The leaf entry of an address, level by level *)

Fixpoint leaf_from m (shifts : list Z) (t va ptep : Z) : Prop :=
  match shifts with
  | [] => False
  | sh :: rest =>
      let e := word m (entry_at t va sh) in
      if bool_decide (rest = []) then ptep = entry_at t va sh
      else pte_present e = true ∧ pte_is_block e = false ∧ leaf_from m rest (pte_addr e) va ptep
  end.

Lemma leaf_from_spec m va ptep pre : ∀ t,
  leaf_from m (pre ++ [12]) t va ptep ↔ ∃ a, table_at m t (level_index va <$> pre) = Some a ∧ ptep = entry_at a va 12.
Proof.
  induction pre as [|sh pre IH]; intros t; cbn [leaf_from app fmap list_fmap table_at].
  - rewrite bool_decide_eq_true_2 by done. naive_solver.
  - rewrite bool_decide_eq_false_2 by (by destruct pre). rewrite IH. fold (entry_at t va sh).
    destruct (pte_present _), (pte_is_block _); cbn [andb negb]; naive_solver.
Qed.

Lemma leaf_entry_from m root va ptep : leaf_entry m root va ptep ↔ leaf_from m walk_shifts root va ptep.
Proof.
  assert (∃ pre, walk_shifts = pre ++ [12]) as [pre Hsh] by (by apply last_Some, shifts_last).
  rewrite Hsh, leaf_from_spec. unfold leaf_entry. split.
  - intros (pre' & t & E & ? & ?). rewrite Hsh in E. apply app_inj_tail in E as [<- _]. by exists t.
  - intros (a & ? & ?). by exists pre, a.
Qed.

Lemma get_pte_leaf_loop s create va ptep shifts : ∀ t,
  leaf_from (ram s) shifts t va ptep → get_pte_loop shifts t va create s = Ret (Some ptep) s.
Proof.
  induction shifts as [|sh rest IH]; intros t; cbn [leaf_from get_pte_loop]; [done|]. destruct rest as [|cs rest].
  - rewrite bool_decide_eq_true_2 by done. by intros ->.
  - rewrite bool_decide_eq_false_2 by done. intros (Hp & Hb & Hl). unfold descend_level.
    rewrite bind_assoc. unfold rd64, gets. rewrite (bind_Ret _ _ s _ s) by done. rewrite Hp, Hb, (bind_ret _ _ s). by apply IH.
Qed.
Lemma get_pte_leaf s root va create ptep : leaf_entry (ram s) root va ptep → get_pte root va create s = Ret (Some ptep) s.
Proof. intros Hl%leaf_entry_from. by apply get_pte_leaf_loop. Qed.

Lemma get_pte_none s rs root va : pt_wf s rs root → (∀ ptep, ¬ leaf_entry (ram s) root va ptep) → get_pte root va false s = Ret None s.
Proof.
  intros W Hn. destruct (get_pte_spec s rs root va false W) as (r & s' & rs' & E & _ & Hs & _ & Hr). rewrite (Hs eq_refl) in *.
  destruct r as [ptep|]; [by destruct (Hn ptep)|done].
Qed.

(** ** The search *)

(** A leaf entry that maps [target] for the page at [va]. *)
Definition hit m (shifts : list Z) (table target va : Z) : Prop :=
  ∃ ptep, leaf_from m shifts table va ptep ∧ pte_present (word m ptep) = true ∧ pte_addr (word m ptep) = target.

(** The pages the entries [ixs] of a table of level [sh] at [base] lead to. *)
Definition covers (sh base : Z) (ixs : list Z) (va : Z) : Prop :=
  va / 2 ^ (sh + 9) = base / 2 ^ (sh + 9) ∧ level_index va sh ∈ ixs ∧ (2 ^ 12 | va).

(** What a search over [P] returns: a hit; or 0, when there is none or the page
    at address 0 is one. *)
Definition found m shifts table target (P : Z → Prop) (r : Z) : Prop :=
  P r ∧ hit m shifts table target r ∨ r = 0 ∧ ∀ va, P va → ¬ hit m shifts table target va.

Lemma place sh base i : 12 ≤ sh → (2 ^ (sh + 9) | base) → 0 ≤ i < 512 →
  Z.lor base (Z.shiftl i sh) = base + i * 2 ^ sh ∧ (base + i * 2 ^ sh) / 2 ^ (sh + 9) = base / 2 ^ (sh + 9) ∧
  level_index (base + i * 2 ^ sh) sh = i ∧ (2 ^ sh | base + i * 2 ^ sh).
Proof.
  intros Hsh [b ->] Hi. assert (0 < 2 ^ sh) as Hp by (apply Z.pow_pos_nonneg; lia).
  assert (2 ^ (sh + 9) = 512 * 2 ^ sh) as E by (rewrite Z.pow_add_r by lia; lia).
  split_and!.
  - rewrite Z.shiftl_mul_pow2 by lia.
    assert (Z.land (b * 2 ^ (sh + 9)) (i * 2 ^ sh) = 0) as Hl.
    { apply Z.bits_inj'. intros k Hk. rewrite Z.land_spec, Z.bits_0.
      destruct (Z.ltb_spec k (sh + 9)); [by rewrite Z.mul_pow2_bits_low by lia|].
      rewrite (small_testbit (i * 2 ^ sh) (sh + 9)) by nia. apply andb_false_r. }
    rewrite <- Z.lxor_lor by done. symmetry. by apply Z.add_nocarry_lxor.
  - rewrite Z.div_add_l, Z.div_mul, (Z.div_small (i * 2 ^ sh)) by nia. lia.
  - rewrite level_index_eq by lia. replace (b * 2 ^ (sh + 9) + i * 2 ^ sh) with ((b * 512 + i) * 2 ^ sh) by (rewrite E; lia).
    rewrite Z.div_mul by lia. rewrite Z.add_comm, Z.mod_add, Z.mod_small by lia. done.
  - exists (b * 512 + i). rewrite E. lia.
Qed.

Lemma covers_split sh base i ixs va : covers sh base (i :: ixs) va ↔ covers sh base [i] va ∨ covers sh base ixs va.
Proof. unfold covers. rewrite elem_of_cons, list_elem_of_singleton. tauto. Qed.

Lemma div_split va base sh : 12 ≤ sh → va / 2 ^ sh = base / 2 ^ sh ↔ va / 2 ^ (sh + 9) = base / 2 ^ (sh + 9) ∧ level_index va sh = level_index base sh.
Proof.
  intros Hsh. assert (0 < 2 ^ sh) as Hp by (apply Z.pow_pos_nonneg; lia).
  rewrite !level_index_eq by lia. rewrite Z.pow_add_r, <- !Z.div_div by lia. change (2 ^ 9) with 512. split; [by intros ->|].
  intros [Hd Hm]. rewrite (Z.div_mod (va / 2 ^ sh) 512), (Z.div_mod (base / 2 ^ sh) 512), Hd, Hm by lia. done.
Qed.

(** Adding the entry [i], which was searched first. *)
Lemma found_cons m shifts table target sh base i ixs r1 r :
  found m shifts table target (covers sh base [i]) r1 →
  (r1 = 0 → found m shifts table target (covers sh base ixs) r) → (r1 ≠ 0 → r = r1) →
  found m shifts table target (covers sh base (i :: ixs)) r.
Proof.
  intros Hf H0 H1. destruct (decide (r1 = 0)) as [->|Hne].
  - destruct (H0 eq_refl) as [[? ?]|[-> Hn]]; [left; split; [apply covers_split; by right|done]|].
    destruct Hf as [[? ?]|[_ Hn1]]; [left; split; [apply covers_split; by left|done]|right].
    split; [done|]. intros va [?|?]%covers_split; auto.
  - rewrite (H1 Hne). destruct Hf as [[? ?]|[? _]]; [|done]. left. split; [apply covers_split; by left|done].
Qed.

(** Nothing is mapped through an entry with no hit. *)
Lemma found_none m shifts table target sh base i :
  (∀ va, covers sh base [i] va → ¬ hit m shifts table target va) → found m shifts table target (covers sh base [i]) 0.
Proof. by right. Qed.

Lemma entry_index table va sh base i : covers sh base [i] va → entry_at table va sh = table + 8 * i.
Proof. intros (_ & E & _). apply list_elem_of_singleton in E. unfold entry_at. by rewrite E. Qed.

(** One entry of the last level, and of a level above. *)
Lemma found_leaf m table target base i :
  (2 ^ (12 + 9) | base) → 0 ≤ i < 512 → pte_present (word m (table + 8 * i)) = true →
  let va := Z.lor base (Z.shiftl i 12) in
  if pte_addr (word m (table + 8 * i)) =? target then covers 12 base [i] va ∧ hit m [12] table target va
  else ∀ va', covers 12 base [i] va' → ¬ hit m [12] table target va'.
Proof.
  intros Hb Hi Hp va. destruct (place 12 base i ltac:(lia) Hb Hi) as (Hva & Hd & Hl & Ha). fold va in Hva.
  assert (∀ va', covers 12 base [i] va' → hit m [12] table target va' ↔ pte_addr (word m (table + 8 * i)) = target) as Hhit.
  { intros va' Hc. pose proof (entry_index table va' 12 base i Hc) as E. unfold hit. cbn [leaf_from].
    rewrite bool_decide_eq_true_2, E by done. split; [by intros (? & -> & _ & ?)|]. intros ?. by exists (table + 8 * i). }
  destruct (Z.eqb_spec (pte_addr (word m (table + 8 * i))) target) as [Ht|Ht].
  2:{ intros va' Hc Hh. by apply Ht, (Hhit va' Hc). }
  assert (covers 12 base [i] va) as Hc by (rewrite Hva; split_and!; [done|by rewrite Hl; left|done]).
  split; [done|by apply (Hhit va Hc)].
Qed.

Lemma found_child m table target sh rest base i r :
  12 ≤ sh - 9 → rest ≠ [] → (2 ^ (sh + 9) | base) → 0 ≤ i < 512 →
  let e := word m (table + 8 * i) in pte_present e = true → pte_is_block e = false →
  found m rest (pte_addr e) target (covers (sh - 9) (base + i * 2 ^ sh) (seqZ 0 512)) r →
  found m (sh :: rest) table target (covers sh base [i]) r.
Proof.
  intros Hsh Hne Hb Hi e Hp Hbl Hf. destruct (place sh base i ltac:(lia) Hb Hi) as (_ & Hd & Hl & Ha).
  assert (∀ va, covers sh base [i] va ↔ covers (sh - 9) (base + i * 2 ^ sh) (seqZ 0 512) va) as Hc.
  { intros va. unfold covers. rewrite list_elem_of_singleton, elem_of_seqZ. replace (sh - 9 + 9) with sh by lia.
    rewrite (div_split va (base + i * 2 ^ sh) sh) by lia. rewrite Hd, Hl. pose proof (level_index_range va (sh - 9)). naive_solver lia. }
  assert (∀ va, covers sh base [i] va → hit m (sh :: rest) table target va ↔ hit m rest (pte_addr e) target va) as Hh.
  { intros va Hva. unfold hit. cbn [leaf_from]. rewrite bool_decide_eq_false_2, (entry_index table va sh base i Hva) by done. fold e.
    rewrite Hp, Hbl. naive_solver. }
  destruct Hf as [[Hr%Hc ?]|[-> Hn]]; [left; split; [done|by apply Hh]|right].
  split; [done|]. intros va Hva. rewrite Hh by done. by apply Hn, Hc.
Qed.

Lemma scan_found m target shifts : ∀ sh rest pre entries table base,
  walk_shifts = pre ++ shifts → shifts = sh :: rest → 0 ≤ entries ≤ 512 → (2 ^ (sh + 9) | base) →
  found m shifts table target (covers sh base (seqZ 0 entries)) (scan_pt_for_pa m shifts entries table base target).
Proof.
  induction shifts as [|sh0 shifts IH]; intros sh rest pre entries table base Hsh E He Hb; [done|]. injection E as -> ->.
  assert (∀ i, i ∈ seqZ 0 entries → 0 ≤ i < 512) as Hix by (intros i ?%elem_of_seqZ; lia).
  pose proof (phys_covers sh ltac:(rewrite Hsh; set_solver)) as Hc.
  cbn [scan_pt_for_pa]. clear He. revert Hix. generalize (seqZ 0 entries). intros ixs Hix.
  induction ixs as [|i ixs IHi].
  { right. split; [done|]. intros va (_ & Hin & _). by apply elem_of_nil in Hin. }
  specialize (IHi (λ j Hj, Hix j (list_elem_of_further _ _ _ Hj))). assert (0 ≤ i < 512) as Hi by (apply Hix; left).
  cbn [scan_loop]. cbv zeta. set (e := word m (table + 8 * i)). destruct (pte_present e) eqn:Hp; cbn [negb].
  2:{ apply (found_cons _ _ _ _ _ _ _ _ 0); [|intros _; exact IHi|done]. apply found_none. intros va Hva (ptep & Hl & Hpp & _).
      cbn [leaf_from] in Hl. rewrite (entry_index table va sh base i Hva) in Hl. fold e in Hl.
      case_bool_decide; [rewrite Hl in Hpp; fold e in Hpp|destruct Hl as [Hl _]]; congruence. }
  destruct (bool_decide (rest = [])) eqn:Hr.
  - apply bool_decide_eq_true in Hr as ->. assert (sh = 12) as ->.
    { pose proof shifts_last as Hl. rewrite Hsh, last_snoc in Hl. by injection Hl. }
    pose proof (found_leaf m table target base i Hb Hi Hp) as Hf. cbv zeta in Hf. fold e in Hf.
    destruct (pte_addr e =? target); [destruct Hf; left; split; [apply covers_split; by left|done]|].
    apply (found_cons _ _ _ _ _ _ _ _ 0); [by apply found_none|intros _; exact IHi|done].
  - apply bool_decide_eq_false in Hr. destruct (pte_is_block e) eqn:Hbl.
    { apply (found_cons _ _ _ _ _ _ _ _ 0); [|intros _; exact IHi|done]. apply found_none. intros va Hva (ptep & Hl & _).
      cbn [leaf_from] in Hl. rewrite bool_decide_eq_false_2, (entry_index table va sh base i Hva) in Hl by done. fold e in Hl.
      destruct Hl as (_ & ? & _). congruence. }
    destruct (place sh base i ltac:(lia) Hb Hi) as (Hva & _ & _ & Ha). rewrite Hva.
    destruct rest as [|cs rest]; [done|].
    assert (sh = cs + 9) as ->.
    { apply (shifts_steps (length pre)); rewrite Hsh; [by rewrite lookup_app_r, Nat.sub_diag by lia|].
      by rewrite lookup_app_r, Nat.sub_succ_l, Nat.sub_diag by lia. }
    pose proof (phys_covers cs ltac:(rewrite Hsh; apply elem_of_app; right; right; left)) as Hcs.
    set (r := scan_pt_for_pa _ _ _ _ _ _).
    assert (found m (cs + 9 :: cs :: rest) table target (covers (cs + 9) base [i]) r) as Hf.
    { apply found_child; [lia|done..|]. fold e. replace (cs + 9 - 9) with cs by lia.
      apply (IH cs rest (pre ++ [cs + 9])); [by rewrite <- app_assoc|done|unfold PAGE_TABLE_ENTRIES; lia|done]. }
    eapply found_cons; [exact Hf|intros ->; exact IHi|]. intros Hne. by rewrite (proj2 (Z.eqb_neq r 0) Hne).
Qed.

(** ** The address of a resident page *)

Lemma find_va_spec s rs root A v u :
  as_rep s rs root A → A !! v = Some u → find_va_for_page (Some root) (up_page u) s = Ret (v * PG_SIZE) s.
Proof.
  intros R Hu. destruct (as_page _ _ _ _ R v u Hu) as (Hv & (ptep & Hl & Hp & Ha & _) & Hf & _).
  unfold find_va_for_page, gets. f_equal. destruct (page_to_phys_frame _ Hf) as [-> _].
  destruct user_half as (sh & Hsh & Htop). destruct walk_shifts as [|sh0 rest] eqn:E; [done|]. injection Hsh as ->.
  pose proof (phys_covers sh ltac:(rewrite E; set_solver)) as Hc. destruct user_top_pages as [Hup _].
  assert (0 ≤ v * PG_SIZE < USER_SPACE_TOP) as Hva by (unfold PG_SIZE in *; lia).
  assert (2 ^ (sh + 9) = 2 * USER_SPACE_TOP) as Htop2 by (rewrite Htop, <- Z.pow_succ_r by lia; f_equal; lia).
  pose proof (scan_found (ram s) (up_page u * PG_SIZE) (sh :: rest) sh rest [] USER_TOP_ENTRIES root 0) as Hs.
  specialize (Hs E eq_refl ltac:(unfold USER_TOP_ENTRIES; lia) (Z.divide_0_r _)).
  destruct Hs as [[(Hd & Hi & [y Hy]) (ptep' & Hl' & Hp' & Ha')]|[_ Hn]].
  - change (2 ^ 12) with PG_SIZE in Hy. rewrite Hy in *. f_equal.
    assert (0 ≤ y < upages) as Hyr.
    { apply elem_of_seqZ in Hi. rewrite level_index_eq in Hi by lia. unfold USER_TOP_ENTRIES in Hi.
      assert (0 < 2 ^ sh) as Hpos by (apply Z.pow_pos_nonneg; lia).
      rewrite Z.pow_add_r, <- !Z.div_div in Hd by lia. change (2 ^ 9) with 512 in Hd. rewrite !Z.div_0_l in Hd by lia.
      rewrite Z.pow_add_r in Htop by lia. change (2 ^ 8) with 256 in Htop. set (z := y * PG_SIZE) in *.
      pose proof (Z.div_mod (z / 2 ^ sh) 512 ltac:(lia)) as E1. pose proof (Z.div_mod z (2 ^ sh) ltac:(lia)) as E2.
      pose proof (Z.mod_pos_bound z (2 ^ sh) Hpos) as E3. rewrite Hd in E1. assert (z / 2 ^ sh < 256 ∧ 0 ≤ z / 2 ^ sh) by lia.
      assert (0 ≤ z < USER_SPACE_TOP) by nia. subst z. unfold PG_SIZE in *. lia. }
    rewrite <- E, <- leaf_entry_from in Hl'. destruct (A !! y) as [u'|] eqn:Hu'.
    + destruct (as_page _ _ _ _ R y u' Hu') as (_ & (ptep2 & Hl2 & _ & Ha2 & _) & _).
      rewrite <- (leaf_entry_inj _ _ _ _ _ Hl' Hl2), Ha' in Ha2. apply (as_inj _ _ _ _ R y v u' u Hu' Hu). unfold PG_SIZE in Ha2. lia.
    + pose proof (as_none _ _ _ _ R y Hyr Hu') as Hnone. by rewrite (translate_leaf _ _ _ _ _ Hl' eq_refl), Hp' in Hnone.
  - exfalso. apply (Hn (v * PG_SIZE)); [|exists ptep; split; [by rewrite <- E; apply leaf_entry_from|done]].
    split; [rewrite !Z.div_small by lia; done|]. split; [|by exists v].
    destruct (user_index _ Hva) as (s0 & Hs0 & Hlt). rewrite E in Hs0. injection Hs0 as <-. apply elem_of_seqZ. lia.
Qed.
End scan.
