(* ===== verification/SwapProofs.v ===== *)
(** * Swapping preserves the user's memory

    The invariant of an address space part of whose pages are on the swap
    device, and what [swap::out] and the page fault handler do to it: pages
    move between memory and the device, the program sees the same bytes with
    the same rights at the same addresses. *)

From S2P Require Import Prelude LibList Pmm PmmProofs Paging SwapSlots PageTable PageTableProofs Vmm VmmProofs BlockDev AddrSpace Teardown Exec Swap SwapScan.

#[local] Arguments seqZ : simpl never.

(** ** What swapping relies on *)

(** The hardware does not take a swap entry for a mapping: bit 0 is the present
    bit of the three formats. *)
Class SwapLaws `{Paging} : Prop := { swap_absent e : Z.testbit e 0 = false → pte_present e = false }.

Section swap.
Context `{PL : PagingLaws} `{UL : !UserLayout} `{UU : !UserLayoutLaws} `{SL : !SwapLaws}.
Context {D : Type} `{BD : BlockDevice D} `{BL : !BlockDeviceLaws D}.
(** The root table and the memory descriptor of the address space. *)
Context (kernel_pgdir root a : Z).
Notation mem := (MkMemory a (Some root)).
Implicit Types (s : mm) (d : D) (rs : list (Z * Z)) (A : gmap Z upage) (ks : list Z).

(** ** The invariant *)

(** A page on the device: its slot and the rights it will have again. *)
Record spage : Set := MkSpage { sw_slot : Z; sw_write : bool; sw_exec : bool }.
Implicit Types (B : gmap Z spage).
Definition entry_of (b : spage) : Z := swap_entry (sw_slot b) (sw_write b) (sw_exec b).

(** The resident pages [A], the pages on the device [B], the queue [ks]. *)
Record sw_rep s rs A B ks : Prop := {
  sr_as : as_rep s rs root A;
  sr_slots : slots_wf (swp s);
  sr_swapped : ∀ v b, B !! v = Some b → 0 ≤ v < upages ∧ A !! v = None ∧
    (∃ ptep, leaf_entry (ram s) root (v * PG_SIZE) ptep ∧ word (ram s) ptep = entry_of b) ∧
    valid_slot (swp s) (sw_slot b) ∧ used (slots (swp s)) (sw_slot b) = true;
  sr_inj : ∀ v v' b b', B !! v = Some b → B !! v' = Some b' → sw_slot b = sw_slot b' → v = v';
  sr_empty : ∀ v ptep, 0 ≤ v < upages → A !! v = None → B !! v = None → leaf_entry (ram s) root (v * PG_SIZE) ptep →
    word (ram s) ptep = 0;
  sr_queue : ring (nodes (pm s)) (SwapList a) (PageNode <$> ks);
  sr_listed : ∀ k, k ∈ ks → ∃ v u, A !! v = Some u ∧ up_page u = k;
  sr_alone : ∀ v u, A !! v = Some u → up_page u ∈ ks ∨ ring (nodes (pm s)) (PageNode (up_page u)) [] }.

(** What the program sees of page [v]: its bytes, and what it may do with them
    besides reading. *)
Definition slot_bytes d (slot : Z) : list Z := sectors d ((slot - 1) * BLOCKS_PER_PAGE) blocks.
Definition contents s d A B (v : Z) : option (list Z * bool * bool) :=
  match A !! v, B !! v with
  | Some u, _ => Some (bytes_get (ram s) (up_page u * PG_SIZE) PG_SIZE, up_write u, up_exec u)
  | None, Some b => Some (slot_bytes d (sw_slot b), sw_write b, sw_exec b)
  | None, None => None
  end.

Definition mapped A (k : Z) : Prop := ∃ v u, A !! v = Some u ∧ up_page u = k.

(** What belongs to others in memory: pages that are neither free nor of the
    address space, the kernel half and the nodes of other lists. *)
Record mm_frame s rs A s' rs' A' : Prop := {
  mf_held : ∀ k, held s rs root A k ↔ held s' rs' root A' k;
  mf_words : ∀ x, ¬ held s rs root A (phys_to_page x) → (∀ i, 0 ≤ i < USER_TOP_ENTRIES → x ≠ root + 8 * i) →
    word (ram s') x = word (ram s) x;
  mf_kernel : ∀ va sh, head walk_shifts = Some sh → USER_TOP_ENTRIES ≤ level_index va sh →
    translate (ram s') root va = translate (ram s) root va;
  mf_desc : ∀ k, ¬ held s rs root A k → page_desc (pm s') !! k = page_desc (pm s) !! k;
  mf_nodes : ∀ x, x ≠ FreeList → x ≠ SwapList a → (∀ k, held s rs root A k → x ≠ PageNode k) →
    nodes (pm s') !! x = nodes (pm s) !! x;
  mf_rest : page_count s' = page_count s ∧ cpu_root s' = cpu_root s ∧ tlb s `suffix_of` tlb s' }.

(** What belongs to others on the device: the slots in use that hold no page of
    the address space.  They stay the same, and none is added: no slot leaks. *)
Definition foreign s B (i : Z) : Prop := used (slots (swp s)) i = true ∧ ∀ v b, B !! v = Some b → sw_slot b ≠ i.
Definition slots_frame s d B s' d' B' : Prop :=
  slot_limit (swp s') = slot_limit (swp s) ∧
  ∀ i, valid_slot (swp s) i → (foreign s B i ↔ foreign s' B' i) ∧ (foreign s B i → slot_bytes d' i = slot_bytes d i).

(** A step of the swapper: the invariant, the frame and the program's view. *)
Record sw_step s d rs A B s' d' rs' A' B' ks' : Prop := {
  ss_rep : sw_rep s' rs' A' B' ks';
  ss_frame : mm_frame s rs A s' rs' A';
  ss_slots : slots_frame s d B s' d' B';
  ss_view : ∀ v, contents s' d' A' B' v = contents s d A B v }.

Lemma mm_frame_refl s rs A : mm_frame s rs A s rs A.
Proof. by constructor. Qed.
Lemma mm_frame_trans s rs A s1 rs1 A1 s2 rs2 A2 : mm_frame s rs A s1 rs1 A1 → mm_frame s1 rs1 A1 s2 rs2 A2 → mm_frame s rs A s2 rs2 A2.
Proof.
  intros [] []. constructor.
  - intros k. by rewrite mf_held0, mf_held1.
  - intros x Hx Hr. rewrite mf_words1, mf_words0; try done. by rewrite <- mf_held0.
  - intros va sh Hs Hi. by rewrite (mf_kernel1 va sh), (mf_kernel0 va sh).
  - intros k Hk. rewrite mf_desc1, mf_desc0; try done. by rewrite <- mf_held0.
  - intros x Hx Ha Hh. rewrite mf_nodes1, mf_nodes0; try done. intros k ?. by apply Hh, mf_held0.
  - destruct mf_rest0 as (<- & <- & ?), mf_rest1 as (? & ? & ?). split_and!; [done..|]. by etrans.
Qed.
Lemma sw_step_refl s d rs A B ks : sw_rep s rs A B ks → sw_step s d rs A B s d rs A B ks.
Proof. intros R. constructor; [done|apply mm_frame_refl|by split|done]. Qed.
Lemma sw_step_trans s d rs A B s1 d1 rs1 A1 B1 ks1 s2 d2 rs2 A2 B2 ks2 :
  sw_step s d rs A B s1 d1 rs1 A1 B1 ks1 → sw_step s1 d1 rs1 A1 B1 s2 d2 rs2 A2 B2 ks2 → sw_step s d rs A B s2 d2 rs2 A2 B2 ks2.
Proof.
  intros [R F [Hl Sf] V] [R' F' [Hl' Sf'] V']. constructor; [done|by eapply mm_frame_trans| |intros v; by rewrite V'].
  split; [by rewrite Hl'|]. intros i Hv. destruct (Sf i Hv) as [E Hb], (Sf' i) as [E' Hb']; [unfold valid_slot in *; by rewrite Hl|].
  split; [by rewrite E|]. intros Hf. rewrite Hb' by (by apply E). by apply Hb.
Qed.

(** ** Entries and slots *)

Lemma slot_width s slot : slots_wf (swp s) → valid_slot (swp s) slot → 1 ≤ slot < 2 ^ 24.
Proof.
  intros W Hv. pose proof (wf_limit _ W) as HL. unfold valid_slot, MAX_OFFSET_LIMIT in *. change (Z.shiftl 1 24) with (2 ^ 24) in HL. lia.
Qed.

Lemma entry_absent slot w x : pte_present (swap_entry slot w x) = false.
Proof. apply swap_absent. rewrite swap_entry_testbit by lia. simpl. by rewrite !andb_false_r. Qed.

Lemma entry_width slot w x : 1 ≤ slot < 2 ^ 24 → 0 < swap_entry slot w x < 2 ^ 64.
Proof.
  intros Hs. assert (0 ≤ swap_entry slot w x) as H0.
  { unfold swap_entry. rewrite !Z.lor_nonneg. split_and!; [by apply Z.shiftl_nonneg; lia|done|by destruct w|by destruct x]. }
  split.
  - destruct (decide (swap_entry slot w x = 0)) as [E|]; [|lia]. pose proof (swap_entry_testbit slot w x 7 ltac:(lia)) as Hb.
    rewrite E, Z.bits_0 in Hb. simpl in Hb. done.
  - apply bound_by_bits; [lia|done|]. intros i Hi. rewrite swap_entry_testbit by lia.
    rewrite (small_testbit slot 24) by lia. rewrite andb_false_r. case_bool; try lia; by rewrite ?andb_false_r.
Qed.

Lemma block_lba slot : 1 ≤ slot < 2 ^ 24 → u32 ((slot - 1) * BLOCKS_PER_PAGE) = (slot - 1) * BLOCKS_PER_PAGE.
Proof. intros Hs. apply u32_small. change BLOCKS_PER_PAGE with 8. lia. Qed.

(** Writing one slot leaves the others. *)
Lemma slot_other d d' slot i :
  (∀ j, ¬ (slot - 1) * BLOCKS_PER_PAGE ≤ j < (slot - 1) * BLOCKS_PER_PAGE + Z.of_nat blocks → sector d' j = sector d j) →
  i ≠ slot → slot_bytes d' i = slot_bytes d i.
Proof.
  intros Hd Hne. apply sectors_ext. intros j Hj. apply Hd. change BLOCKS_PER_PAGE with 8 in *. change (Z.of_nat blocks) with 8 in *. lia.
Qed.

(** ** The queue *)

Lemma queue_linked (h : gmap node (ListNode node)) A ks v u :
  ring h (SwapList a) (PageNode <$> ks) → (∀ k, k ∈ ks → mapped A k) → A !! v = Some u →
  up_page u ∈ ks ∨ ring h (PageNode (up_page u)) [] → linked h A (up_page u).
Proof.
  intros Hr Hl Hu [Hk|Hal]; [|exists []; split; [done|set_solver]].
  apply list_elem_of_split in Hk as (l1 & l2 & E). rewrite E, fmap_app, fmap_cons in Hr. apply ring_rotate in Hr.
  exists ((PageNode <$> l2) ++ SwapList a :: (PageNode <$> l1)). split; [done|].
  assert (∀ k, k ∈ ks → anode A (PageNode k)) as Hn by (intros k (v' & u' & ? & <-)%Hl; right; by exists v', u').
  intros x [(k & -> & ?)%list_elem_of_fmap|[->|(k & -> & ?)%list_elem_of_fmap]%elem_of_cons]%elem_of_app; [|by left; exists a|];
    apply Hn; rewrite E; set_solver.
Qed.

Lemma listed_nodup s rs A B ks : sw_rep s rs A B ks → NoDup ks.
Proof. intros R. destruct (ring_NoDup _ _ _ (sr_queue _ _ _ _ _ R)) as [Hnd _]. by eapply NoDup_fmap_1. Qed.

(** The resident pages are not free. *)
Lemma mapped_free s rs A k : as_rep s rs root A → mapped A k → k ∉ free_pages rs ∧ ref_count <$> page_desc (pm s) !! k = Some 1.
Proof. intros R (v & u & Hu & <-). by destruct (as_page _ _ _ _ R v u Hu) as (_ & _ & _ & ? & ?). Qed.

(** Relinking the pages of the address space. *)
Definition with_nodes (h : gmap node (ListNode node)) s : mm :=
  with_pm (MkPmm (page_desc (pm s)) h (free_page_count (pm s))) s.

Lemma sw_relink s rs A B ks h' ks' :
  sw_rep s rs A B ks → (∀ x, (∀ k, mapped A k → x ≠ PageNode k) → x ≠ SwapList a → h' !! x = nodes (pm s) !! x) →
  (∀ x, is_Some (h' !! x) ↔ is_Some (nodes (pm s) !! x)) → ring h' (SwapList a) (PageNode <$> ks') →
  (∀ k, k ∈ ks' → mapped A k) → (∀ v u, A !! v = Some u → up_page u ∈ ks' ∨ ring h' (PageNode (up_page u)) []) →
  sw_rep (with_nodes h' s) rs A B ks' ∧ mm_frame s rs A (with_nodes h' s) rs A.
Proof.
  intros R Hh Hdom Hr Hl Hal. pose proof (sr_as _ _ _ _ _ R) as RA. split.
  - destruct (R). constructor; try done. apply (as_pm s rs); [done|..]; cbn.
    + apply rep_links; [apply RA| |done]. intros x Hx. apply Hh; destruct Hx as [->|(i & Hi & ->)]; try done.
      intros k [Hk _]%(mapped_free _ _ _ _ RA) [= ->]. done.
    + intros k Hk. split; [by apply RA|]. split.
      * intros q t Hv Hq <-. by apply (wf_tables _ _ _ (as_wf _ _ _ _ RA) q t).
      * intros v u Hu <-. by apply (as_page _ _ _ _ RA v u Hu).
    + done.
    + intros v u Hu. exact (queue_linked h' A ks' v u Hr Hl Hu (Hal v u Hu)).
  - constructor; try done. intros x Hx Ha Hk. cbn. apply Hh; [|done]. intros k ?. apply Hk. by right; right.
Qed.

(** An address space none of whose pages was swapped out or queued. *)
Definition resident_entries m : bool := forallb (λ x, match x with VSwap _ => false | _ => true end) (root_visits m root).
Lemma sw_fresh s rs A : as_rep s rs root A → unqueued s A → ring (nodes (pm s)) (SwapList a) [] → slots_wf (swp s) →
  resident_entries (ram s) = true → sw_rep s rs A ∅ [].
Proof.
  intros R Hq Hr W Hno. constructor; try done.
  - intros v ptep Hv HA _ Hl. pose proof (as_none _ _ _ _ R v Hv HA) as Hn. rewrite (translate_leaf _ _ _ _ _ Hl eq_refl) in Hn.
    destruct (pte_present (word (ram s) ptep)) eqn:Hp; [done|]. destruct (decide (word (ram s) ptep = 0)) as [|Hne]; [done|]. exfalso.
    assert (VSwap (word (ram s) ptep) ∈ root_visits (ram s) root) as Hin%list_elem_of_In.
    { apply (leaf_visited _ _ v ptep _ Hv Hl). unfold leaf_visits. rewrite Hp, (proj2 (Z.eqb_neq _ _) Hne). left. }
    by pose proof (proj1 (forallb_forall _ _) Hno _ Hin).
  - intros k Hk. by apply elem_of_nil in Hk.
  - intros v u Hu. right. by apply (Hq v u).
Qed.

(** ** Unmapping a page *)

Lemma user_va v : 0 ≤ v < upages → 0 ≤ v * PG_SIZE < USER_SPACE_TOP.
Proof. intros Hv. destruct user_top_pages as [Ht _]. unfold PG_SIZE in *. lia. Qed.

(** The leaf entries of the user half, and what a write to one of them changes. *)
Lemma leaf_entry_same s m' va x : (∀ q, vpath q → table_at m' root q = table_at (ram s) root q) →
  leaf_entry m' root va x ↔ leaf_entry (ram s) root va x.
Proof.
  intros Ht. split; intros (pre & t & Hsh & E & ->); exists pre, t; (split_and!; [done| |done]);
    [rewrite <- Ht|rewrite Ht]; try done; by apply (vpath_indices va pre [12]).
Qed.

Lemma leaf_write_word s rs v v' ptep x e : pt_wf s rs root → 0 ≤ v < upages → 0 ≤ v' < upages →
  leaf_entry (ram s) root (v * PG_SIZE) ptep → leaf_entry (ram s) root (v' * PG_SIZE) x →
  word (<[ptep := e]> (ram s)) x = if decide (v' = v) then e else word (ram s) x.
Proof.
  intros W Hv Hv' Hl Hl'. rewrite word_insert. destruct (decide (v' = v)) as [->|Hne].
  - by rewrite decide_True by (by eapply leaf_entry_inj).
  - rewrite decide_False; [done|]. eapply leaf_entry_other; [done..|]. by intros ?%same_page_v.
Qed.

Lemma as_unmap s rs A v u ptep e :
  as_rep s rs root A → A !! v = Some u → leaf_entry (ram s) root (v * PG_SIZE) ptep → 0 ≤ e < 2 ^ 64 → pte_present e = false →
  (∀ v' u', delete v A !! v' = Some u' → linked (nodes (pm s)) (delete v A) (up_page u')) →
  as_rep (with_ram (<[ptep := e]> (ram s)) s) rs root (delete v A).
Proof.
  intros R Hu Hl He Hp Hlk. pose proof (as_wf _ _ _ _ R) as W. destruct (as_page _ _ _ _ R v u Hu) as (Hv & _).
  destruct (leaf_write s rs root _ ptep e W Hl He) as (W' & Hl' & Htab & Hoth).
  assert (∀ v' u', delete v A !! v' = Some u' → v' ≠ v ∧ A !! v' = Some u') as Hdel.
  { intros v' u' [? ?]%lookup_delete_Some. split; [by intros ->|done]. }
  constructor; [done|..]; cbn [ram with_ram pm] in *.
  - intros q i t b Hvq Huq Hq Hb. rewrite Htab in Hq, Hb by (try done; by eapply vpath_app).
    rewrite word_insert, decide_False; [by apply (as_links _ _ _ _ R q i t b)|]. destruct Hl as (pre & t' & Hsh & Ht' & ->). intros E.
    pose proof (vpath_indices (v * PG_SIZE) pre [12] Hsh ltac:(done)) as Hvp. pose proof (vpath_app _ _ Hvq) as Hvq'.
    destruct (entry_inj t' t _ i (proj1 (wf_tables _ _ _ W _ _ Hvp Ht')) (proj1 (wf_tables _ _ _ W _ _ Hvq' Hq))
      (level_index_range _ _) (vpath_index _ _ _ Hvq) E) as [<- <-].
    rewrite (wf_tree _ _ _ W _ _ _ Hvq' Hvp Hq Ht') in Hvq. by apply (leaf_not_path _ _ Hsh) in Hvq.
  - intros v' u' [Hne Hu']%Hdel. destruct (as_page _ _ _ _ R v' u' Hu') as (Hv' & (x & Hx & Hm) & ?). split; [done|]. split; [|done].
    exists x. split; [by apply (leaf_entry_same s)|]. by rewrite (leaf_write_word s rs v v' ptep x e), decide_False.
  - exact Hlk.
  - intros v' u' q b [_ Hu']%Hdel Hvq Hq. rewrite Htab in Hq by done. by eapply (as_tables _ _ _ _ R).
  - intros v' Hv' Hn. destruct (decide (v' = v)) as [->|Hne].
    + by rewrite (translate_leaf _ _ _ _ _ Hl' eq_refl), word_insert, decide_True, Hp.
    + rewrite Hoth by (by intros ?%same_page_v). apply (as_none _ _ _ _ R); [done|]. by rewrite lookup_delete_ne in Hn.
  - intros v1 v2 u1 u2 [_ H1]%Hdel [_ H2]%Hdel. by apply (as_inj _ _ _ _ R).
Qed.

Lemma invalidate_Ret s va : invalidate_tlb_page root va s = Ret tt (with_tlb (if cpu_root s =? root then va :: tlb s else tlb s) s).
Proof. unfold invalidate_tlb_page, get. rewrite (bind_Ret _ _ s s s) by done. destruct (cpu_root s =? root); [done|by destruct s]. Qed.

(** The kernel half does not go through the entries of user pages. *)
Lemma leaf_kernel s rs v ptep e va sh : pt_wf s rs root → 0 ≤ v < upages → leaf_entry (ram s) root (v * PG_SIZE) ptep → 0 ≤ e < 2 ^ 64 →
  head walk_shifts = Some sh → USER_TOP_ENTRIES ≤ level_index va sh →
  translate (<[ptep := e]> (ram s)) root va = translate (ram s) root va.
Proof.
  intros W Hv Hl He Hsh Hi. destruct (leaf_write s rs root _ ptep e W Hl He) as (_ & _ & _ & Hoth). apply Hoth. intros Hs.
  destruct (user_index _ (user_va v Hv)) as (s0 & Hs0 & Hlt). rewrite Hsh in Hs0. injection Hs0 as <-.
  unfold same_page in Hs. destruct walk_shifts as [|s1 rest]; [done|]. injection Hsh as <-. injection Hs as Hs _. lia.
Qed.

(** ** Committing an eviction *)

Section commit.
Context s rs A B ks v u slot ptep pg (R : sw_rep s rs A B ks) (Hu : A !! v = Some u) (Hks : up_page u ∉ ks)
  (Hl : leaf_entry (ram s) root (v * PG_SIZE) ptep) (Hsl : valid_slot (swp s) slot) (Hus : used (slots (swp s)) slot = true)
  (Hfresh : ∀ v' b, B !! v' = Some b → sw_slot b ≠ slot) (Hpg : page_desc (pm s) !! up_page u = Some pg).
Let b : spage := MkSpage slot (up_write u) (up_exec u).
Let RA : as_rep s rs root A := sr_as _ _ _ _ _ R.

Lemma commit_ref : ref_count pg = 1.
Proof. destruct (as_page _ _ _ _ RA v u Hu) as (_ & _ & _ & _ & Hr). rewrite Hpg in Hr. by injection Hr. Qed.

(** The state the eviction ends in, with the allocator in [t']. *)
Definition committed (t' : pmm) : mm :=
  MkMm t' (page_count s) (<[ptep := entry_of b]> (ram s)) (cpu_root s)
    (if cpu_root s =? root then v * PG_SIZE :: tlb s else tlb s) (swp s).

Lemma commit_others v' u' : delete v A !! v' = Some u' → v' ≠ v ∧ A !! v' = Some u' ∧ up_page u' ≠ up_page u ∧ up_page u' ∉ free_pages rs.
Proof.
  intros [Hne Hu']%lookup_delete_Some. split_and!; [by intros ->|done| |by apply (as_page _ _ _ _ RA v' u' Hu')].
  intros E. by apply Hne, (as_inj _ _ _ _ RA v v' u u' Hu Hu').
Qed.

Lemma commit_run : ∃ t' rs',
  (wr64 ptep (entry_of b);; invalidate_tlb_page root (v * PG_SIZE);;
   on_pm (upd_page (up_page u) (λ pg, set_ref (ref_count pg - 1) pg));; on_pm (free (up_page u) 1)) s = Ret tt (committed t') ∧
  pmm_rep t' rs' ∧ free_pages rs' ≡ₚ up_page u :: free_pages rs ∧
  (∀ i, i ∉ up_page u :: free_pages rs → page_desc t' !! i = page_desc (pm s) !! i) ∧
  ∀ x, x ≠ FreeList → (∀ i, i ∈ up_page u :: free_pages rs → x ≠ PageNode i) → nodes t' !! x = nodes (pm s) !! x.
Proof.
  destruct (as_page _ _ _ _ RA v u Hu) as (_ & _ & _ & Hnf & _).
  destruct (drop_page (pm s) rs (up_page u) pg (nodes (pm s)) (wf_rep _ _ _ (as_wf _ _ _ _ RA)) Hnf Hpg) as (t' & E & Rt & Hperm & _ & Hd & _ & Hn); [done..|].
  exists t', (spec_free (up_page u) 1 rs). split_and!; try done. unfold wr64, modify. rewrite (bind_Ret _ _ s tt _) by done.
  rewrite (bind_Ret _ _ _ _ _ (invalidate_Ret _ _)).
  erewrite bind_Ret by (apply on_pm_Ret, upd_page_Ret; exact Hpg). cbv beta. rewrite commit_ref.
  erewrite on_pm_Ret by exact E. done.
Qed.

(** The pieces of the invariant after it. *)
Let W : pt_wf s rs root := as_wf _ _ _ _ RA.

Lemma commit_width : 0 < entry_of b < 2 ^ 64.
Proof. exact (entry_width slot (up_write u) (up_exec u) (slot_width s slot (sr_slots _ _ _ _ _ R) Hsl)). Qed.
Lemma commit_tables q : vpath q → table_at (<[ptep := entry_of b]> (ram s)) root q = table_at (ram s) root q.
Proof. pose proof commit_width. apply (leaf_write s rs root _ ptep (entry_of b) W Hl). lia. Qed.
Lemma commit_listed k : k ∈ ks → mapped (delete v A) k.
Proof.
  intros Hk. destruct (sr_listed _ _ _ _ _ R k Hk) as (v' & u' & Hu' & <-). exists v', u'. split; [|done].
  rewrite lookup_delete_ne; [done|]. intros <-. congruence.
Qed.
Lemma commit_rings (h : gmap node (ListNode node)) :
  (∀ x, anode (delete v A) x → h !! x = nodes (pm s) !! x) → ring h (SwapList a) (PageNode <$> ks) ∧
  ∀ v' u', delete v A !! v' = Some u' → (up_page u' ∈ ks ∨ ring h (PageNode (up_page u')) []) ∧ linked h (delete v A) (up_page u').
Proof.
  intros Hh. assert (ring h (SwapList a) (PageNode <$> ks)) as Hr.
  { eapply ring_frame; [|apply (sr_queue _ _ _ _ _ R)].
    intros x [->|(k & -> & (v' & u' & Hu' & <-)%commit_listed)%list_elem_of_fmap]%elem_of_cons;
      apply Hh; [by left; exists a|right; by exists v', u']. }
  split; [done|]. intros v' u' Hu'. destruct (commit_others v' u' Hu') as (_ & HA & _).
  assert (up_page u' ∈ ks ∨ ring h (PageNode (up_page u')) []) as Hal; [|split; [done|]; exact (queue_linked _ _ _ v' u' Hr commit_listed Hu' Hal)].
  destruct (sr_alone _ _ _ _ _ R v' u' HA) as [?|Hr']; [by left|right].
  eapply ring_frame; [|exact Hr']. intros x ->%list_elem_of_singleton. apply Hh. right. by exists v', u'.
Qed.

Section after.
Context (t' : pmm) (rs' : list (Z * Z)) (Rt : pmm_rep t' rs') (Hperm : free_pages rs' ≡ₚ up_page u :: free_pages rs)
  (Hd : ∀ i, i ∉ up_page u :: free_pages rs → page_desc t' !! i = page_desc (pm s) !! i)
  (Hn : ∀ x, x ≠ FreeList → (∀ i, i ∈ up_page u :: free_pages rs → x ≠ PageNode i) → nodes t' !! x = nodes (pm s) !! x).

Lemma commit_nodes x : anode (delete v A) x → nodes t' !! x = nodes (pm s) !! x.
Proof.
  intros [[i ->]|(v' & u' & (_ & _ & ? & ?)%commit_others & ->)]; apply Hn; try done.
  intros i [->|?]%elem_of_cons [= E2]; [done|]. by rewrite E2 in *.
Qed.

Lemma commit_as : as_rep (committed t') rs' root (delete v A).
Proof.
  pose proof commit_width. destruct (as_page _ _ _ _ RA v u Hu) as (_ & _ & Hf & _ & _).
  eapply (as_rep_same (with_pm t' (with_ram (<[ptep := entry_of b]> (ram s)) s))); [done|done|]. apply (as_pm _ rs).
  - apply (as_unmap s rs A v u); try done; [lia|apply entry_absent|]. intros v' u' Hu'.
    by apply (proj2 (commit_rings (nodes (pm s)) ltac:(done))) with v'.
  - done.
  - intros k. rewrite Hperm, elem_of_cons. cbn [ram with_ram]. intros [->|Hk].
    + split; [done|]. split; [|by intros v' u' (_ & _ & ? & _)%commit_others].
      intros q t Hvq Hq. rewrite commit_tables in Hq by done. by eapply (as_tables _ _ _ _ RA).
    + split; [by apply W|]. split; [|intros v' u' (_ & _ & _ & Hn')%commit_others E2; by rewrite E2 in Hn'].
      intros q t Hvq Hq <-. rewrite commit_tables in Hq by done. by apply (wf_tables _ _ _ W q t).
  - intros k Hk. cbn [pm with_ram]. rewrite Hd; [done|]. rewrite elem_of_cons.
    destruct Hk as [(q & Hvq & _ & Hq)|(v' & u' & (_ & _ & ? & ?)%commit_others & <-)]; [|by intros [?|?]].
    cbn [ram with_ram] in Hq. rewrite commit_tables in Hq by done. destruct (owned_page s rs root q k W Hvq Hq) as [E2 ?].
    intros [->|?]; [|done]. by apply (as_tables _ _ _ _ RA v u q _ Hu Hvq Hq).
  - intros v' u' Hu'. by apply (proj2 (commit_rings _ commit_nodes)) with v'.
Qed.

Lemma commit_rep : sw_rep (committed t') rs' (delete v A) (<[v := b]> B) ks.
Proof.
  destruct (as_page _ _ _ _ RA v u Hu) as (Hv & _). destruct (commit_rings _ commit_nodes) as [Hr Hal].
  constructor; try (apply R || apply commit_as || apply commit_listed || done).
  - intros v' b'. rewrite lookup_insert. cbn [ram committed swp]. case_decide as Hvv; [intros [= <-]; subst v'|intros Hb'].
    + split; [done|]. split; [by rewrite lookup_delete_eq|]. split; [|done]. exists ptep.
      split; [by apply (leaf_entry_same s); [apply commit_tables|]|]. by rewrite word_insert, decide_True.
    + destruct (sr_swapped _ _ _ _ _ R v' b' Hb') as (Hv' & HA & (x & Hx & Ex) & ?). split; [done|]. split; [by rewrite lookup_delete_ne|].
      split; [|done]. exists x. split; [by apply (leaf_entry_same s); [apply commit_tables|]|].
      by rewrite (leaf_write_word s rs v v'), decide_False.
  - intros v1 v2 b1 b2. rewrite !lookup_insert.
    destruct (decide (v = v1)), (decide (v = v2)); intros E1 E2 Es; [congruence|..|by eapply (sr_inj _ _ _ _ _ R)].
    + destruct (Hfresh v2 b2 E2). rewrite <- Es. by injection E1 as <-.
    + destruct (Hfresh v1 b1 E1). rewrite Es. by injection E2 as <-.
  - intros v' x Hv'. rewrite lookup_insert. cbn [ram committed]. case_decide as Hvv; [done|]. rewrite lookup_delete_ne by done. intros HA HB Hx.
    apply (leaf_entry_same s) in Hx; [|apply commit_tables]. rewrite (leaf_write_word s rs v v'), decide_False by done.
    by apply (sr_empty _ _ _ _ _ R v').
  - intros v' u' Hu'. by apply (Hal v' u').
Qed.

Lemma commit_frame : mm_frame s rs A (committed t') rs' (delete v A).
Proof.
  destruct (as_page _ _ _ _ RA v u Hu) as (Hv & _). pose proof commit_width. constructor; cbn [committed ram pm page_count cpu_root tlb].
  - intros k. unfold held, owned. rewrite Hperm, elem_of_cons. cbn [committed ram]. split.
    + intros [?|[(q & Hvq & Huq & Hq)|(v' & u' & Hu' & <-)]]; [by left; right|right; left; exists q; by rewrite commit_tables|].
      destruct (decide (v' = v)) as [->|]; [left; left; congruence|]. right. right. exists v', u'. by rewrite lookup_delete_ne.
    + intros [[->|?]|[(q & Hvq & Huq & Hq)|(v' & u' & (_ & ? & _)%commit_others & <-)]]; [right; right; by exists v, u|by left|..|right; right; by exists v', u'].
      right. left. exists q. by rewrite <- commit_tables.
  - intros x Hx Hr. rewrite word_insert, decide_False; [done|]. intros <-.
    destruct (leaf_owned s rs root A _ _ W (user_va v Hv) Hl) as [(i & Hi & ->)|Ho]; [by apply (Hr i)|]. apply Hx. by right.
  - intros va sh Hsh Hi. apply (leaf_kernel s rs v _ _ va sh); done || lia.
  - intros k Hk. apply Hd. rewrite elem_of_cons. intros [->|?]; apply Hk; [right; right; by exists v, u|by left].
  - intros x Hx Ha Hk. apply Hn; [done|]. intros i [->|?]%elem_of_cons; apply Hk; [right; right; by exists v, u|by left].
  - split_and!; [done..|]. destruct (cpu_root s =? root); [by exists [v * PG_SIZE]|done].
Qed.
End after.

Lemma commit_spec : ∃ t' rs',
  (wr64 ptep (entry_of b);; invalidate_tlb_page root (v * PG_SIZE);;
   on_pm (upd_page (up_page u) (λ pg, set_ref (ref_count pg - 1) pg));; on_pm (free (up_page u) 1)) s = Ret tt (committed t') ∧
  sw_rep (committed t') rs' (delete v A) (<[v := b]> B) ks ∧ mm_frame s rs A (committed t') rs' (delete v A) ∧
  keeps_pages (delete v A) s (committed t') ∧ free_pages rs' ≡ₚ up_page u :: free_pages rs.
Proof.
  destruct commit_run as (t' & rs' & E & Rt & Hperm & Hd & Hn). exists t', rs'.
  split_and!; [done|by apply commit_rep|by apply commit_frame| |done].
  intros x v' u' (_ & Hu' & _)%commit_others Hx. by apply (leaf_pages s rs root A (v * PG_SIZE) ptep (entry_of b) RA Hl x v' u').
Qed.
End commit.
End swap.
