(* ===== verification/SwapOut.v ===== *)
(** * Swapping out

    [swap::out]: the pages at the head of the queue move to the device, in
    order, until the number asked for is reached or one cannot move; an attempt
    that fails leaves the page where it was. *)

From S2P Require Import Prelude LibList Pmm PmmProofs Paging SwapSlots PageTable PageTableProofs Vmm VmmProofs BlockDev AddrSpace Teardown Exec Swap SwapScan SwapProofs.

#[local] Arguments seqZ : simpl never.

Section out.
Context `{PL : PagingLaws} `{UL : !UserLayout} `{UU : !UserLayoutLaws} `{SL : !SwapLaws}.
Context {D : Type} `{BD : BlockDevice D} `{BL : !BlockDeviceLaws D}.
Context (kernel_pgdir root a : Z).
Notation mem := (MkMemory a (Some root)).
Implicit Types (s : mm) (d : D) (rs : list (Z * Z)) (A : gmap Z upage) (B : gmap Z spage) (ks : list Z).
Notation sw_rep := (sw_rep root a).
Notation sw_step := (sw_step root a).
Notation mm_frame := (mm_frame root a).

Lemma in_mm_Ret {X} (m : M mm X) s d x s' : m s = Ret x s' → in_mm m (s, d) = Ret x (s', d).
Proof. intros E. unfold in_mm. by erewrite zoom_Ret by exact E. Qed.
Lemma in_mm_Fail {X} (m : M mm X) s d e s' : m s = Fail e s' → in_mm m (s, d) = Fail e (s', d).
Proof. intros E. unfold in_mm. by erewrite zoom_Fail by exact E. Qed.
Lemma on_swp_Ret {X} (m : M swap_state X) s x w : m (swp s) = Ret x w → on_swp m s = Ret x (with_swp w s).
Proof. intros E. unfold on_swp. by erewrite zoom_Ret by exact E. Qed.
Lemma on_swp_Fail {X} (m : M swap_state X) s e w : m (swp s) = Fail e w → on_swp m s = Fail e (with_swp w s).
Proof. intros E. unfold on_swp. by erewrite zoom_Fail by exact E. Qed.
Lemma with_swp_same s : with_swp (swp s) s = s.
Proof. by destruct s. Qed.

(** ** The queue *)

Lemma list_empty_Ret s x l : ring (nodes (pm s)) x l → list_empty x s = Ret (bool_decide (l = [])) s.
Proof.
  intros [Hnd Hs]. unfold list_empty, get. rewrite (bind_Ret _ _ s s s) by done. unfold empty_list. rewrite (seg_next _ _ _ _ Hs). simpl.
  do 2 f_equal. apply bool_decide_ext. destruct l as [|y l]; [done|]. simpl. split; [|done]. intros ->. apply NoDup_cons in Hnd as [Hn _]. destruct Hn. left.
Qed.

(** A page that is linked to itself is not queued. *)
Lemma alone_unqueued (h : gmap node (ListNode node)) k ks : ring h (PageNode k) [] → ring h (SwapList a) (PageNode <$> ks) → PageNode k ∉ SwapList a :: (PageNode <$> ks).
Proof.
  intros Hk Hr Hin. destruct (ring_at _ _ _ _ Hr Hin) as (l & Hl & E). rewrite (ring_unique _ _ _ _ Hl Hk) in E.
  assert (SwapList a ∈ [PageNode k]) as ?%list_elem_of_singleton by (rewrite E; left). done.
Qed.

Lemma victim_none s rs A B : sw_rep s rs A B [] → swap_out_victim mem s = Fail E_NotFound s.
Proof. intros R. unfold swap_out_victim. by rewrite (bind_Ret _ _ _ _ _ (list_empty_Ret _ _ _ (sr_queue _ _ _ _ _ _ _ R))). Qed.

Lemma victim_spec s rs A B k ks : sw_rep s rs A B (k :: ks) →
  ∃ h', swap_out_victim mem s = Ret k (with_nodes h' s) ∧ sw_rep (with_nodes h' s) rs A B ks ∧ mm_frame s rs A (with_nodes h' s) rs A.
Proof.
  intros R. pose proof (sr_queue _ _ _ _ _ _ _ R) as Hr. cbn [fmap list_fmap] in Hr.
  destruct (ring_unlink _ (SwapList a) [] (PageNode k) (PageNode <$> ks) Hr) as (h' & E & Hr' & Hk & Hu & Hdom). exists h'.
  pose proof (listed_nodup _ _ _ _ _ _ _ R) as [Hnk _]%NoDup_cons. split.
  - unfold swap_out_victim. rewrite (bind_Ret _ _ _ _ _ (list_empty_Ret _ _ _ Hr)). cbn [bool_decide].
    rewrite bool_decide_eq_false_2 by done. erewrite bind_Ret by (apply on_pm_Ret, next_of_Ret; by destruct Hr as [_ [? _]]).
    erewrite bind_Ret by (apply on_pm_Ret, on_nodes_Ret; exact E). by erewrite on_pm_Ret.
  - apply (sw_relink root a s rs A B (k :: ks)); try done.
    + intros x Hx Ha. apply Hu. intros [->|[->|(i & -> & Hi)%list_elem_of_fmap]%elem_of_cons]%elem_of_cons; [done|..].
      * by apply (Hx k); [apply (sr_listed _ _ _ _ _ _ _ R); left|].
      * by apply (Hx i); [apply (sr_listed _ _ _ _ _ _ _ R); right|].
    + intros i Hi. apply (sr_listed _ _ _ _ _ _ _ R). by right.
    + intros v u Hv. destruct (sr_alone _ _ _ _ _ _ _ R v u Hv) as [[->|?]%elem_of_cons|Hal]; [by right|by left|right].
      eapply ring_frame; [|exact Hal]. intros x ->%list_elem_of_singleton. apply Hu.
      by apply (alone_unqueued (nodes (pm s)) _ (k :: ks)).
Qed.

(** Queuing a page, at either end. *)
Lemma enqueue s rs A B ks k h' ks' : sw_rep s rs A B ks → mapped A k → untouched (nodes (pm s)) h' (PageNode k :: SwapList a :: (PageNode <$> ks)) →
  ring h' (SwapList a) (PageNode <$> ks') → ks' ≡ₚ k :: ks →
  sw_rep (with_nodes h' s) rs A B ks' ∧ mm_frame s rs A (with_nodes h' s) rs A.
Proof.
  intros R Hk [Hd Hdom] Hr' Hp. pose proof (sr_queue _ _ _ _ _ _ _ R) as Hr. apply (sw_relink root a s rs A B ks); try done.
  - intros x Hx Ha. apply Hd. intros [->|[->|(i & -> & Hi)%list_elem_of_fmap]%elem_of_cons]%elem_of_cons; [by apply (Hx k)|done|].
    by apply (Hx i); [apply (sr_listed _ _ _ _ _ _ _ R)|].
  - intros i. rewrite Hp. intros [->|?]%elem_of_cons; [done|by apply (sr_listed _ _ _ _ _ _ _ R)].
  - intros v' u' Hu'. rewrite Hp. destruct (decide (up_page u' = k)) as [->|Hne]; [left; left|].
    destruct (sr_alone _ _ _ _ _ _ _ R v' u' Hu') as [?|Hal']; [by left; right|right].
    eapply ring_frame; [|exact Hal']. intros x ->%list_elem_of_singleton. apply Hd.
    intros [[= ?]|?]%elem_of_cons; [done|]. by apply (alone_unqueued (nodes (pm s)) (up_page u') ks).
Qed.

Lemma alone_mapped s rs A B k ks : sw_rep s rs A B ks → mapped A k → k ∉ ks →
  ring (nodes (pm s)) (PageNode k) [] ∧ is_Some (nodes (pm s) !! PageNode k) ∧ PageNode k ∉ SwapList a :: (PageNode <$> ks).
Proof.
  intros R (v & u & Hu & <-) Hn. destruct (sr_alone _ _ _ _ _ _ _ R v u Hu) as [?|Hal]; [done|]. split_and!; [done| |].
  - eapply ring_alloc; [exact Hal|left].
  - by apply (alone_unqueued (nodes (pm s))), (sr_queue _ _ _ _ _ _ _ R).
Qed.

Lemma requeue_spec s d rs A B k ks : sw_rep s rs A B ks → mapped A k → k ∉ ks →
  ∃ h', requeue mem k (s, d) = Ret tt (with_nodes h' s, d) ∧ sw_rep (with_nodes h' s) rs A B (k :: ks) ∧ mm_frame s rs A (with_nodes h' s) rs A.
Proof.
  intros R Hk Hn. destruct (alone_mapped s rs A B k ks R Hk Hn) as (_ & Hs & Hq).
  destruct (ring_add_after _ (SwapList a) (PageNode k) _ (sr_queue _ _ _ _ _ _ _ R) Hs Hq) as (h' & E & Hr' & Hd).
  exists h'. split; [unfold requeue; eapply in_mm_Ret, on_pm_Ret, on_nodes_Ret; exact E|]. by apply (enqueue s rs A B ks k).
Qed.

Lemma map_swappable_spec s rs A B k ks : sw_rep s rs A B ks → mapped A k → k ∉ ks →
  ∃ h', map_swappable mem k s = Ret tt (with_nodes h' s) ∧ sw_rep (with_nodes h' s) rs A B (ks ++ [k]).
Proof.
  intros R Hk Hn. destruct (alone_mapped s rs A B k ks R Hk Hn) as (Hal & Hs & Hq).
  destruct (ring_add_before _ (SwapList a) (PageNode k) _ (sr_queue _ _ _ _ _ _ _ R) Hs Hq) as (h' & E & Hr' & Hd).
  exists h'. split.
  - unfold map_swappable. rewrite (bind_Ret _ _ _ _ _ (list_empty_Ret s _ [] Hal)). rewrite bool_decide_eq_true_2 by done.
    rewrite (bind_Ret _ _ s tt s) by done. by apply on_pm_Ret, on_nodes_Ret.
  - apply (enqueue s rs A B ks k); try done; [by rewrite fmap_app|by rewrite Permutation_app_comm].
Qed.

(** ** Slots *)

Lemma sw_slots s rs A B ks w : sw_rep s rs A B ks → slots_wf w → slot_limit w = slot_limit (swp s) →
  (∀ v b, B !! v = Some b → used (slots w) (sw_slot b) = true) → sw_rep (with_swp w s) rs A B ks.
Proof.
  intros [] W Hl Hu. constructor; try done; [by apply (as_rep_same s)|]. intros v b Hb. destruct (sr_swapped v b Hb) as (? & ? & ? & ? & _).
  split; [done|]. split; [done|]. split; [done|]. cbn [swp with_swp]. split; [unfold valid_slot in *; by rewrite Hl|by apply (Hu v)].
Qed.

(** A slot is reserved, used and given back without the view or the other slots
    noticing. *)
Definition reserved s slot w : Prop :=
  valid_slot (swp s) slot ∧ slots_wf w ∧ slot_limit w = slot_limit (swp s) ∧ used (slots (swp s)) slot = false ∧
  ∀ i, 0 ≤ i → used (slots w) i = (i =? slot) || used (slots (swp s)) i.

Lemma reserved_rep s rs A B ks slot w : sw_rep s rs A B ks → reserved s slot w →
  sw_rep (with_swp w s) rs A B ks ∧ (∀ v b, B !! v = Some b → sw_slot b ≠ slot) ∧ used (slots w) slot = true.
Proof.
  intros R (Hv & W & Hl & Hf & Hu).
  assert (∀ v b, B !! v = Some b → 0 ≤ sw_slot b ∧ used (slots (swp s)) (sw_slot b) = true) as Hb.
  { intros v b Hb. destruct (sr_swapped _ _ _ _ _ _ _ R v b Hb) as (_ & _ & _ & Hs & ?). unfold valid_slot in Hs. split; [lia|done]. }
  split_and!; [apply (sw_slots s); try done|..].
  - intros v b [H0 H1]%Hb. rewrite Hu, H1 by done. apply orb_true_r.
  - intros v b [_ H1]%Hb <-. congruence.
  - unfold valid_slot in Hv. by rewrite Hu, Z.eqb_refl by lia.
Qed.

Lemma release_reserved s w slot x y : reserved s slot w →
  ∃ w', release_entry (swap_entry slot x y) w = Ret tt w' ∧ slots_wf w' ∧ slot_limit w' = slot_limit (swp s) ∧
    ∀ i, 0 ≤ i → used (slots w') i = used (slots (swp s)) i.
Proof.
  intros (Hv & W & Hl & Hf & Hu).
  destruct (release_slot_spec w slot x y W) as (w' & E & W' & Hl' & Hu'); [unfold valid_slot in *; by rewrite Hl|].
  exists w'. split_and!; [done|done|congruence|]. intros i Hi. rewrite Hu', Hu by done.
  destruct (Z.eqb_spec i slot) as [->|]; [by rewrite Hf|]. by rewrite andb_true_r.
Qed.

(** ** Transfers *)

Lemma page_bytes_length m pa : length (bytes_get m pa PG_SIZE) = (512 * blocks)%nat.
Proof. unfold bytes_get. by rewrite length_fmap, length_seqZ. Qed.
Lemma page_bytes_ok m pa : Forall is_byte (bytes_get m pa PG_SIZE).
Proof. unfold bytes_get. apply Forall_fmap, Forall_true. intros i. apply Z.mod_pos_bound. lia. Qed.

Lemma has_device s d : slots_wf (swp s) → no_device (s, d) = false.
Proof. intros W. apply bool_decide_eq_false_2. cbn [fst]. by rewrite (wf_device _ W). Qed.

Lemma swap_slot_Ret s d slot x y : slots_wf (swp s) → valid_slot (swp s) slot → used (slots (swp s)) slot = true →
  swap_slot (swap_entry slot x y) (s, d) = Ret ((slot - 1) * BLOCKS_PER_PAGE) (s, d).
Proof.
  intros W Hv Hu. pose proof (slot_width s slot W Hv) as Hw. unfold swap_slot, gets.
  rewrite (bind_Ret _ _ (s, d) false (s, d)) by (by rewrite has_device).
  rewrite (bind_Ret _ _ (s, d) tt (s, d)) by done.
  erewrite bind_Ret by (eapply in_mm_Ret, on_swp_Ret, allocated_slot_spec; done). rewrite Hu, with_swp_same.
  rewrite (proj2 (Z.eqb_neq slot 0)) by lia. rewrite (bind_Ret _ _ (s, d) tt (s, d)) by done. unfold ret. by rewrite block_lba.
Qed.

Lemma swapfs_write_spec s d slot x y page : slots_wf (swp s) → valid_slot (swp s) slot → used (slots (swp s)) slot = true →
  frame (page * PG_SIZE) →
  ∃ r d', swapfs_write (swap_entry slot x y) page (s, d) = match r with None => Ret tt (s, d') | Some e => Fail e (s, d') end ∧
    block_count d' = block_count d ∧ (∀ i, i ≠ slot → slot_bytes d' i = slot_bytes d i) ∧
    match r with
    | None => slot_bytes d' slot = bytes_get (ram s) (page * PG_SIZE) PG_SIZE
    | Some e => ∃ buf, (dev_write ((slot - 1) * BLOCKS_PER_PAGE) blocks buf d).1 = Some e
    end.
Proof.
  intros W Hv Hu Hf. unfold swapfs_write. rewrite (bind_Ret _ _ _ _ _ (swap_slot_Ret s d slot x y W Hv Hu)). cbn [fst snd].
  destruct (page_to_phys_frame page Hf) as [-> _]. set (buf := bytes_get _ _ _). destruct (dev_write _ _ buf d) as [r d'] eqn:E.
  destruct (write_law d _ _ buf r d' E (page_bytes_length _ _) (page_bytes_ok _ _)) as (Hc & Ho & Hok).
  exists r, d'. split_and!; [by destruct r|done|intros i Hi; by apply (slot_other d d' slot)|].
  destruct r as [e|]; [exists buf; by rewrite E|by apply Hok].
Qed.

Lemma keeps_page_bytes A s s' v u : keeps_pages A s s' → A !! v = Some u →
  bytes_get (ram s') (up_page u * PG_SIZE) PG_SIZE = bytes_get (ram s) (up_page u * PG_SIZE) PG_SIZE.
Proof. intros Hk Hu. unfold bytes_get. apply list_fmap_ext. intros i k Hk'. apply list_elem_of_lookup_2, elem_of_seqZ in Hk'. by apply (keeps_bytes A s s' v u). Qed.

(** ** One iteration *)

(** Why nothing more can be swapped out: the queue is empty, its head is the
    page at address 0, every slot is in use, or the device refuses a write. *)
Definition stuck s (count : Z) A ks : Prop :=
  ks = [] ∨ (∃ u, A !! 0 = Some u ∧ head ks = Some (up_page u)) ∨ (∀ i, valid_slot (swp s) i → used (slots (swp s)) i = true) ∨
  ∃ d1 slot buf e, block_count d1 = count ∧ valid_slot (swp s) slot ∧ (dev_write ((slot - 1) * BLOCKS_PER_PAGE) blocks buf d1).1 = Some e.

(** An attempt that changes no page. *)
Lemma idle_step s d rs A B ks s' d' rs' ks' : sw_rep s rs A B ks → sw_rep s' rs' A B ks' → mm_frame s rs A s' rs' A → ram s' = ram s →
  slot_limit (swp s') = slot_limit (swp s) → (∀ i, 0 ≤ i → used (slots (swp s')) i = used (slots (swp s)) i) →
  (∀ i, used (slots (swp s)) i = true → slot_bytes d' i = slot_bytes d i) → sw_step s d rs A B s' d' rs' A B ks'.
Proof.
  intros R R' F Hr Hl Hu Hd. constructor; [done|done|..].
  - split; [done|]. intros i Hv. unfold valid_slot in Hv. unfold foreign. rewrite Hu by lia. split; [done|]. intros [? _]. by apply Hd.
  - intros v. unfold contents. rewrite Hr. destruct (A !! v); [done|]. destruct (B !! v) as [b|] eqn:Hb; [|done].
    destruct (sr_swapped _ _ _ _ _ _ _ R v b Hb) as (_ & _ & _ & _ & Hub). by rewrite Hd.
Qed.

(** The states of an attempt, up to the choice of the slot: the victim is off
    the queue, its address found. *)
Lemma evict_start s d rs A B k ks : sw_rep s rs A B (k :: ks) →
  ∃ v u h', A !! v = Some u ∧ up_page u = k ∧ k ∉ ks ∧ let s1 := with_nodes h' s in
    sw_rep s1 rs A B ks ∧ mm_frame s rs A s1 rs A ∧ try_ (in_mm (swap_out_victim mem)) (s, d) = Ret (inl k) (s1, d) ∧
    in_mm (find_va_for_page (Some root) k) (s1, d) = Ret (v * PG_SIZE) (s1, d).
Proof.
  intros R. destruct (victim_spec s rs A B k ks R) as (h' & E & R1 & F).
  destruct (sr_listed _ _ _ _ _ _ _ R k ltac:(left)) as (v & u & Hu & Hk). pose proof (listed_nodup _ _ _ _ _ _ _ R) as [Hnk _]%NoDup_cons.
  exists v, u, h'. cbv zeta. split_and!; try done; [by apply try_Ret, in_mm_Ret|]. apply in_mm_Ret. rewrite <- Hk.
  by apply (find_va_spec _ rs root A v u (sr_as _ _ _ _ _ _ _ R1)).
Qed.

Lemma rd64_Ret s d x : in_mm (rd64 x) (s, d) = Ret (word (ram s) x) (s, d).
Proof. by apply in_mm_Ret. Qed.
Lemma page_Ret s d k pg : page_desc (pm s) !! k = Some pg → in_mm (on_pm (get_page k)) (s, d) = Ret pg (s, d).
Proof. intros E. apply in_mm_Ret. erewrite on_pm_Ret by (by apply get_page_Ret). by destruct s. Qed.

(** A failed attempt puts the page back. *)
Lemma abort_step s d rs A B k ks s1 w d' : sw_rep s rs A B (k :: ks) → sw_rep s1 rs A B ks → mm_frame s rs A s1 rs A →
  ram s1 = ram s → swp s1 = swp s → slots_wf w → slot_limit w = slot_limit (swp s) → (∀ i, 0 ≤ i → used (slots w) i = used (slots (swp s)) i) →
  (∀ i, used (slots (swp s)) i = true → slot_bytes d' i = slot_bytes d i) →
  ∃ s', requeue mem k (with_swp w s1, d') = Ret tt (s', d') ∧ swp s' = w ∧ sw_step s d rs A B s' d' rs A B (k :: ks).
Proof.
  intros R R1 F Hr Hsw W Hl Hu Hd.
  assert (sw_rep (with_swp w s1) rs A B ks) as R2.
  { apply (sw_slots s1); [done|done|by rewrite Hsw|]. intros v b Hb.
    destruct (sr_swapped _ _ _ _ _ _ _ R v b Hb) as (_ & _ & _ & Hv & Hub). unfold valid_slot in Hv. by rewrite Hu by lia. }
  destruct (requeue_spec (with_swp w s1) d' rs A B k ks R2) as (h' & E & R3 & F3).
  { apply (sr_listed _ _ _ _ _ _ _ R). left. }
  { pose proof (listed_nodup _ _ _ _ _ _ _ R) as [? _]%NoDup_cons. done. }
  exists (with_nodes h' (with_swp w s1)). split_and!; [done|done|]. apply (idle_step s d rs A B (k :: ks)); try done.
  eapply mm_frame_trans; [exact F|]. eapply mm_frame_trans; [|exact F3]. by constructor.
Qed.

Lemma stuck_same s s' c A ks : slot_limit (swp s') = slot_limit (swp s) → (∀ i, 0 ≤ i → used (slots (swp s')) i = used (slots (swp s)) i) →
  stuck s c A ks → stuck s' c A ks.
Proof.
  intros Hl Hu. unfold stuck, valid_slot. rewrite Hl. intros [?|[?|[Hall|?]]]; [by left|by right; left| |by right; right; right].
  right. right. left. intros i Hi. rewrite Hu by lia. auto.
Qed.

(** The part of an attempt after the slot is reserved, for a page that is not at
    address 0. *)
Section transfer.
Context s d rs A B k ks s1 w slot v u ptep pg (R : sw_rep s rs A B (k :: ks)) (R1 : sw_rep s1 rs A B ks) (F1 : mm_frame s rs A s1 rs A)
  (Hram : ram s1 = ram s) (Hswp : swp s1 = swp s) (Hres : reserved s slot w) (Hu : A !! v = Some u) (Hk : up_page u = k) (Hnk : k ∉ ks)
  (Hl : leaf_entry (ram s1) root (v * PG_SIZE) ptep) (Hpg : page_desc (pm s1) !! k = Some pg).
Let s2 : mm := with_swp w s1.

Lemma transfer_rep : sw_rep s2 rs A B ks ∧ (∀ v b, B !! v = Some b → sw_slot b ≠ slot) ∧ used (slots w) slot = true.
Proof. apply reserved_rep; [done|]. unfold reserved. by rewrite Hswp. Qed.

(** The device took the page. *)
Lemma transfer_commit d' : (∀ i, i ≠ slot → slot_bytes d' i = slot_bytes d i) →
  slot_bytes d' slot = bytes_get (ram s) (up_page u * PG_SIZE) PG_SIZE →
  let b := MkSpage slot (up_write u) (up_exec u) in
  ∃ s' rs', (wr64 ptep (entry_of b);; invalidate_tlb_page root (v * PG_SIZE);;
       on_pm (upd_page k (λ pg, set_ref (ref_count pg - 1) pg));; on_pm (free k 1)) s2 = Ret tt s' ∧
     sw_step s d rs A B s' d' rs' (delete v A) (<[v := b]> B) ks ∧ (cpu_root s = root → v * PG_SIZE ∈ tlb s') ∧
     free_pages rs' ≡ₚ up_page u :: free_pages rs.
Proof.
  intros Hd Hb b. destruct transfer_rep as (R2 & Hfresh & Hon). destruct Hres as (Hv & W & Hwl & Hoff & Huse).
  destruct (commit_spec root a s2 rs A B ks v u slot ptep pg R2 Hu) as (t' & rs' & E & R3 & F3 & Hkp & Hperm);
    rewrite ?Hk; try done; [unfold valid_slot in *; cbn [s2 swp with_swp]; by rewrite Hwl|].
  eexists _, rs'. split; [rewrite <- Hk; exact E|]. split_and!; [constructor|..]; try done.
  - eapply mm_frame_trans; [exact F1|]. eapply mm_frame_trans; [|exact F3]. by constructor.
  - split; [done|]. intros i Hvi. unfold valid_slot in Hvi. unfold foreign. cbn [committed swp s2 with_swp]. rewrite Huse by lia. split; [split|].
    + intros [Hui Hn]. rewrite Hui. split; [apply orb_true_r|]. intros v' b'. rewrite lookup_insert. case_decide; [|apply Hn].
      intros [= <-] Ei. simpl in Ei. congruence.
    + intros [Hui Hn]. pose proof (Hn v b (lookup_insert_eq _ _ _)) as Hne. simpl in Hne.
      rewrite (proj2 (Z.eqb_neq i slot)) in Hui by done. split; [done|]. intros v' b' Hb'. apply (Hn v'). rewrite lookup_insert_ne; [done|]. intros <-.
      destruct (sr_swapped _ _ _ _ _ _ _ R v b' Hb') as (_ & ? & _). congruence.
    + intros [Hui _]. apply Hd. intros ->. congruence.
  - intros v'. unfold contents. rewrite lookup_delete, lookup_insert. destruct (decide (v = v')) as [<-|Hne].
    + rewrite Hu. cbn. by rewrite Hb.
    + destruct (A !! v') as [u'|] eqn:Hu'.
      * rewrite (keeps_page_bytes (delete v A) s2 _ v' u' Hkp) by (by rewrite lookup_delete_ne). cbn [s2 ram with_swp]. by rewrite Hram.
      * destruct (B !! v') as [b'|] eqn:Hb'; [|done]. rewrite Hd; [done|]. by eapply Hfresh.
  - intros Hroot. cbn [committed tlb cpu_root s2 with_swp]. destruct (mf_rest _ _ _ _ _ _ _ _ F1) as (_ & -> & _).
    rewrite Hroot, Z.eqb_refl. left.
  - by rewrite <- Hk.
Qed.

(** Either the page is back in the queue or it is on the device. *)
Lemma evict_page_spec : maps_entry (word (ram s1) ptep) u → ref_count pg = 1 → frame (up_page u * PG_SIZE) →
  (∃ s' d', evict_page mem root k (v * PG_SIZE) ptep slot (word (ram s1) ptep) (s2, d) = Ret false (s', d') ∧
     sw_step s d rs A B s' d' rs A B (k :: ks) ∧ block_count d' = block_count d ∧ stuck s' (block_count d) A (k :: ks)) ∨
  (∃ b s' d' rs', evict_page mem root k (v * PG_SIZE) ptep slot (word (ram s1) ptep) (s2, d) = Ret true (s', d') ∧
     sw_step s d rs A B s' d' rs' (delete v A) (<[v := b]> B) ks ∧ block_count d' = block_count d ∧
     (cpu_root s = root → v * PG_SIZE ∈ tlb s') ∧ free_pages rs' ≡ₚ up_page u :: free_pages rs).
Proof.
  intros (_ & _ & Hw & _ & Hx & _) Hr Hf. unfold evict_page. rewrite Hw, Hx.
  destruct transfer_rep as (R2 & Hfresh & Hon).
  destruct (swapfs_write_spec s2 d slot (up_write u) (up_exec u) k) as (r & d' & Ewr & Hc & Hoth & Hwr); try done; [apply R2|..|by rewrite <- Hk|].
  { destruct Hres as (? & _ & Hwl & _). unfold valid_slot in *. change (swp s2) with w. by rewrite Hwl. }
  assert (∀ d, in_mm (on_pm (get_page k)) (s2, d) = Ret pg (s2, d)) as Epg' by (intros; by apply page_Ret).
  destruct r as [e|]; [left|right].
  - rewrite (bind_Ret _ _ _ _ _ (try_Fail _ _ _ _ Ewr)), (bind_Ret _ _ _ _ _ (rd64_Ret s2 d' ptep)), (bind_Ret _ _ _ _ _ (Epg' d')).
    cbn [orb]. destruct (release_reserved s w slot (up_write u) (up_exec u) Hres) as (w1 & Ew1 & Ww1 & Hwl1 & Hwu1).
    erewrite bind_Ret by (eapply in_mm_Ret, on_swp_Ret; exact Ew1).
    destruct (abort_step s d rs A B k ks s1 w1 d' R R1 F1) as (s' & Eq & Hsw & St); try done.
    { intros i Hi. apply Hoth. intros ->. destruct Hres as (_ & _ & _ & ? & _). congruence. }
    exists s', d'. rewrite (bind_Ret _ _ _ _ _ Eq). split_and!; try done. right. right. right. destruct Hwr as [buf Hbuf].
    exists d, slot, buf, e. split_and!; try done; destruct Hres as [Hvs _]; unfold valid_slot in *; rewrite Hsw, ?Hwl1; lia.
  - rewrite (bind_Ret _ _ _ _ _ (try_Ret _ _ _ _ Ewr)), (bind_Ret _ _ _ _ _ (rd64_Ret s2 d' ptep)), (bind_Ret _ _ _ _ _ (Epg' d')).
    cbn [ram with_swp orb]. rewrite Z.eqb_refl, Hr. cbn [negb orb Z.eqb Pos.eqb].
    destruct (transfer_commit d' Hoth) as (s' & rs' & E & St & Ht & Hperm);
      [rewrite <- Hram, Hk; done|].
    erewrite bind_Ret by (eapply in_mm_Ret; exact E).
    by exists (MkSpage slot (up_write u) (up_exec u)), s', d', rs'.
Qed.
End transfer.

Lemma evict_spec s d rs A B ks : sw_rep s rs A B ks →
  (∃ s' d', evict mem root (s, d) = Ret false (s', d') ∧ sw_step s d rs A B s' d' rs A B ks ∧ block_count d' = block_count d ∧
     stuck s' (block_count d) A ks) ∨
  (∃ v u b ks' s' d' rs', evict mem root (s, d) = Ret true (s', d') ∧ ks = up_page u :: ks' ∧ A !! v = Some u ∧
     sw_step s d rs A B s' d' rs' (delete v A) (<[v := b]> B) ks' ∧ block_count d' = block_count d ∧
     (cpu_root s = root → v * PG_SIZE ∈ tlb s') ∧ free_pages rs' ≡ₚ up_page u :: free_pages rs).
Proof.
  intros R. unfold evict. destruct ks as [|k ks].
  { left. exists s, d. erewrite bind_Ret by (eapply try_Fail, in_mm_Fail, victim_none; exact R).
    split_and!; [done|by apply sw_step_refl|done|by left]. }
  destruct (evict_start s d rs A B k ks R) as (v & u & h' & Hu & Hk & Hnk & R1 & F1 & E1 & E2). set (s1 := with_nodes h' s) in *.
  rewrite (bind_Ret _ _ _ _ _ E1). rewrite (bind_Ret _ _ _ _ _ E2). clear E1 E2.
  destruct (as_page _ _ _ _ (sr_as _ _ _ _ _ _ _ R1) v u Hu) as (Hv & (ptep & Hl & Hm) & Hf & _ & Hr).
  apply fmap_Some in Hr as (pg & Hpg & Hr). rewrite Hk in Hpg. pose proof (sr_slots _ _ _ _ _ _ _ R) as W.
  assert ((if negb (v * PG_SIZE =? 0) then in_mm (get_pte root (v * PG_SIZE) false) else ret None) (s1, d) =
    Ret (if decide (v = 0) then None else Some ptep) (s1, d)) as Ept.
  { destruct (decide (v = 0)) as [->|]; [done|]. rewrite (proj2 (Z.eqb_neq _ _)) by (unfold PG_SIZE; lia). cbn [negb].
    by apply in_mm_Ret, get_pte_leaf. }
  rewrite (bind_Ret _ _ _ _ _ Ept). clear Ept.
  assert (∀ w, in_mm (on_pm (get_page k)) (with_swp w s1, d) = Ret pg (with_swp w s1, d)) as Epg by (intros; by apply page_Ret).
  destruct (reserve_slot_spec (swp s) W) as [(slot & w & Er & Hres)|(w & Er & Ww & Hwl & Hws & Hall)].
  2:{ left. erewrite bind_Ret by (eapply try_Fail, in_mm_Fail, on_swp_Fail; exact Er).
      assert (∀ x, in_mm (rd64 x) (with_swp w s1, d) = Ret (word (ram s1) x) (with_swp w s1, d)) as Erd by done.
      destruct (abort_step s d rs A B k ks s1 w d R R1 F1) as (s' & Eq & Hsw & St); try done; [by intros; rewrite Hws|].
      exists s', d. split_and!; [|done|done|].
      - destruct (decide (v = 0)); [rewrite bind_ret|rewrite (bind_Ret _ _ _ _ _ (Erd ptep))];
          rewrite (bind_Ret _ _ _ _ _ (Epg w)), (bind_Ret _ _ _ _ _ Eq); done.
      - right. right. left. rewrite Hsw. unfold valid_slot. by rewrite Hwl, Hws. }
  assert (reserved s slot w) as Hresv by (destruct Hres as (? & ? & ? & ? & ?); done).
  destruct (release_reserved s w slot) with (x := false) (y := false) as (w0 & Ew0 & Ww0 & Hwl0 & Hwu0); [done|].
  erewrite bind_Ret by (eapply try_Ret, in_mm_Ret, on_swp_Ret; exact Er). destruct (decide (v = 0)) as [->|Hv0].
  { left. destruct (abort_step s d rs A B k ks s1 w0 d R R1 F1) as (s' & Eq & Hsw & St); try done.
    exists s', d. rewrite bind_ret. split_and!; [|done|done|right; left; exists u; by rewrite Hk].
    rewrite (bind_Ret _ _ _ _ _ (Epg w)).
    replace (Z.lor (Z.shiftl slot 8) ENTRY_HAS_PERMISSIONS) with (swap_entry slot false false) by (unfold swap_entry; by rewrite !Z.lor_0_r).
    erewrite bind_Ret by (eapply in_mm_Ret, on_swp_Ret; exact Ew0). by rewrite (bind_Ret _ _ _ _ _ Eq). }
  rewrite (bind_Ret _ _ _ _ _ (rd64_Ret (with_swp w s1) d ptep)), (bind_Ret _ _ _ _ _ (Epg w)).
  pose proof Hm as (Hp & _ & _ & Hus & _). cbn [ram with_swp]. rewrite Hp, Hus, <- Hr. cbn [negb orb Z.eqb Pos.eqb].
  destruct (evict_page_spec s d rs A B k ks s1 w slot v u ptep pg) as [?|(b & s' & d' & rs' & E & ?)]; try done; [by left|right].
  exists v, u, b, ks, s', d', rs'. split; [exact E|]. split; [by rewrite Hk|]. done.
Qed.

(** ** The loop *)

(** The pages [gone], the first of the queue, are on the device. *)
Record swapped_out s d rs A B ks s' d' rs' A' B' ks' (gone : list Z) : Prop := {
  so_step : sw_step s d rs A B s' d' rs' A' B' ks';
  so_queue : ks = gone ++ ks';
  so_free : free_pages rs' ≡ₚ gone ++ free_pages rs;
  so_gone : ∀ v u, A !! v = Some u → up_page u ∈ gone → A' !! v = None ∧ is_Some (B' !! v) ∧ (cpu_root s = root → v * PG_SIZE ∈ tlb s');
  so_kept : ∀ v u, A !! v = Some u → up_page u ∉ gone → A' !! v = Some u;
  so_none : ∀ v, A !! v = None → A' !! v = None;
  so_there : B ⊆ B';
  so_count : block_count d' = block_count d }.

Lemma swapped_out_nil s d rs A B ks s' d' : sw_step s d rs A B s' d' rs A B ks → block_count d' = block_count d →
  swapped_out s d rs A B ks s' d' rs A B ks [].
Proof. intros St Hc. constructor; try done. intros v u _ ?%elem_of_nil. done. Qed.

Lemma swapped_out_cons s d rs A B ks v0 u0 b s1 d1 rs1 ks1 s' d' rs' A' B' ks' gone :
  sw_rep s rs A B ks → ks = up_page u0 :: ks1 → A !! v0 = Some u0 → sw_step s d rs A B s1 d1 rs1 (delete v0 A) (<[v0 := b]> B) ks1 →
  block_count d1 = block_count d → (cpu_root s = root → v0 * PG_SIZE ∈ tlb s1) → free_pages rs1 ≡ₚ up_page u0 :: free_pages rs →
  swapped_out s1 d1 rs1 (delete v0 A) (<[v0 := b]> B) ks1 s' d' rs' A' B' ks' gone →
  swapped_out s d rs A B ks s' d' rs' A' B' ks' (up_page u0 :: gone).
Proof.
  intros R Hks Hu0 St Hc Ht Hperm []. pose proof (ss_frame _ _ _ _ _ _ _ _ _ _ _ _ _ so_step0) as F'.
  pose proof (ss_frame _ _ _ _ _ _ _ _ _ _ _ _ _ St) as F. destruct (mf_rest _ _ _ _ _ _ _ _ F) as (_ & Hroot & _).
  destruct (mf_rest _ _ _ _ _ _ _ _ F') as (_ & _ & [l Hl]).
  assert (∀ v u, A !! v = Some u → up_page u = up_page u0 → v = v0) as Hinj.
  { intros v u Hu E. by apply (as_inj _ _ _ _ (sr_as _ _ _ _ _ _ _ R) v v0 u u0). }
  assert (B !! v0 = None) as HB.
  { destruct (B !! v0) as [b'|] eqn:Hb; [|done]. destruct (sr_swapped _ _ _ _ _ _ _ R v0 b' Hb) as (_ & ? & _). congruence. }
  constructor.
  - by eapply sw_step_trans.
  - by rewrite Hks, so_queue0.
  - rewrite so_free0, Hperm. cbn [app]. by rewrite <- Permutation_middle.
  - intros v u Hu Hin. destruct (decide (v = v0)) as [->|Hne].
    + split_and!; [apply so_none0, lookup_delete_eq|exists b; eapply lookup_weaken; [|exact so_there0]; apply lookup_insert_eq|].
      intros ?%Ht. rewrite Hl. apply elem_of_app. by right.
    + apply elem_of_cons in Hin as [E|Hin]; [by destruct Hne; eapply Hinj|]. rewrite <- Hroot.
      apply (so_gone0 v u); [by rewrite lookup_delete_ne|done].
  - intros v u Hu [Hne Hin]%not_elem_of_cons. apply so_kept0; [|done]. rewrite lookup_delete_ne; [done|]. intros <-. congruence.
  - intros v Hn. apply so_none0. rewrite lookup_delete. by case_decide.
  - etrans; [|exact so_there0]. by apply insert_subseteq.
  - congruence.
Qed.

Lemma out_loop_spec n : ∀ s d rs A B ks (c : Z), sw_rep s rs A B ks →
  ∃ gone s' d' rs' A' B' ks', out_loop n mem root c (s, d) = Ret (c + Z.of_nat (length gone)) (s', d') ∧
    swapped_out s d rs A B ks s' d' rs' A' B' ks' gone ∧ (length gone ≤ n)%nat ∧
    ((length gone < n)%nat → stuck s' (block_count d) A' ks').
Proof.
  induction n as [|n IH]; intros s d rs A B ks c R; cbn [out_loop].
  { exists [], s, d, rs, A, B, ks. split_and!; [by rewrite Z.add_0_r|by apply swapped_out_nil; [apply sw_step_refl|]|done|lia]. }
  destruct (evict_spec s d rs A B ks R) as [(s1 & d1 & E & St & Hc & Hs)|(v & u & b & ks1 & s1 & d1 & rs1 & E & Hks & Hu & St & Hc & Ht & Hp)];
    rewrite (bind_Ret _ _ _ _ _ E).
  - exists [], s1, d1, rs, A, B, ks. split_and!; [by rewrite Z.add_0_r|by apply swapped_out_nil|simpl; lia|done].
  - destruct (IH s1 d1 rs1 _ _ ks1 (c + 1) (ss_rep _ _ _ _ _ _ _ _ _ _ _ _ _ St)) as (gone & s' & d' & rs' & A' & B' & ks' & E' & So & Hn & Hst).
    exists (up_page u :: gone), s', d', rs', A', B', ks'. split_and!; [|by eapply swapped_out_cons|simpl; lia|].
    + rewrite E'. simpl. f_equal. lia.
    + simpl. intros. rewrite <- Hc. apply Hst. lia.
Qed.

(** C6: swap::out moves the pages at the head of the queue to the device, in
    order: the result counts them; each is then on the device, its translation
    invalidated when the space is the active one, and its frame free; the
    others stay.  Whatever happens, device errors included, the program sees
    the same bytes with the same rights at every address, and pages, slots and
    tables of others are untouched.  Fewer pages than asked for move only when
    the queue is empty, its head is the page at address 0, every slot is taken
    or the device refuses a write. *)
Theorem swap_out_correct s d rs A B ks (page_count : Z) :
  sw_rep s rs A B ks → root ≠ kernel_pgdir → 0 < page_count →
  (∃ gone s' d' rs' A' B' ks', swap_out kernel_pgdir (Some mem) true page_count 0 (s, d) = Ret (Z.of_nat (length gone)) (s', d') ∧
     swapped_out s d rs A B ks s' d' rs' A' B' ks' gone ∧ Z.of_nat (length gone) ≤ page_count ∧
     (Z.of_nat (length gone) < page_count → stuck s' (block_count d) A' ks')) ∧
  (∀ current n tick, current = false ∨ n ≤ 0 ∨ tick ≠ 0 → swap_out kernel_pgdir (Some mem) current n tick (s, d) = Ret 0 (s, d)).
Proof.
  intros R Hroot Hc. split.
  - destruct (out_loop_spec (Z.to_nat page_count) s d rs A B ks 0 R) as (gone & s' & d' & rs' & A' & B' & ks' & E & So & Hn & Hst).
    exists gone, s', d', rs', A', B', ks'. split_and!; [|done|lia|intros; apply Hst; lia]. unfold swap_out. cbn [md_pgdir].
    rewrite (proj2 (Z.eqb_neq root kernel_pgdir)), (proj2 (Z.leb_gt page_count 0)) by done. cbn [orb negb Z.eqb].
    unfold get. rewrite (bind_Ret _ _ (s, d) (s, d) (s, d)) by done. pose proof (sr_slots _ _ _ _ _ _ _ R) as W. rewrite has_device by done.
    cbn [fst orb]. rewrite bool_decide_eq_false_2; [done|]. pose proof (wf_has_swap _ W) as Hs. unfold has_swap in Hs.
    intros Hnil. by rewrite Hnil, andb_false_r in Hs.
  - intros current n tick Hno. unfold swap_out. cbn [md_pgdir]. destruct (_ || _) eqn:E; [done|]. exfalso.
    apply orb_false_iff in E as [[[_ Ec]%orb_false_iff En]%orb_false_iff Et]. apply Z.leb_gt in En. apply negb_false_iff, Z.eqb_eq in Et.
    destruct current; [|done]. destruct Hno as [?|[?|?]]; [done|lia|done].
Qed.
End out.
