(* ===== verification/SwapIn.v ===== *)
(** * Swapping in and page faults

    [swap::in] and [vmm::pg_fault]: a fault on a page that is on the device
    brings it back with the rights it had, at the same address; every other
    fault is refused and changes nothing the program can see. *)

From S2P Require Import Prelude LibList Pmm PmmProofs Paging SwapSlots PageTable PageTableProofs Vmm VmmProofs BlockDev AddrSpace Teardown Exec Swap SwapScan SwapProofs SwapOut.

#[local] Arguments seqZ : simpl never.

Section fault.
Context `{PL : PagingLaws} `{UL : !UserLayout} `{UU : !UserLayoutLaws} `{SL : !SwapLaws}.
Context {D : Type} `{BD : BlockDevice D} `{BL : !BlockDeviceLaws D}.
Context (kernel_pgdir root a : Z).
Notation mem := (MkMemory a (Some root)).
Implicit Types (s : mm) (d : D) (rs : list (Z * Z)) (A : gmap Z upage) (B : gmap Z spage) (ks : list Z) (P : Z → Prop).
Notation sw_rep := (sw_rep root a).
Notation sw_step := (sw_step root a).
Notation mm_frame := (mm_frame root a).

(** ** Changes inside a set of pages *)

(** The pages [P], the lower half of the root table and the queue may change. *)
Record within P s s' : Prop := {
  wi_words : ∀ x, ¬ P (phys_to_page x) → (∀ i, 0 ≤ i < USER_TOP_ENTRIES → x ≠ root + 8 * i) → word (ram s') x = word (ram s) x;
  wi_kernel : ∀ va sh, head walk_shifts = Some sh → USER_TOP_ENTRIES ≤ level_index va sh →
    translate (ram s') root va = translate (ram s) root va;
  wi_desc : ∀ k, ¬ P k → page_desc (pm s') !! k = page_desc (pm s) !! k;
  wi_nodes : ∀ x, x ≠ FreeList → x ≠ SwapList a → (∀ k, P k → x ≠ PageNode k) → nodes (pm s') !! x = nodes (pm s) !! x;
  wi_rest : page_count s' = page_count s ∧ cpu_root s' = cpu_root s ∧ tlb s `suffix_of` tlb s' }.

Lemma within_trans P s s1 s2 : within P s s1 → within P s1 s2 → within P s s2.
Proof.
  intros [] []. constructor.
  - intros x Hx Hr. by rewrite wi_words1, wi_words0.
  - intros va sh Hs Hi. by rewrite (wi_kernel1 va sh), (wi_kernel0 va sh).
  - intros k Hk. by rewrite wi_desc1, wi_desc0.
  - intros x ???. by rewrite wi_nodes1, wi_nodes0.
  - destruct wi_rest0 as (<- & <- & ?), wi_rest1 as (? & ? & ?). split_and!; [done..|]. by etrans.
Qed.
Lemma within_frame s rs A s' rs' A' : within (held s rs root A) s s' → (∀ k, held s rs root A k ↔ held s' rs' root A' k) → mm_frame s rs A s' rs' A'.
Proof. intros [] Hh. by constructor. Qed.
Lemma within_pm P s t ps : pmm_frame (pm s) t ps → (∀ k, k ∈ ps → P k) → within P s (with_pm t s).
Proof.
  intros (Hd & _ & Hn) Hps. constructor; try done.
  - intros k Hk. apply Hd. by intros ?%Hps.
  - intros x Hx _ Hk. apply Hn; [done|]. intros i ?%Hps. by apply Hk.
Qed.

Lemma contents_kept s d A B s' d' v : keeps_pages A s s' → (∀ i, slot_bytes d' i = slot_bytes d i) → contents s' d' A B v = contents s d A B v.
Proof.
  intros Hk Hd. unfold contents. destruct (A !! v) as [u|] eqn:Hu; [by rewrite (keeps_page_bytes A s s' v u)|]. by destruct (B !! v); rewrite ?Hd.
Qed.

(** ** A page in the hands of the kernel *)

Lemma get_set_bytes m x bs : length bs = Z.to_nat PG_SIZE → Forall is_byte bs → bytes_get (bytes_set m x bs) x PG_SIZE = bs.
Proof.
  intros Hl Hb. apply list_eq. intros i. unfold bytes_get. rewrite list_lookup_fmap. destruct (decide (i < length bs)%nat) as [Hi|Hi].
  - rewrite lookup_seqZ_lt by lia. simpl. rewrite bytes_set_get by done.
    rewrite (proj2 (Z.leb_le _ _)), (proj2 (Z.ltb_lt _ _)) by lia. cbn [andb]. replace (Z.to_nat (x + (0 + Z.of_nat i) - x)) with i by lia.
    destruct (lookup_lt_is_Some_2 bs i Hi) as [y Hy]. by rewrite Hy.
  - rewrite lookup_seqZ_ge by lia. rewrite lookup_ge_None_2 by lia. done.
Qed.

Section page.
Context s rs A B ks p pg t rs1 (R : sw_rep s rs A B ks) (Rt : pmm_rep t rs1) (Hperm : free_pages rs ≡ₚ p :: free_pages rs1) (Hp1 : p ∉ free_pages rs1)
  (Hpg : page_desc t !! p = Some pg) (Href0 : ref_count pg = 0) (Ft : pmm_frame (pm s) t (free_pages rs)) (Hring : ring (nodes t) (PageNode p) [])
  (Href : ∀ i, ref_count <$> page_desc t !! i = ref_count <$> page_desc (pm s) !! i).
Context (buf : list Z) (Hlen : length buf = Z.to_nat PG_SIZE) (Hbuf : Forall is_byte buf).
Let RA : as_rep s rs root A := sr_as _ _ _ _ _ _ _ R.
Let W : pt_wf s rs root := as_wf _ _ _ _ RA.
Let m1 : gmap Z Z := bytes_set (ram s) (p * PG_SIZE) buf.
Let s1 : mm := with_ram m1 (with_pm t s).

Lemma page_was_free : p ∈ free_pages rs.
Proof. rewrite Hperm. left. Qed.
Lemma page_words x : phys_to_page x ≠ p → word m1 x = word (ram s) x.
Proof. intros Hx. apply bytes_set_word. intros i Hi E. apply Hx. rewrite <- E. apply byte_page. unfold PG_SIZE in *. lia. Qed.
Lemma page_tables : same_tables (ram s) m1 root.
Proof.
  intros q b j Hv Hq Hj. destruct (wf_tables _ _ _ W q b Hv Hq) as [Hf Hn]. apply page_words. rewrite phys_page_entry by done.
  intros E. apply Hn. rewrite E. apply page_was_free.
Qed.
Lemma page_table_at q : vpath q → table_at m1 root q = table_at (ram s) root q.
Proof. apply same_tables_translate, page_tables. Qed.

Lemma page_unmapped v u : A !! v = Some u → up_page u ∉ free_pages rs ∧ up_page u ≠ p.
Proof. intros Hu. destruct (as_page _ _ _ _ RA v u Hu) as (_ & _ & _ & Hn & _). split; [done|]. intros E. apply Hn. rewrite E. apply page_was_free. Qed.

Lemma page_anode x : anode A x → nodes t !! x = nodes (pm s) !! x.
Proof.
  intros Hx. apply Ft; destruct Hx as [[i ->]|(v & u & Hu & ->)]; try done.
  intros i Hi [= <-]. by destruct (page_unmapped v u Hu).
Qed.

Lemma page_as : as_rep s1 rs1 root A.
Proof.
  apply (as_ram (with_pm t s)); [|apply page_tables|apply bytes_set_range; [apply W|done]].
  apply (as_pm s rs); [done|done| |by intros; apply Href|by apply (as_linked s rs root), page_anode].
  intros k Hk. assert (k ∈ free_pages rs) as Hk' by (rewrite Hperm; by right). split; [by apply W|].
  split; [|intros v u Hu <-; by destruct (page_unmapped v u Hu)]. intros q b Hvq Hq <-. by apply (wf_tables _ _ _ W q b).
Qed.

Lemma page_spare : spare s1 rs1 root A p pg.
Proof.
  constructor; try done.
  - apply W, page_was_free.
  - intros q b Hvq Hq E. cbn [s1 ram with_ram] in Hq. rewrite page_table_at in Hq by done.
    apply (wf_tables _ _ _ W q b Hvq Hq). rewrite E. apply page_was_free.
  - intros v u Hu. by destruct (page_unmapped v u Hu).
Qed.

Lemma page_leaf v x : leaf_entry m1 root (v * PG_SIZE) x ↔ leaf_entry (ram s) root (v * PG_SIZE) x.
Proof. apply (leaf_entry_same root s), page_table_at. Qed.
Lemma page_leaf_word va x : leaf_entry (ram s) root va x → word m1 x = word (ram s) x.
Proof. intros (pre & b & Hsh & Hb & ->). apply (page_tables _ b _ (vpath_indices va pre [12] Hsh ltac:(done)) Hb), level_index_range. Qed.

Lemma page_rep : sw_rep s1 rs1 A B ks.
Proof.
  constructor; try apply R; [apply page_as|..]; cbn [s1 ram with_ram pm with_pm].
  - intros v b Hb. destruct (sr_swapped _ _ _ _ _ _ _ R v b Hb) as (Hv & HA & (x & Hx & Ex) & ?). split; [done|]. split; [done|]. split; [|done].
    exists x. split; [by apply page_leaf|]. by rewrite (page_leaf_word (v * PG_SIZE)).
  - intros v x Hv HA HB Hx%page_leaf. rewrite (page_leaf_word (v * PG_SIZE)) by done. by apply (sr_empty _ _ _ _ _ _ _ R v).
  - eapply ring_frame; [|apply (sr_queue _ _ _ _ _ _ _ R)].
    intros x [->|(k & -> & (v & u & Hu & <-)%(sr_listed _ _ _ _ _ _ _ R))%list_elem_of_fmap]%elem_of_cons;
      apply page_anode; [by left; exists a|right; by exists v, u].
  - intros v u Hu. destruct (sr_alone _ _ _ _ _ _ _ R v u Hu) as [?|Hal]; [by left|right]. eapply ring_frame; [|exact Hal].
    intros x ->%list_elem_of_singleton. apply page_anode. right. by exists v, u.
Qed.

Lemma page_within : within (held s rs root A) s s1.
Proof.
  eapply within_trans; [apply (within_pm _ s t _ Ft); by left|]. constructor; try done.
  - intros x Hx _. apply page_words. intros E. apply Hx. left. rewrite E. apply page_was_free.
  - intros. apply (same_tables_translate _ _ _ page_tables).
Qed.
Lemma page_keeps : keeps_pages A s s1.
Proof. intros x v u Hu Hx. apply page_words. rewrite Hx. by destruct (page_unmapped v u Hu). Qed.

(** ** A read that failed *)
Lemma page_discard : ∃ t' rs', on_pm (free p 1) s1 = Ret tt (with_pm t' s1) ∧ sw_rep (with_pm t' s1) rs' A B ks ∧
  mm_frame s rs A (with_pm t' s1) rs' A ∧ free_pages rs' ≡ₚ free_pages rs.
Proof.
  destruct (free_spec t rs1 p 1 Rt ltac:(lia)) as (t' & E & R' & F & Href').
  { intros i Hi%elem_of_seqZ. assert (i = p) as -> by lia. split; [|done]. rewrite Hpg. simpl. by rewrite Href0. }
  destruct (spec_free_correct p 1 rs1 ltac:(lia) (rep_pos _ _ Rt)) as (_ & Hp & _). change (seqZ p 1) with [p] in *. simpl in F, Hp.
  assert (free_pages (spec_free p 1 rs1) ≡ₚ free_pages rs) as Hperm' by (by rewrite Hperm).
  assert (∀ x, anode A x → nodes t' !! x = nodes t !! x) as Hn.
  { intros x Hx. apply F; destruct Hx as [[i ->]|(v & u & Hu & ->)]; try done. intros i Hi [= <-].
    destruct (page_unmapped v u Hu) as [Hnf _]. apply Hnf. by rewrite Hperm. }
  exists t', (spec_free p 1 rs1). split; [by apply on_pm_Ret|]. split_and!; [| |done].
  - pose proof page_rep as R1. destruct (R1). constructor; try done.
    + apply (as_pm s1 rs1); [done|done|..|by intros; apply Href'|by apply (as_linked s1 rs1 root)].
      intros k. rewrite Hp, elem_of_cons. intros [->|Hk]; [split_and!; apply page_spare|]. split; [by apply page_as|].
      split; [intros q b Hvq Hq <-; by apply (wf_tables _ _ _ (as_wf _ _ _ _ page_as) q b)|].
      intros v u Hu <-. by apply (as_page _ _ _ _ page_as v u Hu).
    + eapply ring_frame; [|exact sr_queue]. intros x [->|(k & -> & (v & u & Hu & <-)%sr_listed)%list_elem_of_fmap]%elem_of_cons;
        apply Hn; [by left; exists a|right; by exists v, u].
    + intros v u Hu. destruct (sr_alone v u Hu) as [?|Hal]; [by left|right]. eapply ring_frame; [|exact Hal].
      intros x ->%list_elem_of_singleton. apply Hn. right. by exists v, u.
  - apply within_frame.
    + eapply within_trans; [apply page_within|]. apply (within_pm _ s1 t' _ F). intros k Hk. left. by rewrite Hperm.
    + intros k. unfold held, owned. rewrite Hperm'. cbn [s1 ram with_ram with_pm].
      by split; (intros [?|[(q & Hvq & Huq & Hq)|?]]; [by left| |by right; right]); right; left; exists q; (split_and!; [done..|]);
        [rewrite page_table_at|rewrite <- page_table_at].
Qed.

(** ** Mapping the page again *)

Section install.
Context v b ptep (Hb : B !! v = Some b) (Hl : leaf_entry (ram s) root (v * PG_SIZE) ptep) (He : word (ram s) ptep = entry_of b).
Let perm : Z := user_page_perm (sw_write b) (sw_exec b).
Let u : upage := MkUpage p (sw_write b) (sw_exec b).
Let e : Z := make_pte_page (p * PG_SIZE) perm.
Let t2 : pmm := MkPmm (<[p := set_ref 1 pg]> (page_desc t)) (nodes t) (free_page_count t).

(** The state with the page mapped and not yet queued, and the final one. *)
Definition installed : mm := MkMm t2 (page_count s) (<[ptep := e]> m1) (cpu_root s) (if cpu_root s =? root then v * PG_SIZE :: tlb s else tlb s) (swp s).

Lemma user_perm w x q : has (user_page_perm w x) VM_USER = true ∧ grants q (user_page_perm w x) = MkUpage q w x.
Proof. by destruct w, x. Qed.

Lemma install_entry : maps_entry e u ∧ 0 ≤ e < 2 ^ 64.
Proof.
  destruct (user_perm (sw_write b) (sw_exec b) p) as [Hu E]. unfold u. rewrite <- E. apply grants_entry; [|done]. by apply W, page_was_free.
Qed.
Lemma install_page : 0 ≤ v < upages ∧ A !! v = None.
Proof. by destruct (sr_swapped _ _ _ _ _ _ _ R v b Hb) as (? & ? & _). Qed.

Lemma install_as : as_rep installed rs1 root (<[v := u]> A).
Proof.
  destruct install_page as [Hv HA]. destruct install_entry as [Hm Hw]. pose proof page_spare as Sp.
  assert (as_rep (with_pm t2 s1) rs1 root A) as R2.
  { apply (as_pm s1 rs1); [apply page_as|by apply (rep_upd_page t rs1 p pg)|..].
    - intros k Hk. split; [by apply page_as|]. split; [|intros v' u' Hu' <-; by apply (as_page _ _ _ _ page_as v' u' Hu')].
      intros q c Hvq Hq <-. by apply (wf_tables _ _ _ (as_wf _ _ _ _ page_as) q c).
    - intros k Hk. simpl. rewrite lookup_insert_ne; [done|]. intros <-. apply (spare_held _ _ _ _ _ _ page_as Sp). by right.
    - apply (as_linked _ _ _ _ _ page_as). done. }
  eapply (as_rep_same (with_ram (<[ptep := e]> m1) (with_pm t2 s1))); [done|done|].
  eapply (as_leaf_write (with_pm t2 s1)); [exact R2|exact Hv|by apply page_leaf|exact Hw|exact Hm|..]; cbn; try done.
  - apply Sp.
  - by rewrite lookup_insert_eq.
  - apply Sp.
  - intros v' u' Hu' Hpp. by destruct (sp_user _ _ _ _ _ _ Sp v' u' Hu').
  - congruence.
  - exists []. split; [done|set_solver].
Qed.

Lemma install_rep : sw_rep installed rs1 (<[v := u]> A) (delete v B) ks.
Proof.
  destruct install_page as [Hv HA]. destruct install_entry as [_ Hw]. pose proof page_rep as R1. destruct (R1) as [_ Hsl Hsw Hinj Hem Hq Hls Hal].
  assert (leaf_entry (ram s1) root (v * PG_SIZE) ptep) as Hl1 by (by apply page_leaf).
  destruct (leaf_write s1 rs1 root _ ptep e (as_wf _ _ _ _ page_as) Hl1 Hw) as (_ & _ & Htab & _).
  constructor; try done; [apply install_as|..]; cbn [installed ram pm swp] in *.
  - intros v' b' [Hne Hb']%lookup_delete_Some. destruct (Hsw v' b' Hb') as (Hv' & HA' & (x & Hx & Ex) & ?).
    split; [done|]. split; [by rewrite lookup_insert_ne|]. split; [|done]. exists x. split; [by apply (leaf_entry_same root s1)|].
    by rewrite (leaf_write_word root s1 rs1 v v'), decide_False by (apply page_as || done || congruence).
  - intros v1 v2 b1 b2 [_ H1]%lookup_delete_Some [_ H2]%lookup_delete_Some. by apply Hinj.
  - intros v' x Hv'. rewrite lookup_insert, lookup_delete. case_decide; [done|]. intros HA' HB' Hx. apply (leaf_entry_same root s1) in Hx; [|done].
    rewrite (leaf_write_word root s1 rs1 v v'), decide_False by (apply page_as || done || congruence). by apply (Hem v').
  - intros k (v' & u' & Hu' & <-)%Hls. exists v', u'. rewrite lookup_insert_ne; [done|]. intros <-. congruence.
  - intros v' u'. rewrite lookup_insert. case_decide; [intros [= <-]; by right|]. intros Hu'. by apply (Hal v' u').
Qed.

Lemma install_run : ∃ h', (map_swappable mem p;; page_insert root p (v * PG_SIZE) perm) s1 = Ret tt (with_nodes h' installed) ∧
  sw_rep (with_nodes h' installed) rs1 (<[v := u]> A) (delete v B) (ks ++ [p]) ∧
  (∀ x, x ≠ PageNode p → x ≠ SwapList a → (∀ k, mapped A k → x ≠ PageNode k) → h' !! x = nodes t !! x).
Proof.
  destruct install_page as [Hv HA]. pose proof install_rep as R2. pose proof (sr_queue _ _ _ _ _ _ _ R2) as Hq. cbn [installed pm nodes t2] in Hq.
  pose proof (alone_unqueued a (nodes t) p ks Hring Hq) as Hnq.
  destruct (ring_add_before (nodes t) (SwapList a) (PageNode p) _ Hq) as (h' & E & Hr' & Hd); [by eapply ring_alloc; [exact Hring|left]|done|].
  assert (∀ x, x ≠ PageNode p → x ≠ SwapList a → (∀ k, mapped A k → x ≠ PageNode k) → h' !! x = nodes t !! x) as Hx.
  { intros x H1 H2 H3. apply (proj1 Hd). intros [->|[->|(k & -> & Hk)%list_elem_of_fmap]%elem_of_cons]%elem_of_cons; [done..|].
    apply (H3 k); [|done]. by apply (sr_listed _ _ _ _ _ _ _ R). }
  exists h'. split_and!; [| |done].
  - unfold map_swappable. rewrite bind_assoc, (bind_Ret _ _ _ _ _ (list_empty_Ret s1 (PageNode p) [] Hring)). cbn [bool_decide].
    rewrite bool_decide_eq_true_2 by done. rewrite bind_assoc, (bind_Ret _ _ s1 tt s1) by done.
    erewrite bind_Ret by (apply on_pm_Ret, on_nodes_Ret; exact E). unfold page_insert.
    erewrite bind_Ret by (apply get_pte_leaf; by apply page_leaf). unfold rd64, gets.
    erewrite bind_Ret by done. cbn [ram with_pm s1 with_ram]. rewrite (page_leaf_word _ _ Hl), He. unfold entry_of at 1. rewrite entry_absent. cbn [negb].
    erewrite bind_Ret by done. erewrite bind_Ret by (apply on_pm_Ret, upd_page_Ret; exact Hpg).
    unfold wr64, modify. erewrite bind_Ret by done. rewrite invalidate_Ret, Href0.
    destruct (page_to_phys_frame p (wf_frames _ _ _ W p page_was_free)) as [-> _]. done.
  - apply (enqueue root a installed rs1 _ _ ks p); try done; [|by rewrite fmap_app|by rewrite Permutation_app_comm].
    exists v, u. by rewrite lookup_insert_eq.
Qed.

Lemma install_held k : held s rs root A k ↔ k ∈ free_pages rs1 ∨ owned installed root (<[v := u]> A) k.
Proof.
  destruct install_page as [Hv HA]. destruct install_entry as [_ Hw].
  assert (leaf_entry (ram s1) root (v * PG_SIZE) ptep) as Hl1 by (by apply page_leaf).
  destruct (leaf_write s1 rs1 root _ ptep e (as_wf _ _ _ _ page_as) Hl1 Hw) as (_ & _ & Htab & _). cbn [ram with_ram s1] in Htab.
  unfold held, owned. rewrite Hperm, elem_of_cons. cbn [installed ram]. split.
  - intros [[->|?]|[(q & Hvq & Huq & Hq)|(v' & u' & Hu' & <-)]]; [right; right; exists v, u; by rewrite lookup_insert_eq|by left|..].
    + right. left. exists q. by rewrite Htab, page_table_at.
    + right. right. exists v', u'. rewrite lookup_insert_ne; [done|]. intros <-. congruence.
  - intros [?|[(q & Hvq & Huq & Hq)|(v' & u' & Hu' & <-)]]; [by left; right|right; left; exists q; by rewrite <- page_table_at, <- Htab|].
    rewrite lookup_insert in Hu'. case_decide; [simplify_eq; by left; left|right; right; by exists v', u'].
Qed.

Lemma install_within h' : (∀ x, x ≠ PageNode p → x ≠ SwapList a → (∀ k, mapped A k → x ≠ PageNode k) → h' !! x = nodes t !! x) →
  within (held s rs root A) s (with_nodes h' installed).
Proof.
  intros Hx. destruct install_page as [Hv HA]. destruct install_entry as [_ Hw]. eapply within_trans; [apply page_within|].
  constructor; cbn [installed with_nodes with_pm ram pm page_desc nodes page_count cpu_root tlb t2 s1 with_ram].
  - intros x Hxh Hr. rewrite word_insert, decide_False; [done|]. intros <-.
    destruct (leaf_owned s rs root A _ _ W (user_va v Hv) Hl) as [(i & Hi & ->)|Ho]; [by apply (Hr i)|]. apply Hxh. by right.
  - intros va sh Hsh Hi. apply (leaf_kernel root s1 rs1 v _ _ va sh); try done; [apply page_as|by apply page_leaf].
  - intros k Hk. rewrite lookup_insert_ne; [done|]. intros <-. apply Hk. left. apply page_was_free.
  - intros x HF HS Hh. apply Hx; [|done|]; [apply Hh; left; apply page_was_free|]. intros k ?. apply Hh. by right; right.
  - split_and!; [done..|]. destruct (cpu_root s =? root); [by exists [v * PG_SIZE]|done].
Qed.

Lemma install_keeps h' : keeps_pages A s (with_nodes h' installed).
Proof.
  intros x v' u' Hu' Hx. etrans; [|by apply (page_keeps x v' u')].
  apply (leaf_pages s1 rs1 root A (v * PG_SIZE) ptep e page_as) with v' u'; [by apply page_leaf|done|done].
Qed.
Lemma install_bytes h' : bytes_get (ram (with_nodes h' installed)) (p * PG_SIZE) PG_SIZE = buf.
Proof.
  rewrite <- (get_set_bytes (ram s) (p * PG_SIZE) buf Hlen Hbuf). fold m1. unfold bytes_get. apply list_fmap_ext. intros i k Hk.
  apply list_elem_of_lookup_2, elem_of_seqZ in Hk. apply byte_get_word. cbn [with_nodes with_pm installed ram].
  rewrite word_insert, decide_False; [done|]. intros E. pose proof (byte_page p k ltac:(lia)) as Hp. rewrite <- E in Hp.
  destruct Hl as (pre & c & Hsh & Hc & E'). pose proof (vpath_indices (v * PG_SIZE) pre [12] Hsh ltac:(done)) as Hvp.
  destruct (wf_tables _ _ _ W _ _ Hvp Hc) as [Hfc Hnc]. apply Hnc.
  rewrite E' in Hp. unfold entry_at in Hp. rewrite phys_page_entry in Hp by (done || apply level_index_range). rewrite Hp. apply page_was_free.
Qed.

(** The slot is free again, the view the same. *)
Lemma install_step d d' h' w : sw_rep (with_nodes h' installed) rs1 (<[v := u]> A) (delete v B) (ks ++ [p]) →
  (∀ x, x ≠ PageNode p → x ≠ SwapList a → (∀ k, mapped A k → x ≠ PageNode k) → h' !! x = nodes t !! x) →
  slots_wf w → slot_limit w = slot_limit (swp s) → (∀ i, 0 ≤ i → used (slots w) i = used (slots (swp s)) i && negb (i =? sw_slot b)) →
  (∀ i, slot_bytes d' i = slot_bytes d i) → buf = slot_bytes d (sw_slot b) →
  sw_step s d rs A B (with_swp w (with_nodes h' installed)) d' rs1 (<[v := u]> A) (delete v B) (ks ++ [p]).
Proof.
  intros R3 Hn Ww Hwl Hwu Hsb Hbs. constructor.
  - apply sw_slots; [done..|]. intros v' b' [Hne Hb']%lookup_delete_Some.
    destruct (sr_swapped _ _ _ _ _ _ _ R v' b' Hb') as (_ & _ & _ & Hs' & Hu'). unfold valid_slot in Hs'.
    rewrite Hwu, Hu' by lia. destruct (Z.eqb_spec (sw_slot b') (sw_slot b)) as [E|]; [|done]. by destruct Hne; apply (sr_inj _ _ _ _ _ _ _ R v v' b b').
  - apply within_frame; [|intros k; apply install_held].
    eapply within_trans; [by apply (install_within h')|]. by constructor.
  - split; [done|]. intros i Hvi. unfold valid_slot in Hvi. unfold foreign. cbn [swp with_swp]. rewrite Hwu by lia. split; [|by intros; apply Hsb].
    rewrite andb_true_iff, negb_true_iff, Z.eqb_neq. split.
    + intros [Hui Hni]. split; [split; [done|intros ->; by apply (Hni v b Hb)]|]. intros v' b' [_ Hb']%lookup_delete_Some. by apply (Hni v').
    + intros [[Hui Hne] Hni]. split; [done|]. intros v' b' Hb'. destruct (decide (v = v')) as [<-|]; [congruence|].
      apply (Hni v'). by rewrite lookup_delete_ne.
  - intros v'. unfold contents. rewrite lookup_insert, lookup_delete. destruct (decide (v = v')) as [<-|Hne].
    + rewrite (proj2 install_page), Hb. cbn [up_page up_write up_exec u]. change (ram (with_swp _ ?x)) with (ram x). by rewrite install_bytes, Hbs.
    + destruct (A !! v') as [u'|] eqn:Hu'; [|by destruct (B !! v'); rewrite ?Hsb].
      by rewrite <- (keeps_page_bytes A s _ v' u' (install_keeps h') Hu').
Qed.
End install.
End page.

(** ** [swap::in] *)

Lemma swapfs_read_spec s d slot x y page : slots_wf (swp s) → valid_slot (swp s) slot → used (slots (swp s)) slot = true →
  frame (page * PG_SIZE) →
  ∃ r buf d', let s' := with_ram (bytes_set (ram s) (page * PG_SIZE) buf) s in
    swapfs_read (swap_entry slot x y) page (s, d) = match r with None => Ret tt (s', d') | Some e => Fail e (s', d') end ∧
    length buf = Z.to_nat PG_SIZE ∧ Forall is_byte buf ∧ block_count d' = block_count d ∧ (∀ i, slot_bytes d' i = slot_bytes d i) ∧
    match r with
    | None => buf = slot_bytes d slot
    | Some e => ∃ buf, (dev_read ((slot - 1) * BLOCKS_PER_PAGE) blocks buf d).1.1 = Some e
    end.
Proof.
  intros W Hv Hu Hf. unfold swapfs_read. rewrite (bind_Ret _ _ _ _ _ (swap_slot_Ret s d slot x y W Hv Hu)). cbn [fst snd].
  destruct (page_to_phys_frame page Hf) as [-> _]. set (old := bytes_get _ _ _). destruct (dev_read _ _ old d) as [[r buf] d'] eqn:E.
  destruct (read_law d _ _ old r buf d' E (page_bytes_length _ _)) as (Hl & Hc & Ho & Hok).
  exists r, buf, d'. cbv zeta. split_and!; [by destruct r|exact Hl|by eapply read_bytes; [exact E|apply page_bytes_ok]|done|..].
  - intros i. apply sectors_ext. intros j _. apply Ho.
  - destruct r as [e|]; [exists old; by rewrite E|by apply Hok].
Qed.

(** The page on the device: what is found before anything changes. *)
Lemma swap_in_start s d rs A B ks v b : sw_rep s rs A B ks → root ≠ kernel_pgdir → 1 ≤ v → B !! v = Some b →
  ∃ ptep, leaf_entry (ram s) root (v * PG_SIZE) ptep ∧ word (ram s) ptep = entry_of b ∧
    (ensure (negb (root =? kernel_pgdir) && (PG_SIZE <=? v * PG_SIZE) && (v * PG_SIZE <? USER_SPACE_TOP)) E_Invalid) (s, d) = Ret tt (s, d) ∧
    in_mm (get_pte root (v * PG_SIZE) false) (s, d) = Ret (Some ptep) (s, d) ∧
    in_mm (on_swp (allocated_slot (entry_of b))) (s, d) = Ret (sw_slot b) (s, d) ∧ 1 ≤ sw_slot b.
Proof.
  intros R Hroot Hv1 Hb. destruct (sr_swapped _ _ _ _ _ _ _ R v b Hb) as (Hv & _ & (ptep & Hl & He) & Hs & Hu). exists ptep.
  pose proof (user_va v Hv) as Hva. split_and!; [done|done|..].
  - rewrite (proj2 (Z.eqb_neq _ _)), (proj2 (Z.leb_le _ _)), (proj2 (Z.ltb_lt _ _)) by (done || unfold PG_SIZE in *; lia). done.
  - by apply in_mm_Ret, get_pte_leaf.
  - erewrite in_mm_Ret by (apply on_swp_Ret, allocated_slot_spec; [apply R|done]). by rewrite Hu, with_swp_same.
  - unfold valid_slot in Hs. lia.
Qed.

(** The end of [swap::in]: the page is given back, or mapped with its contents. *)
Lemma fill_page_spec s d rs A B ks v b ptep p pg t rs1 : sw_rep s rs A B ks → B !! v = Some b →
  leaf_entry (ram s) root (v * PG_SIZE) ptep → word (ram s) ptep = entry_of b →
  pmm_rep t rs1 → free_pages rs ≡ₚ p :: free_pages rs1 → p ∉ free_pages rs1 → page_desc t !! p = Some pg → ref_count pg = 0 →
  pmm_frame (pm s) t (free_pages rs) → ring (nodes t) (PageNode p) [] →
  (∀ i, ref_count <$> page_desc t !! i = ref_count <$> page_desc (pm s) !! i) →
  (∃ e s' d' rs', fill_page mem root (v * PG_SIZE) ptep (entry_of b) p (with_pm t s, d) = Fail e (s', d') ∧
     sw_step s d rs A B s' d' rs' A B ks ∧ free_pages rs' ≡ₚ free_pages rs ∧ block_count d' = block_count d ∧
     ∃ buf, (dev_read ((sw_slot b - 1) * BLOCKS_PER_PAGE) blocks buf d).1.1 = Some e) ∨
  (∃ s' d', fill_page mem root (v * PG_SIZE) ptep (entry_of b) p (with_pm t s, d) = Ret p (s', d') ∧
     sw_step s d rs A B s' d' rs1 (<[v := MkUpage p (sw_write b) (sw_exec b)]> A) (delete v B) (ks ++ [p]) ∧ block_count d' = block_count d).
Proof.
  intros R Hb Hl He Rt Hperm Hp1 Hpg Hr0 Ft Hring Href. pose proof (sr_slots _ _ _ _ _ _ _ R) as W.
  destruct (sr_swapped _ _ _ _ _ _ _ R v b Hb) as (Hv & HA & _ & Hs & Hu). pose proof (sr_as _ _ _ _ _ _ _ R) as RA.
  assert (frame (p * PG_SIZE)) as Hf by (apply (as_wf _ _ _ _ RA); rewrite Hperm; left).
  destruct (swapfs_read_spec (with_pm t s) d (sw_slot b) (sw_write b) (sw_exec b) p W Hs Hu Hf) as (r & buf & d' & Er & Hlen & Hbuf & Hc & Hsb & Hres).
  fold (entry_of b) in Er. cbn [ram with_pm] in Er. unfold fill_page. destruct r as [e|]; [left|right].
  - erewrite bind_Ret by (apply try_Fail; exact Er).
    destruct (page_discard s rs A B ks p pg t rs1 R Rt Hperm Hp1 Hpg Hr0 Ft Hring Href buf Hlen Hbuf) as (t' & rs' & E & R' & F & Hperm').
    erewrite bind_Ret by (apply in_mm_Ret; exact E). exists e. eexists _, d', rs'. split; [done|]. split_and!; try done.
    constructor; [exact R'|exact F|split; [done|]; intros i _; split; [done|]; by rewrite Hsb|]. intros v'.
    apply contents_kept; [|done]. exact (page_keeps s rs A B ks p t rs1 R Hperm buf Hlen).
  - erewrite bind_Ret by (apply try_Ret; exact Er). cbv iota. rewrite (bind_Ret _ _ _ _ _ (rd64_Ret _ d' ptep)). cbn [ram with_ram].
    rewrite (page_leaf_word s rs A B ks p rs1 R Hperm buf Hlen _ _ Hl), He, Z.eqb_refl. cbn [negb].
    destruct (swap_entry_fields (sw_slot b) (sw_write b) (sw_exec b)) as (_ & _ & _ & Hw & Hx); [pose proof (slot_width s _ W Hs); lia|].
    unfold entry_of at 1 2. rewrite Hw, Hx.
    destruct (install_run s rs A B ks p pg t rs1 R Rt Hperm Hp1 Hpg Hr0 Ft Hring Href buf Hlen Hbuf v b ptep Hb Hl He) as (h' & E & R' & Hn).
    erewrite bind_Ret by (apply try_Ret, in_mm_Ret; exact E).
    destruct (release_slot_spec (swp s) (sw_slot b) (sw_write b) (sw_exec b) W Hs) as (w & Ew & Ww & Hwl & Hwu).
    erewrite bind_Ret by (apply in_mm_Ret, on_swp_Ret; exact Ew). eexists _, d'. split_and!; [done| |done].
    eapply install_step; try done.
Qed.

Lemma swap_in_spec s d rs A B ks v b : sw_rep s rs A B ks → root ≠ kernel_pgdir → 1 ≤ v → B !! v = Some b →
  (∃ e s' d' rs', swap_in kernel_pgdir mem (v * PG_SIZE) (s, d) = Fail e (s', d') ∧ sw_step s d rs A B s' d' rs' A B ks ∧
     free_pages rs' ≡ₚ free_pages rs ∧ block_count d' = block_count d ∧
     (rs = [] ∨ ∃ buf, (dev_read ((sw_slot b - 1) * BLOCKS_PER_PAGE) blocks buf d).1.1 = Some e)) ∨
  (∃ p s' d' rs', swap_in kernel_pgdir mem (v * PG_SIZE) (s, d) = Ret p (s', d') ∧ free_pages rs ≡ₚ p :: free_pages rs' ∧
     sw_step s d rs A B s' d' rs' (<[v := MkUpage p (sw_write b) (sw_exec b)]> A) (delete v B) (ks ++ [p]) ∧ block_count d' = block_count d).
Proof.
  intros R Hroot Hv1 Hb. destruct (swap_in_start s d rs A B ks v b R Hroot Hv1 Hb) as (ptep & Hl & He & E0 & E1 & E2 & Hs1).
  pose proof (sr_slots _ _ _ _ _ _ _ R) as W. unfold swap_in. cbn [md_pgdir]. rewrite (bind_Ret _ _ _ _ _ E0).
  unfold gets. rewrite (bind_Ret _ _ (s, d) false (s, d)) by (by rewrite has_device). rewrite (bind_Ret _ _ (s, d) tt (s, d)) by done.
  rewrite (bind_Ret _ _ _ _ _ E1), (bind_Ret _ _ _ _ _ (rd64_Ret s d ptep)), He. rewrite (entry_absent _ _ _ : pte_present (entry_of b) = false).
  rewrite (bind_Ret _ _ _ _ _ E2). rewrite (proj2 (Z.eqb_neq (sw_slot b) 0)) by lia. rewrite (bind_Ret _ _ (s, d) tt (s, d)) by done.
  destruct (sr_swapped _ _ _ _ _ _ _ R v b Hb) as (Hv & HA & _ & Hs & Hu). pose proof (sr_as _ _ _ _ _ _ _ R) as RA.
  destruct (alloc_one (pm s) rs (wf_rep _ _ _ (as_wf _ _ _ _ RA))) as [[-> Ea]|(p & pg & t & rs1 & Ea & Rt & Hperm & Hp1 & Hpg & Hr0 & Ft & Hiso & Href & _)].
  { left. exists E_NoMem, s, d, []. erewrite bind_Ret by (eapply in_mm_Ret, on_pm_Ret; exact Ea).
    replace (with_pm (pm s) s) with s by (by destruct s). split_and!; [done|by apply sw_step_refl|done|done|by left]. }
  erewrite bind_Ret by (eapply in_mm_Ret, on_pm_Ret; exact Ea).
  destruct (fill_page_spec s d rs A B ks v b ptep p pg t rs1) as [(e & s' & d' & rs' & E & ? & ? & ? & ?)|(s' & d' & E & ? & ?)]; try done; [left|right].
  - exists e, s', d', rs'. split_and!; try done. by right.
  - by exists p, s', d', rs1.
Qed.

(** ** [vmm::pg_fault] *)

(** A fault the handler can repair: of a user access to a page on the device
    that has the rights the access needs. *)
Definition repairable B (error_code fault_va : Z) (b : spage) : Prop :=
  PG_SIZE ≤ fault_va < USER_SPACE_TOP ∧ has error_code PAGE_FAULT_PROTECTION = false ∧ has error_code PAGE_FAULT_USER = true ∧
  B !! (fault_va / PG_SIZE) = Some b ∧ (has error_code PAGE_FAULT_WRITE = true → sw_write b = true) ∧
  (has error_code PAGE_FAULT_EXECUTE = true → sw_exec b = true).

#[local] Instance spage_eq_dec : EqDecision spage.
Proof. solve_decision. Defined.
#[local] Instance repairable_dec B error_code fault_va b : Decision (repairable B error_code fault_va b).
Proof. unfold repairable. repeat apply and_dec; apply _. Defined.

(** The entry of a page that is not on the device. *)
Lemma entry_elsewhere s rs A B ks v ptep : sw_rep s rs A B ks → 0 ≤ v < upages → B !! v = None → leaf_entry (ram s) root (v * PG_SIZE) ptep →
  (word (ram s) ptep =? 0) || pte_present (word (ram s) ptep) = true.
Proof.
  intros R Hv HB Hl. destruct (A !! v) as [u|] eqn:HA.
  - destruct (as_page _ _ _ _ (sr_as _ _ _ _ _ _ _ R) v u HA) as (_ & (x & Hx & Hp & _) & _).
    rewrite (leaf_entry_inj _ _ _ _ _ Hl Hx), Hp. apply orb_true_r.
  - by rewrite (sr_empty _ _ _ _ _ _ _ R v ptep).
Qed.

Lemma pg_fault_refused s d rs A B ks error_code fault_va : sw_rep s rs A B ks → (∀ b, ¬ repairable B error_code fault_va b) →
  pg_fault kernel_pgdir (Some mem) error_code fault_va (s, d) = Ret (-1) (s, d).
Proof.
  intros R Hno. unfold pg_fault. cbn [md_pgdir]. destruct (_ || _) eqn:Eg; [done|].
  apply orb_false_iff in Eg as [[[Elo%Z.ltb_ge Ehi%Z.leb_gt]%orb_false_iff Epr]%orb_false_iff Eus%negb_false_iff].
  destruct user_top_pages as [Htop _]. set (v := fault_va / PG_SIZE). assert (0 ≤ v < upages) as Hv.
  { unfold v, PG_SIZE in *. split; [apply Z.div_pos; lia|]. apply Z.div_lt_upper_bound; lia. }
  assert (round_down fault_va PG_SIZE = v * PG_SIZE) as ->.
  { unfold round_down, v. pose proof (Z.div_mod fault_va PG_SIZE ltac:(done)). lia. }
  pose proof (as_wf _ _ _ _ (sr_as _ _ _ _ _ _ _ R)) as W.
  destruct (get_pte_spec s rs root (v * PG_SIZE) false W) as (r & s' & rs' & E & _ & Hs & _ & Hr). rewrite (Hs eq_refl) in *.
  erewrite bind_Ret by (apply in_mm_Ret; exact E). destruct r as [ptep|]; [|done].
  rewrite (bind_Ret _ _ _ _ _ (rd64_Ret s d ptep)). destruct (B !! v) as [b|] eqn:Hb.
  - destruct (sr_swapped _ _ _ _ _ _ _ R v b Hb) as (_ & _ & (x & Hx & Ex) & Hsl & _). rewrite (leaf_entry_inj _ _ _ _ _ Hr Hx), Ex.
    pose proof (slot_width s _ (sr_slots _ _ _ _ _ _ _ R) Hsl) as Hw.
    destruct (swap_entry_fields (sw_slot b) (sw_write b) (sw_exec b)) as (_ & Hp & _ & Hwr & Hxr); [lia|].
    pose proof (entry_width (sw_slot b) (sw_write b) (sw_exec b) Hw) as H0. unfold entry_of.
    rewrite (entry_absent _ _ _), (proj2 (Z.eqb_neq _ 0)), Hp, Hwr, Hxr by lia. cbn [orb negb]. destruct (_ || _) eqn:Ea; [done|]. exfalso.
    apply (Hno b). apply orb_false_iff in Ea as [E1 E2]. split_and!; try done.
    + intros Hc. rewrite Hc in E1. by apply negb_false_iff in E1.
    + intros Hc. rewrite Hc in E2. by apply negb_false_iff in E2.
  - by rewrite (entry_elsewhere s rs A B ks v ptep R Hv Hb Hr).
Qed.

Lemma pg_fault_repair s d rs A B ks error_code fault_va b : sw_rep s rs A B ks → repairable B error_code fault_va b →
  pg_fault kernel_pgdir (Some mem) error_code fault_va (s, d) =
  (r <- try_ (swap_in kernel_pgdir mem (fault_va / PG_SIZE * PG_SIZE));; ret (match r with inl _ => 0 | inr _ => -1 end)) (s, d).
Proof.
  intros R (Hva & Hp & Hu & Hb & Hw & Hx). unfold pg_fault. cbn [md_pgdir].
  rewrite (proj2 (Z.ltb_ge _ _)), (proj2 (Z.leb_gt _ _)), Hp, Hu by lia. cbn [orb negb].
  assert (round_down fault_va PG_SIZE = fault_va / PG_SIZE * PG_SIZE) as ->.
  { unfold round_down. pose proof (Z.div_mod fault_va PG_SIZE ltac:(done)). lia. }
  destruct (sr_swapped _ _ _ _ _ _ _ R _ b Hb) as (_ & _ & (x & Hxl & Ex) & Hsl & _).
  rewrite (bind_Ret _ _ _ _ _ (in_mm_Ret _ _ d _ _ (get_pte_leaf s root _ false x Hxl))). cbv iota.
  rewrite (bind_Ret _ _ _ _ _ (rd64_Ret s d x)), Ex.
  pose proof (slot_width s _ (sr_slots _ _ _ _ _ _ _ R) Hsl) as Hsw.
  destruct (swap_entry_fields (sw_slot b) (sw_write b) (sw_exec b)) as (_ & Hpm & _ & Hwr & Hxr); [lia|].
  pose proof (entry_width (sw_slot b) (sw_write b) (sw_exec b) Hsw) as H0. unfold entry_of.
  rewrite (entry_absent _ _ _), (proj2 (Z.eqb_neq _ 0)), Hpm, Hwr, Hxr by lia. cbn [orb negb].
  destruct (has error_code PAGE_FAULT_WRITE), (has error_code PAGE_FAULT_EXECUTE); rewrite ?Hw, ?Hx by done; done.
Qed.

(** C7: A page fault is repaired exactly when it can be: a user access to a page
    that is on the device, with the rights the access needs, brings the page
    back, so that the address translates to a frame that was free, with the
    rights the page had; it is then last in the queue and its slot is free.
    Every other fault is refused without any effect; a repair fails only when
    no page is free or the device refuses the read, and then leaves the free
    pages as they were.  In every case the program sees the same bytes with the
    same rights at every address and nothing of others changes. *)
Theorem pg_fault_correct s d rs A B ks error_code fault_va :
  sw_rep s rs A B ks → root ≠ kernel_pgdir →
  (∀ b, ¬ repairable B error_code fault_va b) ∧ pg_fault kernel_pgdir (Some mem) error_code fault_va (s, d) = Ret (-1) (s, d) ∨
  (∃ b, repairable B error_code fault_va b ∧
    ((∃ s' d' rs', pg_fault kernel_pgdir (Some mem) error_code fault_va (s, d) = Ret (-1) (s', d') ∧ sw_step s d rs A B s' d' rs' A B ks ∧
        free_pages rs' ≡ₚ free_pages rs ∧ (rs = [] ∨ ∃ buf e, (dev_read ((sw_slot b - 1) * BLOCKS_PER_PAGE) blocks buf d).1.1 = Some e)) ∨
     (∃ p s' d' rs', pg_fault kernel_pgdir (Some mem) error_code fault_va (s, d) = Ret 0 (s', d') ∧ free_pages rs ≡ₚ p :: free_pages rs' ∧
        sw_step s d rs A B s' d' rs' (<[fault_va / PG_SIZE := MkUpage p (sw_write b) (sw_exec b)]> A) (delete (fault_va / PG_SIZE) B) (ks ++ [p]) ∧
        translate (ram s') root fault_va = Some (MkTr (p * PG_SIZE + fault_va mod PG_SIZE) true (sw_write b) (sw_exec b))))).
Proof.
  intros R Hroot. destruct (B !! (fault_va / PG_SIZE)) as [b|] eqn:Hb.
  2:{ left. assert (∀ b, ¬ repairable B error_code fault_va b) as Hno by (intros b (_ & _ & _ & ? & _); congruence).
      split; [done|by eapply pg_fault_refused]. }
  destruct (decide (repairable B error_code fault_va b)) as [Hrep|Hno].
  2:{ left. assert (∀ b, ¬ repairable B error_code fault_va b) as Hno' by (intros b' Hr; pose proof Hr as (_ & _ & _ & ? & _); congruence).
      split; [done|by eapply pg_fault_refused]. }
  right. exists b. split; [done|]. rewrite (pg_fault_repair s d rs A B ks error_code fault_va b R Hrep).
  destruct Hrep as (Hva & _). assert (1 ≤ fault_va / PG_SIZE) as Hv1 by (apply Z.div_le_lower_bound; unfold PG_SIZE in *; lia).
  destruct (swap_in_spec s d rs A B ks _ b R Hroot Hv1 Hb) as [(e & s' & d' & rs' & E & St & Hp & _ & Hwhy)|(p & s' & d' & rs' & E & Hp & St & _)]; [left|right].
  - exists s', d', rs'. rewrite (bind_Ret _ _ _ _ _ (try_Fail _ _ _ _ E)). split_and!; try done. destruct Hwhy as [?|[buf ?]]; [by left|right; by exists buf, e].
  - exists p, s', d', rs'. rewrite (bind_Ret _ _ _ _ _ (try_Ret _ _ _ _ E)). split_and!; try done.
    apply (as_translate s' rs' root _ _ (MkUpage p (sw_write b) (sw_exec b)) (sr_as _ _ _ _ _ _ _ (ss_rep _ _ _ _ _ _ _ _ _ _ _ _ _ St))).
    apply lookup_insert_eq.
Qed.
End fault.
