(* ===== verification/SwapWitness.v ===== *)
(** * Swapping: a concrete run

    A page of the program loaded in [ExecWitness] is queued, swapped out to a
    memory-backed device of 64 blocks and brought back by a page fault. *)

From S2P Require Import Prelude PagingX86 PagingAArch64 PagingRiscV64.
From S2P Require Import BlockDev RamDisk.
From S2P Require Import LibList Pmm PmmProofs Paging SwapSlots PageTable PageTableProofs Vmm VmmProofs AddrSpace Teardown Exec ExecProofs ExecWitness Swap SwapProofs SwapOut SwapIn.

(** ** The formats *)

Lemma x86_swap : @SwapLaws x86_paging.
Proof. constructor. intros e He. change (PagingX86.pte_present e = false). by rewrite x86_present_bit. Qed.
Lemma aarch64_swap : @SwapLaws aarch64_paging.
Proof. constructor. intros e He. change (PagingAArch64.pte_present e = false). by rewrite a64_present_bit. Qed.
Lemma riscv64_swap : @SwapLaws riscv64_paging.
Proof. constructor. intros e He. change (PagingRiscV64.pte_present e = false). by rewrite rv_present_bit. Qed.

#[local] Existing Instance x86_paging.
#[local] Existing Instance x86_laws.
#[local] Existing Instance x86_layout.
#[local] Existing Instance x86_user.
#[local] Existing Instance x86_swap.

(** ** The program, its first page queued *)

Definition ex_addr : Z := Eval vm_compute in
  match image_load PG_SIZE ex_elf 124 big_mm with Ret img _ => md_addr (memory_ img) | _ => 0 end.
Definition ex_memory : MemoryDesc := MkMemory ex_addr (Some 12288).
(** The page at 0x400000 and the device. *)
Definition ex_page : Z := Eval vm_compute in match translate (PageTable.ram ex_proc) 12288 0x400000 with Some x => tr_pa x / PG_SIZE | None => 0 end.
Definition ex_device : RamDisk.ram := MkRam 64 ∅.

Lemma ex_queue : ring (nodes (pm ex_proc)) (SwapList ex_addr) [] ∧ swp ex_proc = ex_slots.
Proof. split; [split; [repeat constructor; set_solver|by vm_compute]|by vm_compute]. Qed.
Lemma ex_no_entries : resident_entries 12288 (PageTable.ram ex_proc) = true.
Proof. by vm_compute. Qed.
Lemma ex_mapped : translate (PageTable.ram ex_proc) 12288 0x400000 = Some (MkTr (ex_page * PG_SIZE) true false true) ∧
  translate (PageTable.ram ex_proc) 12288 0 = None.
Proof. by vm_compute. Qed.

(** What is known of a page from its translation. *)
Lemma translated_page s rs root A v p r w x : as_rep s rs root A → 0 ≤ v < upages →
  translate (PageTable.ram s) root (v * PG_SIZE) = Some (MkTr (p * PG_SIZE) r w x) → ∃ u, A !! v = Some u ∧ up_page u = p.
Proof.
  intros R Hv Ht. destruct (A !! v) as [u|] eqn:Hu; [|by rewrite (as_none _ _ _ _ R v Hv Hu) in Ht]. exists u. split; [done|].
  assert (v * PG_SIZE / PG_SIZE = v) as E by (unfold PG_SIZE; by apply Z.div_mul).
  rewrite (as_translate _ _ _ _ (v * PG_SIZE) u R) in Ht by (by rewrite E). injection Ht as Ht _ _.
  unfold PG_SIZE in Ht. rewrite Z.mod_mul in Ht by lia. lia.
Qed.
Lemma untranslated_page s rs root A v : as_rep s rs root A → 0 ≤ v < upages → translate (PageTable.ram s) root (v * PG_SIZE) = None → A !! v = None.
Proof.
  intros R Hv Ht. destruct (A !! v) as [u|] eqn:Hu; [|done]. rewrite (as_translate _ _ _ _ (v * PG_SIZE) u R) in Ht; [done|].
  unfold PG_SIZE. by rewrite Z.div_mul.
Qed.

Lemma ex_upages : 0 ≤ 1024 < upages ∧ 0 ≤ 0 < upages.
Proof. by vm_compute. Qed.

Lemma ex_swap_rep : ∃ A u, sw_rep 12288 ex_addr ex_proc [(16, 6)] A ∅ [] ∧ A !! 1024 = Some u ∧ up_page u = ex_page ∧ A !! 0 = None.
Proof.
  destruct ex_proc_rep as (A & R & _ & Hq), ex_queue as [Hr Hs], ex_mapped as [Hm H0], ex_upages as [H1 H2].
  destruct (translated_page _ _ _ _ 1024 _ _ _ _ R H1 Hm) as (u & Hu & Hp). exists A, u.
  split; [|split; [exact Hu|split; [exact Hp|]]].
  - apply (sw_fresh 12288 ex_addr ex_proc _ A R Hq Hr); [rewrite Hs; exact ex_slots_wf|exact ex_no_entries].
  - exact (untranslated_page _ _ _ _ 0 R H2 H0).
Qed.

Lemma swp_with_nodes h (s : mm) : swp (with_nodes h s) = swp s.
Proof. done. Qed.

Definition ex_queued : mm := match map_swappable ex_memory ex_page ex_proc with Ret _ s => s | _ => ex_proc end.

Lemma ex_queued_rep : ∃ A u, sw_rep 12288 ex_addr ex_queued [(16, 6)] A ∅ [ex_page] ∧ A !! 1024 = Some u ∧ up_page u = ex_page ∧
  A !! 0 = None ∧ swp ex_queued = ex_slots.
Proof.
  destruct ex_swap_rep as (A & u & R & Hu & Hp & H0). exists A, u.
  destruct (map_swappable_spec 12288 ex_addr ex_proc [(16, 6)] A ∅ ex_page [] R) as (h & E & R'); [by exists 1024, u|apply not_elem_of_nil|].
  unfold ex_queued, ex_memory. rewrite E. split; [exact R'|]. split; [exact Hu|]. split; [exact Hp|]. split; [exact H0|].
  rewrite swp_with_nodes. exact (proj2 ex_queue).
Qed.

(** ** No reason to stop *)

Lemma ex_limit : (slot_limit ex_slots - 1) * BLOCKS_PER_PAGE ≤ 64 ∧ valid_slot ex_slots 1 ∧ used (slots ex_slots) 1 = false.
Proof. by vm_compute. Qed.

Lemma ex_in_range (s : mm) (d : RamDisk.ram) slot : slot_limit (swp s) = slot_limit ex_slots → valid_slot (swp s) slot →
  u32 (ram_count d) = 64 → in_range d ((slot - 1) * BLOCKS_PER_PAGE) blocks = true.
Proof.
  intros Hl Hv Hd. destruct ex_limit as [Hm _]. unfold valid_slot in Hv. rewrite Hl in Hv. unfold in_range. rewrite Hd.
  change (Z.of_nat blocks) with 8. change BLOCKS_PER_PAGE with 8 in *. apply andb_true_iff. split; apply Z.leb_le; lia.
Qed.

Lemma ex_not_stuck (s : mm) A k ks : slot_limit (swp s) = slot_limit ex_slots → used (slots (swp s)) 1 = false → A !! 0 = None →
  ¬ stuck (D := RamDisk.ram) s 64 A (k :: ks).
Proof.
  intros Hl Hu H0 [?|[(u & Hu' & _)|[Hall|(d & slot & buf & e & Hd & Hv & Hw)]]]; [done|congruence|..].
  - destruct ex_limit as (_ & Hv & _). rewrite Hall in Hu; [done|]. unfold valid_slot in *. by rewrite Hl.
  - pose proof (ex_in_range s d slot Hl Hv Hd) as E. unfold dev_write in Hw. cbn in Hw. by rewrite E in Hw.
Qed.

Section out_and_in.
Context (q : mm) (Hs : swp q = ex_slots).

(** Slot 1 stays free as long as nothing is on the device. *)
Lemma ex_still_free (s' : mm) d' A ks' rs' :
  sw_step 12288 ex_addr q ex_device [(16, 6)] A ∅ s' d' rs' A ∅ ks' →
  slot_limit (swp s') = slot_limit ex_slots ∧ used (slots (swp s')) 1 = false.
Proof.
  intros St. destruct (ss_slots _ _ _ _ _ _ _ _ _ _ _ _ _ St) as [Hl Hf], ex_limit as (_ & Hv & Hu). rewrite Hs in Hl, Hf.
  split; [exact Hl|]. apply not_true_is_false. intros E. destruct (Hf 1 Hv) as [[_ Hb] _].
  destruct Hb as [Hb _]; [split; [exact E|by intros v b ?%lookup_empty_Some]|]. rewrite Hs, Hu in Hb. discriminate Hb.
Qed.

(** At least one page moves. *)
Lemma ex_none_gone A s' d' rs' A' B' ks' : A !! 0 = None →
  swapped_out 12288 ex_addr q ex_device [(16, 6)] A ∅ [ex_page] s' d' rs' A' B' ks' [] → ¬ stuck (D := RamDisk.ram) s' 64 A' ks'.
Proof.
  intros H0 So. pose proof (so_step _ _ _ _ _ _ _ _ _ _ _ _ _ _ _ So) as St.
  assert (A' = A) as ->.
  { apply map_eq. intros v. destruct (A !! v) as [w|] eqn:E; [|exact (so_none _ _ _ _ _ _ _ _ _ _ _ _ _ _ _ So v E)].
    apply (so_kept _ _ _ _ _ _ _ _ _ _ _ _ _ _ _ So v w E), not_elem_of_nil. }
  assert (B' = ∅) as ->.
  { apply map_eq. intros v. rewrite lookup_empty. destruct (B' !! v) as [b|] eqn:E; [|done]. exfalso.
    destruct (sr_swapped _ _ _ _ _ _ _ (ss_rep _ _ _ _ _ _ _ _ _ _ _ _ _ St) v b E) as (_ & Hn & _).
    pose proof (ss_view _ _ _ _ _ _ _ _ _ _ _ _ _ St v) as Hc. unfold contents in Hc. by rewrite Hn, E, lookup_empty in Hc. }
  destruct (ex_still_free s' d' A _ _ St) as [Hl Hf]. rewrite <- (so_queue _ _ _ _ _ _ _ _ _ _ _ _ _ _ _ So : [ex_page] = ks').
  exact (ex_not_stuck s' A ex_page [] Hl Hf H0).
Qed.

Lemma ex_one_gone A u : sw_rep 12288 ex_addr q [(16, 6)] A ∅ [ex_page] → A !! 1024 = Some u → up_page u = ex_page → A !! 0 = None →
  ∃ A B b s' d' rs', sw_rep 12288 ex_addr s' rs' A B [] ∧ u32 (ram_count d') = 64 ∧ B !! 1024 = Some b ∧
  slot_limit (swp s') = slot_limit ex_slots ∧ rs' ≠ [] ∧ evict ex_memory 12288 (q, ex_device) = Ret true (s', d').
Proof.
  intros R Hu Hp H0.
  destruct (evict_spec 12288 ex_addr q ex_device [(16, 6)] A ∅ [ex_page] R) as [(s' & d' & _ & St & _ & Hst)|H].
  - destruct (ex_still_free s' d' A _ _ St) as [Hl Hf]. by destruct (ex_not_stuck s' A ex_page [] Hl Hf H0).
  - destruct H as (v & u' & b & ks' & s' & d' & rs' & E & Hk & Hu' & St & Hc & _ & Hp').
    injection Hk as Hk <-. assert (v = 1024) as ->.
    { apply (as_inj _ _ _ _ (sr_as _ _ _ _ _ _ _ R) v 1024 u' u Hu' Hu). congruence. }
    exists (delete 1024 A), (<[1024 := b]> ∅), b, s', d', rs'. split; [exact (ss_rep _ _ _ _ _ _ _ _ _ _ _ _ _ St)|]. split; [exact Hc|].
    split; [apply lookup_insert_eq|]. split; [|split; [|exact E]].
    + destruct (ss_slots _ _ _ _ _ _ _ _ _ _ _ _ _ St) as [Hl _]. by rewrite Hs in Hl.
    + intros ->. by apply Permutation_length in Hp'.
Qed.
End out_and_in.

(** ** Out and in again *)

Lemma ex_evicted : ∃ A B b s' d' rs', sw_rep 12288 ex_addr s' rs' A B [] ∧ u32 (ram_count d') = 64 ∧ B !! 1024 = Some b ∧
  slot_limit (swp s') = slot_limit ex_slots ∧ rs' ≠ [] ∧ evict ex_memory 12288 (ex_queued, ex_device) = Ret true (s', d').
Proof.
  destruct ex_queued_rep as (A & u & R & Hu & Hp & H0 & Hs). exact (ex_one_gone ex_queued Hs A u R Hu Hp H0).
Qed.

Lemma swap_out_correct_witness : ∃ s' d', swap_out PG_SIZE (Some ex_memory) true 1 0 (ex_queued, ex_device) = Ret 1 (s', d').
Proof.
  destruct ex_queued_rep as (A & u & R & Hu & Hp & H0 & Hs).
  destruct (swap_out_correct PG_SIZE 12288 ex_addr ex_queued ex_device [(16, 6)] A ∅ [ex_page] 1 R ltac:(done) ltac:(done)) as
    [(gone & s' & d' & rs' & A' & B' & ks' & E & So & Hn & Hst) _].
  exists s', d'. destruct gone as [|k [|k' gone]]; [|exact E|simpl in Hn; lia]. exfalso. exact (ex_none_gone ex_queued Hs A s' d' rs' A' B' ks' H0 So (Hst ltac:(done))).
Defined.

(** The program reads at 0x400078. *)
Lemma pg_fault_correct_witness : ∃ s d s' d', evict ex_memory 12288 (ex_queued, ex_device) = Ret true (s, d) ∧
  pg_fault PG_SIZE (Some ex_memory) PAGE_FAULT_USER 0x400078 (s, d) = Ret 0 (s', d').
Proof.
  destruct ex_evicted as (A & B & b & s & d & rs & R & Hd & Hb & Hl & Hrs & Ev). exists s, d.
  destruct (pg_fault_correct PG_SIZE 12288 ex_addr s d rs A B [] PAGE_FAULT_USER 0x400078 R ltac:(done)) as
    [[Hno _]|(b' & (_ & _ & _ & Hb' & _) & [(? & ? & ? & _ & _ & _ & Hwhy)|(p & s' & d' & rs' & E & _)])].
  - exfalso. apply (Hno b). unfold repairable. split_and!; by vm_compute.
  - exfalso. clear Ev. destruct Hwhy as [Hnil|(buf & e & Hr)]; [exact (Hrs Hnil)|]. change (B !! 1024 = Some b') in Hb'.
    destruct (sr_swapped _ _ _ _ _ _ _ R 1024 b' Hb') as (_ & _ & _ & Hv & _).
    pose proof (ex_in_range s d (sw_slot b') Hl Hv Hd) as Hir. unfold dev_read in Hr. cbn in Hr. by rewrite Hir in Hr.
  - exists s', d'. split; [exact Ev|exact E].
Defined.
