(* ===== verification/VirtQueue.v ===== *)
(** * Split virtqueues: [kernel/drivers/virtio/split_queue.h], [split_queue.cpp]

    The ring a VirtIO driver shares with its device.  The three buffers are
    the arrays they hold, beside the addresses [KernelBuffer::alloc] returned
    (0 when there is none); indices are 16 bits wide and wrap.  The device is
    the other party of the ring: it reads the available ring at an index of its
    own and writes the used ring.  Memory accesses of the two happen in the
    order of the code, which is what its barriers are for. *)

From Stdlib Require Import Znumtheory.
From S2P Require Import Prelude LibList Pmm PmmProofs.

(** ** The driver's side *)

Record Descriptor : Set := MkDescriptor { d_address : Z; d_length : Z; d_flags : Z; d_next : Z }.
Record Completion : Set := MkCompletion { c_id : Z; c_length : Z }.

(** The buffers' contents, the addresses of the buffers, the counters. *)
Record SplitQueue : Set := MkQueue {
  descriptors_ : list Descriptor;
  available_index : Z;
  available_ring : list Z;
  used_index : Z;
  used_ring : list Completion;
  buffers : Z * Z * Z;
  size_ : Z;
  last_used_ : Z }.
Definition no_queue : SplitQueue := MkQueue [] 0 [] 0 [] (0, 0, 0) 0 0.

Definition with_descriptors (l : list Descriptor) (q : SplitQueue) : SplitQueue :=
  MkQueue l (available_index q) (available_ring q) (used_index q) (used_ring q) (buffers q) (size_ q) (last_used_ q).
Definition with_available (i : Z) (r : list Z) (q : SplitQueue) : SplitQueue :=
  MkQueue (descriptors_ q) i r (used_index q) (used_ring q) (buffers q) (size_ q) (last_used_ q).
Definition with_used (i : Z) (r : list Completion) (q : SplitQueue) : SplitQueue :=
  MkQueue (descriptors_ q) (available_index q) (available_ring q) i r (buffers q) (size_ q) (last_used_ q).
Definition with_last_used (i : Z) (q : SplitQueue) : SplitQueue :=
  MkQueue (descriptors_ q) (available_index q) (available_ring q) (used_index q) (used_ring q) (buffers q) (size_ q) i.

Definition set_buffer (id pa length : Z) (device_writes : bool) : M SplitQueue unit :=
  q <- get;;
  ensure ((id <? size_ q) && negb (length =? 0)) E_Invalid;;
  deref (descriptors_ q !! Z.to_nat id);;
  put (with_descriptors (<[Z.to_nat id := MkDescriptor pa length (if device_writes then 2 else 0) 0]> (descriptors_ q)) q).

Definition submit (id : Z) : M SplitQueue unit :=
  q <- get;;
  ensure (id <? size_ q) E_Invalid;;
  let i := Z.to_nat (available_index q mod size_ q) in
  deref (available_ring q !! i);;
  put (with_available (u16 (available_index q + 1)) (<[i := id]> (available_ring q)) q).

Definition pop_used : M SplitQueue Completion :=
  q <- get;;
  ensure (negb (size_ q =? 0)) E_Invalid;;
  let pending := u16 (used_index q - last_used_ q) in
  ensure (negb (pending =? 0)) E_NotFound;;
  ensure (pending <=? size_ q) E_Invalid;;
  completion <- deref (used_ring q !! Z.to_nat (last_used_ q mod size_ q));;
  ensure (c_id completion <? size_ q) E_Invalid;;
  modify (with_last_used (u16 (last_used_ q + 1)));;
  ret completion.

Section storage.
Context (KERNEL_BASE : Z).
Notation S := (SplitQueue * pmm)%type.
Definition on_heap {A} (m : M pmm A) : M S A := zoom snd (λ h s, (s.1, h)) m.

(** [TRY(KernelBuffer::alloc(size))] and the rest of the function, which gives
    the buffer back when it fails. *)
Definition owning_buffer (size : Z) (k : Z → M S unit) : M S unit :=
  data <- on_heap (kmalloc KERNEL_BASE size);;
  ensure (negb (data =? 0)) E_NoMem;;
  r <- try_ (k data);;
  match r with
  | inl _ => ret tt
  | inr e => on_heap (kfree KERNEL_BASE data);; fail e
  end.
(** The assignments to the three members: what they held is freed. *)
Definition assign_buffers (q' : SplitQueue) : M S unit :=
  s <- get;;
  let '(descriptors, available, used) := buffers s.1 in
  on_heap (kfree KERNEL_BASE descriptors);;
  on_heap (kfree KERNEL_BASE available);;
  on_heap (kfree KERNEL_BASE used);;
  modify (λ s, (q', s.2)).

Definition allocate (size : Z) : M S unit :=
  s <- get;;
  ensure (size_ s.1 =? 0) E_Busy;;
  ensure (negb (size =? 0) && (size <=? 32768) && (Z.land size (size - 1) =? 0)) E_Invalid;;
  owning_buffer (16 * size) (λ descriptors,
  owning_buffer (2 * (3 + size)) (λ available,
  owning_buffer (2 * 3 + 8 * size) (λ used,
    let n := Z.to_nat size in
    assign_buffers (MkQueue (replicate n (MkDescriptor 0 0 0 0)) 0 (replicate n 0) 0 (replicate n (MkCompletion 0 0))
      (descriptors, available, used) size 0)))).
Definition release : M S unit := assign_buffers no_queue.
End storage.

(** ** The two parties *)

(** The queue in memory, the device's index, the identifiers the driver and the
    device may use; and the history: what was submitted and taken, completed
    and popped, in order. *)
Record parties : Set := MkParties {
  queue : SplitQueue;
  device_index : Z;
  owned : list Z;
  held : list Z;
  submitted : list Z;
  taken : list Z;
  completed : list Completion;
  popped : list Completion }.

(** What the device finds in the available ring. *)
Definition device_next (s : parties) : option Z :=
  if device_index s =? available_index (queue s) then None
  else available_ring (queue s) !! Z.to_nat (device_index s mod size_ (queue s)).
Definition device_complete (c : Completion) (q : SplitQueue) : SplitQueue :=
  with_used (u16 (used_index q + 1)) (<[Z.to_nat (used_index q mod size_ q) := c]> (used_ring q)) q.

(** The driver writes and submits buffers it owns; the device completes buffers
    it took, in any order. *)
Inductive ring_step : parties → parties → Prop :=
| Set_buffer s id pa length w q' : id ∈ owned s → set_buffer id pa length w (queue s) = Ret tt q' →
    ring_step s (MkParties q' (device_index s) (owned s) (held s) (submitted s) (taken s) (completed s) (popped s))
| Submit s id o' q' : owned s ≡ₚ id :: o' → submit id (queue s) = Ret tt q' →
    ring_step s (MkParties q' (device_index s) o' (held s) (submitted s ++ [id]) (taken s) (completed s) (popped s))
| Take s id : device_next s = Some id →
    ring_step s (MkParties (queue s) (u16 (device_index s + 1)) (owned s) (id :: held s) (submitted s) (taken s ++ [id]) (completed s) (popped s))
| Complete s c h' : held s ≡ₚ c_id c :: h' →
    ring_step s (MkParties (device_complete c (queue s)) (device_index s) (owned s) h' (submitted s) (taken s) (completed s ++ [c]) (popped s))
| Pop s c q' : pop_used (queue s) = Ret c q' →
    ring_step s (MkParties q' (device_index s) (c_id c :: owned s) (held s) (submitted s) (taken s) (completed s) (popped s ++ [c])).

Definition start (q : SplitQueue) : parties := MkParties q 0 (seqZ 0 (size_ q)) [] [] [] [] [].

(** ** Rings *)

(** The [size] slots of [ring] hold [l] from position [from] on. *)
Definition ring_holds {A} (size : Z) (ring : list A) (from : Z) (l : list A) : Prop :=
  Z.of_nat (length ring) = size ∧ Z.of_nat (length l) ≤ size ∧
  ∀ (j : nat) x, l !! j = Some x → ring !! Z.to_nat ((from + Z.of_nat j) mod size) = Some x.

Section rings.
Context {A : Type} (size : Z) (Hsize : 0 < size).
Implicit Types (ring l : list A) (from : Z).

Lemma mod_slot (i : Z) (m : nat) : Z.of_nat m = size → (Z.to_nat (i mod size) < m)%nat.
Proof. intros Hm. destruct (Z.mod_pos_bound i size Hsize) as [H0 H1]. apply Nat2Z.inj_lt. by rewrite Z2Nat.id, Hm. Qed.
Lemma ring_slot ring from l i : ring_holds size ring from l → is_Some (ring !! Z.to_nat (i mod size)).
Proof. intros (Hl & _). apply lookup_lt_is_Some, mod_slot. exact Hl. Qed.
Lemma ring_head ring from l : ring_holds size ring from l → ∀ x l', l = x :: l' → ring !! Z.to_nat (from mod size) = Some x.
Proof. intros (_ & _ & H) x l' ->. specialize (H 0%nat x eq_refl). by rewrite Z.add_0_r in H. Qed.
Lemma ring_tail ring from x l : ring_holds size ring from (x :: l) → ring_holds size ring (from + 1) l.
Proof.
  intros (Hl & Hn & H). simpl in Hn. split_and!; [done|lia|]. intros j y Hj. rewrite <- (H (S j) y Hj). do 3 f_equal. lia.
Qed.
Lemma ring_push ring from l x : ring_holds size ring from l → Z.of_nat (length l) < size →
  ring_holds size (<[Z.to_nat ((from + Z.of_nat (length l)) mod size) := x]> ring) from (l ++ [x]).
Proof.
  intros (Hl & Hn & H) Hlt. split_and!; [by rewrite length_insert|rewrite length_app; simpl; lia|]. intros j y Hj.
  apply lookup_app_Some in Hj as [Hj|[Hge Hj]].
  - pose proof (lookup_lt_Some _ _ _ Hj). rewrite list_lookup_insert_ne; [by apply H|]. intros E.
    apply Z2Nat.inj in E; [|apply Z.mod_pos_bound; lia..].
    assert ((Z.of_nat (length l) - Z.of_nat j) mod size = 0) as E0.
    { replace (Z.of_nat (length l) - Z.of_nat j) with ((from + Z.of_nat (length l)) - (from + Z.of_nat j)) by lia.
      by rewrite Zminus_mod, E, Z.sub_diag, Z.mod_0_l by lia. }
    rewrite Z.mod_small in E0 by lia. lia.
  - apply list_lookup_singleton_Some in Hj as [Hj <-]. replace j with (length l) by lia. by apply list_lookup_insert_eq, mod_slot.
Qed.
End rings.

(** ** The invariant *)

Definition len {A} (l : list A) : Z := Z.of_nat (length l).

(** The identifiers [avail] and the completions [pend] are in the rings, the
    others with the driver or the device. *)
Record ring_inv (n : Z) (buf : Z * Z * Z) (s : parties) (avail : list Z) (pend : list Completion) : Prop := {
  ri_size : size_ (queue s) = n;
  ri_buffers : buffers (queue s) = buf;
  ri_descriptors : len (descriptors_ (queue s)) = n;
  ri_submitted : submitted s = taken s ++ avail;
  ri_completed : completed s = popped s ++ pend;
  ri_ids : owned s ++ avail ++ held s ++ (c_id <$> pend) ≡ₚ seqZ 0 n;
  ri_available_index : available_index (queue s) = u16 (len (submitted s));
  ri_device_index : device_index s = u16 (len (taken s));
  ri_used_index : used_index (queue s) = u16 (len (completed s));
  ri_last_used : last_used_ (queue s) = u16 (len (popped s));
  ri_available : ring_holds n (available_ring (queue s)) (len (taken s)) avail;
  ri_used : ring_holds n (used_ring (queue s)) (len (popped s)) pend }.

Section inv.
Context (n : Z) (buf : Z * Z * Z) (Hn : 0 < n ≤ 32768) (Hpow : (n | 2 ^ 16)).

Lemma u16_mod x : u16 x mod n = x mod n.
Proof using Hn Hpow. symmetry. apply Zmod_div_mod; [lia|done|done]. Qed.
Lemma u16_next x : u16 (u16 x + 1) = u16 (x + 1).
Proof. unfold u16. by rewrite Zplus_mod_idemp_l. Qed.
Lemma u16_diff x y : u16 (u16 x - u16 y) = u16 (x - y).
Proof. unfold u16. by rewrite <- Zminus_mod. Qed.
Lemma len_app {A} (l l' : list A) : len (l ++ l') = len l + len l'.
Proof. unfold len. rewrite length_app. lia. Qed.

Implicit Types (s : parties) (avail : list Z) (pend : list Completion).

Lemma inv_counts s avail pend : ring_inv n buf s avail pend → len (owned s) + len avail + len (held s) + len pend = n.
Proof using Hn.
  intros I. pose proof (Permutation_length (ri_ids _ _ _ _ _ I)) as E. rewrite !length_app, length_fmap, length_seqZ in E. unfold len. lia.
Qed.
Lemma inv_id s avail pend id : ring_inv n buf s avail pend → id ∈ owned s ++ avail ++ held s ++ (c_id <$> pend) → 0 ≤ id < n.
Proof. intros I. rewrite (ri_ids _ _ _ _ _ I), elem_of_seqZ. lia. Qed.

(** What the parties find in the rings. *)
Lemma device_next_spec s avail pend : ring_inv n buf s avail pend → device_next s = head avail.
Proof using Hn Hpow.
  intros I. pose proof (inv_counts _ _ _ I) as Hc. destruct I. unfold device_next. rewrite ri_size0, ri_device_index0, ri_available_index0, ri_submitted0.
  rewrite u16_mod, len_app. unfold len in *. destruct avail as [|id avail]; [by rewrite Z.add_0_r, Z.eqb_refl|].
  rewrite (proj2 (Z.eqb_neq _ _)); [by eapply (ring_head n)|]. intros E. simpl length in *.
  pose proof (u16_diff (Z.of_nat (length (taken s)) + Z.of_nat (S (length avail))) (Z.of_nat (length (taken s)))) as Hd.
  rewrite <- E, Z.sub_diag, Z.add_simpl_l, (u16_small (Z.of_nat _)) in Hd by lia. change (u16 0) with 0 in Hd. lia.
Qed.
Lemma pop_used_spec s avail pend : ring_inv n buf s avail pend →
  pop_used (queue s) = match pend with
                       | [] => Fail E_NotFound (queue s)
                       | c :: _ => Ret c (with_last_used (u16 (last_used_ (queue s) + 1)) (queue s))
                       end.
Proof using Hn Hpow.
  intros I. pose proof (inv_counts _ _ _ I) as Hc. pose proof (λ id, inv_id _ _ _ id I) as Hid. destruct I.
  unfold pop_used, get. rewrite (bind_Ret _ _ (queue s) (queue s) (queue s)) by done. rewrite ri_size0, ri_used_index0, ri_last_used0, ri_completed0.
  rewrite (proj2 (Z.eqb_neq n 0)), u16_diff, len_app, Z.add_simpl_l, u16_mod by lia. cbn [negb ensure]. rewrite bind_ret.
  unfold len in *. destruct pend as [|c pend]; [done|].
  rewrite (u16_small (Z.of_nat _)), (proj2 (Z.eqb_neq _ 0)), (proj2 (Z.leb_le _ n)) by (simpl length in *; lia). cbn [negb ensure].
  rewrite !bind_ret, (ring_head n _ _ _ ri_used0 c pend eq_refl). cbn [deref]. rewrite bind_ret, (proj2 (Z.ltb_lt (c_id c) n)); [done|].
  apply (Hid (c_id c)). rewrite !elem_of_app. right. right. right. left.
Qed.
(** Whatever the device writes, what is read is in the ring and what is
    returned is an identifier of the queue. *)
Lemma pop_used_safe q : size_ q = n → len (used_ring q) = n →
  (∃ c, pop_used q = Ret c (with_last_used (u16 (last_used_ q + 1)) q) ∧ c_id c < n) ∨ ∃ e, pop_used q = Fail e q.
Proof using Hn.
  intros Hs Hl. unfold pop_used, get. rewrite (bind_Ret _ _ q q q) by done. rewrite Hs.
  destruct (negb (n =? 0)); [|by right; eexists]. cbn [ensure]. rewrite bind_ret.
  destruct (negb _); [|by right; eexists]. cbn [ensure]. rewrite bind_ret.
  destruct (_ <=? n); [|by right; eexists]. cbn [ensure]. rewrite bind_ret.
  destruct (lookup_lt_is_Some_2 (used_ring q) (Z.to_nat (last_used_ q mod n))) as [c Hc].
  { apply mod_slot; [lia|done]. }
  rewrite Hc. cbn [deref]. rewrite bind_ret. destruct (c_id c <? n) eqn:E; [|by right; eexists]. left. exists c. split; [done|lia].
Qed.
Lemma submit_spec s avail pend id : ring_inv n buf s avail pend → id ∈ owned s →
  submit id (queue s) = Ret tt (with_available (u16 (len (submitted s) + 1))
    (<[Z.to_nat ((len (taken s) + len avail) mod n) := id]> (available_ring (queue s))) (queue s)).
Proof using Hn Hpow.
  intros I Hid. assert (0 ≤ id < n) as Hlt by (apply (inv_id _ _ _ id I); rewrite elem_of_app; by left). destruct I.
  unfold submit, get. rewrite (bind_Ret _ _ (queue s) (queue s) (queue s)) by done. rewrite ri_size0, (proj2 (Z.ltb_lt id n)) by lia.
  cbn [ensure]. rewrite bind_ret, ri_available_index0, u16_mod, u16_next.
  destruct (ring_slot n ltac:(lia) _ _ _ (len (submitted s)) ri_available0) as [x Hx]. rewrite Hx. cbn [deref]. rewrite bind_ret.
  unfold put. by rewrite ri_submitted0, !len_app.
Qed.

Lemma inv_step s s' avail pend : ring_inv n buf s avail pend → ring_step s s' → ∃ avail' pend', ring_inv n buf s' avail' pend'.
Proof using Hn Hpow.
  intros I St. pose proof (inv_counts _ _ _ I) as Hc. destruct St as [s id pa length w q' Hid E|s id o' q' Ho E|s id E|s c h' Hh|s c q' E].
  - exists avail, pend. destruct I. unfold set_buffer, get in E. rewrite (bind_Ret _ _ (queue s) (queue s) (queue s)) in E by done.
    destruct (_ && _); [|done]. cbn [ensure] in E. rewrite bind_ret in E. destruct (_ !! _); [|done]. cbn [deref] in E. rewrite bind_ret in E.
    injection E as <-. constructor; try done. cbn. unfold len. by rewrite length_insert.
  - rewrite (submit_spec s avail pend id I) in E by (rewrite Ho; left). injection E as <-. exists (avail ++ [id]), pend.
    assert (len avail < n) as Hlt by (rewrite <- Hc; unfold len; rewrite (Permutation_length Ho); simpl; lia). destruct I. constructor; try done; cbn.
    + by rewrite ri_submitted0, app_assoc.
    + rewrite <- ri_ids0, Ho. rewrite <- !app_assoc. cbn. by rewrite <- !Permutation_middle.
    + by rewrite len_app.
    + by apply ring_push; [lia|..].
  - rewrite (device_next_spec s avail pend I) in E. destruct avail as [|id' avail]; [done|]. injection E as ->. exists avail, pend.
    destruct I. constructor; try done; cbn.
    + by rewrite <- app_assoc.
    + rewrite <- ri_ids0. cbn. by rewrite <- !Permutation_middle.
    + by rewrite ri_device_index0, u16_next, len_app.
    + rewrite len_app. by eapply ring_tail.
  - exists avail, (pend ++ [c]). 
    assert (len pend < n) as Hlt by (rewrite <- Hc; unfold len; rewrite (Permutation_length Hh); simpl; lia). destruct I. constructor; try done; cbn.
    + by rewrite ri_completed0, app_assoc.
    + rewrite <- ri_ids0, Hh, fmap_app. cbn. by rewrite <- !Permutation_middle, app_nil_r.
    + by rewrite ri_used_index0, u16_next, len_app.
    + rewrite ri_size0, ri_used_index0, u16_mod, ri_completed0, len_app. by apply ring_push; [lia|..].
  - rewrite (pop_used_spec s avail pend I) in E. destruct pend as [|c' pend]; [done|]. injection E as -> <-. exists avail, pend.
    destruct I. constructor; try done; cbn.
    + by rewrite <- app_assoc.
    + rewrite <- ri_ids0. cbn. by rewrite <- !Permutation_middle.
    + by rewrite ri_last_used0, u16_next, len_app.
    + rewrite len_app. by eapply ring_tail.
Qed.
Lemma inv_reach s s' : rtc ring_step s s' → ∀ avail pend, ring_inv n buf s avail pend → ∃ avail' pend', ring_inv n buf s' avail' pend'.
Proof using Hn Hpow.
  induction 1 as [s|s s1 s2 St _ IH]; intros avail pend I; [eauto|]. destruct (inv_step _ _ _ _ I St) as (avail1 & pend1 & I1). eauto.
Qed.
End inv.

(** ** Storage *)

Lemma power_of_two n : 0 < n → (Z.land n (n - 1) = 0 ↔ n = 2 ^ Z.log2 n).
Proof.
  intros Hn. pose proof (Z.log2_spec n Hn) as [Hlo Hhi]. pose proof (Z.log2_nonneg n) as H0. rewrite Z.pow_succ_r in Hhi by done. split.
  - intros E. destruct (decide (n = 2 ^ Z.log2 n)) as [|Hne]; [done|]. exfalso.
    assert (Z.log2 (n - 1) = Z.log2 n) as El by (apply Z.log2_unique; rewrite ?Z.pow_succ_r by done; lia).
    pose proof (Z.pow_pos_nonneg 2 (Z.log2 n)). assert (Z.testbit (Z.land n (n - 1)) (Z.log2 n) = true) as Ht; [|by rewrite E, Z.bits_0 in Ht].
    rewrite Z.land_spec, Z.bit_log2 by done. rewrite <- El at 1. by apply Z.bit_log2; lia.
  - intros E. rewrite E at 1 2. rewrite Z.sub_1_r, <- Z.ones_equiv, Z.land_ones by done. apply Z.mod_same. lia.
Qed.

Section heap.
Context (KERNEL_BASE : Z) (HKB : 0 < KERNEL_BASE).
Notation page_of := (kva_to_page KERNEL_BASE).

(** The pages of the blocks [l]; a heap in which they are allocated. *)
Definition pages_of (l : list (Z * Z)) : list Z := l ≫= λ '(kva, n), seqZ (page_of kva) n.
Record owns (h : pmm) rs (l : list (Z * Z)) : Prop := {
  ow_rep : pmm_rep h rs;
  ow_coalesced : coalesced rs;
  ow_direct : direct_mapped KERNEL_BASE h;
  ow_blocks : ∀ kva n, (kva, n) ∈ l → kblock KERNEL_BASE h kva n;
  ow_apart : NoDup (pages_of l ++ free_pages rs) }.

Lemma pages_of_in l kva n i : (kva, n) ∈ l → i ∈ seqZ (page_of kva) n → i ∈ pages_of l.
Proof. intros Hl Hi. apply list_elem_of_bind. by exists (kva, n). Qed.

Lemma owns_perm h rs l l' : owns h rs l → l ≡ₚ l' → owns h rs l'.
Proof.
  intros [R Hco Hd Hbl Hnd] Hp. constructor; try done; [intros kva n; rewrite <- Hp; apply Hbl|].
  unfold pages_of in *. by rewrite <- Hp.
Qed.
Lemma owns_alloc h rs l b : owns h rs l → 0 < b ≤ 2 ^ 64 - PG_SIZE →
  (∃ kva n h' rs', kmalloc KERNEL_BASE b h = Ret kva h' ∧ kva ≠ 0 ∧ owns h' rs' ((kva, n) :: l) ∧
     free_pages rs ≡ₚ seqZ (page_of kva) n ++ free_pages rs') ∨
  kmalloc KERNEL_BASE b h = Ret 0 h.
Proof using HKB.
  intros [R Hco Hd Hbl Hnd] Hb.
  destruct (kmalloc_spec KERNEL_BASE HKB h rs b R Hco Hd Hb) as [(kva & h' & rs' & E & _ & _ & Hk & R' & Hco' & F & Hp)|[E _]]; [left|by right].
  exists kva, ((b + PG_SIZE - 1) / PG_SIZE), h', rs'. pose proof Hk as (_ & Hz & _). split_and!; try done. constructor; try done.
  - by eapply direct_mapped_frame.
  - intros kva' m [[= -> ->]|Hin]%elem_of_cons; [done|]. eapply kblock_frame; [by apply Hbl|exact F|].
    intros i Hi. apply NoDup_app in Hnd as (_ & Hdis & _). by eapply Hdis, pages_of_in.
  - unfold pages_of. cbn. fold (pages_of l). rewrite <- app_assoc, (app_assoc _ (pages_of l)), (Permutation_app_comm _ (pages_of l)), <- app_assoc.
    by rewrite <- Hp.
Qed.
Lemma owns_free h rs l kva n : owns h rs ((kva, n) :: l) →
  ∃ h' rs', kfree KERNEL_BASE kva h = Ret tt h' ∧ owns h' rs' l ∧ free_pages rs' ≡ₚ seqZ (page_of kva) n ++ free_pages rs.
Proof.
  intros [R Hco Hd Hbl Hnd]. unfold pages_of in Hnd. cbn in Hnd. fold (pages_of l) in Hnd. rewrite <- app_assoc in Hnd.
  destruct (kfree_spec KERNEL_BASE h rs kva n R) as (h' & rs' & E & R' & Hco' & Hp & F); [apply Hbl; left| |].
  { intros i Hi Hf. apply NoDup_app in Hnd as (_ & Hdis & _). apply (Hdis i Hi). rewrite elem_of_app. by right. }
  exists h', rs'. split_and!; try done. rewrite (app_assoc _ (pages_of l)), (Permutation_app_comm _ (pages_of l)), <- app_assoc in Hnd.
  constructor; [done|by apply Hco'|by eapply direct_mapped_frame| |by rewrite Hp].
  intros kva' m Hin. eapply kblock_frame; [apply Hbl; by right|exact F|]. intros i Hi. apply NoDup_app in Hnd as (_ & Hdis & _). by eapply Hdis, pages_of_in.
Qed.

Implicit Types (q : SplitQueue) (h : pmm) (rs : list (Z * Z)).

(** The operation ran out of memory and gave back what it had taken. *)
Definition no_memory q rs l (r : Out (SplitQueue * pmm) unit) : Prop :=
  ∃ h' rs', r = Fail E_NoMem (q, h') ∧ owns h' rs' l ∧ free_pages rs' ≡ₚ free_pages rs.

Lemma on_heap_Ret {A} (m : M pmm A) q h a h' : m h = Ret a h' → on_heap m (q, h) = Ret a (q, h').
Proof. intros E. unfold on_heap. by erewrite zoom_Ret. Qed.

Lemma owning_buffer_spec q h rs l b k (P : SplitQueue → pmm → Prop) : owns h rs l → 0 < b ≤ 2 ^ 64 - PG_SIZE →
  (∀ kva n h1 rs1, kva ≠ 0 → owns h1 rs1 ((kva, n) :: l) → free_pages rs ≡ₚ seqZ (page_of kva) n ++ free_pages rs1 →
     (∃ q' h', k kva (q, h1) = Ret tt (q', h') ∧ P q' h') ∨ no_memory q rs1 ((kva, n) :: l) (k kva (q, h1))) →
  (∃ q' h', owning_buffer KERNEL_BASE b k (q, h) = Ret tt (q', h') ∧ P q' h') ∨ no_memory q rs l (owning_buffer KERNEL_BASE b k (q, h)).
Proof using HKB.
  intros O Hb Hk. unfold owning_buffer. destruct (owns_alloc h rs l b O Hb) as [(kva & n & h1 & rs1 & E & Hz & O1 & Hp)|E];
    rewrite (bind_Ret _ _ _ _ _ (on_heap_Ret _ q _ _ _ E)).
  2:{ right. by exists h, rs. }
  rewrite (proj2 (Z.eqb_neq kva 0)) by done. cbn [negb ensure]. rewrite bind_ret.
  destruct (Hk kva n h1 rs1 Hz O1 Hp) as [(q' & h' & Ek & HP)|(h2 & rs2 & Ek & O2 & Hp2)]; [left|right].
  - exists q', h'. by rewrite (bind_Ret _ _ _ _ _ (try_Ret _ _ _ _ Ek)).
  - rewrite (bind_Ret _ _ _ _ _ (try_Fail _ _ _ _ Ek)). destruct (owns_free h2 rs2 l kva n O2) as (h3 & rs3 & E3 & O3 & Hp3).
    rewrite (bind_Ret _ _ _ _ _ (on_heap_Ret _ q _ _ _ E3)). exists h3, rs3. split_and!; [done..|]. by rewrite Hp3, Hp2, Hp.
Qed.

(** A queue with nothing in it, and the heap it was allocated from. *)
Definition empty_queue (n : Z) q : Prop :=
  size_ q = n ∧ descriptors_ q = replicate (Z.to_nat n) (MkDescriptor 0 0 0 0) ∧ available_index q = 0 ∧
  available_ring q = replicate (Z.to_nat n) 0 ∧ used_index q = 0 ∧ used_ring q = replicate (Z.to_nat n) (MkCompletion 0 0) ∧ last_used_ q = 0.
Definition stored rs (b : Z * Z * Z) h : Prop :=
  ∃ n1 n2 n3 rs', owns h rs' [(b.1.1, n1); (b.1.2, n2); (b.2, n3)] ∧
    free_pages rs ≡ₚ pages_of [(b.1.1, n1); (b.1.2, n2); (b.2, n3)] ++ free_pages rs'.

Definition valid_size (n : Z) : Prop := ∃ k, 0 ≤ k ≤ 15 ∧ n = 2 ^ k.
Lemma size_test n : 0 ≤ n → negb (n =? 0) && (n <=? 32768) && (Z.land n (n - 1) =? 0) = bool_decide (0 < n ≤ 32768 ∧ n = 2 ^ Z.log2 n).
Proof.
  intros H0. destruct (decide (n = 0)) as [->|Hne]; [done|]. rewrite (proj2 (Z.eqb_neq n 0)) by done. cbn [negb andb].
  apply eq_bool_prop_intro. rewrite andb_True, bool_decide_spec, !Is_true_true, Z.leb_le, Z.eqb_eq, power_of_two by lia. lia.
Qed.
Lemma valid_size_iff n : valid_size n ↔ 0 < n ≤ 32768 ∧ n = 2 ^ Z.log2 n.
Proof.
  split.
  - intros (k & Hk & ->). rewrite Z.log2_pow2 by lia. pose proof (Z.pow_pos_nonneg 2 k). pose proof (Z.pow_le_mono_r 2 k 15). lia.
  - intros [Hn E]. exists (Z.log2 n). split; [|done]. split; [apply Z.log2_nonneg|]. apply (Z.log2_le_mono n 32768). lia.
Qed.
Lemma valid_size_divides n : valid_size n → 0 < n ≤ 32768 ∧ (n | 2 ^ 16).
Proof.
  intros V. split; [by apply valid_size_iff|]. destruct V as (k & Hk & ->). exists (2 ^ (16 - k)). rewrite <- Z.pow_add_r by lia. f_equal. lia.
Qed.

Lemma allocate_spec h rs n : owns h rs [] → 0 ≤ n → valid_size n →
  (∃ q h', allocate KERNEL_BASE n (no_queue, h) = Ret tt (q, h') ∧ empty_queue n q ∧ stored rs (buffers q) h') ∨
  no_memory no_queue rs [] (allocate KERNEL_BASE n (no_queue, h)).
Proof using HKB.
  intros O H0 V. destruct (valid_size_divides n V) as [Hn _]. unfold allocate, get. rewrite (bind_Ret _ _ (no_queue, h) (no_queue, h) (no_queue, h)) by done.
  rewrite size_test, bool_decide_eq_true_2 by (by rewrite <- ?valid_size_iff). cbn [ensure fst size_ no_queue Z.eqb]. rewrite !bind_ret.
  set (P := λ q h', empty_queue n q ∧ stored rs (buffers q) h').
  apply (owning_buffer_spec no_queue h rs [] _ _ P O); [unfold PG_SIZE; lia|]. intros a na h1 rs1 _ O1 Hp1.
  apply (owning_buffer_spec no_queue h1 rs1 _ _ _ P O1); [unfold PG_SIZE; lia|]. intros b nb h2 rs2 _ O2 Hp2.
  apply (owning_buffer_spec no_queue h2 rs2 _ _ _ P O2); [unfold PG_SIZE; lia|]. intros c nc h3 rs3 _ O3 Hp3.
  left. eexists _, h3. split; [done|]. split; [done|]. exists na, nb, nc, rs3. split.
  - eapply owns_perm; [exact O3|]. apply (Permutation_rev [_; _; _]).
  - unfold pages_of. cbn. by rewrite app_nil_r, Hp1, Hp2, Hp3, <- !app_assoc.
Qed.
Lemma release_spec rs q h : stored rs (buffers q) h →
  ∃ h' rs', release KERNEL_BASE (q, h) = Ret tt (no_queue, h') ∧ owns h' rs' [] ∧ free_pages rs' ≡ₚ free_pages rs.
Proof.
  intros (na & nb & nc & rs0 & O & Hp). destruct (buffers q) as [[a b] c] eqn:Eq. cbn in O, Hp. unfold release, assign_buffers, get.
  rewrite (bind_Ret _ _ (q, h) (q, h) (q, h)) by done. cbn [fst]. rewrite Eq.
  destruct (owns_free h rs0 _ a na O) as (h1 & rs1 & E1 & O1 & Hp1), (owns_free h1 rs1 _ b nb O1) as (h2 & rs2 & E2 & O2 & Hp2),
    (owns_free h2 rs2 _ c nc O2) as (h3 & rs3 & E3 & O3 & Hp3).
  rewrite (bind_Ret _ _ _ _ _ (on_heap_Ret _ q _ _ _ E1)), (bind_Ret _ _ _ _ _ (on_heap_Ret _ q _ _ _ E2)),
    (bind_Ret _ _ _ _ _ (on_heap_Ret _ q _ _ _ E3)).
  exists h3, rs3. split_and!; [done..|]. rewrite Hp, Hp3, Hp2, Hp1. unfold pages_of. cbn. rewrite app_nil_r, <- !app_assoc.
  rewrite (Permutation_app_swap_app (seqZ (page_of c) nc)), (Permutation_app_swap_app (seqZ (page_of c) nc)).
  by rewrite (Permutation_app_swap_app (seqZ (page_of b) nb)).
Qed.

(** ** The queue *)

(** What the two parties can rely on: the device takes the identifiers in the
    order they were submitted and the driver pops the completions in the order
    they were written, each once; no identifier is in two places or lost; a
    submission of the driver is never refused; and whatever a broken device
    writes, [pop_used] stays inside its ring and returns identifiers of the
    queue only. *)
Record queue_correct (n : Z) (s : parties) (avail : list Z) (pend : list Completion) : Prop := {
  qc_submitted : submitted s = taken s ++ avail;
  qc_completed : completed s = popped s ++ pend;
  qc_ids : owned s ++ avail ++ held s ++ (c_id <$> pend) ≡ₚ seqZ 0 n;
  qc_device : device_next s = head avail;
  qc_pop : pop_used (queue s) = match pend with
                                | [] => Fail E_NotFound (queue s)
                                | c :: _ => Ret c (with_last_used (u16 (last_used_ (queue s) + 1)) (queue s))
                                end;
  qc_submit : ∀ id, id ∈ owned s → ∃ q', submit id (queue s) = Ret tt q';
  qc_safe : ∀ i ring, len ring = n → let q := with_used i ring (queue s) in
    (∃ c q', pop_used q = Ret c q' ∧ c_id c < n) ∨ ∃ e, pop_used q = Fail e q }.

Lemma start_inv n q : 0 < n → empty_queue n q → ring_inv n (buffers q) (start q) [] [].
Proof.
  intros Hn (Hs & Hd & Ha & Har & Hu & Hur & Hl). unfold start. rewrite Hs. constructor; cbn; try done.
  - rewrite Hd. unfold len. rewrite length_replicate. lia.
  - by rewrite app_nil_r.
  - rewrite Har. split_and!; [rewrite length_replicate; lia|simpl; lia|done].
  - rewrite Hur. split_and!; [rewrite length_replicate; lia|simpl; lia|done].
Qed.
Lemma inv_correct n buf s avail pend : 0 < n ≤ 32768 → (n | 2 ^ 16) → ring_inv n buf s avail pend → queue_correct n s avail pend.
Proof.
  intros Hn Hp I. constructor; try apply I.
  - by eapply device_next_spec.
  - by eapply pop_used_spec.
  - intros id Hid. eexists. by eapply submit_spec.
  - intros i ring Hl q. destruct (pop_used_safe n Hn q) as [(c & E & Hc)|?]; [apply I|done|left; by eauto|by right].
Qed.

(** C8: a split queue of [n] descriptors is refused unless [n] is a power of two
    up to 32768, and needs memory; a failed allocation gives everything back.
    From then on, whatever the driver and the device do with the identifiers
    that are theirs, in any order and past every wrap-around of the 16-bit
    indices, both rings are FIFO channels that lose and repeat nothing, and a
    device that breaks the protocol cannot make the driver read outside its
    ring.  Releasing the queue frees exactly its buffers. *)
Theorem split_queue_correct h rs n : owns h rs [] → 0 ≤ n →
  (¬ valid_size n → allocate KERNEL_BASE n (no_queue, h) = Fail E_Invalid (no_queue, h)) ∧
  (valid_size n → no_memory no_queue rs [] (allocate KERNEL_BASE n (no_queue, h)) ∨
   ∃ q h', allocate KERNEL_BASE n (no_queue, h) = Ret tt (q, h') ∧ (∀ m, allocate KERNEL_BASE m (q, h') = Fail E_Busy (q, h')) ∧
     ∀ s, rtc ring_step (start q) s → (∃ avail pend, queue_correct n s avail pend) ∧
       ∃ h2 rs2, release KERNEL_BASE (queue s, h') = Ret tt (no_queue, h2) ∧ owns h2 rs2 [] ∧ free_pages rs2 ≡ₚ free_pages rs).
Proof using HKB.
  intros O H0. split.
  - intros Hv. unfold allocate, get. rewrite (bind_Ret _ _ (no_queue, h) (no_queue, h) (no_queue, h)) by done.
    by rewrite size_test, bool_decide_eq_false_2 by (by rewrite <- ?valid_size_iff).
  - intros V. destruct (valid_size_divides n V) as [Hn Hd].
    destruct (allocate_spec h rs n O H0 V) as [(q & h' & E & Hq & Hst)|?]; [right|by left]. exists q, h'. split; [done|]. split.
    { intros m. unfold allocate, get. rewrite (bind_Ret _ _ (q, h') (q, h') (q, h')) by done. destruct Hq as [Hs _]. cbn [fst]. rewrite Hs.
      by rewrite (proj2 (Z.eqb_neq n 0)) by lia. }
    intros s Hs. destruct (inv_reach n (buffers q) Hn Hd _ _ Hs [] []) as (avail & pend & I); [apply start_inv; [lia|done]|].
    split; [exists avail, pend; by eapply inv_correct|]. apply release_spec. by rewrite (ri_buffers _ _ _ _ _ I).
Qed.
End heap.

(** ** A concrete queue *)

Lemma ex_pmm_owns : owns 0xFFFFFFFF80000000 ex_pmm [(0, 2); (4, 3)] [].
Proof. constructor; [exact ex_pmm_rep|exact ex_pmm_coalesced|exact ex_pmm_direct|by intros ?? ?%elem_of_nil|by apply (bool_decide_unpack _); vm_compute]. Qed.

(** With two descriptors, after one turn of buffer 1. *)
Lemma split_queue_correct_witness : ∃ q h s avail pend, allocate 0xFFFFFFFF80000000 2 (no_queue, ex_pmm) = Ret tt (q, h) ∧
  rtc ring_step (start q) s ∧ popped s = [MkCompletion 1 8] ∧ queue_correct 2 s avail pend.
Proof.
  destruct (split_queue_correct 0xFFFFFFFF80000000 eq_refl ex_pmm _ 2 ex_pmm_owns ltac:(done)) as [_ H].
  destruct H as [(h & rs & E & _)|(q & h & E & _ & H)]; [by exists 1|exfalso; vm_compute in E; discriminate E|].
  assert (∃ s, rtc ring_step (start q) s ∧ popped s = [MkCompletion 1 8]) as (s & Hs & Hp).
  { vm_compute in E. injection E as <- _. eexists. split.
    - eapply rtc_l; [apply (Submit _ 1 [0]); [by apply (bool_decide_unpack _); vm_compute|by vm_compute]|].
      eapply rtc_l; [by apply (Take _ 1); vm_compute|].
      eapply rtc_l; [by apply (Complete _ (MkCompletion 1 8) [])|].
      eapply rtc_l; [by apply (Pop _ (MkCompletion 1 8)); vm_compute|]. apply rtc_refl.
    - done. }
  destruct (H s Hs) as [(avail & pend & Hq) _]. exists q, h, s, avail, pend. split; [exact E|]. split; [exact Hs|]. split; [exact Hp|exact Hq].
Defined.
