(* ===== verification/FatLayout.v ===== *)
(** * On-disk structures: [base/mbr.h], [base/gpt.h], [base/bpb.h]

    The packed structures the FAT driver overlays on the sectors it reads, as
    records with their decoders, and the names of directory entries.  A C
    string is the list of its bytes before the terminating zero. *)

From S2P Require Import Prelude BlockDev.

(** ** Master boot record *)

Definition GPT_PROTECTIVE_MBR_TYPE : Z := 0xEE.
Definition PART_TYPE_FAT32 : Z := 0x0B.
Definition PART_TYPE_FAT32_LBA : Z := 0x0C.
Definition MBR_SIGNATURE : Z := 0xAA55.

Record MbrPartition : Set := MkPart {
  boot_flag : Z; start_chs : list Z; part_type : Z; end_chs : list Z; start_lba : Z; part_size : Z }.
Definition MbrPartition_of (bs : list Z) : MbrPartition :=
  MkPart (field 0 1 bs) (slice 1 3 bs) (field 4 1 bs) (slice 5 3 bs) (field 8 4 bs) (field 12 4 bs).
Definition is_gpt (p : MbrPartition) : bool := part_type p =? GPT_PROTECTIVE_MBR_TYPE.
Definition part_is_fat32 (p : MbrPartition) : bool :=
  (part_type p =? PART_TYPE_FAT32) || (part_type p =? PART_TYPE_FAT32_LBA).

Record MbrHeader : Set := MkMbr { mbr_boot_code : list Z; partitions : list MbrPartition; mbr_signature : Z }.
Definition MbrHeader_of (bs : list Z) : MbrHeader :=
  MkMbr (slice 0 446 bs)
    [MbrPartition_of (slice 446 16 bs); MbrPartition_of (slice 462 16 bs);
     MbrPartition_of (slice 478 16 bs); MbrPartition_of (slice 494 16 bs)] (field 510 2 bs).
Definition mbr_is_valid (m : MbrHeader) : bool := mbr_signature m =? MBR_SIGNATURE.

(** ** GUID partition table *)

Definition GPT_HEADER_SIGNATURE : Z := 0x5452415020494645.
(** A [GptGuid] is its 16 bytes; [ESP_GUID] is C12A7328-F81F-11D2-BA4B-00A0C93EC93B. *)
Definition ESP_GUID : list Z :=
  to_le 4 0xC12A7328 ++ to_le 2 0xF81F ++ to_le 2 0x11D2 ++ [0xBA; 0x4B; 0x00; 0xA0; 0xC9; 0x3E; 0xC9; 0x3B].

Record GptPartitionEntry : Set := MkGptEntry {
  type_guid : list Z; unique_guid : list Z; starting_lba : Z; ending_lba : Z; attributes : Z; gpt_name : list Z }.
Definition GptPartitionEntry_of (bs : list Z) : GptPartitionEntry :=
  MkGptEntry (slice 0 16 bs) (slice 16 16 bs) (field 32 8 bs) (field 40 8 bs) (field 48 8 bs) (slice 56 72 bs).
Definition gpt_is_empty (e : GptPartitionEntry) : bool := bool_decide (type_guid e = replicate 16 0).
Definition is_esp (e : GptPartitionEntry) : bool := bool_decide (type_guid e = ESP_GUID).

Record GptHeader : Set := MkGpt {
  gpt_signature : Z; partition_entry_lba : Z; num_partition_entries : Z; partition_entry_size : Z }.
Definition GptHeader_of (bs : list Z) : GptHeader :=
  MkGpt (field 0 8 bs) (field 72 8 bs) (field 80 4 bs) (field 84 4 bs).
Definition gpt_is_valid (h : GptHeader) : bool := gpt_signature h =? GPT_HEADER_SIGNATURE.

(** [SectorArray<GptPartitionEntry>::COUNT] *)
Definition GPT_COUNT : nat := 4.
Definition gpt_entries (sector_buf : list Z) : list GptPartitionEntry :=
  (λ i, GptPartitionEntry_of (slice (128 * i) 128 sector_buf)) <$> seq 0 GPT_COUNT.

(** The first EFI system partition among the entries of a sector. *)
Definition find_esp (entries : list GptPartitionEntry) : option Z :=
  starting_lba <$> List.find (λ e, negb (gpt_is_empty e) && is_esp e) entries.

(** ** FAT32 boot sector *)

Definition BOOT_SIGNATURE : Z := 0xAA55.
Definition BPB_BOOT_SIGNATURE : Z := 0x29.

Record Fat32BootSector : Set := MkBoot {
  oem : list Z; bytes_per_sector : Z; sectors_per_cluster : Z; reserved_sectors : Z; num_fats : Z;
  root_entries : Z; total_sectors_16 : Z; media_type : Z; fat_size_16 : Z; hidden_sectors : Z;
  total_sectors_32 : Z; fat_size_32 : Z; ext_flags : Z; fs_version : Z; root_cluster : Z; fs_info : Z;
  backup_boot_sector : Z; drive_number : Z; boot_signature : Z; volume_id : Z; volume_label : list Z;
  fs_type : list Z; boot_signature_word : Z }.
Definition Fat32BootSector_of (bs : list Z) : Fat32BootSector :=
  MkBoot (slice 3 8 bs) (field 11 2 bs) (field 13 1 bs) (field 14 2 bs) (field 16 1 bs) (field 17 2 bs)
    (field 19 2 bs) (field 21 1 bs) (field 22 2 bs) (field 28 4 bs) (field 32 4 bs) (field 36 4 bs)
    (field 40 2 bs) (field 42 2 bs) (field 44 4 bs) (field 48 2 bs) (field 50 2 bs) (field 64 1 bs)
    (field 66 1 bs) (field 67 4 bs) (slice 71 11 bs) (slice 82 8 bs) (field 510 2 bs).
Definition boot_is_valid (b : Fat32BootSector) : bool :=
  (boot_signature_word b =? BOOT_SIGNATURE) && (boot_signature b =? BPB_BOOT_SIGNATURE).
Definition is_fat32 (b : Fat32BootSector) : bool := boot_is_valid b && negb (total_sectors_32 b =? 0).

(** ** Directory entries *)

Definition FAT_ATTR_VOLUME_ID : Z := 0x08.
Definition FAT_ATTR_DIRECTORY : Z := 0x10.
Definition FAT_ATTR_ARCHIVE : Z := 0x20.
Definition FAT_ATTR_LFN : Z := 0x0F.

Record FatDirEntry : Set := MkDirEntry {
  name : list Z; ext : list Z; attr : Z; nt_reserved : Z; create_time_tenth : Z; create_time : Z; create_date : Z;
  last_access_date : Z; first_cluster_high : Z; write_time : Z; write_date : Z; first_cluster_low : Z; file_size : Z }.
Definition FatDirEntry_of (bs : list Z) : FatDirEntry :=
  MkDirEntry (slice 0 8 bs) (slice 8 3 bs) (field 11 1 bs) (field 12 1 bs) (field 13 1 bs) (field 14 2 bs)
    (field 16 2 bs) (field 18 2 bs) (field 20 2 bs) (field 22 2 bs) (field 24 2 bs) (field 26 2 bs) (field 28 4 bs).
(** The bytes of an entry, as it is stored. *)
Definition bytes_of_entry (e : FatDirEntry) : list Z :=
  name e ++ ext e ++ to_le 1 (attr e) ++ to_le 1 (nt_reserved e) ++ to_le 1 (create_time_tenth e) ++
  to_le 2 (create_time e) ++ to_le 2 (create_date e) ++ to_le 2 (last_access_date e) ++
  to_le 2 (first_cluster_high e) ++ to_le 2 (write_time e) ++ to_le 2 (write_date e) ++
  to_le 2 (first_cluster_low e) ++ to_le 4 (file_size e).

(** [name[i]] *)
Definition char_at (bs : list Z) (i : nat) : Z := nth i bs 0.

Definition is_end (e : FatDirEntry) : bool := char_at (name e) 0 =? 0x00.
Definition is_deleted (e : FatDirEntry) : bool := char_at (name e) 0 =? 0xE5.
Definition is_directory (e : FatDirEntry) : bool := negb (Z.land (attr e) FAT_ATTR_DIRECTORY =? 0).
Definition is_valid (e : FatDirEntry) : bool :=
  if is_end e || is_deleted e then false
  else (Z.land (attr e) FAT_ATTR_VOLUME_ID =? 0) && negb (Z.land (attr e) FAT_ATTR_LFN =? FAT_ATTR_LFN).
Definition cluster (e : FatDirEntry) : Z := u32 (Z.shiftl (first_cluster_high e) 16 + first_cluster_low e).

(** [name[i]] up to the first space. *)
Definition unpadded (cs : list Z) : list Z :=
  (fix go cs := match cs with [] => [] | c :: cs => if c =? 0x20 then [] else c :: go cs end) cs.
(** The bytes [get_filename] writes before its terminating zero. *)
Definition get_filename (e : FatDirEntry) : list Z :=
  unpadded (name e) ++ if char_at (ext e) 0 =? 0x20 then [] else 0x2E :: unpadded (ext e).

(** The C string in a buffer. *)
Definition c_str (bs : list Z) : list Z :=
  (fix go bs := match bs with [] => [] | b :: bs => if b =? 0 then [] else b :: go bs end) bs.
