(* ===== verification/FatCore.v ===== *)
(** * The FAT32 driver, part 1: [kernel/fs/fat/fat_core.cpp], [kernel/fs/fat.h]

    Mounting, the file allocation table behind its one-sector cache, cluster
    chains with their cycle detection, allocation and release of clusters.
    The operations run over any block device. *)

From S2P Require Import Prelude Pmm BlockDev FatLayout.

(** ** Data *)

Definition TYPE_FAT32 : Z := 32.
Definition FAT32_FREE : Z := 0x00000000.
Definition FAT32_RESERVED_MIN : Z := 0x0FFFFFF0.
Definition FAT32_EOC_MIN : Z := 0x0FFFFFF8.
Definition FAT32_EOC_MAX : Z := 0x0FFFFFFF.
Definition FAT32_CLUSTER_MASK : Z := 0x0FFFFFFF.
Definition FAT_INVALID_SECTOR : Z := u32 (-1).

(** The fields of [FatInfo] that [mount] sets. *)
Record geometry : Set := MkGeo {
  partition_start_lba_ : Z; fat_type_ : Z; bytes_per_sector_ : Z; sectors_per_cluster_ : Z; bytes_per_cluster_ : Z;
  reserved_sector_count_ : Z; fat_count_ : Z; fat_start_sector_ : Z; fat_sector_count_ : Z; root_cluster_ : Z;
  data_start_sector_ : Z; cluster_count_ : Z; total_sector_count_ : Z }.

Record FatInfo : Set := MkFat {
  dev_ : bool;           (** [dev_] is not null *)
  geo : geometry;
  buffer_ : list Z;      (** the sector buffer *)
  buffer_sector_ : Z;
  buffer_dirty_ : bool }.

(** The driver's state, the device and the page allocator it runs over. *)
Record fs (D : Type) : Type := MkFs { fat : FatInfo; disk : D; heap : pmm }.
Arguments MkFs {D} fat disk heap.
Arguments fat {D} f.
Arguments disk {D} f.
Arguments heap {D} f.

Definition set_buffer (buf : list Z) (f : FatInfo) : FatInfo := MkFat (dev_ f) (geo f) buf (buffer_sector_ f) (buffer_dirty_ f).
Definition set_buffer_sector (n : Z) (f : FatInfo) : FatInfo := MkFat (dev_ f) (geo f) (buffer_ f) n (buffer_dirty_ f).
Definition set_buffer_dirty (b : bool) (f : FatInfo) : FatInfo := MkFat (dev_ f) (geo f) (buffer_ f) (buffer_sector_ f) b.

(** [FatInfo{}] *)
Definition fat_init : FatInfo := MkFat false (MkGeo 0 0 0 0 0 0 0 0 0 0 0 0 0) (replicate 512 0) 0 false.

Section driver.
Context {D : Type} `{BD : BlockDevice D}.
Implicit Types s : fs D.

Definition upd_fat (f : FatInfo → FatInfo) : M (fs D) unit := modify (λ s, MkFs (f (fat s)) (disk s) (heap s)).
Definition geom {A} (f : geometry → A) : M (fs D) A := gets (λ s, f (geo (fat s))).

(** [dev->read(lba, buf, n)], with the error and the buffer it leaves. *)
Definition raw_read (lba : Z) (n : nat) (buf : list Z) : M (fs D) (option Error * list Z) := λ s,
  let '(r, d) := dev_read lba n buf (disk s) in Ret r (MkFs (fat s) d (heap s)).
Definition raw_write (lba : Z) (n : nat) (buf : list Z) : M (fs D) (option Error) := λ s,
  let '(r, d) := dev_write lba n buf (disk s) in Ret r (MkFs (fat s) d (heap s)).
(** [TRY] of a transfer. *)
Definition try_err (r : option Error) : M (fs D) unit := match r with None => ret tt | Some e => fail e end.
Definition read (lba : Z) (n : nat) (buf : list Z) : M (fs D) (list Z) :=
  r <- raw_read lba n buf;; try_err r.1;; ret r.2.
Definition write (lba : Z) (n : nat) (buf : list Z) : M (fs D) unit := r <- raw_write lba n buf;; try_err r.
(** A use of [dev_]. *)
Definition use_dev : M (fs D) unit := b <- gets (λ s, dev_ (fat s));; if b : bool then ret tt else halt WildPointer.

(** ** Mounting *)

(** The loop of [find_esp_lba]; [entry_index] advances by a sector of entries. *)
Fixpoint find_esp_loop (fuel : nat) (h : GptHeader) (entry_index : Z) (buf : list Z) : M (fs D) Z :=
  match fuel with
  | O => halt OutOfFuel
  | S fuel =>
      if entry_index <? num_partition_entries h then
        let lba := u32 (u32 (partition_entry_lba h) + entry_index / Z.of_nat GPT_COUNT) in
        r <- raw_read lba 1 buf;;
        match r.1 with
        | Some _ => ret (-1)
        | None =>
            let left := Z.to_nat (num_partition_entries h - entry_index) in
            match find_esp (take left (gpt_entries r.2)) with
            | Some lba => ret (s32 lba)
            | None => find_esp_loop fuel h (entry_index + Z.of_nat GPT_COUNT) r.2
            end
        end
      else ret (-1)
  end.
Definition find_esp_lba (h : GptHeader) : M (fs D) Z :=
  find_esp_loop (S (Z.to_nat (num_partition_entries h))) h 0 (replicate 512 0).

Definition find_partition_start : M (fs D) Z :=
  bs <- read 0 1 (replicate 512 0);;
  let mbr := MbrHeader_of bs in
  ensure (mbr_is_valid mbr) E_BadFs;;
  let p := default (MbrPartition_of []) (partitions mbr !! 0%nat) in
  if is_gpt p then
    bs <- read 1 1 (replicate 512 0);;
    let gpt := GptHeader_of bs in
    ensure (gpt_is_valid gpt) E_BadFs;;
    esp_lba <- find_esp_lba gpt;;
    ensure (0 <=? esp_lba) E_NotFound;;
    ret (u32 esp_lba)
  else if part_is_fat32 p then ret (start_lba p)
  else ret 0.

Definition do_init_state (partition_start : Z) (bs : Fat32BootSector) (f : FatInfo) : FatInfo :=
  let fat_start := reserved_sectors bs in
  let data_start := u32 (fat_start + u32 (num_fats bs * fat_size_32 bs)) in
  let data_sectors := u32 (total_sectors_32 bs - data_start) in
  MkFat true
    (MkGeo partition_start TYPE_FAT32 (bytes_per_sector bs) (sectors_per_cluster bs)
       (u32 (bytes_per_sector bs * sectors_per_cluster bs)) (reserved_sectors bs) (num_fats bs) fat_start
       (fat_size_32 bs) (root_cluster bs) data_start (data_sectors / sectors_per_cluster bs) (total_sectors_32 bs))
    (buffer_ f) FAT_INVALID_SECTOR (buffer_dirty_ f).

Definition mount (dev : bool) : M (fs D) unit :=
  ensure dev E_Invalid;;
  part_start <- find_partition_start;;
  bytes <- read part_start 1 (replicate 512 0);;
  let bs := Fat32BootSector_of bytes in
  ensure (is_fat32 bs) E_BadFs;;
  ensure (negb (bytes_per_sector bs =? 0)) E_BadFs;;
  ensure ((bytes_per_sector bs =? 512) || (bytes_per_sector bs =? 1024) || (bytes_per_sector bs =? 2048) ||
          (bytes_per_sector bs =? 4096)) E_BadFs;;
  ensure (bytes_per_sector bs =? BLOCK_SIZE_BYTES) E_NotSupported;;
  ensure (negb (sectors_per_cluster bs =? 0) && (sectors_per_cluster bs <=? 128) &&
          (Z.land (sectors_per_cluster bs) (sectors_per_cluster bs - 1) =? 0)) E_BadFs;;
  ensure (negb (reserved_sectors bs =? 0) && negb (num_fats bs =? 0) && (num_fats bs <=? 2) &&
          negb (fat_size_32 bs =? 0) && (root_entries bs =? 0) && (fat_size_16 bs =? 0)) E_BadFs;;
  ensure ((fs_version bs =? 0) && (Z.land (ext_flags bs) 0x80 =? 0)) E_NotSupported;;
  let data_start := u64 (reserved_sectors bs + u64 (num_fats bs * fat_size_32 bs)) in
  ensure (data_start <? total_sectors_32 bs) E_BadFs;;
  block_count <- gets (λ s, block_count (disk s));;
  ensure (u64 (part_start + total_sectors_32 bs) <=? block_count) E_BadFs;;
  let clusters := u64 (total_sectors_32 bs - data_start) / sectors_per_cluster bs in
  ensure (negb (clusters =? 0) && (u64 (clusters + 2) <=? FAT32_RESERVED_MIN)) E_BadFs;;
  ensure (u64 (u64 (clusters + 2) * 4) <=? u64 (fat_size_32 bs * bytes_per_sector bs)) E_BadFs;;
  ensure ((2 <=? root_cluster bs) && (root_cluster bs <? u64 (clusters + 2))) E_BadFs;;
  upd_fat (do_init_state part_start bs).

Definition unmount : M (fs D) unit :=
  f <- gets fat;;
  whenM (buffer_dirty_ f && negb (buffer_sector_ f =? FAT_INVALID_SECTOR))
    (use_dev;;
     forM (seqZ 0 (fat_count_ (geo f))) (λ i,
       let g := geo f in
       let fat_sector := u32 (u32 (fat_start_sector_ g + u32 (i * fat_sector_count_ g)) +
                              u32 (buffer_sector_ f - fat_start_sector_ g)) in
       raw_write (u32 (partition_start_lba_ g + fat_sector)) 1 (buffer_ f);; ret tt);;
     upd_fat (set_buffer_dirty false));;
  upd_fat (λ f, MkFat false (geo f) (buffer_ f) FAT_INVALID_SECTOR false).

(** ** The file allocation table *)

Definition valid_cluster (g : geometry) (cluster : Z) : bool := (2 <=? cluster) && (cluster <? u32 (cluster_count_ g + 2)).
Definition cluster_to_sector (g : geometry) (cluster : Z) : Z :=
  if cluster <? 2 then 0 else u32 (data_start_sector_ g + u32 ((cluster - 2) * sectors_per_cluster_ g)).

(** [fat_offset / bytes_per_sector_] and [fat_offset % bytes_per_sector_]. *)
Definition fat_sector_of (g : geometry) (cluster : Z) : Z :=
  u32 (fat_start_sector_ g + u32 (Z.shiftl cluster 2) / bytes_per_sector_ g).
Definition ent_offset (g : geometry) (cluster : Z) : nat := Z.to_nat (u32 (Z.shiftl cluster 2) mod bytes_per_sector_ g).

(** [TRY(dev_->read(partition_start_lba_ + fat_sector, buffer_, 1)); buffer_sector_ = fat_sector]:
    the device writes into [buffer_] whether it fails or not. *)
Definition load_fat_sector (fat_sector : Z) : M (fs D) unit :=
  f <- gets fat;;
  use_dev;;
  r <- raw_read (u32 (partition_start_lba_ (geo f) + fat_sector)) 1 (buffer_ f);;
  upd_fat (set_buffer r.2);;
  try_err r.1;;
  upd_fat (set_buffer_sector fat_sector).

Definition read_entry (cluster : Z) : M (fs D) Z :=
  f <- gets fat;;
  ensure (dev_ f && valid_cluster (geo f) cluster) E_BadFs;;
  let fat_sector := fat_sector_of (geo f) cluster in
  whenM (negb (fat_sector =? buffer_sector_ f)) (load_fat_sector fat_sector);;
  buf <- gets (λ s, buffer_ (fat s));;
  ret (Z.land (field (ent_offset (geo f) cluster) 4 buf) FAT32_CLUSTER_MASK).

(** Write the buffer to sector [fat_sector] of every copy of the table. *)
Definition write_copies (fat_sector : Z) : M (fs D) unit :=
  f <- gets fat;;
  let g := geo f in
  use_dev;;
  forM (seqZ 0 (fat_count_ g)) (λ i,
    write (u32 (u32 (partition_start_lba_ g + fat_sector) + u32 (i * fat_sector_count_ g))) 1 (buffer_ f)).

Definition write_entry (cluster value : Z) : M (fs D) unit :=
  f <- gets fat;;
  ensure ((2 <=? cluster) && (cluster <? u32 (cluster_count_ (geo f) + 2))) E_Invalid;;
  let fat_sector := fat_sector_of (geo f) cluster in
  let off := ent_offset (geo f) cluster in
  whenM (negb (fat_sector =? buffer_sector_ f))
    (whenM (buffer_dirty_ f && negb (buffer_sector_ f =? FAT_INVALID_SECTOR))
       (write_copies (buffer_sector_ f);; upd_fat (set_buffer_dirty false));;
     load_fat_sector fat_sector);;
  upd_fat (λ f,
    let old := field off 4 (buffer_ f) in
    set_buffer_dirty true
      (set_buffer (splice off (to_le 4 (Z.lor (Z.land old 0xF0000000) (Z.land value FAT32_CLUSTER_MASK))) (buffer_ f)) f));;
  write_copies fat_sector;;
  upd_fat (set_buffer_dirty false).

(** ** Cluster chains *)

Record ClusterChain : Set := MkChain {
  current_ : Z; checkpoint_ : Z; power_ : Z; distance_ : Z; visited_ : Z; started_ : bool; finished_ : bool }.
Definition chain_start (start : Z) : ClusterChain := MkChain start start 1 0 0 false false.

(** The tail of [next]: accept [current_] as the next cluster. *)
Definition chain_accept (c : ClusterChain) : M (fs D) (Z * ClusterChain) :=
  g <- geom id;;
  ensure (valid_cluster g (current_ c) && (visited_ c <? cluster_count_ g)) E_BadFs;;
  ret (current_ c, MkChain (current_ c) (checkpoint_ c) (power_ c) (distance_ c) (u32 (visited_ c + 1)) true (finished_ c)).

Definition next (c : ClusterChain) : M (fs D) (Z * ClusterChain) :=
  if finished_ c then ret (0, c)
  else if started_ c then
    nxt <- read_entry (current_ c);;
    if FAT32_EOC_MIN <=? nxt then
      ret (0, MkChain (current_ c) (checkpoint_ c) (power_ c) (distance_ c) (visited_ c) (started_ c) true)
    else
      g <- geom id;;
      ensure (valid_cluster g nxt) E_BadFs;;
      let distance := u32 (distance_ c + 1) in
      ensure (negb (nxt =? checkpoint_ c)) E_BadFs;;
      if distance =? power_ c
      then chain_accept (MkChain nxt nxt (u32 (power_ c * 2)) 0 (visited_ c) true false)
      else chain_accept (MkChain nxt (checkpoint_ c) (power_ c) distance (visited_ c) true false)
  else chain_accept c.

(** [while (more && (cluster = TRY(chain.next())) != 0) body]: the body
    continues the loop with [inl] or leaves it with [inr]. *)
Fixpoint chain_loop {A R} (fuel : nat) (c : ClusterChain) (more : A → bool) (a : A) (body : Z → A → M (fs D) (A + R)) :
    M (fs D) (A + R) :=
  match fuel with
  | O => halt OutOfFuel
  | S fuel =>
      if more a then
        r <- next c;;
        if r.1 =? 0 then ret (inl a)
        else
          x <- body r.1 a;;
          match x with
          | inl a => chain_loop fuel r.2 more a body
          | inr b => ret (inr b)
          end
      else ret (inl a)
  end.
(** A chain visits at most [cluster_count_] clusters before it ends or is refused. *)
Definition chain_fuel : M (fs D) nat := geom (λ g, S (S (Z.to_nat (cluster_count_ g)))).
Definition while_chain {A R} (start : Z) (more : A → bool) (a : A) (body : Z → A → M (fs D) (A + R)) : M (fs D) (A + R) :=
  fuel <- chain_fuel;; chain_loop fuel (chain_start start) more a body.
Definition walk_chain {A R} (start : Z) (a : A) (body : Z → A → M (fs D) (A + R)) : M (fs D) (A + R) :=
  while_chain start (λ _, true) a body.

(** ** Allocation *)

Fixpoint free_loop (fuel : nat) (cluster : Z) : M (fs D) unit :=
  match fuel with
  | O => halt OutOfFuel
  | S fuel =>
      if cluster <? FAT32_EOC_MIN then
        next <- read_entry cluster;;
        write_entry cluster FAT32_FREE;;
        free_loop fuel next
      else ret tt
  end.

Definition free_chain (start_cluster : Z) : M (fs D) unit :=
  walk_chain (R := unit) start_cluster tt (λ _ _, ret (inl tt));;
  fuel <- chain_fuel;;
  free_loop fuel start_cluster.

(** Cleanup failure is secondary: it is reported on the console only. *)
Definition rollback_new_chain (start_cluster : Z) : M (fs D) unit := try_ (free_chain start_cluster);; ret tt.

(** [error = op; if (error != Error::None) { rollback_new_chain(c); return error; }] *)
Definition or_rollback (c : Z) (op : M (fs D) unit) : M (fs D) unit :=
  r <- try_ op;;
  match r with inl _ => ret tt | inr e => rollback_new_chain c;; fail e end.

Fixpoint alloc_loop (n : nat) (c : Z) : M (fs D) Z :=
  match n with
  | O => fail E_Full
  | S n =>
      v <- read_entry c;;
      if v =? FAT32_FREE then
        or_rollback c (write_entry c FAT32_EOC_MAX);;
        g <- geom id;;
        use_dev;;
        forM (seqZ 0 (sectors_per_cluster_ g)) (λ i,
          or_rollback c (write (u32 (u32 (partition_start_lba_ g + cluster_to_sector g c) + i)) 1 (replicate 512 0)));;
        ret c
      else alloc_loop n (c + 1)
  end.
Definition alloc_cluster : M (fs D) Z :=
  n <- geom (λ g, Z.to_nat (u32 (cluster_count_ g + 2) - 2));; alloc_loop n 2.

End driver.
