(* ===== verification/FatCoreProofs.v ===== *)
(** * The FAT32 driver, part 1: proofs

    On a device whose transfers succeed: what mounting establishes, the table
    behind its cache, cluster chains, allocation and release. *)

From S2P Require Import Prelude Pmm BlockDev FatLayout FatCore.

#[local] Arguments forM : simpl never.
#[local] Arguments seqZ : simpl never.
#[local] Arguments sectors : simpl never.
#[local] Arguments to_le : simpl never.
#[local] Arguments Z.mul : simpl never.
#[local] Arguments Z.of_nat : simpl never.

(** ** Well-formed states *)

(** What [mount] checks of a volume on a device of [bc] blocks. *)
Record geo_ok (bc : Z) (g : geometry) : Prop := {
  g_bps : bytes_per_sector_ g = 512;
  g_spc : 1 ≤ sectors_per_cluster_ g ≤ 128;
  g_bpc : bytes_per_cluster_ g = 512 * sectors_per_cluster_ g;
  g_fats : 1 ≤ fat_count_ g ≤ 2;
  g_start : 0 < fat_start_sector_ g;
  g_size : 0 < fat_sector_count_ g;
  g_data : data_start_sector_ g = fat_start_sector_ g + fat_count_ g * fat_sector_count_ g;
  g_clusters : 0 < cluster_count_ g;
  g_max : cluster_count_ g + 2 ≤ FAT32_RESERVED_MIN;
  g_fits : (cluster_count_ g + 2) * 4 ≤ fat_sector_count_ g * 512;
  g_total : data_start_sector_ g + cluster_count_ g * sectors_per_cluster_ g ≤ total_sector_count_ g;
  g_part : 0 ≤ partition_start_lba_ g;
  g_dev : partition_start_lba_ g + total_sector_count_ g ≤ bc;
  g_bc : bc < 2 ^ 32;
  g_root : valid_cluster g (root_cluster_ g) = true }.

Section geometry.
Context (bc : Z) (g : geometry) (G : geo_ok bc g).

Lemma valid_cluster_iff c : valid_cluster g c = true ↔ 2 ≤ c < cluster_count_ g + 2.
Proof.
  destruct G. unfold valid_cluster, FAT32_RESERVED_MIN in *. rewrite u32_small by lia. rewrite andb_true_iff. lia.
Qed.

(** The sector of the table that holds the entry of [c], and its place there. *)
Lemma fat_sector_spec c : 2 ≤ c < cluster_count_ g + 2 → fat_sector_of g c = fat_start_sector_ g + c / 128.
Proof.
  intros Hc. destruct G. unfold fat_sector_of, FAT32_RESERVED_MIN in *. rewrite Z.shiftl_mul_pow2 by lia.
  change (2 ^ 2) with 4. rewrite (u32_small (c * 4)) by lia. rewrite g_bps0.
  change 512 with (128 * 4). rewrite Z.div_mul_cancel_r by lia. apply u32_small.
  assert (c / 128 ≤ fat_sector_count_ g) by (apply Z.div_le_upper_bound; lia). assert (0 ≤ c / 128) by (apply Z.div_pos; lia). nia.
Qed.

Lemma ent_offset_spec c : 2 ≤ c < cluster_count_ g + 2 → ent_offset g c = Z.to_nat (4 * (c mod 128)).
Proof.
  intros Hc. destruct G. unfold ent_offset, FAT32_RESERVED_MIN in *. rewrite Z.shiftl_mul_pow2 by lia.
  change (2 ^ 2) with 4. rewrite (u32_small (c * 4)) by lia. rewrite g_bps0.
  change 512 with (128 * 4). rewrite Z.mul_mod_distr_r by lia. f_equal. lia.
Qed.

Lemma ent_offset_fits c : 2 ≤ c < cluster_count_ g + 2 → (ent_offset g c + 4 ≤ 512)%nat.
Proof. intros. rewrite ent_offset_spec by done. pose proof (Z.mod_pos_bound c 128). lia. Qed.

Lemma fat_sector_range c : 2 ≤ c < cluster_count_ g + 2 →
  fat_start_sector_ g ≤ fat_sector_of g c < fat_start_sector_ g + fat_sector_count_ g.
Proof.
  intros Hc. rewrite fat_sector_spec by done. destruct G. pose proof (Z.div_pos c 128).
  assert (c / 128 < fat_sector_count_ g) by (apply Z.div_lt_upper_bound; lia). lia.
Qed.

(** Different clusters have different entries. *)
Lemma entry_distinct c c' : 2 ≤ c < cluster_count_ g + 2 → 2 ≤ c' < cluster_count_ g + 2 → c ≠ c' →
  fat_sector_of g c ≠ fat_sector_of g c' ∨ (ent_offset g c + 4 ≤ ent_offset g c' ∨ ent_offset g c' + 4 ≤ ent_offset g c)%nat.
Proof.
  intros Hc Hc' Hne. rewrite !fat_sector_spec, !ent_offset_spec by done.
  destruct (decide (c / 128 = c' / 128)) as [Heq|]; [right|left; lia].
  pose proof (Z.div_mod c 128). pose proof (Z.div_mod c' 128). pose proof (Z.mod_pos_bound c 128). pose proof (Z.mod_pos_bound c' 128). lia.
Qed.

(** The table and the data lie on the device. *)
Lemma areas : 0 ≤ cluster_count_ g * sectors_per_cluster_ g ∧ 0 < data_start_sector_ g ∧
  partition_start_lba_ g + data_start_sector_ g + cluster_count_ g * sectors_per_cluster_ g ≤ bc.
Proof. destruct G. split_and!; nia. Qed.

Lemma copy_range n k : fat_start_sector_ g ≤ n < fat_start_sector_ g + fat_sector_count_ g → 0 ≤ k < fat_count_ g →
  0 ≤ k * fat_sector_count_ g ∧ n ≤ n + k * fat_sector_count_ g < data_start_sector_ g.
Proof.
  intros Hn Hk. destruct G. assert (0 ≤ k * fat_sector_count_ g ≤ (fat_count_ g - 1) * fat_sector_count_ g) by nia. lia.
Qed.

(** Where the data of a cluster is. *)
Lemma cluster_to_sector_spec c : 2 ≤ c < cluster_count_ g + 2 →
  cluster_to_sector g c = data_start_sector_ g + (c - 2) * sectors_per_cluster_ g ∧
  data_start_sector_ g ≤ cluster_to_sector g c ∧
  cluster_to_sector g c + sectors_per_cluster_ g ≤ total_sector_count_ g.
Proof.
  intros Hc. destruct G. unfold cluster_to_sector. rewrite (proj2 (Z.ltb_ge c 2)) by lia.
  assert ((c - 2) * sectors_per_cluster_ g + sectors_per_cluster_ g ≤ cluster_count_ g * sectors_per_cluster_ g) by nia.
  rewrite (u32_small ((c - 2) * _)) by nia. rewrite u32_small by nia. nia.
Qed.
End geometry.

Section proofs.
Context {D : Type} `{BD : BlockDevice D} `{BL : !BlockDeviceLaws D} `{RD : !ReliableDevice D}.
Implicit Types s : fs D.

(** The entry of [c] in the first copy of the table on disk. *)
Definition fat_raw (g : geometry) (d : D) (c : Z) : Z :=
  field (ent_offset g c) 4 (sector d (partition_start_lba_ g + fat_sector_of g c)).
Definition fat_val (g : geometry) (d : D) (c : Z) : Z := Z.land (fat_raw g d c) FAT32_CLUSTER_MASK.

(** A mounted volume whose sector cache agrees with the disk. *)
Record fs_ok (s : fs D) : Prop := {
  ok_dev : dev_ (fat s) = true;
  ok_geo : geo_ok (block_count (disk s)) (geo (fat s));
  ok_len : length (buffer_ (fat s)) = 512%nat;
  ok_clean : buffer_dirty_ (fat s) = false;
  ok_cache : buffer_sector_ (fat s) = FAT_INVALID_SECTOR ∨
    (fat_start_sector_ (geo (fat s)) ≤ buffer_sector_ (fat s) < data_start_sector_ (geo (fat s)) ∧
     buffer_ (fat s) = sector (disk s) (partition_start_lba_ (geo (fat s)) + buffer_sector_ (fat s))) }.

(** The parts of the state that operations on a mounted volume never change. *)
Definition frame (s s' : fs D) : Prop :=
  geo (fat s') = geo (fat s) ∧ heap s' = heap s ∧ block_count (disk s') = block_count (disk s).
(** Only the cache changed. *)
Definition same (s s' : fs D) : Prop := frame s s' ∧ ∀ i, sector (disk s') i = sector (disk s) i.

Lemma frame_trans s1 s2 s3 : frame s1 s2 → frame s2 s3 → frame s1 s3.
Proof. unfold frame. intuition congruence. Qed.
Lemma same_refl s : same s s.
Proof. done. Qed.
Lemma same_trans s1 s2 s3 : same s1 s2 → same s2 s3 → same s1 s3.
Proof. intros [F1 H1] [F2 H2]. split; [by eapply frame_trans|]. intros i. by rewrite H2. Qed.

Lemma same_fat s s' c : same s s' → fat_val (geo (fat s')) (disk s') c = fat_val (geo (fat s)) (disk s) c.
Proof. intros [(Hg & _) Hs]. unfold fat_val, fat_raw. by rewrite Hg, Hs. Qed.

(** ** Transfers *)

Lemma raw_read_ok s lba n buf : 0 ≤ lba → lba + Z.of_nat n ≤ block_count (disk s) → length buf = (512 * n)%nat →
  ∃ d, raw_read lba n buf s = Ret (None, sectors (disk s) lba n) (MkFs (fat s) d (heap s)) ∧
    block_count d = block_count (disk s) ∧ ∀ i, sector d i = sector (disk s) i.
Proof.
  intros Hl Hb Hlen. unfold raw_read. pose proof (read_ok (disk s) lba n buf Hl Hb) as Hr.
  destruct (dev_read lba n buf (disk s)) as [[r b] d] eqn:E. simpl in Hr. subst r.
  destruct (read_law _ _ _ _ _ _ _ E Hlen) as (_ & Hc & Hs & Hb'). rewrite (Hb' eq_refl). by exists d.
Qed.

Lemma raw_write_ok s lba n buf : 0 ≤ lba → lba + Z.of_nat n ≤ block_count (disk s) → length buf = (512 * n)%nat →
  Forall is_byte buf →
  ∃ d, raw_write lba n buf s = Ret None (MkFs (fat s) d (heap s)) ∧
    block_count d = block_count (disk s) ∧ (∀ i, ¬ lba ≤ i < lba + Z.of_nat n → sector d i = sector (disk s) i) ∧
    sectors d lba n = buf.
Proof.
  intros Hl Hb Hlen Hby. unfold raw_write. pose proof (write_ok (disk s) lba n buf Hl Hb) as Hr.
  destruct (dev_write lba n buf (disk s)) as [r d] eqn:E. simpl in Hr. subst r.
  destruct (write_law _ _ _ _ _ _ E Hlen Hby) as (Hc & Hs & Hb'). exists d. auto.
Qed.

Lemma read_ok' s lba n buf : 0 ≤ lba → lba + Z.of_nat n ≤ block_count (disk s) → length buf = (512 * n)%nat →
  ∃ d, read lba n buf s = Ret (sectors (disk s) lba n) (MkFs (fat s) d (heap s)) ∧
    block_count d = block_count (disk s) ∧ ∀ i, sector d i = sector (disk s) i.
Proof.
  intros Hl Hb Hlen. destruct (raw_read_ok s lba n buf Hl Hb Hlen) as (d & Hr & H). exists d. split; [|done].
  unfold read. by rewrite (bind_Ret _ _ _ _ _ Hr).
Qed.

Lemma write_ok' s lba n buf : 0 ≤ lba → lba + Z.of_nat n ≤ block_count (disk s) → length buf = (512 * n)%nat →
  Forall is_byte buf →
  ∃ d, write lba n buf s = Ret tt (MkFs (fat s) d (heap s)) ∧
    block_count d = block_count (disk s) ∧ (∀ i, ¬ lba ≤ i < lba + Z.of_nat n → sector d i = sector (disk s) i) ∧
    sectors d lba n = buf.
Proof.
  intros Hl Hb Hlen Hby. destruct (raw_write_ok s lba n buf Hl Hb Hlen Hby) as (d & Hr & H). exists d. split; [|done].
  unfold write. by rewrite (bind_Ret _ _ _ _ _ Hr).
Qed.

Lemma sectors_1 (d : D) lba : sectors d lba 1 = sector d lba.
Proof. unfold sectors. apply app_nil_r. Qed.

Lemma use_dev_ok s : fs_ok s → use_dev s = Ret tt s.
Proof. intros H. unfold use_dev, gets, bind. by rewrite (ok_dev _ H). Qed.

(** ** The table behind its cache *)

Lemma load_fat_sector_ok s n : fs_ok s → fat_start_sector_ (geo (fat s)) ≤ n < data_start_sector_ (geo (fat s)) →
  ∃ s', load_fat_sector n s = Ret tt s' ∧ fs_ok s' ∧ same s s' ∧ buffer_sector_ (fat s') = n.
Proof.
  intros Hok Hn. destruct (Hok) as [Hdev G Hlen Hcl _]. unfold load_fat_sector.
  rewrite (bind_Ret (gets fat) _ s (fat s) s) by done. rewrite (bind_Ret _ _ _ _ _ (use_dev_ok s Hok)).
  destruct G. rewrite u32_small by nia.
  destruct (raw_read_ok s (partition_start_lba_ (geo (fat s)) + n) 1 (buffer_ (fat s))) as (d & Hr & Hbc & Hd); [lia|nia|done|].
  rewrite (bind_Ret _ _ _ _ _ Hr). cbn [fst snd]. rewrite sectors_1.
  eexists. split; [reflexivity|]. split; [|done]. constructor; simpl.
  - done.
  - rewrite Hbc. by constructor.
  - apply sector_length.
  - done.
  - right. split; [lia|]. by rewrite Hd.
Qed.

(** The sector of the table an entry is in, as the cache holds it. *)
Lemma cached_entry s c : fs_ok s → 2 ≤ c < cluster_count_ (geo (fat s)) + 2 →
  buffer_sector_ (fat s) = fat_sector_of (geo (fat s)) c →
  buffer_ (fat s) = sector (disk s) (partition_start_lba_ (geo (fat s)) + fat_sector_of (geo (fat s)) c).
Proof.
  intros [_ G _ _ Hc] Hv Hb. pose proof (fat_sector_range _ _ G _ Hv). destruct G.
  destruct Hc as [Hc|[_ Hc]]; [|by rewrite Hc, Hb]. exfalso. rewrite Hc in Hb.
  change FAT_INVALID_SECTOR with (2 ^ 32 - 1) in Hb. nia.
Qed.

(** [if (fat_sector != buffer_sector_) load it] *)
Lemma ensure_cached s c : fs_ok s → 2 ≤ c < cluster_count_ (geo (fat s)) + 2 →
  ∃ s', whenM (negb (fat_sector_of (geo (fat s)) c =? buffer_sector_ (fat s)))
      (load_fat_sector (fat_sector_of (geo (fat s)) c)) s = Ret tt s' ∧ fs_ok s' ∧ same s s' ∧
    buffer_sector_ (fat s') = fat_sector_of (geo (fat s)) c ∧
    buffer_ (fat s') = sector (disk s) (partition_start_lba_ (geo (fat s)) + fat_sector_of (geo (fat s)) c).
Proof.
  intros Hok Hv. assert (∃ s', whenM (negb (fat_sector_of (geo (fat s)) c =? buffer_sector_ (fat s)))
      (load_fat_sector (fat_sector_of (geo (fat s)) c)) s = Ret tt s' ∧ fs_ok s' ∧ same s s' ∧
    buffer_sector_ (fat s') = fat_sector_of (geo (fat s)) c) as (s' & Hr & Hok' & Hs & Hb).
  { destruct (Z.eqb_spec (fat_sector_of (geo (fat s)) c) (buffer_sector_ (fat s))); simpl; [by exists s|].
    apply load_fat_sector_ok; [done|]. pose proof (fat_sector_range _ _ (ok_geo _ Hok) _ Hv). destruct (ok_geo _ Hok). nia. }
  exists s'. split_and!; [done..|]. destruct Hs as [(Hg & _) Hd].
  rewrite <- Hd, <- Hg. apply cached_entry; [done|by rewrite Hg|by rewrite Hg].
Qed.

Lemma read_entry_spec s c : fs_ok s → valid_cluster (geo (fat s)) c = true →
  ∃ s', read_entry c s = Ret (fat_val (geo (fat s)) (disk s) c) s' ∧ fs_ok s' ∧ same s s'.
Proof.
  intros Hok Hv. destruct (ensure_cached s c) as (s' & Hr & Hok' & Hs & _ & Hb);
    [done|by eapply valid_cluster_iff; [apply Hok|]|].
  exists s'. split; [|done]. unfold read_entry. rewrite (bind_Ret (gets fat) _ s (fat s) s) by done.
  rewrite (ok_dev _ Hok), Hv. cbn [andb ensure]. rewrite bind_ret.
  rewrite (bind_Ret _ _ _ _ _ Hr). unfold gets. rewrite (bind_Ret _ _ s' (buffer_ (fat s')) s') by done.
  unfold fat_val, fat_raw. by rewrite Hb.
Qed.

Lemma read_entry_invalid s c : valid_cluster (geo (fat s)) c = false → read_entry c s = Fail E_BadFs s.
Proof.
  intros Hv. unfold read_entry, bind at 1, gets at 1. by rewrite Hv, andb_false_r.
Qed.

(** Sectors of the table, all copies. *)
Definition fat_area (g : geometry) (i : Z) : Prop :=
  partition_start_lba_ g + fat_start_sector_ g ≤ i < partition_start_lba_ g + data_start_sector_ g.

Lemma write_copies_ok s n : dev_ (fat s) = true → geo_ok (block_count (disk s)) (geo (fat s)) →
  length (buffer_ (fat s)) = 512%nat → Forall is_byte (buffer_ (fat s)) →
  fat_start_sector_ (geo (fat s)) ≤ n < fat_start_sector_ (geo (fat s)) + fat_sector_count_ (geo (fat s)) →
  ∃ d, write_copies n s = Ret tt (MkFs (fat s) d (heap s)) ∧ block_count d = block_count (disk s) ∧
    (∀ i, (∀ k, 0 ≤ k < fat_count_ (geo (fat s)) →
       i ≠ partition_start_lba_ (geo (fat s)) + n + k * fat_sector_count_ (geo (fat s))) → sector d i = sector (disk s) i) ∧
    ∀ k, 0 ≤ k < fat_count_ (geo (fat s)) →
      sector d (partition_start_lba_ (geo (fat s)) + n + k * fat_sector_count_ (geo (fat s))) = buffer_ (fat s).
Proof.
  intros Hdev G Hlen Hby Hn. destruct s as [f d0 h]; simpl in *. set (g := geo f) in *.
  set (at_ k := partition_start_lba_ g + n + k * fat_sector_count_ g).
  unfold write_copies. rewrite (bind_Ret (gets fat) _ _ f (MkFs f d0 h)) by done.
  unfold use_dev. rewrite bind_assoc. rewrite (bind_Ret (gets _) _ _ true (MkFs f d0 h)) by (by unfold gets; simpl; rewrite Hdev).
  rewrite bind_ret. fold g.
  destruct (forM_inv (λ done s', ∃ d, s' = MkFs f d h ∧ block_count d = block_count d0 ∧
      (∀ i, (∀ k, k ∈ done → i ≠ at_ k) → sector d i = sector d0 i) ∧ (∀ k, k ∈ done → sector d (at_ k) = buffer_ f))
    (seqZ 0 (fat_count_ g)) (λ i, write (u32 (u32 (partition_start_lba_ g + n) + u32 (i * fat_sector_count_ g))) 1 (buffer_ f))
    (MkFs f d0 h)) as (s' & Hr & d & -> & Hbc & Hout & Hin).
  - exists d0. split_and!; [done|done|done|set_solver].
  - intros pre k post s1 Hsplit (d & -> & Hbc & Hout & Hin).
    assert (0 ≤ k < fat_count_ g) as Hk by (apply (elem_of_seqZ 0 (fat_count_ g)); rewrite Hsplit; set_solver).
    pose proof (copy_range _ _ G n k Hn Hk). pose proof (areas _ _ G). pose proof (g_bc _ _ G). pose proof (g_part _ _ G).
    pose proof (g_start _ _ G). rewrite !u32_small by (rewrite ?u32_small; lia). fold (at_ k).
    destruct (write_ok' (MkFs f d h) (at_ k) 1 (buffer_ f)) as (d' & Hw & Hbc' & Hout' & Hin');
      [unfold at_; lia|simpl; unfold at_; lia|done|done|]. simpl in *.
    exists (MkFs f d' h). split; [done|]. exists d'. rewrite sectors_1 in Hin'. split_and!; [done|congruence| |].
    + intros i Hi. rewrite Hout' by (intros ?; apply (Hi k); [set_solver|lia]). apply Hout. set_solver.
    + intros k' [Hk'|Hk']%elem_of_app; [|set_solver].
      destruct (decide (at_ k' = at_ k)) as [->|]; [done|]. rewrite Hout' by lia. auto.
  - exists d. split_and!; [done|done| |].
    + intros i Hi. apply Hout. intros k Hk%elem_of_seqZ. apply Hi. lia.
    + intros k Hk. apply Hin, elem_of_seqZ. lia.
Qed.

(** The entry [write_entry] stores: the reserved top bits are kept. *)
Definition merged (old v : Z) : Z := Z.lor (Z.land old 0xF0000000) (Z.land v FAT32_CLUSTER_MASK).

Lemma land_ones_small x n : 0 ≤ n → Z.land x (Z.ones n) = x → 0 ≤ x < 2 ^ n.
Proof. intros Hn Hx. rewrite <- Hx, Z.land_ones by done. apply Z.mod_pos_bound. lia. Qed.

Lemma land_range x m n : 0 ≤ n → 0 ≤ m < 2 ^ n → 0 ≤ Z.land x m < 2 ^ n.
Proof.
  intros Hn Hm. apply land_ones_small; [done|]. rewrite <- Z.land_assoc, Z.land_ones by done. by rewrite Z.mod_small.
Qed.

Lemma merged_range old v : 0 ≤ merged old v < 2 ^ 32.
Proof. unfold merged. apply land_ones_small; [done|]. by rewrite Z.land_lor_distr_l, <- !Z.land_assoc. Qed.

(** What reads back is the value stored, and the reserved bits are the old ones. *)
Lemma merged_val old v : Z.land (merged old v) FAT32_CLUSTER_MASK = Z.land v FAT32_CLUSTER_MASK.
Proof.
  unfold merged, FAT32_CLUSTER_MASK. rewrite Z.land_lor_distr_l, <- !Z.land_assoc.
  change (Z.land 0xF0000000 0x0FFFFFFF) with 0. by rewrite Z.land_0_r, Z.land_diag.
Qed.

(** The entries after the sector of [c] has been replaced. *)
Lemma fat_after_splice g (d d' : D) bc c v c' : geo_ok bc g →
  2 ≤ c < cluster_count_ g + 2 → 2 ≤ c' < cluster_count_ g + 2 → 0 ≤ v < 2 ^ 32 →
  sector d' (partition_start_lba_ g + fat_sector_of g c) =
    splice (ent_offset g c) (to_le 4 v) (sector d (partition_start_lba_ g + fat_sector_of g c)) →
  (fat_sector_of g c' ≠ fat_sector_of g c →
   sector d' (partition_start_lba_ g + fat_sector_of g c') = sector d (partition_start_lba_ g + fat_sector_of g c')) →
  fat_raw g d' c' = if decide (c' = c) then v else fat_raw g d c'.
Proof.
  intros G Hc Hc' Hv Hin Hout. unfold fat_raw. pose proof (ent_offset_fits _ _ G c Hc).
  pose proof (sector_length d (partition_start_lba_ g + fat_sector_of g c)) as Hlen.
  destruct (decide (c' = c)) as [->|Hne].
  - rewrite Hin. unfold field. rewrite <- (length_to_le 4 v) at 1. rewrite slice_splice_same by lia. by apply le_to_le.
  - destruct (decide (fat_sector_of g c' = fat_sector_of g c)) as [Heq|]; [|by rewrite Hout].
    destruct (entry_distinct _ _ G c' c Hc' Hc Hne) as [?|Ho]; [done|]. rewrite Heq, Hin. unfold field.
    rewrite slice_splice_other; [done|rewrite length_to_le; lia|rewrite length_to_le; lia].
Qed.

Lemma write_entry_spec s c v : fs_ok s → valid_cluster (geo (fat s)) c = true →
  let g := geo (fat s) in
  ∃ s', write_entry c v s = Ret tt s' ∧ fs_ok s' ∧ frame s s' ∧
    (∀ c', valid_cluster g c' = true →
       fat_raw g (disk s') c' = if decide (c' = c) then merged (fat_raw g (disk s) c) v else fat_raw g (disk s) c') ∧
    (∀ i, ¬ fat_area g i → sector (disk s') i = sector (disk s) i) ∧
    (∀ k, 0 ≤ k < fat_count_ g →
       sector (disk s') (partition_start_lba_ g + fat_sector_of g c + k * fat_sector_count_ g) =
       sector (disk s') (partition_start_lba_ g + fat_sector_of g c)).
Proof.
  intros Hok Hv g. pose proof (ok_geo _ Hok) as G. pose proof (proj1 (valid_cluster_iff _ _ G c) Hv) as Hc.
  destruct (ensure_cached s c Hok Hc) as (s1 & Hr & Hok1 & Hs1 & Hbs & Hb).
  pose proof Hs1 as [(Hg1 & Hh1 & Hbc1) Hd1]. fold g in Hr, Hb, Hbs, G, Hc, Hg1.
  set (val := merged (fat_raw g (disk s) c) v).
  set (f2 := set_buffer_dirty true (set_buffer (splice (ent_offset g c) (to_le 4 val) (buffer_ (fat s1))) (fat s1))).
  pose proof (ent_offset_fits _ _ G c Hc) as Hfit. pose proof (fat_sector_range _ _ G c Hc) as Hfs.
  pose proof (sector_length (disk s) (partition_start_lba_ g + fat_sector_of g c)) as Hlen.
  destruct (write_copies_ok (MkFs f2 (disk s1) (heap s1)) (fat_sector_of g c)) as (d & Hw & Hbc & Hout & Hin); simpl.
  { by apply Hok1. } { by rewrite Hbc1, Hg1. }
  { rewrite length_splice; rewrite Hb; [done|]. rewrite Hlen, length_to_le. lia. }
  { apply splice_bytes; [apply to_le_bytes|]. rewrite Hb. apply sector_bytes. } { by rewrite Hg1. }
  simpl in Hbc, Hout, Hin. rewrite Hg1 in Hout, Hin.
  assert (sector d (partition_start_lba_ g + fat_sector_of g c) =
    splice (ent_offset g c) (to_le 4 val) (sector (disk s) (partition_start_lba_ g + fat_sector_of g c))) as Hnew.
  { rewrite <- Hb. specialize (Hin 0). rewrite Z.add_0_r in Hin. apply Hin. destruct G; lia. }
  assert (∀ c', valid_cluster g c' = true → fat_raw g d c' = if decide (c' = c) then val else fat_raw g (disk s) c') as Hent.
  { intros c' Hv'. pose proof (proj1 (valid_cluster_iff _ _ G c') Hv') as Hc'.
    apply (fat_after_splice g (disk s) d _ c val c' G Hc Hc' (merged_range _ _) Hnew).
    intros Hne. rewrite Hout; [apply Hd1|]. intros k Hk. pose proof (fat_sector_range _ _ G c' Hc').
    destruct (decide (k = 0)) as [->|]; [lia|]. assert (fat_sector_count_ g ≤ k * fat_sector_count_ g) by (destruct G; nia). lia. }
  exists (MkFs (set_buffer_dirty false f2) d (heap s1)). split; [|split; [|split; [|split; [|split]]]].
  - unfold write_entry. rewrite (bind_Ret (gets fat) _ s (fat s) s) by done. fold g.
    fold g in Hv. unfold valid_cluster in Hv. rewrite Hv. cbn [ensure]. rewrite bind_ret, (ok_clean _ Hok). cbn [andb whenM]. 
    erewrite bind_Ret; [|rewrite <- Hr; destruct (negb _); reflexivity].
    rewrite (bind_Ret (upd_fat _) _ s1 tt (MkFs f2 (disk s1) (heap s1))).
    + by rewrite (bind_Ret _ _ _ _ _ Hw).
    + unfold upd_fat, modify, f2, val, fat_raw, merged. by rewrite Hb.
  - constructor; simpl.
    + apply Hok1.
    + rewrite Hg1. fold g. by rewrite Hbc, Hbc1.
    + rewrite length_splice; rewrite Hb; [done|]. rewrite Hlen, length_to_le. lia.
    + done.
    + right. rewrite Hg1, Hbs, Hnew, Hb. split; [|done]. pose proof (copy_range _ _ G (fat_sector_of g c) 0 Hfs). destruct G. lia.
  - unfold frame. simpl. rewrite Hg1, Hbc, Hbc1. done.
  - exact Hent.
  - intros i Hi. simpl. rewrite Hout; [apply Hd1|]. intros k Hk ->. apply Hi. unfold fat_area.
    pose proof (copy_range _ _ G (fat_sector_of g c) k Hfs Hk). lia.
  - intros k Hk. simpl. rewrite (Hin k Hk). rewrite Hb. symmetry. exact Hnew.
Qed.
End proofs.
