(* ===== verification/FatChain.v ===== *)
(** * The FAT32 driver: cluster chains and their allocation, proofs

    The walk of a chain with Brent's cycle detection visits exactly the chain,
    or refuses it; allocation takes the first free cluster; release frees
    exactly one chain. *)

From S2P Require Import Prelude Pmm BlockDev FatLayout FatCore FatCoreProofs.

#[local] Arguments forM : simpl never.
#[local] Arguments seqZ : simpl never.
#[local] Arguments Z.mul : simpl never.
#[local] Arguments Z.of_nat : simpl never.

(** ** Chains of a table *)

(** The chain from [c] in a table [val], if it ends within [n] clusters. *)
Fixpoint follow (g : geometry) (val : Z → Z) (n : nat) (c : Z) : option (list Z) :=
  match n with
  | O => None
  | S n =>
      if valid_cluster g c then
        if FAT32_EOC_MIN <=? val c then Some [c] else cons c <$> follow g val n (val c)
      else None
  end.
(** The chain a volume holds from [start]. *)
Definition chain (g : geometry) (val : Z → Z) (start : Z) : option (list Z) :=
  follow g val (Z.to_nat (cluster_count_ g)) start.

Section chains.
Context (g : geometry) (val : Z → Z).

Lemma follow_mono n m c l : follow g val n c = Some l → (n ≤ m)%nat → follow g val m c = Some l.
Proof.
  revert m c l. induction n as [|n IH]; intros m c l Hf Hm; [done|]. destruct m as [|m]; [lia|]. cbn in *.
  destruct (valid_cluster g c); [|done]. destruct (_ <=? _); [done|].
  destruct (follow g val n (val c)) as [l'|] eqn:E; [|done]. rewrite (IH m _ _ E) by lia. done.
Qed.

Lemma follow_det n m c l l' : follow g val n c = Some l → follow g val m c = Some l' → l = l'.
Proof.
  intros H1 H2. pose proof (follow_mono _ (n + m) _ _ H1 ltac:(lia)). pose proof (follow_mono _ (n + m) _ _ H2 ltac:(lia)). congruence.
Qed.

(** Every suffix of a chain is the chain of its first cluster. *)
Lemma follow_suffix n c l l1 x l2 : follow g val n c = Some l → l = l1 ++ x :: l2 →
  ∃ m, (m ≤ n)%nat ∧ follow g val m x = Some (x :: l2).
Proof.
  revert c l l1. induction n as [|n IH]; intros c l l1 Hf ->; [done|].
  pose proof Hf as Hf0. cbn in Hf. destruct (valid_cluster g c) eqn:Hv; [|done].
  destruct (_ <=? _) eqn:He.
  - destruct l1 as [|y [|]]; [|done..]. injection Hf as <- <-. exists (S n). split; [lia|]. cbn. by rewrite Hv, He.
  - destruct (follow g val n (val c)) as [l'|] eqn:E; [|done]. destruct l1 as [|y l1]; injection Hf as <- Hl.
    + subst l'. exists (S n). split; [lia|]. exact Hf0.
    + subst l'. destruct (IH _ _ _ E eq_refl) as (m & ? & ?). exists m. split; [lia|done].
Qed.

Lemma follow_NoDup n c l : follow g val n c = Some l → NoDup l.
Proof.
  intros Hf. assert (∀ l1 l2 x, l = l1 ++ x :: l2 → x ∉ l2) as Hn.
  { intros l1 l2 x -> Hx. destruct (follow_suffix _ _ _ _ _ _ Hf eq_refl) as (m & _ & Hm).
    apply list_elem_of_split in Hx as (k1 & k2 & ->).
    destruct (follow_suffix _ _ _ (x :: k1) x k2 Hm eq_refl) as (m' & _ & Hm').
    pose proof (follow_det _ _ _ _ _ Hm Hm') as Heq. apply (f_equal length) in Heq. simpl in Heq. rewrite length_app in Heq. simpl in Heq. lia. }
  clear Hf. induction l as [|x l IH]; constructor; [by apply (Hn [] l)|]. apply IH. intros l1 l2 y ->. by apply (Hn (x :: l1) l2).
Qed.

Lemma follow_valid n c l : follow g val n c = Some l → ∀ x, x ∈ l → valid_cluster g x = true.
Proof.
  intros Hf x Hx. apply list_elem_of_split in Hx as (l1 & l2 & ->).
  destruct (follow_suffix _ _ _ _ _ _ Hf eq_refl) as ([|m] & _ & Hm); [done|]. cbn in Hm. by destruct (valid_cluster g x).
Qed.

(** The links inside a chain, and its end. *)
Lemma follow_link n c l l1 x y l2 : follow g val n c = Some l → l = l1 ++ x :: y :: l2 → val x = y ∧ val x < FAT32_EOC_MIN.
Proof.
  intros Hf ->. destruct (follow_suffix _ _ _ l1 x (y :: l2) Hf eq_refl) as ([|m] & _ & Hm); [done|]. cbn in Hm.
  destruct (valid_cluster g x); [|done]. destruct (Z.leb_spec FAT32_EOC_MIN (val x)); [done|].
  destruct (follow g val m (val x)) as [l'|] eqn:E; [|done]. injection Hm as ->.
  split; [|done]. destruct m as [|m]; [done|]. cbn in E. destruct (valid_cluster g (val x)); [|done].
  destruct (_ <=? _); [by simplify_eq|]. destruct (follow g val m (val (val x))); by simplify_eq/=.
Qed.
Lemma follow_last n c l l1 x : follow g val n c = Some l → l = l1 ++ [x] → FAT32_EOC_MIN ≤ val x.
Proof.
  intros Hf ->. destruct (follow_suffix _ _ _ l1 x [] Hf eq_refl) as ([|m] & _ & Hm); [done|]. cbn in Hm.
  destruct (valid_cluster g x); [|done]. destruct (Z.leb_spec FAT32_EOC_MIN (val x)); [done|].
  destruct m as [|m]; [done|]. cbn in Hm. destruct (valid_cluster g (val x)); [|done].
  destruct (_ <=? _); [done|]. by destruct (follow g val m (val (val x))).
Qed.
Lemma follow_head n c l : follow g val n c = Some l → ∃ l', l = c :: l'.
Proof.
  destruct n; [done|]. cbn. destruct (valid_cluster g c); [|done]. destruct (_ <=? _); [intros [= <-]; by exists []|].
  destruct (follow g val n (val c)); [|done]. intros [= <-]. by eexists.
Qed.

(** As many steps as the chain is long are enough. *)
Lemma follow_len n c l : follow g val n c = Some l → follow g val (length l) c = Some l.
Proof.
  revert c l. induction n as [|n IH]; intros c l; [done|]. cbn. destruct (valid_cluster g c) eqn:Hv; [|done].
  destruct (FAT32_EOC_MIN <=? val c) eqn:He; [intros [= <-]; cbn; by rewrite Hv, He|].
  destruct (follow g val n (val c)) as [l'|] eqn:E; [|done]. intros [= <-]. cbn. by rewrite Hv, He, (IH _ _ E).
Qed.

(** A chain is no longer than the volume. *)
Lemma follow_length bc n c l : geo_ok bc g → follow g val n c = Some l → Z.of_nat (length l) ≤ cluster_count_ g.
Proof.
  intros G Hf. assert (l ⊆ seqZ 2 (cluster_count_ g)) as Hsub.
  { intros x Hx. apply elem_of_seqZ. pose proof (proj1 (valid_cluster_iff _ _ G x) (follow_valid _ _ _ Hf x Hx)). lia. }
  pose proof (submseteq_length _ _ (NoDup_submseteq _ _ (follow_NoDup _ _ _ Hf) Hsub)) as Hl.
  rewrite length_seqZ in Hl. destruct G. lia.
Qed.
End chains.

Lemma follow_ext g val val' n c : (∀ c, valid_cluster g c = true → val' c = val c) → follow g val' n c = follow g val n c.
Proof.
  intros He. revert c. induction n as [|n IH]; intros c; cbn; [done|]. destruct (valid_cluster g c) eqn:Hv; [|done].
  rewrite (He c Hv). destruct (_ <=? _); [done|]. by rewrite IH.
Qed.

(** A chain whose last cluster was linked to a new end. *)
Lemma follow_append g val val' x y : valid_cluster g x = true → valid_cluster g y = true → val' x = y → y < FAT32_EOC_MIN →
  FAT32_EOC_MIN ≤ val' y → ∀ n c l, follow g val n c = Some (l ++ [x]) → (∀ z, z ∈ l → val' z = val z) →
  follow g val' (S (S (length l))) c = Some (l ++ [x; y]).
Proof.
  intros Hvx Hvy Hx Hy He n. induction n as [|n IH]; intros c l Hf Hsame; [done|].
  pose proof (follow_head _ _ _ _ _ Hf) as [l' El]. destruct l as [|z l]; injection El as -> <-.
  - cbn. rewrite Hvx, Hx, (proj2 (Z.leb_gt _ _) Hy). cbn. by rewrite Hvy, (proj2 (Z.leb_le _ _) He).
  - assert (∃ w r, l ++ [x] = w :: r) as (w & r & Ew) by (destruct l; by eexists _, _).
    destruct (follow_link _ _ _ _ _ [] c w r Hf) as [Hl Hlt]; [cbn; by rewrite <- Ew|].
    cbn in Hf. destruct (valid_cluster g c) eqn:Hv; [|done]. rewrite (proj2 (Z.leb_gt _ _) Hlt) in Hf.
    destruct (follow g val n (val c)) as [l'|] eqn:E; [|done]. injection Hf as ->.
    specialize (IH (val c) l E).
    change (follow g val' (S (S (length (c :: l)))) c) with
      (if valid_cluster g c then if FAT32_EOC_MIN <=? val' c then Some [c] else cons c <$> follow g val' (S (S (length l))) (val' c) else None).
    rewrite Hv, (Hsame c) by set_solver.
    rewrite (proj2 (Z.leb_gt _ _) Hlt). rewrite IH by set_solver. done.
Qed.

(** ** Walking a chain *)
Section walk.
Context {D : Type} `{BD : BlockDevice D} `{BL : !BlockDeviceLaws D} `{RD : !ReliableDevice D}.
Implicit Types s : fs D.

Definition val_of (s : fs D) : Z → Z := fat_val (geo (fat s)) (disk s).

Lemma same_val s s' c : same s s' → val_of s' c = val_of s c.
Proof. apply same_fat. Qed.
Lemma same_chain s s' n c : same s s' → follow (geo (fat s')) (val_of s') n c = follow (geo (fat s)) (val_of s) n c.
Proof.
  intros Hs. pose proof Hs as [(Hg & _) _]. rewrite Hg. apply follow_ext. intros c' _. by apply same_fat.
Qed.

(** The walker after it has returned the clusters [l1], a prefix of a chain. *)
Record walked (l1 : list Z) (c : ClusterChain) : Prop := {
  w_finished : finished_ c = false;
  w_started : started_ c = negb (bool_decide (l1 = []));
  w_visited : visited_ c = Z.of_nat (length l1);
  w_current : match last l1 with Some x => current_ c = x | None => True end;
  w_checkpoint : l1 ≠ [] → checkpoint_ c ∈ l1 }.

Lemma chain_accept_spec s c : fs_ok s → 0 ≤ visited_ c →
  chain_accept c s =
  if valid_cluster (geo (fat s)) (current_ c) && (visited_ c <? cluster_count_ (geo (fat s))) then
    Ret (current_ c, MkChain (current_ c) (checkpoint_ c) (power_ c) (distance_ c) (visited_ c + 1) true (finished_ c)) s
  else Fail E_BadFs s.
Proof.
  intros Hok Hv. unfold chain_accept. rewrite (bind_Ret (geom id) _ s (geo (fat s)) s) by done. unfold ensure.
  destruct (valid_cluster _ _ && _) eqn:E; [|done]. rewrite bind_ret. rewrite u32_small; [done|].
  apply andb_true_iff in E as [_ ?]. destruct (ok_geo _ Hok). unfold FAT32_RESERVED_MIN in *. lia.
Qed.

Lemma next_first s start : fs_ok s →
  next (chain_start start) s =
  if valid_cluster (geo (fat s)) start then Ret (start, MkChain start start 1 0 1 true false) s else Fail E_BadFs s.
Proof.
  intros Hok. unfold next. cbn [finished_ started_ chain_start]. rewrite chain_accept_spec by done. simpl. rewrite (proj2 (Z.ltb_lt _ _)) by (apply (ok_geo _ Hok)).
  by rewrite andb_true_r.
Qed.

(** A step past an accepted cluster, on any table. *)
Lemma next_step s c l1 x : fs_ok s → walked (l1 ++ [x]) c → valid_cluster (geo (fat s)) x = true →
  ∃ s' (p : bool) (q : Z), fs_ok s' ∧ same s s' ∧ next c s =
    let nxt := val_of s x in
    if FAT32_EOC_MIN <=? nxt then Ret (0, MkChain x (checkpoint_ c) (power_ c) (distance_ c) (visited_ c) true true) s'
    else if valid_cluster (geo (fat s)) nxt && negb (nxt =? checkpoint_ c) && (visited_ c <? cluster_count_ (geo (fat s)))
    then Ret (nxt, MkChain nxt (if p then nxt else checkpoint_ c) (if p then u32 (power_ c * 2) else power_ c) q (visited_ c + 1) true false) s'
    else Fail E_BadFs s'.
Proof.
  intros Hok [Hf Hst Hvis Hcur Hcp] Hv. rewrite last_snoc in Hcur.
  rewrite bool_decide_eq_false_2 in Hst by (by destruct l1). simpl in Hst.
  destruct (read_entry_spec s x Hok Hv) as (s' & Hr & Hok' & Hs). exists s'. unfold next. rewrite Hf, Hst, Hcur.
  exists (u32 (distance_ c + 1) =? power_ c), (if u32 (distance_ c + 1) =? power_ c then 0 else u32 (distance_ c + 1)).
  split_and!; [done..|]. rewrite (bind_Ret _ _ _ _ _ Hr). fold (val_of s x). cbn zeta.
  destruct (_ <=? _); [done|]. rewrite (bind_Ret (geom id) _ s' (geo (fat s')) s') by done.
  destruct Hs as [(Hg & _) _]. rewrite Hg. unfold ensure. destruct (valid_cluster _ (val_of s x)) eqn:Hvn; [|done].
  rewrite bind_ret. destruct (val_of s x =? checkpoint_ c); [done|]. cbn [negb andb]. rewrite bind_ret.
  destruct (_ =? power_ c); rewrite chain_accept_spec by (simpl; lia || done); simpl; rewrite Hg, Hvn; done.
Qed.

(** *** A chain that ends *)

(** The rule for a loop over the chain [l]: [I] holds between the bodies and
    survives changes of the cache; a body continues or leaves with [Q]. *)
Section rule.
Context {A R : Type} (g : geometry) (val : Z → Z) (start : Z) (l : list Z) (more : A → bool) (body : Z → A → M (fs D) (A + R)).
Context (I : list Z → A → fs D → Prop) (Q : Out (fs D) (A + R) → Prop).
Context (Hl : chain g val start = Some l).
Context (HI : ∀ l1 a s, I l1 a s → fs_ok s ∧ geo (fat s) = g ∧ ∀ c, valid_cluster g c = true → val_of s c = val c).
Context (Hsame : ∀ l1 a s s', I l1 a s → fs_ok s' → same s s' → I l1 a s').
Context (Hbody : ∀ l1 x l2 a s, l = l1 ++ x :: l2 → more a = true → I l1 a s →
  match body x a s with Ret (inl a') s' => I (l1 ++ [x]) a' s' | o => Q o end).
Context (Hstop : ∀ l1 l2 a s, l = l1 ++ l2 → more a = false → I l1 a s → Q (Ret (inl a) s)).
Context (Hend : ∀ a s, more a = true → I l a s → Q (Ret (inl a) s)).

(** One round of the loop at the cluster the walker returned. *)
Lemma walk_body fuel x l1 l2 a c s : l = l1 ++ x :: l2 → more a = true → I l1 a s →
  (∀ a s, I (l1 ++ [x]) a s → Q (chain_loop fuel c more a body s)) →
  Q ((y <- body x a;; match y with inl a => chain_loop fuel c more a body | inr b => ret (inr b) end) s).
Proof.
  intros El Hm Ha Hk. pose proof (Hbody l1 x l2 a s El Hm Ha) as Hb. unfold bind.
  destruct (body x a s) as [[a'|b] s'|e s'|r]; auto.
Qed.

Lemma walk_from fuel : ∀ l1 x l2 c a s, l = l1 ++ x :: l2 → walked (l1 ++ [x]) c → (length l2 < fuel)%nat →
  I (l1 ++ [x]) a s → Q (chain_loop fuel c more a body s).
Proof.
  induction fuel as [|fuel IH]; intros l1 x l2 c a s El Hw Hf Ha; [lia|].
  destruct (HI _ _ _ Ha) as (Hok & Hg & Hval). pose proof (follow_valid _ _ _ _ _ Hl x ltac:(set_solver)) as Hv.
  destruct (next_step s c l1 x Hok Hw) as (s' & p & q & Hok' & Hs & Hn); [by rewrite Hg|].
  pose proof (Hsame _ _ _ _ Ha Hok' Hs) as Ha'. rewrite Hval in Hn by done. cbn zeta in Hn.
  cbn [chain_loop]. destruct (more a) eqn:Hm; [|apply (Hstop (l1 ++ [x]) l2); [by rewrite El, <- app_assoc|done..]].
  destruct l2 as [|y l2].
  - pose proof (follow_last _ _ _ _ _ l1 x Hl El) as He. rewrite (proj2 (Z.leb_le _ _)) in Hn by done.
    rewrite (bind_Ret _ _ _ _ _ Hn). cbn. apply Hend; [done|]. by rewrite El.
  - destruct (follow_link _ _ _ _ _ l1 x y l2 Hl El) as [Hy He]. rewrite Hy in *.
    rewrite (proj2 (Z.leb_gt _ _)) in Hn by lia.
    pose proof (follow_valid _ _ _ _ _ Hl y ltac:(set_solver)) as Hvy. rewrite Hg, Hvy in Hn.
    pose proof (follow_NoDup _ _ _ _ _ Hl) as Hnd. rewrite El in Hnd.
    assert (y ∉ l1 ++ [x]) as Hny.
    { change (x :: y :: l2) with ([x] ++ y :: l2) in Hnd. rewrite app_assoc in Hnd. apply NoDup_app in Hnd as (_ & Hd & _).
      intros Hin. apply (Hd y Hin). set_solver. }
    assert (y ≠ checkpoint_ c) as Hcp by (intros ->; apply Hny, (w_checkpoint _ _ Hw); by destruct l1).
    assert (visited_ c < cluster_count_ g) as Hvis.
    { rewrite (w_visited _ _ Hw). rewrite <- Hg in Hl |- *. pose proof (follow_length _ _ _ _ _ _ (ok_geo _ Hok) Hl) as Hle.
      rewrite El, length_app in Hle. rewrite length_app. simpl in *. lia. }
    rewrite (proj2 (Z.eqb_neq _ _) Hcp), (proj2 (Z.ltb_lt _ _) Hvis) in Hn. simpl in Hn.
    rewrite (bind_Ret _ _ _ _ _ Hn). cbn [fst snd].
    assert (y ≠ 0) as Hy0 by (rewrite <- Hg in Hvy; apply (valid_cluster_iff _ _ (ok_geo _ Hok)) in Hvy; lia).
    rewrite (proj2 (Z.eqb_neq _ _) Hy0).
    apply (walk_body fuel y (l1 ++ [x]) l2); [by rewrite El, <- app_assoc|done|done|].
    intros a' s'' Ha''. apply (IH (l1 ++ [x]) y l2); [by rewrite El, <- app_assoc| |simpl in Hf; lia|done].
    constructor; simpl.
    + done.
    + by rewrite bool_decide_eq_false_2 by (by destruct l1).
    + rewrite (w_visited _ _ Hw), !length_app. simpl. lia.
    + by rewrite last_snoc.
    + intros _. destruct p; [set_solver|]. apply elem_of_app. left. apply (w_checkpoint _ _ Hw). by destruct l1.
Qed.

Lemma while_rule a s : I [] a s → Q (while_chain start more a body s).
Proof.
  intros Ha. destruct (HI _ _ _ Ha) as (Hok & Hg & _).
  unfold while_chain, chain_fuel. rewrite (bind_Ret (geom _) _ s (S (S (Z.to_nat (cluster_count_ (geo (fat s)))))) s) by done.
  remember (S (Z.to_nat (cluster_count_ (geo (fat s))))) as fuel eqn:Hfuel. cbn [chain_loop].
  destruct (more a) eqn:Hm; [|by apply (Hstop [] l)].
  destruct (follow_head _ _ _ _ _ Hl) as [l2 El]. pose proof (follow_valid _ _ _ _ _ Hl start ltac:(set_solver)) as Hv.
  rewrite (bind_Ret _ _ s (start, MkChain start start 1 0 1 true false) s) by (by rewrite next_first, Hg, Hv).
  cbn [fst snd]. assert (start ≠ 0) as Hs0 by (rewrite <- Hg in Hv; apply (valid_cluster_iff _ _ (ok_geo _ Hok)) in Hv; lia).
  rewrite (proj2 (Z.eqb_neq _ _) Hs0). apply (walk_body fuel start [] l2); [done|done|done|].
  intros a' s' Ha'. apply (walk_from _ [] start l2); [done| | |done].
  - constructor; simpl; [done..|set_solver].
  - rewrite <- Hg in Hl. pose proof (follow_length _ _ _ _ _ _ (ok_geo _ Hok) Hl) as Hle. rewrite El in Hle. simpl in Hle. lia.
Qed.
End rule.

(** The same for a loop without a condition of its own. *)
Lemma walk_rule {A R} (g : geometry) (val : Z → Z) start l (body : Z → A → M (fs D) (A + R))
    (I : list Z → A → fs D → Prop) (Q : Out (fs D) (A + R) → Prop) :
  chain g val start = Some l →
  (∀ l1 a s, I l1 a s → fs_ok s ∧ geo (fat s) = g ∧ ∀ c, valid_cluster g c = true → val_of s c = val c) →
  (∀ l1 a s s', I l1 a s → fs_ok s' → same s s' → I l1 a s') →
  (∀ l1 x l2 a s, l = l1 ++ x :: l2 → I l1 a s →
     match body x a s with Ret (inl a') s' => I (l1 ++ [x]) a' s' | o => Q o end) →
  (∀ a s, I l a s → Q (Ret (inl a) s)) →
  ∀ a s, I [] a s → Q (walk_chain start a body s).
Proof.
  intros Hl HI Hsame Hbody Hend a s Ha. unfold walk_chain. eapply while_rule; [exact Hl|exact HI|exact Hsame| | | |exact Ha].
  - intros l1 x l2 a' s' El _. by apply (Hbody l1 x l2).
  - by intros.
  - intros a' s' _. apply Hend.
Qed.

(** *** A chain that does not end, or leaves the volume *)

Lemma walk_refused_from {A R} (f : Z → A → A) n : ∀ fuel l1 x c a s,
  fs_ok s → walked (l1 ++ [x]) c → valid_cluster (geo (fat s)) x = true → (n < fuel)%nat →
  val_of s x < FAT32_EOC_MIN → follow (geo (fat s)) (val_of s) n (val_of s x) = None →
  Z.of_nat n = cluster_count_ (geo (fat s)) - visited_ c →
  ∃ s', chain_loop (R := R) fuel c (λ _, true) a (λ y a, ret (inl (f y a))) s = Fail E_BadFs s' ∧ fs_ok s' ∧ same s s'.
Proof.
  induction n as [|n IH]; intros fuel l1 x c a s Hok Hw Hv Hf He Hn Hc; (destruct fuel as [|fuel]; [lia|]);
    destruct (next_step s c l1 x Hok Hw Hv) as (s' & p & q & Hok' & Hs & Hnx); cbn zeta in Hnx;
    rewrite (proj2 (Z.leb_gt _ _)) in Hnx by lia; cbn [chain_loop].
  - rewrite (proj2 (Z.ltb_ge (visited_ c) _)), andb_false_r in Hnx by lia.
    rewrite (bind_Fail _ _ _ _ _ Hnx). by exists s'.
  - destruct (valid_cluster _ (val_of s x) && _ && _) eqn:E; [|rewrite (bind_Fail _ _ _ _ _ Hnx); by exists s'].
    apply andb_true_iff in E as [E Hvis]. apply andb_true_iff in E as [Hvn Hcp].
    rewrite (bind_Ret _ _ _ _ _ Hnx). cbn [fst snd].
    assert (val_of s x ≠ 0) as Hx0 by (apply (valid_cluster_iff _ _ (ok_geo _ Hok)) in Hvn; lia).
    rewrite (proj2 (Z.eqb_neq _ _) Hx0), bind_ret. cbn in Hn. rewrite Hvn in Hn.
    destruct (Z.leb_spec FAT32_EOC_MIN (val_of s (val_of s x))); [done|].
    destruct (follow _ _ n _) eqn:E; [done|]. pose proof Hs as [(Hg & _) _].
    destruct (IH fuel (l1 ++ [x]) (val_of s x) (MkChain (val_of s x) (if p then val_of s x else checkpoint_ c)
        (if p then u32 (power_ c * 2) else power_ c) q (visited_ c + 1) true false) (f (val_of s x) a) s')
      as (s'' & Hr & Hok'' & Hs''); [done| |by rewrite Hg|lia|by rewrite (same_val _ _ _ Hs)| | |].
    + constructor; simpl.
      * done.
      * by rewrite bool_decide_eq_false_2 by (by destruct l1).
      * rewrite (w_visited _ _ Hw), !length_app. simpl. lia.
      * by rewrite last_snoc.
      * intros _. destruct p; [set_solver|]. apply elem_of_app. left. apply (w_checkpoint _ _ Hw). by destruct l1.
    + by rewrite (same_chain s s' _ _ Hs), (same_val _ _ _ Hs).
    + rewrite Hg. simpl. lia.
    + exists s''. split_and!; [done|done|by eapply same_trans].
Qed.

Lemma walk_refused {A R} (f : Z → A → A) start a s : fs_ok s → chain (geo (fat s)) (val_of s) start = None →
  ∃ s', walk_chain (R := R) start a (λ y a, ret (inl (f y a))) s = Fail E_BadFs s' ∧ fs_ok s' ∧ same s s'.
Proof.
  intros Hok Hc. unfold walk_chain, while_chain, chain_fuel.
  rewrite (bind_Ret (geom _) _ s (S (S (Z.to_nat (cluster_count_ (geo (fat s)))))) s) by done.
  remember (S (Z.to_nat (cluster_count_ (geo (fat s))))) as fuel eqn:Hfuel. cbn [chain_loop].
  pose proof (next_first s start Hok) as Hn. destruct (valid_cluster (geo (fat s)) start) eqn:Hv.
  2:{ rewrite (bind_Fail _ _ _ _ _ Hn). by exists s. }
  rewrite (bind_Ret _ _ _ _ _ Hn). cbn [fst snd].
  assert (start ≠ 0) as Hs0 by (apply (valid_cluster_iff _ _ (ok_geo _ Hok)) in Hv; lia).
  rewrite (proj2 (Z.eqb_neq _ _) Hs0), bind_ret. unfold chain in Hc. pose proof (g_clusters _ _ (ok_geo _ Hok)).
  destruct (Z.to_nat (cluster_count_ (geo (fat s)))) as [|n] eqn:En; [lia|]. cbn in Hc. rewrite Hv in Hc.
  destruct (Z.leb_spec FAT32_EOC_MIN (val_of s start)); [done|]. destruct (follow _ _ n _) eqn:E; [done|].
  apply (walk_refused_from f n _ [] start); [done| |done|lia|done|done|simpl; lia].
  constructor; simpl; [done..|set_solver].
Qed.

(** C30: walking a cluster chain always terminates, within the fuel
    [cluster_count_ + 2].  It visits exactly the clusters of the chain, in
    order, when the chain ends inside the volume; it fails with [BadFs] when
    the chain is cyclic or has an invalid link.  Brent's checkpoint never
    refuses a chain that ends. *)
Theorem chain_walk_correct s start : fs_ok s →
  ∃ s', fs_ok s' ∧ same s s' ∧
    walk_chain (R := Empty_set) start [] (λ c l, ret (inl (l ++ [c]))) s =
    match chain (geo (fat s)) (val_of s) start with
    | Some l => Ret (inl l) s'
    | None => Fail E_BadFs s'
    end.
Proof.
  intros Hok. destruct (chain _ _ _) as [l|] eqn:Hl.
  - apply (walk_rule (geo (fat s)) (val_of s) start l _ (λ l1 a s', a = l1 ∧ fs_ok s' ∧ same s s')
      (λ o, ∃ s', fs_ok s' ∧ same s s' ∧ o = Ret (inl l) s') Hl).
    + intros l1 a s' (-> & Hok' & Hs). pose proof Hs as [(Hg & _) _]. split_and!; [done..|]. intros c _. by apply same_fat.
    + intros l1 a s1 s2 (-> & _ & Hs) Hok2 Hs2. split_and!; [done..|by eapply same_trans].
    + intros l1 x l2 a s' _ (-> & Hok' & Hs). done.
    + intros a s' (-> & Hok' & Hs). by exists s'.
    + done.
  - destruct (walk_refused (R := Empty_set) (λ c l, l ++ [c]) start [] s Hok Hl) as (s' & Hr & Hok' & Hs). by exists s'.
Qed.
End walk.

(** ** Release and allocation *)
Section alloc.
Context {D : Type} `{BD : BlockDevice D} `{BL : !BlockDeviceLaws D} `{RD : !ReliableDevice D}.
Implicit Types s : fs D.

(** The table now holds [val], and nothing outside it changed. *)
Record table_step (s s' : fs D) (val : Z → Z) : Prop := {
  t_ok : fs_ok s';
  t_frame : frame s s';
  t_val c : valid_cluster (geo (fat s)) c = true → val_of s' c = val c;
  t_data i : ¬ fat_area (geo (fat s)) i → sector (disk s') i = sector (disk s) i }.

Lemma table_step_same s s1 s2 val : fs_ok s1 → same s s1 → table_step s1 s2 val → table_step s s2 val.
Proof.
  intros Hok [Hf Hs] [H1 H2 H3 H4]. pose proof Hf as (Hg & _). rewrite Hg in *. constructor; [done|by eapply frame_trans|done|].
  intros i Hi. rewrite H4 by done. apply Hs.
Qed.

Lemma table_step_trans s s1 s2 val val' : table_step s s1 val → table_step s1 s2 val' → table_step s s2 val'.
Proof.
  intros [H1 H2 H3 H4] [K1 K2 K3 K4]. pose proof H2 as (Hg & _). rewrite Hg in *.
  constructor; [done|by eapply frame_trans|done|]. intros i Hi. by rewrite K4, H4.
Qed.

Lemma write_entry_val s c v : fs_ok s → valid_cluster (geo (fat s)) c = true →
  ∃ s', write_entry c v s = Ret tt s' ∧
    table_step s s' (λ c', if decide (c' = c) then Z.land v FAT32_CLUSTER_MASK else val_of s c').
Proof.
  intros Hok Hv. destruct (write_entry_spec s c v Hok Hv) as (s' & Hr & Hok' & Hf & He & Hd & _).
  exists s'. split; [done|]. constructor; [done|done| |done]. intros c' Hv'. pose proof Hf as (Hg & _).
  unfold val_of, fat_val. rewrite Hg, He by done. destruct (decide (c' = c)); [apply merged_val|done].
Qed.

(** A valid cluster number is not an end-of-chain mark. *)
Lemma valid_not_eoc s c : fs_ok s → valid_cluster (geo (fat s)) c = true → 2 ≤ c < FAT32_EOC_MIN.
Proof.
  intros Hok Hv. apply (valid_cluster_iff _ _ (ok_geo _ Hok)) in Hv. pose proof (g_max _ _ (ok_geo _ Hok)).
  unfold FAT32_RESERVED_MIN, FAT32_EOC_MIN in *. lia.
Qed.

Lemma free_loop_spec val l fuel : ∀ x l2 l1 s,
  l = l1 ++ x :: l2 → (length l2 + 1 < fuel)%nat → NoDup l →
  (∀ c, c ∈ l → valid_cluster (geo (fat s)) c = true) →
  (∀ k1 y z k2, l = k1 ++ y :: z :: k2 → val y = z) → (∀ k1 y, l = k1 ++ [y] → FAT32_EOC_MIN ≤ val y) →
  table_step s s (λ c, if decide (c ∈ l1) then 0 else val c) →
  ∃ s', free_loop fuel x s = Ret tt s' ∧ table_step s s' (λ c, if decide (c ∈ l) then 0 else val c).
Proof.
  induction fuel as [|fuel IH]; intros x l2 l1 s El Hf Hnd Hv Hlink Hlast Hs; [lia|].
  pose proof (t_ok _ _ _ Hs) as Hok. assert (valid_cluster (geo (fat s)) x = true) as Hvx by (apply Hv; set_solver).
  assert (x ∉ l1) as Hx1 by (rewrite El in Hnd; apply NoDup_app in Hnd as (_ & Hd & _); intros ?; apply (Hd x); set_solver).
  cbn [free_loop]. rewrite (proj2 (Z.ltb_lt _ _)) by (by apply (valid_not_eoc s)).
  destruct (read_entry_spec s x Hok Hvx) as (s1 & Hr & Hok1 & Hs1). rewrite (bind_Ret _ _ _ _ _ Hr). fold (val_of s x).
  rewrite (t_val _ _ _ Hs x Hvx), decide_False by done. pose proof Hs1 as [(Hg1 & _) _].
  destruct (write_entry_val s1 x FAT32_FREE Hok1) as (s2 & Hw & Ht2); [by rewrite Hg1|].
  rewrite (bind_Ret _ _ _ _ _ Hw).
  assert (table_step s s2 (λ c, if decide (c ∈ l1 ++ [x]) then 0 else val c)) as Ht.
  { apply (table_step_same s s1 s2) in Ht2; [|done|done]. destruct Ht2 as [? ? Hv2 ?]. constructor; [done..| |done].
    intros c Hc. rewrite Hv2 by done. destruct (decide (c = x)) as [->|Hne].
    - by rewrite decide_True by set_solver.
    - rewrite (same_val _ _ _ Hs1), (t_val _ _ _ Hs c Hc). destruct (decide (c ∈ l1)); [by rewrite decide_True by set_solver|].
      by rewrite decide_False by set_solver. }
  pose proof (t_frame _ _ _ Ht) as (Hg2 & _).
  destruct l2 as [|y l2].
  - destruct fuel as [|fuel]; [lia|]. cbn [free_loop]. rewrite (proj2 (Z.ltb_ge _ _)) by (by apply (Hlast l1)).
    exists s2. split; [done|]. by rewrite El.
  - rewrite (Hlink l1 x y l2 El).
    destruct (IH y l2 (l1 ++ [x]) s2) as (s' & Hr' & Ht'); [by rewrite El, <- app_assoc|simpl in Hf; lia|done| |done|done| |].
    + by rewrite Hg2.
    + constructor; [apply Ht|done|rewrite Hg2; apply Ht|done].
    + exists s'. split; [done|]. by apply (table_step_trans s s2 s' _ _ Ht).
Qed.

Lemma free_chain_spec s start l : fs_ok s → chain (geo (fat s)) (val_of s) start = Some l →
  ∃ s', free_chain start s = Ret tt s' ∧ table_step s s' (λ c, if decide (c ∈ l) then 0 else val_of s c).
Proof.
  intros Hok Hl. unfold free_chain.
  assert (∃ s1, walk_chain (R := unit) start tt (λ _ _, ret (inl tt)) s = Ret (inl tt) s1 ∧ fs_ok s1 ∧ same s s1)
    as (s1 & Hr & Hok1 & Hs1).
  { apply (walk_rule (geo (fat s)) (val_of s) start l _ (λ _ _ s', fs_ok s' ∧ same s s')
      (λ o, ∃ s1, o = Ret (inl tt) s1 ∧ fs_ok s1 ∧ same s s1) Hl).
    - intros _ _ s' (Hok' & Hs). pose proof Hs as [(Hg & _) _]. split_and!; [done..|]. intros c _. by apply same_val.
    - intros _ _ s1 s2 (_ & Hs) ? Hs2. split; [done|by eapply same_trans].
    - done.
    - intros [] s'. eauto.
    - done. }
  rewrite (bind_Ret _ _ _ _ _ Hr). pose proof Hs1 as [(Hg1 & _) _].
  rewrite (bind_Ret chain_fuel _ s1 (S (S (Z.to_nat (cluster_count_ (geo (fat s)))))) s1) by (unfold chain_fuel, geom, gets; by rewrite Hg1).
  destruct (follow_head _ _ _ _ _ Hl) as [l2 El]. pose proof (follow_length _ _ _ _ _ _ (ok_geo _ Hok) Hl) as Hlen.
  destruct (free_loop_spec (val_of s) l (S (S (Z.to_nat (cluster_count_ (geo (fat s)))))) start l2 [] s1) as (s' & Hf & Ht).
  - done.
  - rewrite El in Hlen. simpl in Hlen. lia.
  - by eapply follow_NoDup.
  - rewrite Hg1. by eapply follow_valid.
  - intros k1 y z k2 E. by eapply follow_link.
  - intros k1 y E. by eapply follow_last.
  - constructor; [done|done| |done]. intros c _. rewrite decide_False by set_solver. by apply same_val.
  - exists s'. split; [done|]. by apply (table_step_same s s1 s').
Qed.


(** *** Writes to the data area *)

(** Cluster [c]'s sectors. *)
Definition cluster_lba (g : geometry) (c : Z) : Z := partition_start_lba_ g + cluster_to_sector g c.
Definition data_lba (g : geometry) (c i : Z) : Prop := cluster_lba g c ≤ i < cluster_lba g c + sectors_per_cluster_ g.

Lemma cluster_lba_spec bc g c : geo_ok bc g → valid_cluster g c = true →
  0 ≤ cluster_lba g c ∧ cluster_lba g c + sectors_per_cluster_ g ≤ bc ∧
  (∀ i, data_lba g c i → ¬ fat_area g i) ∧ u32 (partition_start_lba_ g + cluster_to_sector g c) = cluster_lba g c.
Proof.
  intros G Hv. apply (valid_cluster_iff _ _ G) in Hv. pose proof (cluster_to_sector_spec _ _ G c Hv) as (_ & H1 & H2).
  pose proof (areas _ _ G). destruct G. unfold cluster_lba, data_lba, fat_area, cluster_lba in *.
  split_and!; [lia|lia| |rewrite u32_small; lia]. lia.
Qed.

Lemma data_lba_disjoint bc g c c' i : geo_ok bc g → valid_cluster g c = true → valid_cluster g c' = true →
  data_lba g c i → data_lba g c' i → c = c'.
Proof.
  intros G Hv Hv'. apply (valid_cluster_iff _ _ G) in Hv. apply (valid_cluster_iff _ _ G) in Hv'.
  unfold data_lba, cluster_lba. pose proof (cluster_to_sector_spec _ _ G c Hv) as (-> & _ & _).
  pose proof (cluster_to_sector_spec _ _ G c' Hv') as (-> & _ & _). intros H1 H2. destruct (g_spc _ _ G).
  destruct (Z.lt_trichotomy c c') as [?|[?|?]]; [|done|]; nia.
Qed.

(** A write outside the table keeps the volume well formed. *)
Lemma data_write_ok s lba n buf : fs_ok s → 0 ≤ lba → lba + Z.of_nat n ≤ block_count (disk s) →
  (∀ i, lba ≤ i < lba + Z.of_nat n → ¬ fat_area (geo (fat s)) i) → length buf = (512 * n)%nat → Forall is_byte buf →
  ∃ s', write lba n buf s = Ret tt s' ∧ fs_ok s' ∧ frame s s' ∧ fat s' = fat s ∧ (∀ c, valid_cluster (geo (fat s)) c = true → val_of s' c = val_of s c) ∧
    (∀ i, ¬ lba ≤ i < lba + Z.of_nat n → sector (disk s') i = sector (disk s) i) ∧ sectors (disk s') lba n = buf.
Proof.
  intros Hok Hl Hb Ha Hlen Hby. destruct (write_ok' s lba n buf Hl Hb Hlen Hby) as (d & Hr & Hbc & Ho & Hi).
  exists (MkFs (fat s) d (heap s)). pose proof (ok_geo _ Hok) as G. destruct (Hok) as [Hd _ Hln Hcl Hca].
  assert (∀ i, fat_area (geo (fat s)) i → sector d i = sector (disk s) i) as Hfa.
  { intros i Hf. apply Ho. intros Hin. by apply (Ha i). }
  split_and!; [done| |done|done| |done|done].
  - constructor; simpl; [done|by rewrite Hbc|done|done|]. destruct Hca as [?|[Hr' Hbuf]]; [by left|right].
    split; [done|]. rewrite Hfa; [done|]. unfold fat_area. lia.
  - intros c Hv. unfold val_of, fat_val, fat_raw. simpl. apply (valid_cluster_iff _ _ G) in Hv.
    rewrite Hfa; [done|]. pose proof (fat_sector_range _ _ G c Hv). pose proof (copy_range _ _ G (fat_sector_of (geo (fat s)) c) 0).
    unfold fat_area. destruct G. lia.
Qed.

(** A write of one sector of cluster [c]. *)
Lemma cluster_write_ok s c k buf : fs_ok s → valid_cluster (geo (fat s)) c = true → 0 ≤ k < sectors_per_cluster_ (geo (fat s)) →
  length buf = 512%nat → Forall is_byte buf → let lba := cluster_lba (geo (fat s)) c + k in
  ∃ s', write lba 1 buf s = Ret tt s' ∧ fs_ok s' ∧ frame s s' ∧ (∀ c', valid_cluster (geo (fat s)) c' = true → val_of s' c' = val_of s c') ∧
    (∀ i, i ≠ lba → sector (disk s') i = sector (disk s) i) ∧ sector (disk s') lba = buf.
Proof.
  intros Hok Hv Hk Hlen Hby lba. destruct (cluster_lba_spec _ _ c (ok_geo _ Hok) Hv) as (H0 & H1 & Ha & _).
  destruct (data_write_ok s lba 1 buf) as (s' & Hr & Hok' & Hf & _ & Hval & Ho & Hi); [done|lia|lia| |done|done|].
  { intros i Hi. apply Ha. unfold data_lba. lia. }
  exists s'. rewrite sectors_1 in Hi. split_and!; [done|done|done|done| |done]. intros i Hne. apply Ho. lia.
Qed.

Lemma or_rollback_Ret c (op : M (fs D) unit) s s' : op s = Ret tt s' → or_rollback c op s = Ret tt s'.
Proof. intros H. unfold or_rollback, try_, bind. by rewrite H. Qed.

(** Fill the sectors of a cluster. *)
Lemma fill_cluster s c (f : Z → list Z) : fs_ok s → valid_cluster (geo (fat s)) c = true →
  (∀ i, length (f i) = 512%nat ∧ Forall is_byte (f i)) → let g := geo (fat s) in
  ∃ s', forM (seqZ 0 (sectors_per_cluster_ g)) (λ i,
      or_rollback c (write (u32 (u32 (partition_start_lba_ g + cluster_to_sector g c) + i)) 1 (f i))) s = Ret tt s' ∧
    fs_ok s' ∧ frame s s' ∧ (∀ c', valid_cluster g c' = true → val_of s' c' = val_of s c') ∧
    (∀ i, ¬ data_lba g c i → sector (disk s') i = sector (disk s) i) ∧
    (∀ i, data_lba g c i → sector (disk s') i = f (i - cluster_lba g c)).
Proof.
  intros Hok Hv Hf g. destruct (cluster_lba_spec _ _ c (ok_geo _ Hok) Hv) as (H0 & H1 & Ha & Hlba). fold g in H0, H1, Ha, Hlba.
  pose proof (g_bc _ _ (ok_geo _ Hok)) as Hbc.
  destruct (forM_inv (λ done s', fs_ok s' ∧ frame s s' ∧ (∀ c', valid_cluster g c' = true → val_of s' c' = val_of s c') ∧
      (∀ i, i - cluster_lba g c ∉ done → sector (disk s') i = sector (disk s) i) ∧
      (∀ k, k ∈ done → sector (disk s') (cluster_lba g c + k) = f k)) (seqZ 0 (sectors_per_cluster_ g))
    (λ i, or_rollback c (write (u32 (u32 (partition_start_lba_ g + cluster_to_sector g c) + i)) 1 (f i))) s)
    as (s' & Hr & Hok' & Hf' & Hval & Ho & Hi).
  - split_and!; [done..|set_solver].
  - intros pre k post s1 Hsplit (Hok1 & Hf1 & Hval1 & Ho1 & Hi1). pose proof Hf1 as (Hg1 & _).
    assert (0 ≤ k < sectors_per_cluster_ g) as Hk by (apply (elem_of_seqZ 0 (sectors_per_cluster_ g)); rewrite Hsplit; set_solver).
    destruct (cluster_write_ok s1 c k (f k)) as (s2 & Hw & Hok2 & Hf2 & Hval2 & Ho2 & Hi2);
      [done|by rewrite Hg1|by rewrite Hg1|apply Hf|apply Hf|].
    rewrite Hg1 in *. fold g in Hw, Ho2, Hi2, Hval2. exists s2. split; [apply or_rollback_Ret; by rewrite Hlba, u32_small by lia|].
    split_and!; [done|by eapply frame_trans| | |].
    + intros c' Hc'. by rewrite Hval2, Hval1.
    + intros i Hni. rewrite Ho2 by (intros ->; apply Hni; replace (cluster_lba g c + k - cluster_lba g c) with k by lia; set_solver).
      apply Ho1. set_solver.
    + intros k' [Hk'|Hk']%elem_of_app; [|by apply list_elem_of_singleton in Hk' as ->].
      destruct (decide (k' = k)) as [->|]; [done|]. rewrite Ho2 by lia. auto.
  - exists s'. split_and!; [done..| |].
    + intros i Hni. apply Ho. intros Hin%elem_of_seqZ. apply Hni. unfold data_lba. lia.
    + intros i Hin. replace i with (cluster_lba g c + (i - cluster_lba g c)) at 1 by lia. apply Hi, elem_of_seqZ. unfold data_lba in Hin. lia.
Qed.

(** The first free cluster of a table. *)
Definition first_free (g : geometry) (val : Z → Z) : option Z :=
  List.find (λ c, val c =? FAT32_FREE) (seqZ 2 (cluster_count_ g)).

(** What a successful allocation of [c] did. *)
Record allocated (s s' : fs D) (c : Z) : Prop := {
  a_ok : fs_ok s';
  a_frame : frame s s';
  a_val c' : valid_cluster (geo (fat s)) c' = true → val_of s' c' = if decide (c' = c) then FAT32_EOC_MAX else val_of s c';
  a_zero i : data_lba (geo (fat s)) c i → sector (disk s') i = replicate 512 0;
  a_rest i : ¬ fat_area (geo (fat s)) i → ¬ data_lba (geo (fat s)) c i → sector (disk s') i = sector (disk s) i }.

Lemma alloc_at s n c : fs_ok s → valid_cluster (geo (fat s)) c = true → val_of s c = FAT32_FREE →
  ∃ s', alloc_loop (S n) c s = Ret c s' ∧ allocated s s' c.
Proof.
  intros Hok Hv Hfree. cbn [alloc_loop]. destruct (read_entry_spec s c Hok Hv) as (s1 & Hr & Hok1 & Hs1).
  rewrite (bind_Ret _ _ _ _ _ Hr). fold (val_of s c). rewrite Hfree. cbn [Z.eqb FAT32_FREE].
  pose proof Hs1 as [(Hg1 & _) Hd1].
  destruct (write_entry_val s1 c FAT32_EOC_MAX Hok1) as (s2 & Hw & [Hok2 Hf2 Hval2 Hd2]); [by rewrite Hg1|].
  rewrite (bind_Ret _ _ _ _ _ (or_rollback_Ret c _ _ _ Hw)). pose proof Hf2 as (Hg2 & _). rewrite Hg1 in *.
  rewrite (bind_Ret (geom id) _ s2 (geo (fat s)) s2) by (unfold geom, gets; by rewrite Hg2).
  rewrite (bind_Ret _ _ _ _ _ (use_dev_ok s2 Hok2)).
  destruct (fill_cluster s2 c (λ _, replicate 512 0) Hok2) as (s3 & Hz & Hok3 & Hf3 & Hval3 & Ho3 & Hi3);
    [by rewrite Hg2|intros _; split; [apply length_replicate|by apply Forall_replicate]|]. rewrite Hg2 in *.
  rewrite (bind_Ret _ _ _ _ _ Hz). exists s3. split; [done|]. constructor; [done| | |done|].
  - eapply frame_trans; [apply Hs1|]. by eapply frame_trans.
  - intros c' Hc'. rewrite Hval3, Hval2 by done. destruct (decide _); [done|]. by apply same_val.
  - intros i Hfa Hni. rewrite Ho3, Hd2 by done. apply Hd1.
Qed.

Lemma alloc_loop_spec n : ∀ c s, fs_ok s → 2 ≤ c → c + Z.of_nat n = cluster_count_ (geo (fat s)) + 2 →
  match List.find (λ c, val_of s c =? FAT32_FREE) (seqZ c (Z.of_nat n)) with
  | Some c' => ∃ s', alloc_loop n c s = Ret c' s' ∧ allocated s s' c'
  | None => ∃ s', alloc_loop n c s = Fail E_Full s' ∧ fs_ok s' ∧ same s s'
  end.
Proof.
  induction n as [|n IH]; intros c s Hok H2 Hn; [by exists s|].
  rewrite seqZ_cons by lia. cbn [List.find]. assert (valid_cluster (geo (fat s)) c = true) as Hv.
  { apply (valid_cluster_iff _ _ (ok_geo _ Hok)). lia. }
  destruct (Z.eqb_spec (val_of s c) FAT32_FREE) as [He|Hne]; [by apply alloc_at|].
  cbn [alloc_loop]. destruct (read_entry_spec s c Hok Hv) as (s1 & Hr & Hok1 & Hs1). rewrite (bind_Ret _ _ _ _ _ Hr).
  fold (val_of s c). rewrite (proj2 (Z.eqb_neq _ _) Hne). pose proof Hs1 as [(Hg1 & _) Hd1].
  specialize (IH (c + 1) s1 Hok1 ltac:(lia)). rewrite Hg1 in IH. specialize (IH ltac:(lia)).
  replace (Z.pred (Z.of_nat (S n))) with (Z.of_nat n) by lia. change (Z.succ c) with (c + 1).
  assert (∀ l, List.find (λ c, val_of s c =? FAT32_FREE) l = List.find (λ c, val_of s1 c =? FAT32_FREE) l) as ->.
  { induction l as [|y l IHl]; [done|]. cbn. by rewrite (same_val _ _ _ Hs1), IHl. }
  destruct (List.find _ _) as [c'|].
  - destruct IH as (s' & Hr' & [? Hf' Hv' Hz Ho]). exists s'. rewrite Hg1 in *. split; [done|].
    constructor; [done|by eapply frame_trans; [apply Hs1|]| |done|].
    + intros c0 Hc0. rewrite Hv' by done. by rewrite (same_val _ _ _ Hs1).
    + intros i Hi1 Hi2. by rewrite Ho, Hd1.
  - destruct IH as (s' & Hr' & ? & ?). exists s'. split_and!; [done|done|by eapply same_trans].
Qed.

Lemma alloc_cluster_spec s : fs_ok s →
  match first_free (geo (fat s)) (val_of s) with
  | Some c => ∃ s', alloc_cluster s = Ret c s' ∧ allocated s s' c
  | None => ∃ s', alloc_cluster s = Fail E_Full s' ∧ fs_ok s' ∧ same s s'
  end.
Proof.
  intros Hok. unfold alloc_cluster, first_free. pose proof (ok_geo _ Hok) as []. unfold FAT32_RESERVED_MIN in *.
  rewrite (bind_Ret (geom _) _ s (Z.to_nat (cluster_count_ (geo (fat s)))) s).
  - pose proof (alloc_loop_spec (Z.to_nat (cluster_count_ (geo (fat s)))) 2 s Hok ltac:(lia) ltac:(lia)) as H.
    by rewrite Z2Nat.id in H by lia.
  - unfold geom, gets. rewrite u32_small by lia. do 2 f_equal. lia.
Qed.

Lemma first_free_Some bc g val c : geo_ok bc g → first_free g val = Some c → valid_cluster g c = true ∧ val c = FAT32_FREE.
Proof.
  intros G Hf. apply List.find_some in Hf as [Hin He%Z.eqb_eq]. split; [|done].
  apply (valid_cluster_iff _ _ G). apply list_elem_of_In, elem_of_seqZ in Hin. lia.
Qed.

(** C31: allocation returns the first free cluster, marks it as the end of a
    chain, fills its sectors with zeroes and changes nothing else; it fails
    with [Full], leaving the disk as it was, exactly when no entry is free.
    Releasing the cluster restores every entry of the table. *)
Theorem alloc_cluster_correct s : fs_ok s →
  match first_free (geo (fat s)) (val_of s) with
  | Some c => ∃ s', alloc_cluster s = Ret c s' ∧ allocated s s' c ∧
      ∃ s'', free_chain c s' = Ret tt s'' ∧ table_step s' s'' (val_of s)
  | None => ∃ s', alloc_cluster s = Fail E_Full s' ∧ fs_ok s' ∧ same s s'
  end.
Proof.
  intros Hok. pose proof (alloc_cluster_spec s Hok) as Ha. destruct (first_free _ _) as [c|] eqn:Ef; [|done].
  destruct Ha as (s' & Hr & Hall). exists s'. split; [done|]. split; [done|]. pose proof Hall as [Hok' (Hg & _) Hval _ _].
  destruct (first_free_Some _ _ _ _ (ok_geo _ Hok) Ef) as [Hv H0].
  assert (chain (geo (fat s')) (val_of s') c = Some [c]) as Hch.
  { unfold chain. rewrite Hg. pose proof (g_clusters _ _ (ok_geo _ Hok)). destruct (Z.to_nat _) eqn:En; [lia|].
    cbn. by rewrite Hv, Hval, decide_True by done. }
  destruct (free_chain_spec s' c [c] Hok' Hch) as (s'' & Hf & [Hok'' Hfr Hval' Hd]). exists s''. split; [done|].
  constructor; [done..| |done]. rewrite Hg in *. intros c' Hc'. rewrite Hval' by done. destruct (decide (c' ∈ [c])) as [Hin|Hn].
  - apply list_elem_of_singleton in Hin as ->. by rewrite H0.
  - rewrite Hval, decide_False; [done|set_solver|done].
Qed.
End alloc.
