(* ===== verification/FatMount.v ===== *)
(** * The FAT32 driver: mounting, proofs

    A successful mount establishes the invariant all other operations rely on;
    a refused one leaves the driver as it was. *)

From S2P Require Import Prelude Pmm BlockDev FatLayout FatCore FatCoreProofs.

#[local] Arguments sectors : simpl never.

Section mount.
Context {D : Type} `{BD : BlockDevice D} `{BL : !BlockDeviceLaws D}.
Implicit Types s : fs D.

(** Only the device moved: it stores what it stored. *)
Definition quiet (s s' : fs D) : Prop :=
  fat s' = fat s ∧ heap s' = heap s ∧ block_count (disk s') = block_count (disk s) ∧ ∀ i, sector (disk s') i = sector (disk s) i.
Lemma quiet_refl s : quiet s s.
Proof. done. Qed.
Lemma quiet_trans s1 s2 s3 : quiet s1 s2 → quiet s2 s3 → quiet s1 s3.
Proof. intros (? & ? & ? & Ha) (? & ? & ? & Hb). split_and!; [congruence..|]. intros i. by rewrite Hb. Qed.

(** An operation that only reads the device. *)
Definition reads {A} (m : M (fs D) A) : Prop := ∀ s s', out_state (m s) = Some s' → quiet s s'.
Lemma reads_ret {A} (a : A) : reads (ret a).
Proof. by intros s s' [= <-]. Qed.
Lemma reads_fail {A} e : reads (@fail (fs D) A e).
Proof. by intros s s' [= <-]. Qed.
Lemma reads_gets {A} (f : fs D → A) : reads (gets f).
Proof. by intros s s' [= <-]. Qed.
Lemma reads_ensure c e : reads (@ensure (fs D) c e).
Proof. unfold ensure. destruct c; [apply reads_ret|apply reads_fail]. Qed.
Lemma reads_halt {A} r : reads (@halt (fs D) A r).
Proof. by intros s s'. Qed.
Lemma reads_bind {A B} (m : M (fs D) A) (k : A → M (fs D) B) : reads m → (∀ a, reads (k a)) → reads (bind m k).
Proof.
  intros Hm Hk s s'. unfold bind. pose proof (Hm s) as Hm'. destruct (m s) as [a s1|e s1|r]; simpl; [|naive_solver..].
  intros Ho. eapply quiet_trans; [by apply Hm'|by eapply Hk].
Qed.
Lemma reads_raw lba n buf : length buf = (512 * n)%nat → reads (raw_read lba n buf).
Proof.
  intros Hl s s'. unfold raw_read. destruct (dev_read lba n buf (disk s)) as [[r b] d] eqn:E. intros [= <-].
  destruct (read_law _ _ _ _ _ _ _ E Hl) as (_ & ? & ? & _). done.
Qed.
Lemma reads_read lba n buf : length buf = (512 * n)%nat → reads (read lba n buf).
Proof.
  intros Hl. apply reads_bind; [by apply reads_raw|]. intros [[e|] b]; apply reads_bind; intros; try apply reads_ret; apply reads_fail.
Qed.
#[local] Hint Resolve reads_ret reads_fail reads_gets reads_ensure reads_halt reads_bind reads_raw reads_read length_replicate : reads.

Lemma reads_esp fuel h : ∀ i buf, length buf = 512%nat → reads (find_esp_loop fuel h i buf).
Proof.
  induction fuel as [|fuel IH]; intros i buf Hl; cbn [find_esp_loop]; [apply reads_halt|].
  destruct (_ <? _); [|apply reads_ret]. intros s s'. unfold bind, raw_read.
  destruct (dev_read _ _ _ _) as [[r b] d] eqn:E. destruct (read_law _ _ _ _ _ _ _ E Hl) as (Hl' & ? & ? & _). cbn [fst snd].
  assert (quiet s (MkFs (fat s) d (heap s))) as Hq by done.
  destruct r; [by intros [= <-]|]. destruct (find_esp _); [by intros [= <-]|].
  intros Ho. eapply quiet_trans; [exact Hq|]. by eapply IH.
Qed.

Lemma reads_partition : reads find_partition_start.
Proof.
  unfold find_partition_start. apply reads_bind; [by apply reads_read|]. intros bs. apply reads_bind; [apply reads_ensure|].
  intros _. destruct (is_gpt _); [|destruct (part_is_fat32 _); apply reads_ret].
  apply reads_bind; [by apply reads_read|]. intros bs'. apply reads_bind; [apply reads_ensure|]. intros _.
  apply reads_bind; [by apply reads_esp|]. intros. apply reads_bind; [apply reads_ensure|]. intros _. apply reads_ret.
Qed.

(** A sector that was read successfully holds bytes. *)
Lemma read_bytes s lba buf b s' : length buf = 512%nat → read lba 1 buf s = Ret b s' →
  b = sector (disk s) lba ∧ length b = 512%nat ∧ Forall is_byte b.
Proof.
  intros Hl. unfold read, raw_read, bind. destruct (dev_read lba 1 buf (disk s)) as [[r b'] d] eqn:E.
  destruct (read_law _ _ _ _ _ _ _ E Hl) as (Hl' & _ & _ & Hb). simpl. destruct r; [done|]. intros [= -> _].
  rewrite (Hb eq_refl), sectors_1. split_and!; [done|apply sector_length|apply sector_bytes].
Qed.

Lemma partition_range s p s' : find_partition_start s = Ret p s' → 0 ≤ p < 2 ^ 32.
Proof.
  unfold find_partition_start. intros H. step_inv H. apply read_bytes in H0 as (_ & Hl & Hb); [|done]. step_inv H.
  destruct (is_gpt _).
  - repeat step_inv H. injection H as <- _. apply u32_range.
  - destruct (part_is_fat32 _); injection H as <- _; [|done].
    change (0 ≤ field 8 4 (slice 446 16 x) < 2 ^ 32).
    apply (field_range 8 4); [by apply slice_bytes|]. rewrite (length_slice 446 16) by lia. lia.
Qed.

(** The search of the partition table terminates. *)
Lemma esp_fuel h fuel : ∀ i buf s, (0 < fuel)%nat → num_partition_entries h - i < Z.of_nat fuel →
  out_state (find_esp_loop fuel h i buf s) ≠ None.
Proof.
  induction fuel as [|fuel IH]; intros i buf s H0 Hf; [lia|]. cbn [find_esp_loop].
  destruct (Z.ltb_spec i (num_partition_entries h)); [|done]. unfold bind, raw_read.
  destruct (dev_read _ _ _ _) as [[r b] d]. cbn [fst snd]. destruct r; [done|]. destruct (find_esp _); [done|].
  apply IH; [lia|]. unfold GPT_COUNT. lia.
Qed.

Lemma total_raw_read lba n buf : total (S := fs D) (raw_read lba n buf).
Proof. intros s. unfold raw_read. by destruct (dev_read _ _ _ _). Qed.
Lemma total_read lba n buf : total (S := fs D) (read lba n buf).
Proof. apply total_bind; [apply total_raw_read|]. intros [[e|] b]; apply total_bind; intros; done. Qed.

Lemma partition_returns : total (S := fs D) find_partition_start.
Proof.
  unfold find_partition_start. apply total_bind; [apply total_read|]. intros b. apply total_bind; [apply total_ensure|].
  intros _. destruct (is_gpt _); [|by destruct (part_is_fat32 _)].
  apply total_bind; [apply total_read|]. intros b'. apply total_bind; [apply total_ensure|]. intros _.
  apply total_bind; [intros s; apply esp_fuel; lia|]. intros. apply total_bind; [apply total_ensure|]. done.
Qed.

(** The fields of a boot sector are unsigned integers of their widths. *)
Lemma boot_ranges b : length b = 512%nat → Forall is_byte b → let bs := Fat32BootSector_of b in
  0 ≤ bytes_per_sector bs ∧ 0 ≤ sectors_per_cluster bs ∧ 0 ≤ reserved_sectors bs < 2 ^ 16 ∧ 0 ≤ num_fats bs ∧
  0 ≤ fat_size_32 bs < 2 ^ 32 ∧ 0 ≤ total_sectors_32 bs < 2 ^ 32 ∧ 0 ≤ root_cluster bs < 2 ^ 32.
Proof.
  intros Hl Hb bs. pose proof (field_range 11 2 b Hb ltac:(lia)). pose proof (field_range 13 1 b Hb ltac:(lia)).
  pose proof (field_range 14 2 b Hb ltac:(lia)). pose proof (field_range 16 1 b Hb ltac:(lia)).
  pose proof (field_range 36 4 b Hb ltac:(lia)). pose proof (field_range 32 4 b Hb ltac:(lia)).
  pose proof (field_range 44 4 b Hb ltac:(lia)). unfold bs, Fat32BootSector_of. simpl. lia.
Qed.

(** The checks of [mount] give a geometry without overflow or overlap. *)
Lemma geo_ok_of bc p bs f :
  0 ≤ reserved_sectors bs < 2 ^ 16 → 0 ≤ fat_size_32 bs < 2 ^ 32 → 0 ≤ total_sectors_32 bs < 2 ^ 32 →
  0 ≤ p < 2 ^ 32 → 0 ≤ bc < 2 ^ 32 → 0 ≤ num_fats bs → 0 ≤ sectors_per_cluster bs →
  bytes_per_sector bs = 512 → sectors_per_cluster bs ≠ 0 ∧ sectors_per_cluster bs ≤ 128 →
  reserved_sectors bs ≠ 0 ∧ num_fats bs ≠ 0 ∧ num_fats bs ≤ 2 ∧ fat_size_32 bs ≠ 0 →
  let data_start := u64 (reserved_sectors bs + u64 (num_fats bs * fat_size_32 bs)) in
  let clusters := u64 (total_sectors_32 bs - data_start) / sectors_per_cluster bs in
  data_start < total_sectors_32 bs → u64 (p + total_sectors_32 bs) ≤ bc →
  clusters ≠ 0 → u64 (clusters + 2) ≤ FAT32_RESERVED_MIN →
  u64 (u64 (clusters + 2) * 4) ≤ u64 (fat_size_32 bs * bytes_per_sector bs) →
  2 ≤ root_cluster bs → root_cluster bs < u64 (clusters + 2) →
  geo_ok bc (geo (do_init_state p bs f)).
Proof.
  intros Hres Hfs Htot Hp Hbc Hnf Hspc Hbps [Hs1 Hs2] (Hr1 & Hn1 & Hn2 & Hf1) ds cl Hds Hdev Hcl Hmax Hfit Hr2 Hr3.
  assert (0 ≤ num_fats bs * fat_size_32 bs < 2 ^ 33) as Hprod by nia.
  assert (ds = reserved_sectors bs + num_fats bs * fat_size_32 bs) as Eds.
  { unfold ds. rewrite (u64_small (num_fats bs * _)), u64_small by lia. done. }
  rewrite u64_small in Hdev by lia.
  assert (cl = (total_sectors_32 bs - ds) / sectors_per_cluster bs) as Ecl by (unfold cl; rewrite u64_small by lia; done).
  assert (0 ≤ cl ≤ total_sectors_32 bs - ds) as Hclr.
  { rewrite Ecl. split; [apply Z.div_pos; lia|]. apply Z.div_le_upper_bound; nia. }
  assert (cl * sectors_per_cluster bs ≤ total_sectors_32 bs - ds) as Hdata.
  { rewrite Ecl, Z.mul_comm. apply Z.mul_div_le. lia. }
  rewrite (u64_small (cl + 2)) in * by lia. rewrite Hbps in Hfit. rewrite !u64_small in Hfit by lia.
  unfold do_init_state. cbn zeta. rewrite (u32_small (num_fats bs * _)), (u32_small (reserved_sectors bs + _)) by lia.
  rewrite <- Eds. rewrite (u32_small (total_sectors_32 bs - ds)), <- Ecl by lia. rewrite Hbps.
  constructor; simpl; try lia.
  - rewrite u32_small; lia.
  - unfold valid_cluster; simpl. unfold FAT32_RESERVED_MIN in Hmax. rewrite u32_small by lia. apply andb_true_iff. lia.
Qed.

(** C16: a successful mount establishes the invariant of the driver: the
    table, its copies and every data cluster lie inside the partition and the
    device, no address computation overflows, the root cluster is valid and the
    cache is empty.  A refused mount leaves the driver's state and the disk
    alone.  Mounting always returns. *)
Theorem mount_correct s dev : buffer_dirty_ (fat s) = false → length (buffer_ (fat s)) = 512%nat →
  match mount dev s with
  | Ret _ s' => fs_ok s' ∧ block_count (disk s') = block_count (disk s) ∧ ∀ i, sector (disk s') i = sector (disk s) i
  | Fail _ s' => quiet s s'
  | Halt _ => False
  end.
Proof.
  intros Hcl Hlen. unfold mount. destruct dev; [|done]. cbn [ensure]. rewrite bind_ret.
  pose proof (reads_partition s) as Hq. pose proof (partition_returns s) as Hnh. pose proof (partition_range s) as Hpr.
  destruct (find_partition_start s) as [p s1|e s1|r] eqn:Ep; [|rewrite (bind_Fail _ _ _ _ _ Ep); by apply Hq|done].
  rewrite (bind_Ret _ _ _ _ _ Ep). specialize (Hq s1 eq_refl). specialize (Hpr p s1 eq_refl).
  pose proof (reads_read p 1 (replicate 512 0) ltac:(done) s1) as Hq2. pose proof (read_bytes s1 p (replicate 512 0)) as Hb.
  destruct (read p 1 (replicate 512 0) s1) as [b s2|e s2|r] eqn:Er;
    [|rewrite (bind_Fail _ _ _ _ _ Er); eapply quiet_trans; [done|by apply Hq2]|by destruct (total_read p 1 (replicate 512 0) s1); rewrite Er].
  rewrite (bind_Ret _ _ _ _ _ Er). specialize (Hq2 s2 eq_refl). destruct (Hb b s2 ltac:(done) eq_refl) as (_ & Hlb & Hbb).
  pose proof (quiet_trans _ _ _ Hq Hq2) as Hq3. pose proof Hq3 as (Hf & Hh & Hbc & Hs).
  destruct (boot_ranges b Hlb Hbb) as (Hr1 & Hr2 & Hr3 & Hr4 & Hr5 & Hr6 & Hr7). set (bs := Fat32BootSector_of b) in *.
  cbn zeta. unfold ensure.
  repeat (match goal with |- match bind (if ?c then _ else _) _ _ with _ => _ end => destruct c eqn:? end;
    [rewrite bind_ret|exact Hq3]).
  rewrite (bind_Ret (gets _) _ s2 (block_count (disk s2)) s2) by done.
  repeat (match goal with |- match bind (if ?c then _ else _) _ _ with _ => _ end => destruct c eqn:? end;
    [rewrite bind_ret|exact Hq3]).
  unfold upd_fat, modify. repeat match goal with H : _ && _ = true |- _ => apply andb_true_iff in H as [? ?] end.
  pose proof (block_count_range (disk s2)).
  assert (geo_ok (block_count (disk s2)) (geo (do_init_state p bs (fat s2)))).
  { apply geo_ok_of; try lia. by apply Z.eqb_eq. }
  split_and!; [|done|done]. constructor; [done|done|by cbn; rewrite Hf|by cbn; rewrite Hf|by left].
Qed.
End mount.
