(* ===== verification/FatDir.v ===== *)
(** * The FAT32 driver, part 2: [kernel/fs/fat/fat_dir.cpp]

    File contents, directories, path resolution, and creation and removal of
    entries.  A path is the bytes of a C string.  A read returns its buffer
    with the count; what a failed transfer left in a caller's buffer is not
    kept. *)

From S2P Require Import Prelude Zstl Pmm LibString BlockDev FatLayout FatCore.

(** ** Names *)

Definition MAX_PART_LEN : nat := 13.
Definition MAX_DEPTH : nat := 16.
Definition SLASH : Z := 0x2F.
Definition DOT : Z := 0x2E.
Definition SPACE : Z := 0x20.

Definition to_upper (ch : Z) : Z := if (0x61 <=? ch) && (ch <=? 0x7A) then ch - 32 else ch.

(** The loop of [next_part] over a buffer of [N] bytes. *)
Fixpoint part_loop (N : nat) (path buf : list Z) : option (list Z * list Z) :=
  match path with
  | [] => Some (buf, [])
  | c :: rest =>
      if c =? SLASH then Some (buf, path)
      else if (N <=? length buf + 1)%nat then None
      else part_loop N rest (buf ++ [to_upper c])
  end.
(** The next component of a path and what follows it. *)
Definition next_part (N : nat) (path : list Z) : option (list Z * list Z) :=
  match part_loop N path [] with
  | Some (buf, rest) => Some (buf, str_skip_char rest SLASH)
  | None => None
  end.

(** Fill [n] bytes from [p], stopping at the end or before [stop]. *)
Fixpoint fill_upper (n : nat) (stop : Z → bool) (p : list Z) : list Z * list Z :=
  match n, p with
  | S n, c :: rest => if stop c then ([], p) else let '(out, p') := fill_upper n stop rest in (to_upper c :: out, p')
  | _, _ => ([], p)
  end.
Definition pad (n : nat) (bs : list Z) : list Z := bs ++ replicate (n - length bs) SPACE.
Definition make_83_name (name : list Z) : list Z * list Z :=
  let '(base, p) := fill_upper 8 (λ c, c =? DOT) name in
  let p := match p with c :: rest => if c =? DOT then rest else p | [] => [] end in
  let '(ext, _) := fill_upper 3 (λ _, false) p in
  (pad 8 base, pad 3 ext).

(** The name a directory entry is matched under. *)
Definition entry_name (e : FatDirEntry) : list Z := to_upper <$> c_str (get_filename e).

(** [SectorArray<FatDirEntry>]: 16 entries of 32 bytes. *)
Definition DIR_COUNT : nat := 16.
Definition entry_in (buf : list Z) (j : nat) : FatDirEntry := FatDirEntry_of (slice (32 * j) 32 buf).
Definition entries_of (buf : list Z) : list FatDirEntry := entry_in buf <$> seq 0 DIR_COUNT.

Section dir.
Context {D : Type} `{BD : BlockDevice D} {P : Type} `{IVP : InplaceVector P (list Z)} (KERNEL_BASE : Z).

(** ** File contents *)

(** [KernelBuffer::alloc]: its bytes are filled by the first transfer; the
    destructor frees it on every way out. *)
Definition with_buffer {A} (size : Z) (body : list Z → M (fs D) A) : M (fs D) A :=
  if size =? 0 then body [] else
  ptr <- zoom heap (λ h s, MkFs (fat s) (disk s) h) (kmalloc KERNEL_BASE size);;
  ensure (negb (ptr =? 0)) E_NoMem;;
  r <- try_ (body (replicate (Z.to_nat size) 0));;
  zoom heap (λ h s, MkFs (fat s) (disk s) h) (kfree KERNEL_BASE ptr);;
  match r with inl a => ret a | inr e => fail e end.

(** The variables of the transfer loop. *)
Record io : Set := MkIo { solve_bytes : Z; io_offset : Z; io_buf : list Z; cluster_buf : list Z }.

Definition io_body (size : Z) (writeback : bool) (cluster : Z) (st : io) : M (fs D) (io + Empty_set) :=
  g <- geom id;;
  let sector := cluster_to_sector g cluster in
  let lba := u32 (partition_start_lba_ g + sector) in
  let n := Z.to_nat (sectors_per_cluster_ g) in
  use_dev;;
  buf <- read lba n (cluster_buf st);;
  if bytes_per_cluster_ g <=? io_offset st then
    ret (inl (MkIo (solve_bytes st) (io_offset st - bytes_per_cluster_ g) (io_buf st) buf))
  else
    let cluster_offset := io_offset st in
    let cluster_bytes := bytes_per_cluster_ g - io_offset st in
    let count := Z.min cluster_bytes (size - solve_bytes st) in
    if writeback then
      let buf := splice (Z.to_nat cluster_offset) (slice (Z.to_nat (solve_bytes st)) (Z.to_nat count) (io_buf st)) buf in
      write lba n buf;;
      ret (inl (MkIo (u32 (solve_bytes st + count)) 0 (io_buf st) buf))
    else
      ret (inl (MkIo (u32 (solve_bytes st + count)) 0
        (splice (Z.to_nat (solve_bytes st)) (slice (Z.to_nat cluster_offset) (Z.to_nat count) buf) (io_buf st)) buf)).

Definition do_file_io (entry : option FatDirEntry) (buf : option (list Z)) (offset size : Z) (writeback : bool) :
    M (fs D) (Z * list Z) :=
  match entry, buf with
  | Some entry, Some buf =>
      ensure (negb (is_directory entry)) E_Invalid;;
      ensure (offset <=? file_size entry) E_Invalid;;
      if (offset =? file_size entry) || (size =? 0) then ret (0, buf)
      else
        let size := Z.min size (file_size entry - offset) in
        g <- geom id;;
        let start := cluster entry in
        ensure ((2 <=? start) && (start <? u32 (cluster_count_ g + 2))) E_Invalid;;
        with_buffer (bytes_per_cluster_ g) (λ scratch,
          r <- while_chain (R := Empty_set) start (λ st, solve_bytes st <? size) (MkIo 0 offset buf scratch) (io_body size writeback);;
          match r with
          | inl st => ensure (solve_bytes st =? size) E_BadFs;; ret (s32 (solve_bytes st), io_buf st)
          | inr r => match r with end
          end)
  | _, _ => fail E_Invalid
  end.
Definition read_file entry buf offset size := do_file_io entry buf offset size false.
Definition write_file entry buf offset size := do_file_io entry buf offset size true.

(** ** Directories *)

(** [for (i = 0; i < n; i++) body(lba + i)], leaving with [inr]. *)
Fixpoint sector_loop {A R} (n : nat) (lba : Z) (a : A) (body : Z → A → M (fs D) (A + R)) : M (fs D) (A + R) :=
  match n with
  | O => ret (inl a)
  | S n =>
      x <- body (u32 lba) a;;
      match x with inl a => sector_loop n (lba + 1) a body | inr b => ret (inr b) end
  end.
(** The sectors of a directory, in order. *)
Definition dir_sectors {A R} (start : Z) (a : A) (body : Z → A → M (fs D) (A + R)) : M (fs D) (A + R) :=
  walk_chain start a (λ cluster a,
    g <- geom id;;
    sector_loop (Z.to_nat (sectors_per_cluster_ g)) (partition_start_lba_ g + cluster_to_sector g cluster) a
      (λ lba a, use_dev;; body lba a)).

(** [visit] sees the entries one by one; what it answers to an entry may
    depend on those before it. *)
Fixpoint visit_entries (visit : list FatDirEntry → FatDirEntry → Z) (seen : list FatDirEntry) (es : list FatDirEntry) :
    list FatDirEntry + list FatDirEntry :=
  match es with
  | [] => inl seen
  | e :: es =>
      if is_end e then inr seen
      else if negb (is_valid e) then visit_entries visit seen es
      else if negb (visit seen e =? 0) then inr seen
      else visit_entries visit (seen ++ [e]) es
  end.
(** [read_dir(start_cluster, visitor)]: the entries counted, in order. *)
Definition read_dir_at (start_cluster : Z) (visit : list FatDirEntry → FatDirEntry → Z) : M (fs D) (list FatDirEntry) :=
  r <- dir_sectors start_cluster ([], replicate 512 0) (λ lba st,
    buf <- read lba 1 st.2;;
    match visit_entries visit st.1 (entries_of buf) with
    | inl seen => ret (inl (seen, buf))
    | inr seen => ret (inr seen)
    end);;
  match r with inl st => ret st.1 | inr seen => ret seen end.

(** The first entry of that name in a sector; [Some None] at the end marker. *)
Fixpoint match_entries (name : list Z) (es : list FatDirEntry) (j : nat) : option (option (nat * FatDirEntry)) :=
  match es with
  | [] => None
  | e :: es =>
      if is_end e then Some None
      else if negb (is_valid e) then match_entries name es (S j)
      else if bool_decide (entry_name e = name) then Some (Some (j, e))
      else match_entries name es (S j)
  end.
Definition find_entry (start_cluster : Z) (name : list Z) : M (fs D) FatDirEntry :=
  r <- dir_sectors start_cluster (replicate 512 0) (λ lba buf,
    buf <- read lba 1 buf;;
    match match_entries name (entries_of buf) 0 with
    | None => ret (inl buf)
    | Some None => fail E_NotFound
    | Some (Some (_, e)) => ret (inr e)
    end);;
  match r with inl _ => fail E_NotFound | inr e => ret e end.

(** ** Paths *)

(** The components of a path, with [.] and [..] resolved. *)
Fixpoint parse_parts (fuel : nat) (path : list Z) (parts : P) : M (fs D) P :=
  match path with
  | [] => ret parts
  | _ =>
      match fuel with
      | O => halt OutOfFuel
      | S fuel =>
          match next_part MAX_PART_LEN path with
          | None => fail E_Invalid
          | Some (part, rest) =>
              if bool_decide (part = [DOT]) then parse_parts fuel rest parts
              else if bool_decide (part = [DOT; DOT]) then
                parse_parts fuel rest (match iv_elems parts with [] => parts | _ => iv_pop_back parts end)
              else
                match iv_try_push_back part parts with
                | Some parts => parse_parts fuel rest parts
                | None => fail E_Invalid
                end
          end
      end
  end.
Definition split_path (relpath : option (list Z)) : M (fs D) (list (list Z)) :=
  match relpath with
  | None => fail E_Invalid
  | Some relpath =>
      let path := str_skip_char relpath SLASH in
      ensure (negb (bool_decide (path = []))) E_Invalid;;
      parts <- parse_parts (length path) path iv_new;;
      ensure (negb (bool_decide (iv_elems parts = []))) E_Invalid;;
      ret (iv_elems parts)
  end.

Fixpoint find_parts (cluster : Z) (parts : list (list Z)) : M (fs D) FatDirEntry :=
  match parts with
  | [] => fail E_Invalid
  | [part] => find_entry cluster part
  | part :: parts =>
      e <- find_entry cluster part;;
      ensure (is_directory e) E_NotFound;;
      find_parts (FatLayout.cluster e) parts
  end.
Definition find_file (filename : option (list Z)) : M (fs D) FatDirEntry :=
  parts <- split_path filename;;
  root <- geom root_cluster_;;
  find_parts root parts.

Definition read_dir (relpath : option (list Z)) (visit : list FatDirEntry → FatDirEntry → Z) : M (fs D) (list FatDirEntry) :=
  match relpath with
  | None => fail E_Invalid
  | Some [] => root <- geom root_cluster_;; read_dir_at root visit
  | Some _ =>
      dir <- find_file relpath;;
      ensure (is_directory dir) E_Invalid;;
      read_dir_at (FatLayout.cluster dir) visit
  end.

(** The directory of the last component, and that component. *)
Fixpoint walk_parents (cluster : Z) (parts : list (list Z)) : M (fs D) (Z * list Z) :=
  match parts with
  | [] => fail E_Invalid
  | [part] => ret (cluster, part)
  | part :: parts =>
      e <- find_entry cluster part;;
      ensure (is_directory e) E_NotFound;;
      walk_parents (FatLayout.cluster e) parts
  end.
Definition resolve_parent (relpath : option (list Z)) : M (fs D) (Z * list Z) :=
  parts <- split_path relpath;;
  root <- geom root_cluster_;;
  walk_parents root parts.

(** ** Changing a directory *)

(** The slot a new entry goes to, and whether it is the end marker. *)
Fixpoint find_slot (es : list FatDirEntry) (j : nat) : option (nat * bool) :=
  match es with
  | [] => None
  | e :: es => if is_end e || is_deleted e then Some (j, is_end e) else find_slot es (S j)
  end.
Definition put_entry (buf : list Z) (j : nat) (bs : list Z) : list Z := splice (32 * j) bs buf.

(** Grow a directory by a cluster that holds the new entry. *)
Definition extend_dir (cluster next : Z) (bs : list Z) : M (fs D) (unit + bool * Error) :=
  new_cluster <- alloc_cluster;;
  g <- geom id;;
  let new_base := u32 (partition_start_lba_ g + cluster_to_sector g new_cluster) in
  use_dev;;
  forM (seqZ 0 (sectors_per_cluster_ g)) (λ i,
    or_rollback new_cluster (write (u32 (new_base + i)) 1 (if i =? 0 then put_entry (replicate 512 0) 0 bs else replicate 512 0)));;
  r <- try_ (write_entry cluster new_cluster);;
  match r with
  | inl _ => ret (inl tt)
  | inr error =>
      cleanup <- try_ (write_entry cluster next);;
      match cleanup with
      | inl _ => rollback_new_chain new_cluster;; ret (inr (false, error))
      | inr _ => ret (inr (true, error))
      end
  end.

(** The result of [add_dir_entry]: on an error, whether the entry may exist. *)
Definition add_dir_entry (dir_cluster : Z) (new_entry : FatDirEntry) : M (fs D) (unit + bool * Error) :=
  let bs := bytes_of_entry new_entry in
  r <- try_ (walk_chain dir_cluster (replicate 512 0) (λ cluster buf,
    g <- geom id;;
    x <- sector_loop (Z.to_nat (sectors_per_cluster_ g)) (partition_start_lba_ g + cluster_to_sector g cluster) buf (λ lba buf,
      use_dev;;
      buf <- read lba 1 buf;;
      match find_slot (entries_of buf) 0 with
      | None => ret (inl buf)
      | Some (j, was_end) =>
          let buf := put_entry buf j bs in
          let buf := if was_end && (j + 1 <? DIR_COUNT)%nat then put_entry buf (j + 1) (replicate 32 0) else buf in
          w <- try_ (write lba 1 buf);;
          match w with
          | inl _ => ret (inr (inl tt))
          | inr e => ret (inr (inr (true, e)))
          end
      end);;
    match x with
    | inr b => ret (inr b)
    | inl buf =>
        next <- read_entry cluster;;
        if FAT32_EOC_MIN <=? next then b <- extend_dir cluster next bs;; ret (inr b)
        else ret (inl buf)
    end));;
  match r with
  | inr e => ret (inr (false, e))
  | inl (inl _) => ret (inr (false, E_Full))
  | inl (inr b) => ret b
  end.

Definition remove_dir_entry (dir_cluster : Z) (name : list Z) : M (fs D) unit :=
  r <- dir_sectors dir_cluster (replicate 512 0) (λ lba buf,
    buf <- read lba 1 buf;;
    match match_entries name (entries_of buf) 0 with
    | None => ret (inl buf)
    | Some None => fail E_NotFound
    | Some (Some (j, _)) => write lba 1 (splice (32 * j) [0xE5] buf);; ret (inr tt)
    end);;
  match r with inl _ => fail E_NotFound | inr _ => ret tt end.

(** ** The operations on paths *)

(** Fail with [Exists] if the name is taken; errors other than [NotFound] pass. *)
Definition ensure_absent (parent : Z) (name : list Z) : M (fs D) unit :=
  r <- try_ (find_entry parent name);;
  match r with
  | inl _ => fail E_Exists
  | inr E_NotFound => ret tt
  | inr err => fail err
  end.

(** A directory entry with the fields [mkdir] and [create_file] set. *)
Definition new_entry (nm : list Z * list Z) (attr cluster : Z) : FatDirEntry :=
  MkDirEntry nm.1 nm.2 attr 0 0 0 0 0 (u16 (Z.shiftr cluster 16)) 0 0 (u16 (Z.land cluster 0xFFFF)) 0.

Definition mkdir (relpath : option (list Z)) : M (fs D) unit :=
  p <- resolve_parent relpath;;
  let '(parent_cluster, child_name) := p in
  ensure_absent parent_cluster child_name;;
  new_cluster <- alloc_cluster;;
  g <- geom id;;
  let dir_entry := new_entry (make_83_name child_name) FAT_ATTR_DIRECTORY new_cluster in
  let parent_val := if parent_cluster =? root_cluster_ g then 0 else parent_cluster in
  let dot := new_entry (pad 8 [DOT], pad 3 []) FAT_ATTR_DIRECTORY new_cluster in
  let dotdot := new_entry (pad 8 [DOT; DOT], pad 3 []) FAT_ATTR_DIRECTORY parent_val in
  let sector_buf := put_entry (put_entry (replicate 512 0) 0 (bytes_of_entry dot)) 1 (bytes_of_entry dotdot) in
  use_dev;;
  or_rollback new_cluster (write (u32 (partition_start_lba_ g + cluster_to_sector g new_cluster)) 1 sector_buf);;
  r <- add_dir_entry parent_cluster dir_entry;;
  match r with
  | inl _ => ret tt
  | inr (entry_may_exist, err) => whenM (negb entry_may_exist) (rollback_new_chain new_cluster);; fail err
  end.

Definition create_file (relpath : option (list Z)) : M (fs D) unit :=
  p <- resolve_parent relpath;;
  let '(parent_cluster, child_name) := p in
  ensure_absent parent_cluster child_name;;
  r <- add_dir_entry parent_cluster (new_entry (make_83_name child_name) FAT_ATTR_ARCHIVE 0);;
  match r with inl _ => ret tt | inr (_, err) => fail err end.

Definition unlink (relpath : option (list Z)) : M (fs D) unit :=
  p <- resolve_parent relpath;;
  let '(parent_cluster, child_name) := p in
  entry <- find_entry parent_cluster child_name;;
  ensure (negb (is_directory entry)) E_Invalid;;
  whenM (2 <=? FatLayout.cluster entry) (free_chain (FatLayout.cluster entry));;
  remove_dir_entry parent_cluster child_name.

(** [rmdir]'s scan of one sector: an end marker leaves the sector only. *)
Fixpoint only_dots (es : list FatDirEntry) : bool :=
  match es with
  | [] => true
  | e :: es =>
      if is_end e then true
      else if negb (is_valid e) then only_dots es
      else if (char_at (name e) 0 =? DOT) && (char_at (name e) 1 =? SPACE) then only_dots es
      else if (char_at (name e) 0 =? DOT) && (char_at (name e) 1 =? DOT) && (char_at (name e) 2 =? SPACE) then only_dots es
      else false
  end.

(** The sectors of a cluster, until one has another entry. *)
Fixpoint dots_loop (n : nat) (lba : Z) (buf : list Z) : M (fs D) (bool * list Z) :=
  match n with
  | O => ret (true, buf)
  | S n =>
      use_dev;;
      buf <- read (u32 lba) 1 buf;;
      g <- geom id;;
      if only_dots (take (Z.to_nat (bytes_per_sector_ g / 32)) (entries_of buf)) then dots_loop n (lba + 1) buf
      else ret (false, buf)
  end.

Definition rmdir (relpath : option (list Z)) : M (fs D) unit :=
  p <- resolve_parent relpath;;
  let '(parent_cluster, child_name) := p in
  entry <- find_entry parent_cluster child_name;;
  ensure (is_directory entry) E_Invalid;;
  let dir_cluster := FatLayout.cluster entry in
  r <- while_chain (R := Empty_set) dir_cluster fst (true, replicate 512 0) (λ cluster st,
    g <- geom id;;
    x <- dots_loop (Z.to_nat (sectors_per_cluster_ g)) (partition_start_lba_ g + cluster_to_sector g cluster) st.2;;
    ret (inl x));;
  match r with
  | inr r => match r with end
  | inl (empty, _) =>
      ensure empty E_NotEmpty;;
      free_chain dir_cluster;;
      remove_dir_entry parent_cluster child_name
  end.
End dir.
