(* ===== verification/FatEntry.v ===== *)
(** * Directory entries as bytes, and their names

    Entries survive being stored and read back; a write to one entry of a
    sector changes that entry only; a valid 8.3 name survives its conversion to
    the padded on-disk form. *)

From S2P Require Import Prelude LibString BlockDev FatLayout FatDir.

(** ** Storing an entry *)

(** An entry whose fields fit their places. *)
Record entry_ok (e : FatDirEntry) : Prop := {
  e_name : length (name e) = 8%nat; e_ext : length (ext e) = 3%nat;
  e_name_b : Forall is_byte (name e); e_ext_b : Forall is_byte (ext e);
  e_attr : 0 ≤ attr e < 256; e_nt : 0 ≤ nt_reserved e < 256; e_tenth : 0 ≤ create_time_tenth e < 256;
  e_ct : 0 ≤ create_time e < 2 ^ 16; e_cd : 0 ≤ create_date e < 2 ^ 16; e_ad : 0 ≤ last_access_date e < 2 ^ 16;
  e_hi : 0 ≤ first_cluster_high e < 2 ^ 16; e_wt : 0 ≤ write_time e < 2 ^ 16; e_wd : 0 ≤ write_date e < 2 ^ 16;
  e_lo : 0 ≤ first_cluster_low e < 2 ^ 16; e_size : 0 ≤ file_size e < 2 ^ 32 }.

Lemma length_bytes_of_entry e : length (name e) = 8%nat → length (ext e) = 3%nat → length (bytes_of_entry e) = 32%nat.
Proof. intros Hn He. unfold bytes_of_entry. rewrite !length_app, !length_to_le. lia. Qed.

Lemma bytes_of_entry_bytes e : Forall is_byte (name e) → Forall is_byte (ext e) → Forall is_byte (bytes_of_entry e).
Proof. intros. unfold bytes_of_entry. rewrite !Forall_app. split_and!; auto using to_le_bytes. Qed.

Lemma entry_roundtrip e : entry_ok e → FatDirEntry_of (bytes_of_entry e) = e.
Proof.
  intros [Hn He _ _ ? ? ? ? ? ? ? ? ? ? ?]. destruct e as [nm ex at' nt ten ct cd ad hi wt wd lo sz]. cbn in *.
  do 8 (destruct nm as [|? nm]; [done|]). destruct nm; [|done]. do 3 (destruct ex as [|? ex]; [done|]). destruct ex; [|done].
  unfold FatDirEntry_of, bytes_of_entry.
  assert (∀ o n x, 0 ≤ x < 256 ^ Z.of_nat n → ∀ bs, slice o n bs = to_le n x → field o n bs = x) as Hf.
  { intros o n x Hx bs Hs. unfold field. rewrite Hs. by apply le_to_le. }
  f_equal; (reflexivity || (apply Hf; [simpl; lia|reflexivity])).
Qed.

(** The fields of an entry that was read are in range. *)
Lemma entry_of_ok bs : length bs = 32%nat → Forall is_byte bs → entry_ok (FatDirEntry_of bs).
Proof.
  intros Hl Hb. unfold FatDirEntry_of. constructor; cbn [name ext attr nt_reserved create_time_tenth create_time create_date last_access_date
    first_cluster_high write_time write_date first_cluster_low file_size];
    first [apply length_slice; lia|by apply slice_bytes|match goal with |- 0 ≤ field ?o ?n bs < _ => exact (field_range o n bs Hb ltac:(lia)) end].
Qed.

(** ** Entries of a sector *)

Lemma length_entries buf : length (entries_of buf) = 16%nat.
Proof. done. Qed.

Lemma entries_lookup buf i : entries_of buf !! i = if decide (i < 16)%nat then Some (entry_in buf i) else None.
Proof.
  unfold entries_of. rewrite list_lookup_fmap. unfold DIR_COUNT. destruct (decide (i < 16)%nat).
  - by rewrite lookup_seq_lt by lia.
  - rewrite lookup_seq_ge by lia. done.
Qed.

Lemma slice_splice_inside off len o v bs : (off + len ≤ length bs)%nat → (o + length v ≤ len)%nat →
  slice off len (splice (off + o) v bs) = splice o v (slice off len bs).
Proof.
  intros Hl Ho. apply list_eq. intros i. rewrite slice_lookup, splice_lookup by lia.
  rewrite splice_lookup by (rewrite length_slice; lia). rewrite slice_lookup.
  destruct (decide (i < len)%nat).
  - destruct (decide (o ≤ i < o + length v)%nat); [rewrite decide_True by lia; f_equal; lia|by rewrite decide_False by lia].
  - rewrite decide_False by lia. done.
Qed.

(** A write inside entry [j] changes entry [j] only. *)
Lemma entries_splice buf j o v : length buf = 512%nat → (j < 16)%nat → (o + length v ≤ 32)%nat →
  entries_of (splice (32 * j + o) v buf) = <[j := FatDirEntry_of (splice o v (slice (32 * j) 32 buf))]> (entries_of buf).
Proof.
  intros Hl Hj Ho. apply list_eq. intros i. rewrite entries_lookup. destruct (decide (i = j)) as [->|Hne].
  - rewrite decide_True by lia. rewrite list_lookup_insert_eq by (rewrite length_entries; lia).
    unfold entry_in. by rewrite slice_splice_inside by lia.
  - rewrite list_lookup_insert_ne by done. rewrite entries_lookup. destruct (decide _); [|done].
    unfold entry_in. by rewrite slice_splice_other by lia.
Qed.

Lemma entries_put buf j bs : length buf = 512%nat → (j < 16)%nat → length bs = 32%nat →
  entries_of (put_entry buf j bs) = <[j := FatDirEntry_of bs]> (entries_of buf).
Proof.
  intros Hl Hj Hb. unfold put_entry. rewrite <- (Nat.add_0_r (32 * j)), entries_splice by lia. do 2 f_equal.
  unfold splice. rewrite take_0, drop_ge by (rewrite length_slice; lia). by rewrite app_nil_l, app_nil_r.
Qed.

Lemma length_put buf j bs : length buf = 512%nat → (j < 16)%nat → length bs = 32%nat → length (put_entry buf j bs) = 512%nat.
Proof. intros. unfold put_entry. rewrite length_splice; lia. Qed.

(** What marking an entry deleted leaves of it. *)
Definition mark_deleted (bs : list Z) : FatDirEntry := FatDirEntry_of (splice 0 [0xE5] bs).
Lemma mark_deleted_deleted bs : is_deleted (mark_deleted bs) = true.
Proof. done. Qed.

(** ** 8.3 names *)

(** A character of a name: not a separator, the end of a string or padding. *)
Definition name_char (c : Z) : Prop := is_byte c ∧ c ≠ 0 ∧ c ≠ DOT ∧ c ≠ SPACE ∧ c ≠ SLASH.
(** A name of at most eight characters, with or without an extension of at most three. *)
Definition valid_83 (nm : list Z) : Prop :=
  ∃ base ex, Forall name_char base ∧ Forall name_char ex ∧ (1 ≤ length base ≤ 8)%nat ∧
    char_at base 0 ≠ 0xE5 ∧
    (nm = base ∧ ex = [] ∨ (1 ≤ length ex ≤ 3)%nat ∧ nm = base ++ DOT :: ex).

Lemma to_upper_idem c : to_upper (to_upper c) = to_upper c.
Proof.
  unfold to_upper. destruct ((0x61 <=? c) && (c <=? 0x7A)) eqn:E; [|by rewrite E]. apply andb_true_iff in E as [??].
  rewrite (proj2 (Z.leb_gt _ _)) by lia. done.
Qed.
Lemma to_upper_char c : name_char c → name_char (to_upper c).
Proof. unfold name_char, to_upper, is_byte, DOT, SPACE, SLASH. case_bool; simpl; lia. Qed.

Lemma fill_upper_all n stop base rest : (length base ≤ n)%nat → Forall (λ c, stop c = false) base →
  (length base = n ∨ rest = [] ∨ ∃ c r, rest = c :: r ∧ stop c = true) →
  fill_upper n stop (base ++ rest) = (to_upper <$> base, rest).
Proof.
  revert n. induction base as [|b base IH]; intros n Hn Hst Hrest.
  - destruct n; [done|]. destruct Hrest as [Hr|[->|(c & r & -> & Hc)]]; [done|done|]. cbn. by rewrite Hc.
  - destruct n as [|n]; [simpl in Hn; lia|]. inversion Hst as [|? ? Hb Hst']; subst. cbn. rewrite Hb.
    rewrite (IH n); [done|simpl in Hn; lia|done|]. destruct Hrest as [Hr|Hr]; [left; simpl in Hr; lia|by right].
Qed.

Lemma unpadded_app base : Forall name_char base → ∀ k, unpadded (base ++ replicate k SPACE) = base.
Proof.
  intros H k. induction H as [|c base Hc _ IH]; [by destruct k|]. destruct Hc as (_ & _ & _ & Hsp & _).
  change (unpadded ((c :: base) ++ replicate k SPACE)) with (if c =? SPACE then [] else c :: unpadded (base ++ replicate k SPACE)).
  by rewrite (proj2 (Z.eqb_neq _ _) Hsp), IH.
Qed.
Lemma c_str_chars cs : Forall (λ c, c ≠ 0) cs → c_str cs = cs.
Proof.
  induction 1 as [|c cs Hc _ IH]; [done|]. change (c_str (c :: cs)) with (if c =? 0 then [] else c :: c_str cs).
  by rewrite (proj2 (Z.eqb_neq _ _) Hc), IH.
Qed.
Lemma Forall_upper (cs : list Z) : Forall name_char cs → Forall name_char (to_upper <$> cs).
Proof. intros H. apply Forall_fmap. eapply Forall_impl; [exact H|]. intros c. apply to_upper_char. Qed.
Lemma upper_idem (cs : list Z) : to_upper <$> (to_upper <$> cs) = to_upper <$> cs.
Proof. rewrite <- list_fmap_compose. apply list_fmap_ext. intros ? c _. apply to_upper_idem. Qed.

(** The two fields [make_83_name] fills for a valid name. *)
Lemma make_83_valid base ex nm : Forall name_char base → Forall name_char ex → (1 ≤ length base ≤ 8)%nat →
  (nm = base ∧ ex = [] ∨ (1 ≤ length ex ≤ 3)%nat ∧ nm = base ++ DOT :: ex) →
  make_83_name nm = (pad 8 (to_upper <$> base), pad 3 (to_upper <$> ex)).
Proof.
  intros Hb He Hl Hnm. unfold make_83_name.
  assert (Forall (λ c, (c =? DOT) = false) base) as Hst.
  { eapply Forall_impl; [exact Hb|]. intros c (_ & _ & ? & _). by apply Z.eqb_neq. }
  destruct Hnm as [[-> ->]|[Hle ->]].
  - rewrite <- (app_nil_r base) at 1. rewrite (fill_upper_all 8 _ base []); [done|lia|done|auto].
  - rewrite (fill_upper_all 8 _ base (DOT :: ex)); [|lia|done|right; right; by exists DOT, ex].
    cbn [Z.eqb]. rewrite Z.eqb_refl. rewrite <- (app_nil_r ex) at 1. rewrite (fill_upper_all 3 _ ex []); [done|lia|by apply Forall_true|auto].
Qed.

(** A new entry for a valid name is found under that name, in upper case. *)
Lemma entry_name_83 base ex nm attr cl : Forall name_char base → Forall name_char ex → (1 ≤ length base ≤ 8)%nat →
  (nm = base ∧ ex = [] ∨ (1 ≤ length ex ≤ 3)%nat ∧ nm = base ++ DOT :: ex) →
  entry_name (new_entry (make_83_name nm) attr cl) = to_upper <$> nm.
Proof.
  intros Hb He Hl Hnm. rewrite (make_83_valid base ex nm) by done.
  unfold entry_name, get_filename, new_entry, pad. cbn [name ext fst snd]. rewrite unpadded_app by by apply Forall_upper.
  destruct Hnm as [[-> ->]|[Hle ->]].
  - cbn. rewrite app_nil_r, c_str_chars, upper_idem; [done|]. eapply Forall_impl; [by apply Forall_upper|]. by intros c (_ & ? & _).
  - destruct ex as [|c ex]; [simpl in Hle; lia|]. inversion He as [|? ? Hc _]; subst.
    assert (char_at ((to_upper <$> c :: ex) ++ replicate (3 - length (to_upper <$> c :: ex)) SPACE) 0 = to_upper c) as -> by done.
    rewrite (proj2 (Z.eqb_neq (to_upper c) 0x20)) by (apply (to_upper_char c Hc)).
    rewrite unpadded_app by by apply Forall_upper. change 0x2E with DOT. rewrite c_str_chars, fmap_app.
    + cbn [fmap list_fmap]. rewrite upper_idem. rewrite fmap_app. cbn [fmap list_fmap]. rewrite to_upper_idem, upper_idem. done.
    + apply Forall_app. split; [|constructor; [done|]]; (eapply Forall_impl; [by apply Forall_upper|]; by intros d (_ & ? & _)).
Qed.

Lemma new_entry_name nm attr cl : valid_83 nm → entry_name (new_entry (make_83_name nm) attr cl) = to_upper <$> nm.
Proof. intros (base & ex & Hb & He & Hl & _ & Hnm). by apply (entry_name_83 base ex). Qed.

(** It is a live entry. *)
Lemma new_entry_live nm at' cl : valid_83 nm → at' = FAT_ATTR_DIRECTORY ∨ at' = FAT_ATTR_ARCHIVE →
  is_end (new_entry (make_83_name nm) at' cl) = false ∧ is_valid (new_entry (make_83_name nm) at' cl) = true.
Proof.
  intros (base & ex & Hb & He & Hl & He5 & Hnm) Hat. rewrite (make_83_valid base ex nm) by done.
  destruct base as [|b base]; [simpl in Hl; lia|]. inversion Hb as [|? ? Hc _]; subst.
  assert (to_upper b ≠ 0) by (apply (to_upper_char b Hc)).
  assert (to_upper b ≠ 0xE5) by (unfold to_upper; unfold char_at in He5; simpl in He5; case_bool; simpl; unfold is_byte in *; lia).
  unfold is_valid, is_end, is_deleted, new_entry, pad, char_at. cbn [name attr fst snd fmap list_fmap app nth].
  rewrite (proj2 (Z.eqb_neq _ 0)), (proj2 (Z.eqb_neq _ 0xE5)) by done. destruct Hat as [-> | ->]; done.
Qed.

Lemma new_entry_ok nm at' cl : valid_83 nm → 0 ≤ at' < 256 → entry_ok (new_entry (make_83_name nm) at' cl).
Proof.
  intros (base & ex & Hb & He & Hl & He5 & Hnm) Hat. rewrite (make_83_valid base ex nm) by done.
  assert (∀ n cs, Forall name_char cs → Forall is_byte (pad n (to_upper <$> cs))) as Hby.
  { intros n cs Hcs. unfold pad. apply Forall_app. split; [|by apply Forall_replicate].
    eapply Forall_impl; [by apply Forall_upper|]. by intros c (? & _). }
  assert (length ex ≤ 3)%nat by (destruct Hnm as [[_ ->]|[? _]]; simpl; lia).
  constructor; cbn [new_entry name ext attr nt_reserved create_time_tenth create_time create_date last_access_date first_cluster_high
    write_time write_date first_cluster_low file_size fst snd]; try lia; try (by apply Hby); try apply u16_range;
    unfold pad; rewrite length_app, length_replicate, length_fmap; lia.
Qed.

(** A longer base name is split as if it had a dot after eight characters. *)
Lemma make_83_long nm : Forall name_char nm → (9 ≤ length nm)%nat →
  make_83_name nm = make_83_name (take 8 nm ++ DOT :: take 3 (drop 8 nm)).
Proof.
  intros Hc Hl. assert (Forall (λ c, (c =? DOT) = false) (take 8 nm)) as Hst.
  { eapply Forall_impl; [by apply Forall_take|]. intros c (_ & _ & ? & _). by apply Z.eqb_neq. }
  unfold make_83_name. rewrite <- (take_drop 8 nm) at 1.
  rewrite !(fill_upper_all 8) by (done || rewrite ?length_take; (lia || (left; lia))).
  cbn [Z.eqb]. rewrite Z.eqb_refl. destruct (drop 8 nm) as [|c r] eqn:Ed.
  { apply (f_equal length) in Ed. rewrite length_drop in Ed. simpl in Ed. lia. }
  assert (name_char c) as (_ & _ & Hcd & _).
  { rewrite <- (take_drop 8 nm), Ed in Hc. apply Forall_app in Hc as [_ Hc]. by inversion Hc. }
  rewrite (proj2 (Z.eqb_neq _ _) Hcd). by destruct r as [|? [|? ?]].
Qed.

(** C32: a valid 8.3 name survives [make_83_name]: the entry created for it is
    matched under that name, in upper case, by the search.  A base name of nine
    to twelve characters does not: the search sees another name than the one
    that was created. *)
Theorem names_83 nm at' cl :
  (valid_83 nm → entry_name (new_entry (make_83_name nm) at' cl) = to_upper <$> nm) ∧
  (Forall name_char nm → (9 ≤ length nm)%nat →
   entry_name (new_entry (make_83_name nm) at' cl) = to_upper <$> (take 8 nm ++ DOT :: take 3 (drop 8 nm)) ∧
   entry_name (new_entry (make_83_name nm) at' cl) ≠ to_upper <$> nm).
Proof.
  split; [apply new_entry_name|]. intros Hc Hl. rewrite (make_83_long nm) by done.
  rewrite (entry_name_83 (take 8 nm) (take 3 (drop 8 nm))).
  - split; [done|]. intros Heq. apply (f_equal (λ l, l !! 8%nat)) in Heq. rewrite !list_lookup_fmap in Heq.
    rewrite lookup_app_r in Heq by (rewrite length_take; lia). rewrite length_take, Nat.min_l in Heq by lia. simpl in Heq.
    destruct (nm !! 8%nat) as [c|] eqn:E8; [|done]. simpl in Heq. injection Heq as Heq.
    assert (name_char c) as Hcc by (eapply Forall_lookup_1; eauto). apply to_upper_char in Hcc as (_ & _ & Hd & _). by rewrite <- Heq in Hd.
  - by apply Forall_take.
  - by apply Forall_take, Forall_drop.
  - rewrite length_take. lia.
  - right. split; [rewrite length_take, length_drop; lia|done].
Qed.

Lemma names_83_witness :
  entry_name (new_entry (make_83_name (bytes_of "readme.txt")) FAT_ATTR_ARCHIVE 0) = bytes_of "README.TXT" ∧
  entry_name (new_entry (make_83_name (bytes_of "LONGFILENAME")) FAT_ATTR_ARCHIVE 0) = bytes_of "LONGFILE.NAM".
Proof.
  split.
  - apply (names_83 (bytes_of "readme.txt") FAT_ATTR_ARCHIVE 0).
    exists (bytes_of "readme"), (bytes_of "txt"). cbn. split_and!; [..|right; split; [lia|done]]; try lia; try done;
      repeat constructor; done.
  - apply (names_83 (bytes_of "LONGFILENAME") FAT_ATTR_ARCHIVE 0); [repeat constructor; done|cbn; lia].
Defined.
