(* ===== verification/FatDirProofs.v ===== *)
(** * The FAT32 driver, part 2: directories, proofs

    A directory is the list of entries in the sectors of its chain.  Searching,
    adding and removing an entry implement the operations on that list. *)

From S2P Require Import Prelude Zstl Pmm BlockDev FatLayout FatCore FatCoreProofs FatChain FatDir FatEntry.

#[local] Arguments forM : simpl never.
#[local] Arguments seqZ : simpl never.
#[local] Arguments sectors : simpl never.
#[local] Arguments Z.mul : simpl never.
#[local] Arguments Z.of_nat : simpl never.
#[local] Arguments entries_of : simpl never.

(** ** Lists of entries *)

(** The entry a name denotes: the first valid one of that name before the end marker. *)
Definition lookup_name (nm : list Z) (es : list FatDirEntry) : option FatDirEntry :=
  match match_entries nm es 0 with Some (Some (_, e)) => Some e | _ => None end.

Lemma match_app nm es1 es2 j :
  match_entries nm (es1 ++ es2) j =
  match match_entries nm es1 j with None => match_entries nm es2 (j + length es1) | r => r end.
Proof.
  revert j. induction es1 as [|e es1 IH]; intros j; cbn; [by rewrite Nat.add_0_r|].
  destruct (is_end e); [done|]. rewrite !IH. replace (S j + length es1)%nat with (j + S (length es1))%nat by lia.
  destruct (is_valid e); simpl; [|done]. by destruct (bool_decide _).
Qed.

Lemma match_index nm es j k :
  match_entries nm es (j + k) = match match_entries nm es j with
    | Some (Some (i, e)) => Some (Some (i + k, e)%nat) | Some None => Some None | None => None end.
Proof.
  revert j. induction es as [|e es IH]; intros j; cbn; [done|]. change (S (j + k)) with (S j + k)%nat.
  destruct (is_end e); [done|]. rewrite IH. destruct (is_valid e); simpl; [|done]. by destruct (bool_decide _).
Qed.

Lemma match_Some nm es j i e : match_entries nm es j = Some (Some (i, e)) →
  ∃ es1 es2, es = es1 ++ e :: es2 ∧ i = (j + length es1)%nat ∧ match_entries nm es1 j = None ∧
    is_end e = false ∧ is_valid e = true ∧ entry_name e = nm.
Proof.
  revert j. induction es as [|x es IH]; intros j; cbn; [done|]. destruct (is_end x) eqn:He; [done|].
  destruct (is_valid x) eqn:Hv; simpl; [case_bool_decide|].
  - intros [= <- <-]. exists [], es. by rewrite Nat.add_0_r.
  - intros (es1 & es2 & -> & -> & Hn & ?)%IH. exists (x :: es1), es2. split_and!; [done|simpl; lia| |naive_solver..].
    cbn. rewrite He, Hv. simpl. by rewrite bool_decide_eq_false_2.
  - intros (es1 & es2 & -> & -> & Hn & ?)%IH. exists (x :: es1), es2. split_and!; [done|simpl; lia| |naive_solver..].
    cbn. by rewrite He, Hv.
Qed.

(** A deleted entry is skipped, an end marker stops the search. *)
Lemma match_skip nm e es j : is_end e = false → is_valid e = false → match_entries nm (e :: es) j = match_entries nm es (S j).
Proof. intros He Hv. cbn. by rewrite He, Hv. Qed.
Lemma deleted_skipped e : is_deleted e = true → is_end e = false ∧ is_valid e = false.
Proof.
  unfold is_valid, is_deleted, is_end. intros ->%Z.eqb_eq. done.
Qed.

(** All entries from the first end marker on are end markers. *)
Definition clean (es : list FatDirEntry) : Prop :=
  ∀ es1 x es2, es = es1 ++ x :: es2 → is_end x = true → Forall (λ y, is_end y = true) es2.

(** The slot a new entry goes to. *)
Lemma find_slot_Some es j i b : find_slot es j = Some (i, b) →
  ∃ es1 x es2, es = es1 ++ x :: es2 ∧ i = (j + length es1)%nat ∧ b = is_end x ∧ (is_end x || is_deleted x) = true ∧
    Forall (λ y, is_end y = false ∧ is_deleted y = false) es1.
Proof.
  revert j. induction es as [|e es IH]; intros j; cbn; [done|]. destruct (is_end e || is_deleted e) eqn:E.
  - intros [= <- <-]. exists [], e, es. rewrite Nat.add_0_r. by split_and!.
  - intros (es1 & x & es2 & -> & -> & -> & ? & ?)%IH. exists (e :: es1), x, es2. apply orb_false_iff in E as [??].
    split_and!; [done|simpl; lia|done|done|by constructor].
Qed.
Lemma find_slot_None es j : find_slot es j = None → Forall (λ y, is_end y = false ∧ is_deleted y = false) es.
Proof.
  revert j. induction es as [|e es IH]; intros j; cbn; [done|]. destruct (is_end e || is_deleted e) eqn:E; [done|].
  apply orb_false_iff in E as [??]. constructor; eauto.
Qed.

Lemma match_ends nm es j : Forall (λ y, is_end y = true) es → match_entries nm es j = None ∨ match_entries nm es j = Some None.
Proof. destruct 1 as [|e es He]; [by left|right]. cbn. by rewrite He. Qed.

Lemma match_no_end nm es j : Forall (λ y, is_end y = false) es → match_entries nm es j ≠ Some None.
Proof.
  intros H. revert j. induction H as [|e es He _ IH]; intros j; cbn; [done|]. rewrite He.
  destruct (is_valid e); simpl; [|done]. by case_bool_decide.
Qed.

(** Names in a directory after an entry [e] took the slot of [x]: [e] answers
    to its own name, every other name means what it meant. *)
Lemma lookup_put nm es1 x es2 es2' e :
  Forall (λ y, is_end y = false) es1 → (is_end x || is_deleted x) = true → is_end e = false → is_valid e = true →
  lookup_name (entry_name e) (es1 ++ x :: es2) = None →
  (is_end x = false → es2' = es2) → (is_end x = true → Forall (λ y, is_end y = true) es2') →
  lookup_name nm (es1 ++ e :: es2') = if decide (nm = entry_name e) then Some e else lookup_name nm (es1 ++ x :: es2).
Proof.
  intros Hes Hx He Hv Hno Hdel Hend. unfold lookup_name in *. rewrite !match_app in *.
  destruct (decide (nm = entry_name e)) as [->|Hne].
  - destruct (match_entries (entry_name e) es1 0) as [[[i y]|]|] eqn:Em; [done|by destruct (match_no_end _ _ _ Hes Em)|].
    cbn. rewrite He, Hv. simpl. by rewrite bool_decide_eq_true_2.
  - destruct (match_entries nm es1 0) as [[[i y]|]|] eqn:Em; [done|done|].
    cbn [match_entries]. rewrite He, Hv. cbn [negb]. rewrite bool_decide_eq_false_2 by done.
    destruct (is_end x) eqn:Ex.
    + by destruct (match_ends nm es2' (S (0 + length es1)) (Hend eq_refl)) as [->| ->].
    + rewrite (Hdel eq_refl). rewrite (proj2 (deleted_skipped x Hx)). done.
Qed.

(** Names after the first entry called [nm] was marked deleted. *)
Lemma lookup_delete nm' es1 e es2 e' : is_end e = false → is_valid e = true → is_deleted e' = true → nm' ≠ entry_name e →
  lookup_name nm' (es1 ++ e' :: es2) = lookup_name nm' (es1 ++ e :: es2).
Proof.
  intros He Hv Hd Hne. unfold lookup_name. rewrite !match_app. destruct (match_entries nm' es1 0) as [[[]|]|]; [done..|].
  destruct (deleted_skipped e' Hd) as [He' Hv']. rewrite (match_skip _ _ _ _ He' Hv'). cbn. rewrite He, Hv. simpl.
  by rewrite bool_decide_eq_false_2 by done.
Qed.

(** ** Walking the sectors of a directory *)

Definition cluster_lbas (g : geometry) (c : Z) : list Z := (λ i, cluster_lba g c + i) <$> seqZ 0 (sectors_per_cluster_ g).
Definition dir_lbas (g : geometry) (l : list Z) : list Z := l ≫= cluster_lbas g.

Lemma dir_lbas_app g l1 l2 : dir_lbas g (l1 ++ l2) = dir_lbas g l1 ++ dir_lbas g l2.
Proof. apply bind_app. Qed.

Section dirs.
Context {D : Type} `{BD : BlockDevice D} `{BL : !BlockDeviceLaws D} `{RD : !ReliableDevice D}.
Context {P : Type} `{IVP : InplaceVector P (list Z)} (KERNEL_BASE : Z).
Implicit Types s : fs D.

(** The sectors of a valid cluster can be transferred, and are not of the table. *)
Lemma cluster_lbas_ok bc g c lba : geo_ok bc g → valid_cluster g c = true → lba ∈ cluster_lbas g c →
  0 ≤ lba ∧ lba + 1 ≤ bc ∧ u32 lba = lba ∧ data_lba g c lba ∧ ¬ fat_area g lba.
Proof.
  intros G Hv Hin. unfold cluster_lbas in Hin. apply list_elem_of_fmap in Hin as (i & -> & Hi%elem_of_seqZ).
  destruct (cluster_lba_spec _ _ _ G Hv) as (H0 & H1 & Ha & _). pose proof (g_bc _ _ G).
  assert (data_lba g c (cluster_lba g c + i)) by (unfold data_lba; lia).
  split_and!; [lia|lia|apply u32_small; lia|done|by apply Ha].
Qed.

Section sectors_rule.
Context {A R : Type} (g : geometry) (val : Z → Z) (start : Z) (l : list Z) (body : Z → A → M (fs D) (A + R)).
Context (I : list Z → A → fs D → Prop) (Q : Out (fs D) (A + R) → Prop).
Context (Hl : chain g val start = Some l).
Context (HI : ∀ l1 a s, I l1 a s → fs_ok s ∧ geo (fat s) = g ∧ ∀ c, valid_cluster g c = true → val_of s c = val c).
Context (Hsame : ∀ l1 a s s', I l1 a s → fs_ok s' → same s s' → I l1 a s').
Context (Hbody : ∀ l1 x l2 a s, dir_lbas g l = l1 ++ x :: l2 → I l1 a s →
  match body x a s with Ret (inl a') s' => I (l1 ++ [x]) a' s' | o => Q o end).

(** The sectors of one cluster. *)
Lemma sector_loop_rule n : ∀ lba l1 l2 a s,
  dir_lbas g l = l1 ++ ((λ i, lba + i) <$> seqZ 0 (Z.of_nat n)) ++ l2 → (∀ i, 0 ≤ i < Z.of_nat n → u32 (lba + i) = lba + i) → I l1 a s →
  match sector_loop n lba a (λ lba a, use_dev;; body lba a) s with
  | Ret (inl a') s' => I (l1 ++ ((λ i, lba + i) <$> seqZ 0 (Z.of_nat n))) a' s'
  | o => Q o
  end.
Proof.
  induction n as [|n IH]; intros lba l1 l2 a s El Hu Ha; [by cbn; rewrite app_nil_r|].
  rewrite seqZ_cons in El |- * by lia. replace (Z.pred (Z.of_nat (S n))) with (Z.of_nat n) in * by lia.
  assert ((λ i, lba + i) <$> seqZ (Z.succ 0) (Z.of_nat n) = (λ i, lba + 1 + i) <$> seqZ 0 (Z.of_nat n)) as Eseq.
  { change (Z.succ 0) with (1 + 0). rewrite <- fmap_add_seqZ, <- list_fmap_compose. apply list_fmap_ext. intros ? x _. simpl. lia. }
  cbn [fmap list_fmap] in El |- *. rewrite Eseq in El |- *. cbn [sector_loop].
  destruct (HI _ _ _ Ha) as (Hok & _). rewrite Z.add_0_r in *. pose proof (Hu 0 ltac:(lia)) as Hu0. rewrite Z.add_0_r in Hu0. rewrite Hu0.
  rewrite bind_assoc. rewrite (bind_Ret _ _ _ _ _ (use_dev_ok s Hok)).
  pose proof (Hbody l1 lba _ a s El Ha) as Hb. unfold bind. destruct (body lba a s) as [[a'|b] s'|e s'|r]; [|exact Hb..].
  specialize (IH (lba + 1) (l1 ++ [lba]) l2 a' s'). rewrite <- !app_assoc in IH. apply IH; [done| |done].
  intros i Hi. replace (lba + 1 + i) with (lba + (i + 1)) by lia. apply Hu. lia.
Qed.

Lemma cluster_sectors_rule l1 c l2 a s : l = l1 ++ c :: l2 → I (dir_lbas g l1) a s →
  match sector_loop (Z.to_nat (sectors_per_cluster_ g)) (partition_start_lba_ g + cluster_to_sector g c) a (λ lba a, use_dev;; body lba a) s with
  | Ret (inl a') s' => I (dir_lbas g (l1 ++ [c])) a' s'
  | o => Q o
  end.
Proof using Hl HI Hbody BL RD.
  intros El Ha. clear Hsame. destruct (HI _ _ _ Ha) as (Hok & Hg & _). pose proof (ok_geo _ Hok) as G. rewrite Hg in G.
  pose proof (follow_valid _ _ _ _ _ Hl c ltac:(set_solver)) as Hv. pose proof (g_spc _ _ G).
  pose proof (sector_loop_rule (Z.to_nat (sectors_per_cluster_ g)) (cluster_lba g c) (dir_lbas g l1) (dir_lbas g l2) a s) as Hs.
  rewrite Z2Nat.id in Hs by lia. fold (cluster_lbas g c) in Hs.
  replace (dir_lbas g (l1 ++ [c])) with (dir_lbas g l1 ++ cluster_lbas g c) by (rewrite dir_lbas_app; cbn; by rewrite app_nil_r).
  apply Hs; [by rewrite El, dir_lbas_app| |done].
  intros i Hi. apply (cluster_lbas_ok _ _ _ _ G Hv). apply list_elem_of_fmap. exists i. split; [done|]. apply elem_of_seqZ. lia.
Qed.

Lemma dir_rule a s : (∀ a s, I (dir_lbas g l) a s → Q (Ret (inl a) s)) → I [] a s → Q (dir_sectors start a body s).
Proof.
  intros Hend Ha. unfold dir_sectors.
  apply (walk_rule g val start l _ (λ l1 a s, I (dir_lbas g l1) a s) Q Hl); [intros l1; apply HI|intros l1; apply Hsame| |done|done].
  intros l1 c l2 a' s' El Ha'. destruct (HI _ _ _ Ha') as (_ & Hg & _).
  rewrite (bind_Ret (geom id) _ s' g s') by (unfold geom, gets; by rewrite Hg). by apply cluster_sectors_rule with (l2 := l2).
Qed.
End sectors_rule.

(** The entries stored in some sectors, and those of the directory [l]. *)
Definition entries_at (d : D) (lbas : list Z) : list FatDirEntry := lbas ≫= λ i, entries_of (sector d i).
Definition dir_of (s : fs D) (l : list Z) : list FatDirEntry := entries_at (disk s) (dir_lbas (geo (fat s)) l).

Lemma entries_at_app d l1 l2 : entries_at d (l1 ++ l2) = entries_at d l1 ++ entries_at d l2.
Proof. apply bind_app. Qed.
Lemma entries_at_ext d d' l : (∀ i, i ∈ l → sector d' i = sector d i) → entries_at d' l = entries_at d l.
Proof.
  induction l as [|i l IH]; intros He; [done|]. cbn. rewrite (He i) by set_solver. f_equal. apply IH. set_solver.
Qed.

(** A sector of a directory is read as it is on the disk. *)
Lemma dir_read s c lba buf : fs_ok s → valid_cluster (geo (fat s)) c = true → lba ∈ cluster_lbas (geo (fat s)) c → length buf = 512%nat →
  ∃ s', read lba 1 buf s = Ret (sector (disk s) lba) s' ∧ fs_ok s' ∧ same s s'.
Proof.
  intros Hok Hv Hin Hlen. destruct (cluster_lbas_ok _ _ _ _ (ok_geo _ Hok) Hv Hin) as (H0 & H1 & _).
  destruct (read_ok' s lba 1 buf H0 H1 Hlen) as (d & Hr & Hbc & Hd). rewrite sectors_1 in Hr.
  exists (MkFs (fat s) d (heap s)). split; [done|]. destruct (Hok) as [? G ? ? Hca]. split; [|done].
  constructor; simpl; [done|by rewrite Hbc|done|done|]. destruct Hca as [?|[? ?]]; [by left|right]. by rewrite Hd.
Qed.

(** Every sector of a directory is a sector of one of its clusters. *)
Lemma dir_lbas_in g l1 lba l2 l : dir_lbas g l = l1 ++ lba :: l2 → ∃ c, c ∈ l ∧ lba ∈ cluster_lbas g c.
Proof.
  intros El. assert (lba ∈ dir_lbas g l) as Hin by (rewrite El; set_solver).
  apply list_elem_of_bind in Hin as (c & ? & ?). by exists c.
Qed.

Lemma lookup_name_match nm es1 es2 : match_entries nm es1 0 = None →
  lookup_name nm (es1 ++ es2) = lookup_name nm es2.
Proof.
  intros Hn. unfold lookup_name. rewrite match_app, Hn. rewrite (match_index nm es2 0 (length es1)).
  by destruct (match_entries nm es2 0) as [[[]|]|].
Qed.

Lemma find_entry_spec s start l nm : fs_ok s → chain (geo (fat s)) (val_of s) start = Some l →
  ∃ s', fs_ok s' ∧ same s s' ∧ find_entry start nm s =
    match lookup_name nm (dir_of s l) with Some e => Ret e s' | None => Fail E_NotFound s' end.
Proof.
  intros Hok Hl. unfold find_entry. set (body := λ (lba : Z) (buf : list Z), _ : M (fs D) (list Z + FatDirEntry)).
  assert (match dir_sectors start (replicate 512 0) body s with
    | Ret (inl _) s' => (fs_ok s' ∧ same s s') ∧ lookup_name nm (dir_of s l) = None
    | Ret (inr e) s' => (fs_ok s' ∧ same s s') ∧ lookup_name nm (dir_of s l) = Some e
    | Fail e s' => (fs_ok s' ∧ same s s') ∧ e = E_NotFound ∧ lookup_name nm (dir_of s l) = None
    | Halt _ => False end) as H.
  { apply (dir_rule (geo (fat s)) (val_of s) start l body (λ done buf s', (fs_ok s' ∧ same s s') ∧ length buf = 512%nat ∧
      match_entries nm (entries_at (disk s) done) 0 = None) (λ o, match o with
      | Ret (inl _) s' => (fs_ok s' ∧ same s s') ∧ lookup_name nm (dir_of s l) = None
      | Ret (inr e) s' => (fs_ok s' ∧ same s s') ∧ lookup_name nm (dir_of s l) = Some e
      | Fail e s' => (fs_ok s' ∧ same s s') ∧ e = E_NotFound ∧ lookup_name nm (dir_of s l) = None
      | Halt _ => False end) Hl).
    - intros _ _ s' ((Hok' & Hs) & _). pose proof Hs as [(Hg & _) _]. split_and!; [done..|]. intros. by apply same_val.
    - intros l1 a s1 s2 ((_ & Hs) & ?) ? Hs2. split; [|done]. split; [done|by eapply same_trans].
    - intros l1 lba l2 buf s1 El ((Hok1 & Hs1) & Hlen & Hnone). unfold body.
      destruct (dir_lbas_in _ _ _ _ _ El) as (c & Hc & Hin). pose proof Hs1 as [(Hg1 & _) Hd1].
      destruct (dir_read s1 c lba buf) as (s2 & Hr & Hok2 & Hs2); [done|rewrite Hg1; by eapply follow_valid|by rewrite Hg1|done|].
      rewrite (bind_Ret _ _ _ _ _ Hr), Hd1. pose proof (same_trans _ _ _ Hs1 Hs2) as Hs3.
      assert (dir_of s l = entries_at (disk s) l1 ++ entries_of (sector (disk s) lba) ++ entries_at (disk s) l2) as Edir.
      { unfold dir_of. by rewrite El, entries_at_app. }
      assert (lookup_name nm (dir_of s l) = lookup_name nm (entries_of (sector (disk s) lba) ++ entries_at (disk s) l2)) as Elk
        by (rewrite Edir; by apply lookup_name_match).
      destruct (match_entries nm (entries_of (sector (disk s) lba)) 0) as [[[j e]|]|] eqn:Em.
      + split; [done|]. rewrite Elk. unfold lookup_name. by rewrite match_app, Em.
      + split; [done|]. split; [done|]. rewrite Elk. unfold lookup_name. by rewrite match_app, Em.
      + split; [done|]. split; [apply sector_length|]. rewrite entries_at_app, match_app, Hnone.
        rewrite (match_index nm _ 0). cbn. by rewrite app_nil_r, Em.
    - intros buf s' (Hs' & _ & Hn). split; [done|]. unfold lookup_name, dir_of. by rewrite Hn.
    - split; [done|]. split; [apply length_replicate|done]. }
  unfold bind. destruct (dir_sectors start (replicate 512 0) body s) as [[b|e] s'|e s'|r]; [..|done].
  - destruct H as ((? & ?) & ->). by exists s'.
  - destruct H as ((? & ?) & ->). by exists s'.
  - destruct H as ((? & ?) & -> & ->). by exists s'.
Qed.

(** *** Changing one sector *)

Lemma cluster_lbas_NoDup g c : NoDup (cluster_lbas g c).
Proof. apply NoDup_fmap_2; [intros ???; lia|apply NoDup_seqZ]. Qed.

Lemma dir_lbas_NoDup bc g l : geo_ok bc g → (∀ c, c ∈ l → valid_cluster g c = true) → NoDup l → NoDup (dir_lbas g l).
Proof.
  intros G Hv Hnd. induction Hnd as [|c l Hc Hnd IH]; [constructor|]. cbn. apply NoDup_app. split_and!.
  - apply cluster_lbas_NoDup.
  - intros i Hi Hi'. apply list_elem_of_bind in Hi' as (c' & Hi' & Hc').
    destruct (cluster_lbas_ok _ _ _ _ G (Hv c ltac:(set_solver)) Hi) as (_ & _ & _ & Hd & _).
    destruct (cluster_lbas_ok _ _ _ _ G (Hv c' ltac:(set_solver)) Hi') as (_ & _ & _ & Hd' & _).
    apply Hc. by rewrite (data_lba_disjoint _ _ c c' i G (Hv c ltac:(set_solver)) (Hv c' ltac:(set_solver)) Hd Hd').
  - apply IH. set_solver.
Qed.

Lemma chain_lbas_NoDup s start l : fs_ok s → chain (geo (fat s)) (val_of s) start = Some l → NoDup (dir_lbas (geo (fat s)) l).
Proof. intros Hok Hl. eapply dir_lbas_NoDup; [apply Hok|by eapply follow_valid|by eapply follow_NoDup]. Qed.

(** A sector of a directory was replaced. *)
Record sector_step (s s' : fs D) (lba : Z) (buf : list Z) : Prop := {
  ss_ok : fs_ok s';
  ss_frame : frame s s';
  ss_val c : valid_cluster (geo (fat s)) c = true → val_of s' c = val_of s c;
  ss_rest i : i ≠ lba → sector (disk s') i = sector (disk s) i;
  ss_new : sector (disk s') lba = buf }.

Lemma dir_write s c lba buf : fs_ok s → valid_cluster (geo (fat s)) c = true → lba ∈ cluster_lbas (geo (fat s)) c →
  length buf = 512%nat → Forall is_byte buf → ∃ s', write lba 1 buf s = Ret tt s' ∧ sector_step s s' lba buf.
Proof.
  intros Hok Hv Hin Hlen Hb. apply list_elem_of_fmap in Hin as (k & -> & Hk%elem_of_seqZ).
  destruct (cluster_write_ok s c k buf Hok Hv ltac:(lia) Hlen Hb) as (s' & Hr & ? & ? & ? & ? & ?). exists s'. by split.
Qed.

Lemma sector_step_same s s1 s2 lba buf : same s s1 → sector_step s1 s2 lba buf → sector_step s s2 lba buf.
Proof.
  intros Hs [H1 H2 H3 H4 H5]. pose proof Hs as [Hf Hd]. pose proof Hf as (Hg & _). rewrite Hg in *.
  constructor; [done|by eapply frame_trans| | |done].
  - intros c Hc. rewrite H3 by done. by apply same_val.
  - intros i Hi. by rewrite H4, Hd.
Qed.

(** The directory after one of its sectors was replaced. *)
Lemma dir_after s s' l l1 lba l2 buf : NoDup (dir_lbas (geo (fat s)) l) → dir_lbas (geo (fat s)) l = l1 ++ lba :: l2 →
  sector_step s s' lba buf → dir_of s' l = entries_at (disk s) l1 ++ entries_of buf ++ entries_at (disk s) l2.
Proof.
  intros Hnd El [_ (Hg & _) _ Hrest Hnew]. unfold dir_of. rewrite Hg, El, entries_at_app. cbn. rewrite Hnew.
  rewrite El in Hnd. apply NoDup_app in Hnd as (_ & Hd & Hnd). inversion Hnd as [|? ? Hn _]; subst.
  f_equal; [|f_equal]; apply entries_at_ext; intros i Hi; apply Hrest; intros ->; [apply (Hd lba Hi); set_solver|done].
Qed.

Lemma insert_mid {A} (es1 es2 : list A) x y : <[length es1 := y]> (es1 ++ x :: es2) = es1 ++ y :: es2.
Proof. rewrite insert_app_r_alt by lia. by rewrite Nat.sub_diag. Qed.

(** ** Removal *)

(** The result of removing the first entry called [nm]. *)
Definition removed (s s' : fs D) (l : list Z) (nm : list Z) : Prop :=
  ∃ es1 e es2 e' lba buf, dir_of s l = es1 ++ e :: es2 ∧ match_entries nm es1 0 = None ∧
    is_end e = false ∧ is_valid e = true ∧ entry_name e = nm ∧ is_deleted e' = true ∧
    dir_of s' l = es1 ++ e' :: es2 ∧ lba ∈ dir_lbas (geo (fat s)) l ∧ sector_step s s' lba buf.

Lemma remove_dir_entry_spec s start l nm : fs_ok s → chain (geo (fat s)) (val_of s) start = Some l →
  match match_entries nm (dir_of s l) 0 with
  | Some (Some _) => ∃ s', remove_dir_entry start nm s = Ret tt s' ∧ removed s s' l nm
  | _ => ∃ s', remove_dir_entry start nm s = Fail E_NotFound s' ∧ fs_ok s' ∧ same s s'
  end.
Proof.
  intros Hok Hl. unfold remove_dir_entry. set (body := λ (lba : Z) (buf : list Z), _ : M (fs D) (list Z + unit)).
  set (Q := λ o : Out (fs D) (list Z + unit), match o with
    | Ret (inl _) s' => (fs_ok s' ∧ same s s') ∧ match_entries nm (dir_of s l) 0 = None
    | Ret (inr _) s' => removed s s' l nm ∧ ∃ p, match_entries nm (dir_of s l) 0 = Some (Some p)
    | Fail e s' => (fs_ok s' ∧ same s s') ∧ e = E_NotFound ∧ match_entries nm (dir_of s l) 0 = Some None
    | Halt _ => False end).
  assert (Q (dir_sectors start (replicate 512 0) body s)) as H.
  { apply (dir_rule (geo (fat s)) (val_of s) start l body (λ done buf s', (fs_ok s' ∧ same s s') ∧ length buf = 512%nat ∧
      match_entries nm (entries_at (disk s) done) 0 = None) Q Hl).
    - intros _ _ s' ((Hok' & Hs) & _). pose proof Hs as [(Hg & _) _]. split_and!; [done..|]. intros. by apply same_val.
    - intros l1 a s1 s2 ((_ & Hs) & ?) ? Hs2. split; [|done]. split; [done|by eapply same_trans].
    - intros l1 lba l2 buf s1 El ((Hok1 & Hs1) & Hlen & Hnone). unfold body.
      destruct (dir_lbas_in _ _ _ _ _ El) as (c & Hc & Hin). pose proof Hs1 as [(Hg1 & _) Hd1].
      pose proof (follow_valid _ _ _ _ _ Hl c Hc) as Hvc.
      destruct (dir_read s1 c lba buf) as (s2 & Hr & Hok2 & Hs2); [done|by rewrite Hg1|by rewrite Hg1|done|].
      rewrite (bind_Ret _ _ _ _ _ Hr), Hd1. pose proof (same_trans _ _ _ Hs1 Hs2) as Hs3. pose proof Hs3 as [(Hg3 & _) _].
      assert (dir_of s l = entries_at (disk s) l1 ++ entries_of (sector (disk s) lba) ++ entries_at (disk s) l2) as Edir.
      { unfold dir_of. by rewrite El, entries_at_app. }
      pose proof (match_app nm (entries_at (disk s) l1) (entries_of (sector (disk s) lba) ++ entries_at (disk s) l2) 0) as Ematch.
      rewrite <- Edir, Hnone, match_app, (match_index nm (entries_of _) 0) in Ematch.
      destruct (match_entries nm (entries_of (sector (disk s) lba)) 0) as [[[j e]|]|] eqn:Em.
      + destruct (match_Some _ _ _ _ _ Em) as (k1 & k2 & Ek & -> & Hk1 & He & Hv & Hn).
        pose proof (sector_length (disk s) lba) as Hsl. assert (length k1 < 16)%nat as Hj.
        { pose proof (length_entries (sector (disk s) lba)) as Hle. rewrite Ek, length_app in Hle. simpl in Hle. lia. }
        destruct (dir_write s2 c lba (splice (32 * (0 + length k1)) [0xE5] (sector (disk s) lba))) as (s3 & Hw & Hstep);
          [done|by rewrite Hg3|by rewrite Hg3|rewrite length_splice; [done|simpl; lia]|apply splice_bytes; [by repeat constructor|apply sector_bytes]|].
        rewrite (bind_Ret _ _ _ _ _ Hw). apply (sector_step_same s) in Hstep; [|done]. unfold Q. cbn [ret]. split; [|eauto].
        exists (entries_at (disk s) l1 ++ k1), e, (k2 ++ entries_at (disk s) l2), (mark_deleted (slice (32 * length k1) 32 (sector (disk s) lba))), lba. eexists.
        split; [rewrite Edir, Ek, <- !app_assoc; reflexivity|].
        split; [|split; [exact He|]; split; [exact Hv|]; split; [exact Hn|]; split; [apply mark_deleted_deleted|]; split; [|split; [rewrite El; apply elem_of_app; right; apply list_elem_of_here|exact Hstep]]].
        * rewrite match_app, Hnone. by rewrite (match_index nm k1 0), Hk1.
        * rewrite (dir_after s s3 l l1 lba l2 _ (chain_lbas_NoDup s start l Hok Hl) El Hstep).
          pose proof (entries_splice (sector (disk s) lba) (length k1) 0 [0xE5] Hsl Hj ltac:(simpl; lia)) as Hsp.
          rewrite Nat.add_0_r, Ek, insert_mid in Hsp. rewrite Nat.add_0_l, Hsp, <- !app_assoc. reflexivity.
      + done.
      + split; [done|]. split; [apply sector_length|]. rewrite entries_at_app, match_app, Hnone.
        rewrite (match_index nm _ 0). cbn. by rewrite app_nil_r, Em.
    - intros buf s' (Hs' & _ & Hn). by split.
    - split; [done|]. split; [apply length_replicate|done]. }
  unfold bind. destruct (dir_sectors start (replicate 512 0) body s) as [[b|[]] s'|e s'|r]; [..|done]; simpl in H.
  - destruct H as (? & ->). by exists s'.
  - destruct H as (? & [j e] & ->). by exists s'.
  - destruct H as (? & -> & ->). by exists s'.
Qed.
End dirs.
