(* ===== verification/FatAdd.v ===== *)
(** * The FAT32 driver, part 2: adding entries, proofs

    A new entry takes the first free slot of its directory, or the first slot
    of a cluster appended to it; creation and removal of files follow. *)

From S2P Require Import Prelude Zstl Pmm BlockDev FatLayout FatCore FatCoreProofs FatChain FatDir FatEntry FatDirProofs.

#[local] Arguments forM : simpl never.
#[local] Arguments seqZ : simpl never.
#[local] Arguments sectors : simpl never.
#[local] Arguments Z.mul : simpl never.
#[local] Arguments Z.of_nat : simpl never.
#[local] Arguments entries_of : simpl never.

(** ** Slots of a list of entries *)

Lemma find_slot_app es1 es2 j : find_slot (es1 ++ es2) j =
  match find_slot es1 j with None => find_slot es2 (j + length es1) | r => r end.
Proof.
  revert j. induction es1 as [|e es1 IH]; intros j; cbn; [by rewrite Nat.add_0_r|].
  destruct (_ || _); [done|]. rewrite IH. by replace (S j + length es1)%nat with (j + S (length es1))%nat by lia.
Qed.
Lemma find_slot_index es j k : find_slot es (j + k) = (λ p, (p.1 + k, p.2)%nat) <$> find_slot es j.
Proof.
  revert j. induction es as [|e es IH]; intros j; cbn; [done|]. destruct (_ || _); [done|].
  change (S (j + k)) with (S j + k)%nat. apply IH.
Qed.

(** The all-zero entry. *)
Definition zero_entry : FatDirEntry := FatDirEntry_of (replicate 32 0).

(** The entries of a sector after the new entry [e] took slot [j]. *)
Definition put_in (buf : list Z) (j : nat) (was_end : bool) (bs : list Z) : list Z :=
  let buf := put_entry buf j bs in
  if was_end && (j + 1 <? DIR_COUNT)%nat then put_entry buf (j + 1) (replicate 32 0) else buf.

Lemma put_in_ok buf j was_end bs : length buf = 512%nat → Forall is_byte buf → (j < 16)%nat → length bs = 32%nat → Forall is_byte bs →
  length (put_in buf j was_end bs) = 512%nat ∧ Forall is_byte (put_in buf j was_end bs).
Proof.
  intros Hl Hb Hj Hbs Hbb. unfold put_in, DIR_COUNT. pose proof (length_put buf j bs Hl Hj Hbs).
  assert (Forall is_byte (put_entry buf j bs)) by by apply splice_bytes.
  destruct (was_end && _) eqn:E; [|done]. apply andb_true_iff in E as [_ Hlt%Nat.ltb_lt]. split.
  - by apply length_put; [|lia|].
  - apply splice_bytes; [by apply Forall_replicate|done].
Qed.

Lemma put_in_entries buf k1 x k2 bs : length buf = 512%nat → entries_of buf = k1 ++ x :: k2 → length bs = 32%nat →
  ∃ k2', entries_of (put_in buf (length k1) (is_end x) bs) = k1 ++ FatDirEntry_of bs :: k2' ∧
    (is_end x = false → k2' = k2) ∧ (is_end x = true → Forall (λ y, is_end y = true) k2 → Forall (λ y, is_end y = true) k2').
Proof.
  intros Hl Ek Hbs. assert (length k1 + S (length k2) = 16)%nat as Hlen.
  { rewrite <- (length_entries buf), Ek, length_app. done. }
  pose proof (entries_put buf (length k1) bs Hl ltac:(lia) Hbs) as He. rewrite Ek, insert_mid in He.
  unfold put_in, DIR_COUNT. destruct (is_end x) eqn:Ex; cbn [andb]; [|by exists k2].
  destruct (Nat.ltb_spec (length k1 + 1) 16); [|exists k2; split_and!; [done|done|auto]].
  destruct k2 as [|y k2]; [simpl in Hlen; lia|]. exists (zero_entry :: k2). split_and!; [|done|].
  - rewrite entries_put; [|apply length_put; [done|lia|done]|lia|done]. rewrite He.
    change (FatDirEntry_of bs :: y :: k2) with ([FatDirEntry_of bs] ++ y :: k2). rewrite app_assoc.
    replace (length k1 + 1)%nat with (length (k1 ++ [FatDirEntry_of bs])) by (by rewrite length_app).
    rewrite insert_mid, <- app_assoc. reflexivity.
  - intros _ Hf. inversion Hf; subst. by constructor.
Qed.

Lemma clean_tail es1 x es2 : clean (es1 ++ x :: es2) → is_end x = true → Forall (λ y, is_end y = true) es2.
Proof. intros Hc. by apply (Hc es1). Qed.

Section add.
Context {D : Type} `{BD : BlockDevice D} `{BL : !BlockDeviceLaws D} `{RD : !ReliableDevice D}.
Context {P : Type} `{IVP : InplaceVector P (list Z)}.
Implicit Types s : fs D.

(** [e] took the first free slot of the directory [l]. *)
Definition added_in (s s' : fs D) (l : list Z) (e : FatDirEntry) : Prop :=
  ∃ es1 x es2 es2' lba buf, dir_of s l = es1 ++ x :: es2 ∧ (is_end x || is_deleted x) = true ∧
    Forall (λ y, is_end y = false ∧ is_deleted y = false) es1 ∧ dir_of s' l = es1 ++ e :: es2' ∧
    (is_end x = false → es2' = es2) ∧
    (is_end x = true → Forall (λ y, is_end y = true) es2 → Forall (λ y, is_end y = true) es2') ∧
    lba ∈ dir_lbas (geo (fat s)) l ∧ sector_step s s' lba buf.

(** The body of [add_dir_entry]'s loop over the sectors of a cluster. *)
Definition slot_body (bs : list Z) (lba : Z) (buf : list Z) : M (fs D) (list Z + (unit + bool * Error)) :=
  buf <- read lba 1 buf;;
  match find_slot (entries_of buf) 0 with
  | None => ret (inl buf)
  | Some (j, was_end) =>
      w <- try_ (write lba 1 (put_in buf j was_end bs));;
      match w with inl _ => ret (inr (inl tt)) | inr e => ret (inr (inr (true, e))) end
  end.

Lemma slot_body_spec s0 start l e bs s l1 lba l2 buf : fs_ok s0 → chain (geo (fat s0)) (val_of s0) start = Some l →
  FatDirEntry_of bs = e → length bs = 32%nat → Forall is_byte bs →
  dir_lbas (geo (fat s0)) l = l1 ++ lba :: l2 → fs_ok s → same s0 s → length buf = 512%nat →
  find_slot (entries_at (disk s0) l1) 0 = None →
  match slot_body bs lba buf s with
  | Ret (inl buf') s' => (fs_ok s' ∧ same s0 s') ∧ length buf' = 512%nat ∧ find_slot (entries_at (disk s0) (l1 ++ [lba])) 0 = None
  | Ret (inr (inl _)) s' => added_in s0 s' l e
  | _ => False
  end.
Proof.
  intros Hok0 Hl He Hbs Hbb El Hok Hs Hlen Hnone. unfold slot_body.
  destruct (dir_lbas_in _ _ _ _ _ El) as (c & Hc & Hin). pose proof Hs as [(Hg & _) Hd].
  pose proof (follow_valid _ _ _ _ _ Hl c Hc) as Hvc.
  destruct (dir_read s c lba buf) as (s2 & Hr & Hok2 & Hs2); [done|by rewrite Hg|by rewrite Hg|done|].
  rewrite (bind_Ret _ _ _ _ _ Hr), Hd. pose proof (same_trans _ _ _ Hs Hs2) as Hs3. pose proof Hs3 as [(Hg3 & _) _].
  pose proof (sector_length (disk s0) lba) as Hsl.
  destruct (find_slot (entries_of (sector (disk s0) lba)) 0) as [[j b]|] eqn:Ef.
  - destruct (find_slot_Some _ _ _ _ Ef) as (k1 & x & k2 & Ek & -> & -> & Hx & Hk1). rewrite Nat.add_0_l.
    assert (length k1 < 16)%nat as Hj by (rewrite <- (length_entries (sector (disk s0) lba)), Ek, length_app; simpl; lia).
    destruct (put_in_ok (sector (disk s0) lba) (length k1) (is_end x) bs Hsl (sector_bytes _ _) Hj Hbs Hbb) as [Hl' Hb'].
    destruct (dir_write s2 c lba (put_in (sector (disk s0) lba) (length k1) (is_end x) bs)) as (s3 & Hw & Hstep);
      [done|by rewrite Hg3|by rewrite Hg3|done|done|].
    unfold try_, bind. rewrite Hw. cbn [ret]. apply (sector_step_same s0) in Hstep; [|done].
    destruct (put_in_entries _ k1 x k2 bs Hsl Ek Hbs) as (k2' & Ek' & Hk2 & Hk2'). rewrite He in Ek'.
    assert (dir_of s0 l = (entries_at (disk s0) l1 ++ k1) ++ x :: k2 ++ entries_at (disk s0) l2) as Edir.
    { unfold dir_of. rewrite El, entries_at_app. cbn. rewrite Ek, <- !app_assoc. reflexivity. }
    exists (entries_at (disk s0) l1 ++ k1), x, (k2 ++ entries_at (disk s0) l2), (k2' ++ entries_at (disk s0) l2), lba, (put_in (sector (disk s0) lba) (length k1) (is_end x) bs).
    split; [exact Edir|]. split; [exact Hx|]. split; [apply Forall_app; split; [by eapply find_slot_None|exact Hk1]|].
    split; [rewrite (dir_after s0 s3 l l1 lba l2 _ (chain_lbas_NoDup s0 start l Hok0 Hl) El Hstep), Ek', <- !app_assoc; reflexivity|].
    split; [intros Hxe; by rewrite (Hk2 Hxe)|]. split; [intros Hxe [? ?]%Forall_app; apply Forall_app; auto|].
    split; [rewrite El; apply elem_of_app; right; apply list_elem_of_here|exact Hstep].
  - split; [done|]. split; [done|]. rewrite entries_at_app, find_slot_app, Hnone, (find_slot_index _ 0). cbn. by rewrite app_nil_r, Ef.
Qed.

(** *** Appending a cluster *)

(** The directory ending in cluster [c] was extended by [nc], which holds the entry [bs]. *)
Record extended (s s' : fs D) (c nc : Z) (bs : list Z) : Prop := {
  x_ok : fs_ok s';
  x_frame : frame s s';
  x_val c' : valid_cluster (geo (fat s)) c' = true →
    val_of s' c' = if decide (c' = c) then nc else if decide (c' = nc) then FAT32_EOC_MAX else val_of s c';
  x_data i : data_lba (geo (fat s)) nc i →
    sector (disk s') i = if i - cluster_lba (geo (fat s)) nc =? 0 then put_entry (replicate 512 0) 0 bs else replicate 512 0;
  x_rest i : ¬ fat_area (geo (fat s)) i → ¬ data_lba (geo (fat s)) nc i → sector (disk s') i = sector (disk s) i }.

Lemma land_small x : 0 ≤ x < 2 ^ 28 → Z.land x FAT32_CLUSTER_MASK = x.
Proof. intros Hx. unfold FAT32_CLUSTER_MASK. change 0x0FFFFFFF with (Z.ones 28). rewrite Z.land_ones by lia. by apply Z.mod_small. Qed.

Lemma extend_dir_spec s c next bs : fs_ok s → valid_cluster (geo (fat s)) c = true → FAT32_EOC_MIN ≤ val_of s c →
  length bs = 32%nat → Forall is_byte bs →
  match first_free (geo (fat s)) (val_of s) with
  | None => ∃ s', extend_dir c next bs s = Fail E_Full s' ∧ fs_ok s' ∧ same s s'
  | Some nc => ∃ s', extend_dir c next bs s = Ret (inl tt) s' ∧ extended s s' c nc bs
  end.
Proof.
  intros Hok Hv He Hbs Hbb. pose proof (alloc_cluster_spec s Hok) as Ha. unfold extend_dir.
  destruct (first_free _ _) as [nc|] eqn:Ef.
  2:{ destruct Ha as (s' & Hr & Hs). exists s'. by rewrite (bind_Fail _ _ _ _ _ Hr). }
  destruct Ha as (s1 & Hr & [Hok1 Hf1 Hval1 _ Hrest1]). rewrite (bind_Ret _ _ _ _ _ Hr). pose proof Hf1 as (Hg1 & _).
  destruct (first_free_Some _ _ _ _ (ok_geo _ Hok) Ef) as [Hvn Hn0].
  assert (c ≠ nc) as Hne by (intros ->; rewrite Hn0 in He; done).
  rewrite (bind_Ret (geom id) _ s1 (geo (fat s)) s1) by (unfold geom, gets; by rewrite Hg1).
  rewrite (bind_Ret _ _ _ _ _ (use_dev_ok s1 Hok1)).
  destruct (fill_cluster s1 nc (λ i, if i =? 0 then put_entry (replicate 512 0) 0 bs else replicate 512 0) Hok1)
    as (s2 & Hfill & Hok2 & Hf2 & Hval2 & Ho2 & Hi2).
  { by rewrite Hg1. }
  { intros i. destruct (i =? 0); [|split; [apply length_replicate|by apply Forall_replicate]].
    split; [by apply length_put; [apply length_replicate|lia|]|apply splice_bytes; [done|by apply Forall_replicate]]. }
  rewrite Hg1 in *. rewrite (bind_Ret _ _ _ _ _ Hfill). pose proof Hf2 as (Hg2 & _). rewrite Hg1 in Hg2.
  destruct (write_entry_val s2 c nc Hok2) as (s3 & Hw & [Hok3 Hf3 Hval3 Hd3]); [by rewrite Hg2|]. rewrite Hg2 in *.
  unfold try_, bind. rewrite Hw. cbn [ret]. exists s3. split; [done|].
  pose proof (valid_not_eoc s nc Hok Hvn) as Hnc. unfold FAT32_EOC_MIN in Hnc.
  constructor; [done|by eapply frame_trans; [|eapply frame_trans]| | |].
  - intros c' Hc'. rewrite Hval3 by done. destruct (decide (c' = c)); [apply land_small; lia|].
    by rewrite Hval2, Hval1 by done.
  - intros i Hi. rewrite Hd3, Hi2 by (done || by apply (cluster_lba_spec _ _ _ (ok_geo _ Hok) Hvn)). done.
  - intros i Hi1 Hi2'. by rewrite Hd3, Ho2, Hrest1.
Qed.

(** The entries of a freshly filled cluster. *)
Lemma new_cluster_entries s' g nc bs : 1 ≤ sectors_per_cluster_ g → length bs = 32%nat →
  (∀ i, data_lba g nc i →
    sector (disk s') i = if i - cluster_lba g nc =? 0 then put_entry (replicate 512 0) 0 bs else replicate 512 0) →
  ∃ tl, entries_at (disk s') (cluster_lbas g nc) = FatDirEntry_of bs :: tl ∧ Forall (λ y, is_end y = true) tl.
Proof.
  intros Hspc Hbs Hd. assert (entries_of (replicate 512 0) = replicate 16 zero_entry) as Hz by (vm_compute; reflexivity).
  unfold cluster_lbas. rewrite seqZ_cons by lia. cbn [fmap list_fmap]. unfold entries_at. cbn [mbind list_bind].
  rewrite (Hd (cluster_lba g nc + 0)) by (unfold data_lba; lia).
  replace (cluster_lba g nc + 0 - cluster_lba g nc) with 0 by lia. cbn [Z.eqb].
  rewrite entries_put by (by rewrite ?length_replicate || lia). rewrite Hz. cbn [replicate insert list_insert].
  eexists. split; [reflexivity|]. repeat (constructor; [reflexivity|]). apply Forall_forall. intros y Hy.
  apply list_elem_of_bind in Hy as (i & Hy & Hi). apply list_elem_of_fmap in Hi as (k & -> & Hk%elem_of_seqZ).
  rewrite Hd in Hy by (unfold data_lba; lia).
  rewrite (proj2 (Z.eqb_neq _ _)) in Hy by lia. rewrite Hz in Hy. apply elem_of_replicate in Hy as [-> _]. done.
Qed.

(** The entries of the extended directory. *)
Lemma extended_dir s s' start l1 c nc bs : fs_ok s → chain (geo (fat s)) (val_of s) start = Some (l1 ++ [c]) →
  valid_cluster (geo (fat s)) nc = true → val_of s nc = FAT32_FREE → length bs = 32%nat → extended s s' c nc bs →
  chain (geo (fat s')) (val_of s') start = Some (l1 ++ [c; nc]) ∧
  ∃ tl, dir_of s' (l1 ++ [c; nc]) = dir_of s (l1 ++ [c]) ++ FatDirEntry_of bs :: tl ∧ Forall (λ y, is_end y = true) tl.
Proof.
  intros Hok Hl Hvn Hn0 Hbs [Hok' (Hg & _) Hval Hdata Hrest].
  pose proof (follow_valid _ _ _ _ _ Hl) as Hv. pose proof (follow_NoDup _ _ _ _ _ Hl) as Hnd.
  assert (∀ z, z ∈ l1 ++ [c] → val_of s z ≠ FAT32_FREE) as Hused.
  { intros z Hz. apply list_elem_of_split in Hz as (k1 & [|y k2] & Ek).
    - pose proof (follow_last _ _ _ _ _ k1 z Hl Ek). unfold FAT32_EOC_MIN, FAT32_FREE in *. lia.
    - destruct (follow_link _ _ _ _ _ k1 z y k2 Hl Ek) as [-> _].
      pose proof (valid_not_eoc s y Hok (Hv y ltac:(rewrite Ek; set_solver))). unfold FAT32_FREE. lia. }
  assert (nc ∉ l1 ++ [c]) as Hni by (intros Hin; by apply (Hused nc Hin)).
  assert (c ∉ l1) as Hc1 by (apply NoDup_app in Hnd as (_ & Hd & _); intros Hin; apply (Hd c Hin); set_solver).
  split.
  - pose proof (follow_append (geo (fat s)) (val_of s) (val_of s') c nc) as Happ. rewrite Hg. unfold chain.
    eapply follow_mono; [apply (Happ (Hv c ltac:(set_solver)) Hvn) with (n := Z.to_nat (cluster_count_ (geo (fat s))))|].
    + by rewrite Hval, decide_True by (done || apply Hv; set_solver).
    + by apply (valid_not_eoc s).
    + rewrite Hval, decide_False, decide_True by (done || set_solver). done.
    + exact Hl.
    + intros z Hz. rewrite Hval by (apply Hv; set_solver). rewrite !decide_False by set_solver. done.
    + assert (l1 ++ [c; nc] ⊆ seqZ 2 (cluster_count_ (geo (fat s)))) as Hsub.
      { intros z Hz. apply elem_of_seqZ. assert (valid_cluster (geo (fat s)) z = true) as Hvz.
        { apply elem_of_app in Hz as [?|[->|[->|[]%not_elem_of_nil]%elem_of_cons]%elem_of_cons]; [apply Hv; set_solver|apply Hv; set_solver|done]. }
        apply (valid_cluster_iff _ _ (ok_geo _ Hok)) in Hvz. lia. }
      assert (NoDup (l1 ++ [c; nc])) as Hnd'.
      { change [c; nc] with ([c] ++ [nc]). rewrite app_assoc. apply NoDup_app. split_and!; [done|set_solver|apply NoDup_singleton]. }
      pose proof (submseteq_length _ _ (NoDup_submseteq _ _ Hnd' Hsub)) as Hle. rewrite length_seqZ, length_app in Hle. simpl in Hle. lia.
  - destruct (new_cluster_entries s' (geo (fat s)) nc bs (proj1 (g_spc _ _ (ok_geo _ Hok))) Hbs Hdata) as (tl & Etl & Htl).
    exists tl. split; [|done]. unfold dir_of. rewrite Hg. change [c; nc] with ([c] ++ [nc]). rewrite app_assoc, (dir_lbas_app _ (l1 ++ [c])).
    rewrite entries_at_app. rewrite (app_nil_r (cluster_lbas (geo (fat s)) nc) : dir_lbas (geo (fat s)) [nc] = _), Etl. f_equal.
    apply entries_at_ext. intros i Hi. apply list_elem_of_bind in Hi as (c' & Hi & Hc').
    destruct (cluster_lbas_ok _ _ _ _ (ok_geo _ Hok) (Hv c' Hc') Hi) as (_ & _ & _ & Hdl & Hnf). apply Hrest; [done|].
    intros Hdl'. apply Hni. by rewrite <- (data_lba_disjoint _ _ c' nc i (ok_geo _ Hok) (Hv c' Hc') Hvn Hdl Hdl').
Qed.

Lemma same_first_free s s' : same s s' → first_free (geo (fat s')) (val_of s') = first_free (geo (fat s)) (val_of s).
Proof.
  intros Hs. pose proof Hs as [(Hg & _) _]. unfold first_free. rewrite Hg. generalize (seqZ 2 (cluster_count_ (geo (fat s)))).
  induction l as [|c l IH]; [done|]. cbn. by rewrite (same_val _ _ _ Hs), IH.
Qed.
Lemma extended_same s s1 s' c nc bs : same s s1 → extended s1 s' c nc bs → extended s s' c nc bs.
Proof.
  intros Hs [H1 H2 H3 H4 H5]. pose proof Hs as [Hf Hd]. pose proof Hf as (Hg & _). rewrite Hg in *.
  constructor; [done|by eapply frame_trans| |done|].
  - intros c' Hc'. rewrite H3 by done. by rewrite (same_val _ _ _ Hs).
  - intros i Hi1 Hi2. by rewrite H5, Hd.
Qed.

(** What [add_dir_entry] did to the directory [l]. *)
Inductive added (s s' : fs D) (l : list Z) (e : FatDirEntry) : Prop :=
| added_slot : added_in s s' l e → added s s' l e
| added_cluster l1 c nc : l = l1 ++ [c] → find_slot (dir_of s l) 0 = None →
    first_free (geo (fat s)) (val_of s) = Some nc → extended s s' c nc (bytes_of_entry e) → added s s' l e.

(** The outcomes of the walk of [add_dir_entry]. *)
Definition add_outcome (s : fs D) (l : list Z) (e : FatDirEntry) (o : Out (fs D) (list Z + (unit + bool * Error))) : Prop :=
  match o with
  | Ret (inr (inl _)) s' => added s s' l e
  | Fail err s' => err = E_Full ∧ fs_ok s' ∧ same s s' ∧
      find_slot (dir_of s l) 0 = None ∧ first_free (geo (fat s)) (val_of s) = None
  | _ => False
  end.
(** Between two sectors: none of those seen has a free slot. *)
Definition add_inv (s : fs D) (done : list Z) (buf : list Z) (s' : fs D) : Prop :=
  (fs_ok s' ∧ same s s') ∧ length buf = 512%nat ∧ find_slot (entries_at (disk s) done) 0 = None.

Lemma add_inv_fs s l1 a s' : add_inv s l1 a s' →
  fs_ok s' ∧ geo (fat s') = geo (fat s) ∧ ∀ c, valid_cluster (geo (fat s)) c = true → val_of s' c = val_of s c.
Proof.
  intros ((Hok' & Hs) & _). pose proof Hs as [(Hg & _) _]. split_and!; [done..|]. intros. by apply same_val.
Qed.

(** After the sectors of the cluster [c]: the next cluster, or a new one. *)
Lemma add_tail s start l l1 c l2 e buf s1 : fs_ok s → chain (geo (fat s)) (val_of s) start = Some l → entry_ok e →
  l = l1 ++ c :: l2 → add_inv s (dir_lbas (geo (fat s)) (l1 ++ [c])) buf s1 →
  match (next <- read_entry c;;
         if FAT32_EOC_MIN <=? next then b <- extend_dir c next (bytes_of_entry e);; ret (inr b) else ret (inl buf)) s1 with
  | Ret (inl a') s' => l1 ++ [c] ≠ l ∧ add_inv s (dir_lbas (geo (fat s)) (l1 ++ [c])) a' s'
  | o => add_outcome s l e o
  end.
Proof.
  intros Hok Hl He El Ha. destruct (add_inv_fs _ _ _ _ Ha) as (Hok1 & Hg1 & Hval1). destruct Ha as ((_ & Hs1) & Hlen & Hnone).
  pose proof (follow_valid _ _ _ _ _ Hl c ltac:(rewrite El; set_solver)) as Hv.
  destruct (read_entry_spec s1 c Hok1 ltac:(by rewrite Hg1)) as (s2 & Hr & Hok2 & Hs2). rewrite (bind_Ret _ _ _ _ _ Hr).
  fold (val_of s1 c). rewrite (Hval1 c Hv). pose proof (same_trans _ _ _ Hs1 Hs2) as Hs. destruct l2 as [|y l2].
  - pose proof (follow_last _ _ _ _ _ l1 c Hl El) as Heoc. rewrite (proj2 (Z.leb_le _ _)) by lia. rewrite <- El in Hnone.
    pose proof (extend_dir_spec s2 c (val_of s c) (bytes_of_entry e) Hok2) as Hx. rewrite (same_first_free _ _ Hs) in Hx.
    destruct Hs as [(Hg2 & Hfr) Hd] eqn:EHs. clear EHs. pose proof (conj (conj Hg2 Hfr) Hd : same s s2) as Hs'.
    specialize (Hx ltac:(by rewrite Hg2) ltac:(by rewrite (same_val _ _ _ Hs')) (length_bytes_of_entry e (e_name _ He) (e_ext _ He))
      (bytes_of_entry_bytes e (e_name_b _ He) (e_ext_b _ He))).
    destruct (first_free _ _) as [nc|] eqn:Ef; destruct Hx as (s3 & Hx & Hres).
    + rewrite (bind_Ret _ _ _ _ _ Hx). cbn. eapply added_cluster; [exact El|exact Hnone|exact Ef|]. by eapply extended_same.
    + rewrite (bind_Fail _ _ _ _ _ Hx). destruct Hres as [? ?]. cbn. split_and!; [done|done|by eapply same_trans|exact Hnone|exact Ef].
  - destruct (follow_link _ _ _ _ _ l1 c y l2 Hl El) as [_ Hlt]. rewrite (proj2 (Z.leb_gt _ _)) by lia. cbn.
    split; [|done]. rewrite El. intros Eq%app_inv_head. done.
Qed.

Lemma add_dir_entry_spec s start l e : fs_ok s → chain (geo (fat s)) (val_of s) start = Some l → entry_ok e →
  ∃ r s', add_dir_entry start e s = Ret r s' ∧
    match r with
    | inl _ => added s s' l e
    | inr (may_exist, err) => may_exist = false ∧ err = E_Full ∧ fs_ok s' ∧ same s s' ∧
        find_slot (dir_of s l) 0 = None ∧ first_free (geo (fat s)) (val_of s) = None
    end.
Proof.
  intros Hok Hl He. unfold add_dir_entry. set (body := λ (cluster : Z) (buf : list Z), _ : M (fs D) (list Z + (unit + bool * Error))).
  assert (add_outcome s l e (walk_chain start (replicate 512 0) body s)) as H.
  { apply (walk_rule (geo (fat s)) (val_of s) start l body
      (λ l1 a s', l1 ≠ l ∧ add_inv s (dir_lbas (geo (fat s)) l1) a s') (add_outcome s l e) Hl).
    - intros l1 a s' [_ Ha]. by eapply add_inv_fs.
    - intros l1 a s1 s2 (Hne & (_ & Hs) & ?) ? Hs2. split; [done|]. split; [|done]. split; [done|by eapply same_trans].
    - intros l1 c l2 a s1 El (_ & Ha). destruct (add_inv_fs _ _ _ _ Ha) as (Hok1 & Hg1 & _). unfold body.
      rewrite (bind_Ret (geom id) _ s1 (geo (fat s)) s1) by (unfold geom, gets; by rewrite Hg1).
      assert (∀ k1 x k2 b t, dir_lbas (geo (fat s)) l = k1 ++ x :: k2 → add_inv s k1 b t →
        match slot_body (bytes_of_entry e) x b t with
        | Ret (inl b') t' => add_inv s (k1 ++ [x]) b' t' | o => add_outcome s l e o end) as Hsec.
      { intros k1 x k2 b t Ek ((Hokt & Hst) & Hlb & Hn).
        pose proof (slot_body_spec s start l e (bytes_of_entry e) t k1 x k2 b Hok Hl (entry_roundtrip e He)
          (length_bytes_of_entry e (e_name _ He) (e_ext _ He)) (bytes_of_entry_bytes e (e_name_b _ He) (e_ext_b _ He)) Ek Hokt Hst Hlb Hn) as Hsb.
        destruct (slot_body _ x b t) as [[b'|[[]|?]] t'|? ?|?]; [exact Hsb|by apply added_slot|done..]. }
      pose proof (cluster_sectors_rule _ _ start l _ (add_inv s) (add_outcome s l e) Hl (add_inv_fs s) Hsec l1 c l2 a s1 El Ha) as Hloop.
      unfold bind at 1.
      match goal with |- context [sector_loop ?n ?w ?b ?f s1] =>
        change (sector_loop n w b f s1) with (sector_loop n w b (λ lba a, use_dev;; slot_body (bytes_of_entry e) lba a) s1) end.
      destruct (sector_loop _ _ _ _ s1) as [[a'|b] s'|err s'|r]; [|exact Hloop..].
      by apply add_tail with (start := start) (l2 := l2).
    - intros a s' [Hne _]. done.
    - split; [destruct (follow_head _ _ _ _ _ Hl) as (? & ->); done|]. split; [done|]. split; [apply length_replicate|done]. }
  unfold bind, try_. destruct (walk_chain start _ body s) as [[?|[[]|?]] s'|err s'|r]; simpl in H; [done| |done| |done].
  - by exists (inl ()), s'.
  - exists (inr (false, err)), s'. split; [done|]. destruct H as (-> & H). done.
Qed.
End add.
