(* ===== verification/FatPath.v ===== *)
(** * The FAT32 driver, part 2: paths, creation and removal

    A path is resolved through the directories the volume holds.  Creating a
    file adds one name to its directory; unlinking removes one and frees the
    clusters of the file. *)

From S2P Require Import Prelude Zstl Pmm BlockDev FatLayout FatCore FatCoreProofs FatChain FatDir FatEntry FatDirProofs FatAdd.

#[local] Arguments forM : simpl never.
#[local] Arguments seqZ : simpl never.
#[local] Arguments sectors : simpl never.
#[local] Arguments Z.mul : simpl never.
#[local] Arguments Z.of_nat : simpl never.
#[local] Arguments entries_of : simpl never.

Section paths.
Context {D : Type} `{BD : BlockDevice D} `{BL : !BlockDeviceLaws D} `{RD : !ReliableDevice D}.
Context {P : Type} `{IVP : InplaceVector P (list Z)}.
Implicit Types s : fs D.

(** ** What a path denotes *)

(** The directory at cluster [c]. *)
Definition dir_at (s : fs D) (c : Z) : option (list FatDirEntry) := dir_of s <$> chain (geo (fat s)) (val_of s) c.

(** The entry a list of components leads to from the directory [c]. *)
Fixpoint file_at (s : fs D) (c : Z) (parts : list (list Z)) : option FatDirEntry :=
  match parts with
  | [] => None
  | part :: parts =>
      es ← dir_at s c; e ← lookup_name part es;
      match parts with
      | [] => Some e
      | _ => if is_directory e then file_at s (FatLayout.cluster e) parts else None
      end
  end.
(** The directory of the last component. *)
Fixpoint parent_at (s : fs D) (c : Z) (parts : list (list Z)) : option (Z * list Z) :=
  match parts with
  | [] => None
  | [part] => Some (c, part)
  | part :: parts =>
      es ← dir_at s c; e ← lookup_name part es;
      if is_directory e then parent_at s (FatLayout.cluster e) parts else None
  end.

Lemma chain_same s s' c : same s s' → chain (geo (fat s')) (val_of s') c = chain (geo (fat s)) (val_of s) c.
Proof.
  intros Hs. pose proof Hs as [(Hg & _) _]. unfold chain. rewrite Hg. apply follow_ext. intros. by apply same_val.
Qed.
Lemma same_dir s s' l : same s s' → dir_of s' l = dir_of s l.
Proof. intros [(Hg & _) Hd]. unfold dir_of. rewrite Hg. apply entries_at_ext. intros. apply Hd. Qed.
Lemma same_dir_at s s' c : same s s' → dir_at s' c = dir_at s c.
Proof.
  intros Hs. unfold dir_at. rewrite (chain_same _ _ _ Hs). destruct (chain _ _ _); [|done]. simpl. by rewrite (same_dir _ _ _ Hs).
Qed.
Lemma same_file_at s s' parts : same s s' → ∀ c, file_at s' c parts = file_at s c parts.
Proof.
  intros Hs. induction parts as [|part parts IH]; intros c; [done|]. cbn. rewrite (same_dir_at _ _ _ Hs).
  destruct (dir_at s c); [|done]. simpl. destruct (lookup_name part _); [|done]. simpl. destruct parts; [done|]. by rewrite IH.
Qed.
Lemma parent_at_cons s c part q parts : parent_at s c (part :: q :: parts) =
  (es ← dir_at s c; e ← lookup_name part es; if is_directory e then parent_at s (FatLayout.cluster e) (q :: parts) else None).
Proof. done. Qed.
Lemma same_parent_at s s' parts : same s s' → ∀ c, parent_at s' c parts = parent_at s c parts.
Proof.
  intros Hs. induction parts as [|part parts IH]; intros c; [done|]. destruct parts as [|q parts]; [done|].
  rewrite !parent_at_cons, (same_dir_at _ _ _ Hs). destruct (dir_at s c); [|done]. cbn [mbind option_bind].
  destruct (lookup_name part _); [|done]. cbn [mbind option_bind]. by rewrite IH.
Qed.

(** Searching a directory that has a chain. *)
Lemma find_entry_at s c es nm : fs_ok s → dir_at s c = Some es →
  ∃ s', fs_ok s' ∧ same s s' ∧ find_entry c nm s = match lookup_name nm es with Some e => Ret e s' | None => Fail E_NotFound s' end.
Proof.
  unfold dir_at. intros Hok Hd. destruct (chain _ _ _) as [l|] eqn:Hl; [|done]. injection Hd as <-. by apply find_entry_spec.
Qed.

Lemma find_parts_at parts : ∀ s c e, fs_ok s → file_at s c parts = Some e →
  ∃ s', find_parts c parts s = Ret e s' ∧ fs_ok s' ∧ same s s'.
Proof.
  induction parts as [|part parts IH]; intros s c e Hok Hf; [done|]. cbn in Hf.
  destruct (dir_at s c) as [es|] eqn:Hd; [|done]. simpl in Hf. destruct (find_entry_at s c es part Hok Hd) as (s1 & Hok1 & Hs1 & Hr).
  destruct (lookup_name part es) as [e1|]; [|done]. simpl in Hf. destruct parts as [|q parts].
  - injection Hf as ->. exists s1. by cbn.
  - destruct (is_directory e1) eqn:Edir; [|done]. destruct (IH s1 (FatLayout.cluster e1) e Hok1) as (s' & Hr' & Hok' & Hs').
    { by rewrite (same_file_at _ _ _ Hs1). }
    exists s'. split; [|split; [done|by eapply same_trans]]. cbn [find_parts]. rewrite (bind_Ret _ _ _ _ _ Hr).
    unfold ensure. rewrite Edir. by rewrite bind_ret.
Qed.

Lemma walk_parents_at parts : ∀ s c r, fs_ok s → parent_at s c parts = Some r →
  ∃ s', walk_parents c parts s = Ret r s' ∧ fs_ok s' ∧ same s s'.
Proof.
  induction parts as [|part parts IH]; intros s c r Hok Hf; [done|]. destruct parts as [|q parts].
  { injection Hf as <-. exists s. by cbn. }
  rewrite parent_at_cons in Hf.
  destruct (dir_at s c) as [es|] eqn:Hd; [|done]. cbn [mbind option_bind] in Hf. destruct (find_entry_at s c es part Hok Hd) as (s1 & Hok1 & Hs1 & Hr).
  destruct (lookup_name part es) as [e1|]; [|done]. cbn [mbind option_bind] in Hf.
  destruct (is_directory e1) eqn:Edir; [|done]. destruct (IH s1 (FatLayout.cluster e1) r Hok1) as (s' & Hr' & Hok' & Hs').
  { by rewrite (same_parent_at _ _ _ Hs1). }
  exists s'. split; [|split; [done|by eapply same_trans]]. cbn [walk_parents]. rewrite (bind_Ret _ _ _ _ _ Hr).
  unfold ensure. rewrite Edir. by rewrite bind_ret.
Qed.

Lemma resolve_parent_at s path parts r : fs_ok s → split_path path s = Ret parts s →
  parent_at s (root_cluster_ (geo (fat s))) parts = Some r →
  ∃ s', resolve_parent path s = Ret r s' ∧ fs_ok s' ∧ same s s'.
Proof.
  intros Hok Hp Hr. unfold resolve_parent. rewrite (bind_Ret _ _ _ _ _ Hp). by apply walk_parents_at.
Qed.

(** ** Creating a file *)

(** The directory [l] of [s] became [l'] in [s'], where names mean [names]. *)
Record dir_step (s s' : fs D) (start : Z) (l l' : list Z) (names : list Z → option FatDirEntry) : Prop := {
  d_ok : fs_ok s';
  d_frame : frame s s';
  d_chain : chain (geo (fat s')) (val_of s') start = Some l';
  d_clean : clean (dir_of s l) → clean (dir_of s' l');
  d_names nm : lookup_name nm (dir_of s' l') = names nm;
  d_rest i : ¬ fat_area (geo (fat s)) i → i ∉ dir_lbas (geo (fat s)) l' → sector (disk s') i = sector (disk s) i }.

Lemma clean_ends es1 es2 : Forall (λ y, is_end y = false) es1 → Forall (λ y, is_end y = true) es2 → clean (es1 ++ es2).
Proof.
  intros H1 H2 k1 x k2 Ek Hx. assert (is_end x = true → x ∉ es1) as Hni.
  { intros Ht Hin. rewrite Forall_forall in H1. by rewrite (H1 x Hin) in Ht. }
  apply app_eq_inv in Ek as [(k & -> & Ek)|(k & -> & Ek)].
  - destruct k as [|y k]; simpl in Ek.
    + subst es2. by inversion H2.
    + injection Ek as -> ->. destruct (Hni Hx). set_solver.
  - subst es2. apply Forall_app in H2 as [_ H2]. by inversion H2.
Qed.
Lemma clean_replace es1 x y es2 : is_end x = false → is_end y = false → clean (es1 ++ x :: es2) → clean (es1 ++ y :: es2).
Proof.
  intros Hx Hy Hc k1 z k2 Ek Hz. apply app_eq_inv in Ek as [(k & -> & Ek)|(k & -> & Ek)].
  - destruct k as [|w k]; simpl in Ek.
    + injection Ek as <- <-. congruence.
    + injection Ek as <- ->. assert (Forall (λ y, is_end y = true) (k ++ x :: es2)) as Hf.
      { apply (Hc k1 z (k ++ x :: es2)); [by rewrite <- !app_assoc|done]. }
      apply Forall_app in Hf as [_ Hf]. inversion Hf. congruence.
  - destruct k as [|w k]; simpl in Ek; injection Ek as <- Ek; [congruence|]. subst es2.
    apply (Hc (es1 ++ x :: k) z k2); [by rewrite <- app_assoc|done].
Qed.

Lemma lookup_name_end nm es x : is_end x = true → lookup_name nm (es ++ [x]) = lookup_name nm es.
Proof.
  intros Hx. unfold lookup_name. rewrite match_app. destruct (match_entries nm es 0) as [[[]|]|]; [done..|]. cbn. by rewrite Hx.
Qed.

Lemma added_names s s' start l e : fs_ok s → chain (geo (fat s)) (val_of s) start = Some l → entry_ok e →
  clean (dir_of s l) → is_end e = false → is_valid e = true → lookup_name (entry_name e) (dir_of s l) = None →
  added s s' l e →
  ∃ l', dir_step s s' start l l' (λ nm, if decide (nm = entry_name e) then Some e else lookup_name nm (dir_of s l)).
Proof.
  intros Hok Hl Heok Hc He Hv Hno [(es1 & x & es2 & es2' & lba & buf & E & Hx & H1 & E' & Hd & Hend & Hin & Hst)|l1 c nc -> Hnone Hff Hext].
  - exists l. pose proof Hst as [Hok' Hf Hval Hrest Hnew]. pose proof Hf as (Hg & _).
    assert (is_end x = true → Forall (λ y, is_end y = true) es2') as Hend' by (intros Ht; apply (Hend Ht); by apply (Hc es1 x es2)).
    assert (Forall (λ y, is_end y = false) es1) as H1' by (eapply Forall_impl; [exact H1|]; by intros ? [? _]).
    constructor; [done|done| | | |].
    + unfold chain in *. rewrite Hg, <- Hl. by apply follow_ext.
    + intros _. rewrite E'. destruct (is_end x) eqn:Ex.
      * change (es1 ++ e :: es2') with (es1 ++ [e] ++ es2'). rewrite app_assoc. apply clean_ends; [|by apply Hend'].
        apply Forall_app. split; [done|by constructor].
      * rewrite (Hd eq_refl). apply (clean_replace es1 x e es2); [done..|]. by rewrite <- E.
    + intros nm. rewrite E', E. apply lookup_put; [done..| |done|done]. by rewrite <- E.
    + intros i _ Hi. apply Hrest. by intros ->.
  - destruct (first_free_Some _ _ _ _ (ok_geo _ Hok) Hff) as [Hvn Hn0].
    destruct (extended_dir s s' start l1 c nc _ Hok Hl Hvn Hn0 (length_bytes_of_entry e (e_name _ Heok) (e_ext _ Heok)) Hext) as (Hl' & tl & E' & Htl).
    rewrite (entry_roundtrip e Heok) in E'. pose proof Hext as [Hok' Hf Hval Hdata Hrest].
    apply find_slot_None in Hnone. assert (Forall (λ y, is_end y = false) (dir_of s (l1 ++ [c]))) as H1' by (eapply Forall_impl; [exact Hnone|]; by intros ? [? _]).
    exists (l1 ++ [c; nc]). constructor; [done|done|done| | |].
    + intros _. rewrite E'. change (?a ++ e :: tl) with (a ++ [e] ++ tl). rewrite app_assoc. apply clean_ends; [|done].
      apply Forall_app. split; [done|by constructor].
    + intros nm. rewrite E'. pose proof (lookup_put nm (dir_of s (l1 ++ [c])) zero_entry [] tl e H1') as Hp.
      rewrite !(lookup_name_end _ _ zero_entry) in Hp by done. by apply Hp.
    + intros i Hfa Hi. apply Hrest; [done|]. intros Hdl. apply Hi. apply list_elem_of_bind. exists nc. split.
      * apply list_elem_of_fmap. exists (i - cluster_lba (geo (fat s)) nc). unfold data_lba in Hdl. split; [lia|]. apply elem_of_seqZ. lia.
      * apply elem_of_app. right. right. left.
Qed.

Lemma ensure_absent_spec s c l nm : fs_ok s → chain (geo (fat s)) (val_of s) c = Some l →
  ∃ s', fs_ok s' ∧ same s s' ∧ ensure_absent c nm s = match lookup_name nm (dir_of s l) with Some _ => Fail E_Exists s' | None => Ret tt s' end.
Proof.
  intros Hok Hl. destruct (find_entry_spec s c l nm Hok Hl) as (s' & Hok' & Hs & Hr). exists s'. split_and!; [done..|].
  unfold ensure_absent, bind, try_. rewrite Hr. by destruct (lookup_name _ _).
Qed.

Lemma dir_step_same s s1 s' start l l' names : same s s1 → dir_step s1 s' start l l' names → dir_step s s' start l l' names.
Proof.
  intros Hs [H1 H2 H3 H4 H5 H6]. rewrite (same_dir _ _ _ Hs) in H4. pose proof Hs as [Hf Hd]. pose proof Hf as (Hg & _). rewrite Hg in *.
  constructor; [done|by eapply frame_trans|done..|]. intros i Hi Hni. by rewrite H6, Hd.
Qed.


(** ** Removing a file *)

(** A chain depends on the table at its own clusters only. *)
Lemma follow_keep g val val' n : ∀ c l, follow g val n c = Some l → (∀ z, z ∈ l → val' z = val z) → follow g val' n c = Some l.
Proof.
  induction n as [|n IH]; intros c l; [done|]. cbn. destruct (valid_cluster g c); [|done].
  destruct (FAT32_EOC_MIN <=? val c) eqn:E; [intros [= <-] Hz; by rewrite Hz, E by left|].
  destruct (follow g val n (val c)) as [l'|] eqn:E'; [|done]. intros [= <-] Hz. rewrite Hz, E by left.
  rewrite (IH _ _ E'); [done|]. intros z Hin. apply Hz. by right.
Qed.

(** The directory [l] has at most one entry called [nm]. *)
Definition unique_name (nm : list Z) (es : list FatDirEntry) : Prop :=
  ∀ es1 e es2, es = es1 ++ e :: es2 → is_valid e = true → entry_name e = nm → lookup_name nm es2 = None.

Lemma removed_names s s' start l nm : chain (geo (fat s)) (val_of s) start = Some l → unique_name nm (dir_of s l) → removed s s' l nm →
  dir_step s s' start l l (λ nm', if decide (nm' = nm) then None else lookup_name nm' (dir_of s l)).
Proof.
  intros Hl Hu (es1 & e & es2 & e' & lba & buf & E & Hm & He & Hv & Hn & Hd & E' & Hin & [Hok' Hf Hval Hrest Hnew]).
  pose proof Hf as (Hg & _). destruct (deleted_skipped e' Hd) as [Hend' Hv']. constructor; [done|done| | | |].
  - unfold chain in *. rewrite Hg, <- Hl. by apply follow_ext.
  - rewrite E, E'. by apply clean_replace.
  - intros nm'. rewrite E'. destruct (decide (nm' = nm)) as [->|Hne].
    + rewrite lookup_name_match by done. change (e' :: es2) with ([e'] ++ es2). rewrite lookup_name_match.
      * by apply (Hu es1 e es2).
      * by rewrite match_skip.
    + rewrite E. apply lookup_delete; [done..|]. by rewrite Hn.
  - intros i _ Hi. apply Hrest. by intros ->.
Qed.

(** Freeing a chain that shares no cluster with the directory. *)
Lemma table_dir s s' start (l lf : list Z) : fs_ok s → chain (geo (fat s)) (val_of s) start = Some l → (∀ c, c ∈ l → c ∉ lf) →
  table_step s s' (λ c, if decide (c ∈ lf) then 0 else val_of s c) →
  chain (geo (fat s')) (val_of s') start = Some l ∧ dir_of s' l = dir_of s l.
Proof.
  intros Hok Hl Hdis [Hok' (Hg & _) Hval Hdata]. pose proof (follow_valid _ _ _ _ _ Hl) as Hv. split.
  - unfold chain in *. rewrite Hg. eapply follow_keep; [exact Hl|]. intros z Hz. rewrite Hval by by apply Hv.
    rewrite decide_False; [done|by apply Hdis].
  - unfold dir_of. rewrite Hg. apply entries_at_ext. intros i Hi. apply list_elem_of_bind in Hi as (c & Hi & Hc).
    apply Hdata. by apply (cluster_lbas_ok _ _ _ _ (ok_geo _ Hok) (Hv c Hc) Hi).
Qed.

(** The clusters of the file an entry denotes. *)
Definition file_chain (s : fs D) (e : FatDirEntry) : option (list Z) :=
  if 2 <=? FatLayout.cluster e then chain (geo (fat s)) (val_of s) (FatLayout.cluster e) else Some [].

Lemma free_file s e lf : fs_ok s → file_chain s e = Some lf →
  ∃ s', whenM (2 <=? FatLayout.cluster e) (free_chain (FatLayout.cluster e)) s = Ret tt s' ∧
    table_step s s' (λ c, if decide (c ∈ lf) then 0 else val_of s c).
Proof.
  unfold file_chain, whenM. intros Hok Hf. destruct (2 <=? _); [by apply free_chain_spec|]. injection Hf as <-.
  exists s. split; [done|]. by constructor.
Qed.

(** C33: [unlink] on a path whose directory is [parent]: a missing name is
    answered [NotFound], a directory [Invalid], and the volume is as it was;
    a file whose clusters are not the directory's is removed: its name denotes
    nothing, every other name denotes what it denoted, exactly its clusters
    became free, and no sector outside the table and the directory changes. *)
Theorem unlink_correct s path parts parent nm l : fs_ok s → split_path path s = Ret parts s →
  parent_at s (root_cluster_ (geo (fat s))) parts = Some (parent, nm) →
  chain (geo (fat s)) (val_of s) parent = Some l → unique_name nm (dir_of s l) →
  match lookup_name nm (dir_of s l) with
  | None => ∃ s', unlink path s = Fail E_NotFound s' ∧ fs_ok s' ∧ same s s'
  | Some e =>
      if is_directory e then ∃ s', unlink path s = Fail E_Invalid s' ∧ fs_ok s' ∧ same s s'
      else ∀ lf, file_chain s e = Some lf → (∀ c, c ∈ l → c ∉ lf) → ∃ s', unlink path s = Ret tt s' ∧
        dir_step s s' parent l l (λ nm', if decide (nm' = nm) then None else lookup_name nm' (dir_of s l)) ∧
        ∀ c, valid_cluster (geo (fat s)) c = true → val_of s' c = if decide (c ∈ lf) then FAT32_FREE else val_of s c
  end.
Proof.
  intros Hok Hp Hpar Hl Hu. destruct (resolve_parent_at s path parts _ Hok Hp Hpar) as (s1 & Hr & Hok1 & Hs1).
  unfold unlink. rewrite (bind_Ret _ _ _ _ _ Hr). cbn beta iota. pose proof (chain_same _ _ parent Hs1) as Hl1. rewrite Hl in Hl1.
  destruct (find_entry_spec s1 parent l nm Hok1 Hl1) as (s2 & Hok2 & Hs2 & Ha). rewrite (same_dir _ _ _ Hs1) in Ha.
  pose proof (same_trans _ _ _ Hs1 Hs2) as Hs. destruct (lookup_name nm (dir_of s l)) as [e|] eqn:El.
  2:{ exists s2. by rewrite (bind_Fail _ _ _ _ _ Ha). }
  rewrite (bind_Ret _ _ _ _ _ Ha). destruct (is_directory e).
  { exists s2. done. }
  intros lf Hlf Hdis. unfold ensure. cbn [negb]. rewrite bind_ret.
  assert (file_chain s2 e = Some lf) as Hlf2 by (rewrite <- Hlf; unfold file_chain; by rewrite (chain_same _ _ _ Hs)).
  destruct (free_file s2 e lf Hok2 Hlf2) as (s3 & Hfr & Hts). rewrite (bind_Ret _ _ _ _ _ Hfr).
  pose proof (chain_same _ _ parent Hs) as Hl2. rewrite Hl in Hl2.
  destruct (table_dir s2 s3 parent l lf Hok2 Hl2 Hdis Hts) as [Hl3 Hd3]. rewrite (same_dir _ _ _ Hs) in Hd3.
  pose proof Hts as [Hok3 Hf3 Hval3 Hdata3]. pose proof Hs as [Hf2 Hd2]. pose proof (frame_trans _ _ _ Hf2 Hf3) as Hf. pose proof Hf as (Hg & _).
  pose proof (remove_dir_entry_spec s3 parent l nm Hok3 Hl3) as Hrm. unfold lookup_name in El. rewrite Hd3 in Hrm.
  destruct (match_entries nm (dir_of s l) 0) as [[p|]|]; [|done..]. destruct Hrm as (s4 & Hrm & Hrem). exists s4. split; [done|].
  pose proof Hrem as (_ & _ & _ & _ & lba & buf & _ & _ & _ & _ & _ & _ & _ & _ & [_ _ Hval4 _ _]).
  apply (removed_names s3 s4 parent) in Hrem as [H1 H2 H3 H4 H5 H6]; [|done|by rewrite Hd3]. pose proof Hf2 as (Hg2 & _). rewrite Hg, Hg2, Hd3 in *.
  split; [constructor; [done|by eapply frame_trans|done..|]|].
  - intros i Hi Hni. by rewrite H6, Hdata3, Hd2.
  - intros c Hc. rewrite Hval4, Hval3 by done. by rewrite (same_val _ _ _ Hs).
Qed.
End paths.
