(* ===== verification/FatFile.v ===== *)
(** * The FAT32 driver, part 2: file contents

    The contents of a file are the bytes of the clusters of its chain.
    [read_file] returns a range of them and [write_file] replaces one, cluster
    by cluster through a heap buffer. *)

From S2P Require Import Prelude Zstl Pmm PmmProofs BlockDev FatLayout FatCore FatCoreProofs FatChain FatDir.

#[local] Arguments forM : simpl never.
#[local] Arguments seqZ : simpl never.
#[local] Arguments sectors : simpl never.
#[local] Arguments Z.mul : simpl never.
#[local] Arguments Z.of_nat : simpl never.
#[local] Arguments splice : simpl never.
#[local] Arguments slice : simpl never.

(** ** Ranges of bytes *)

Lemma slice_slice {a m bs} b n : (b + n ≤ m)%nat → slice b n (slice a m bs) = slice (a + b) n bs.
Proof.
  intros Hn. apply list_eq. intros i. rewrite !slice_lookup. destruct (decide (i < n)%nat); [|done].
  rewrite decide_True by lia. f_equal. lia.
Qed.
Lemma slice_mid bs1 bs2 bs3 : slice (length bs1) (length bs2) (bs1 ++ bs2 ++ bs3) = bs2.
Proof. unfold slice. by rewrite drop_app_length, take_app_length. Qed.
Lemma splice_mid bs1 bs2 bs3 v : length v = length bs2 → splice (length bs1) v (bs1 ++ bs2 ++ bs3) = bs1 ++ v ++ bs3.
Proof.
  intros Hv. unfold splice. rewrite take_app_length, Hv. f_equal. f_equal.
  rewrite <- length_app, app_assoc. apply drop_app_length.
Qed.
Lemma length_slice_min off len bs : length (slice off len bs) = Nat.min len (length bs - off).
Proof. unfold slice. by rewrite length_take, length_drop. Qed.

(** Copying one more piece of a range. *)
Lemma splice_more o a n src p buf : (o + a + n ≤ length src)%nat → (p + a + n ≤ length buf)%nat →
  splice (p + a) (slice (o + a) n src) (splice p (slice o a src) buf) = splice p (slice o (a + n) src) buf.
Proof.
  intros Hs Hb. assert (length (splice p (slice o a src) buf) = length buf) as Hl by (apply length_splice; rewrite length_slice_min; lia).
  apply list_eq. intros i. rewrite !splice_lookup, !slice_lookup by (rewrite ?Hl, length_slice_min; lia). rewrite !length_slice_min.
  destruct (decide (p + a ≤ i < _)%nat).
  - rewrite decide_True by lia. rewrite !decide_True by lia. f_equal. lia.
  - destruct (decide (p ≤ i < p + Nat.min a _)%nat).
    + rewrite !(decide_True (P := (_ < _)%nat)) by lia. by rewrite decide_True by lia.
    + by rewrite decide_False by lia.
Qed.
(** A piece of a piece. *)
Lemma splice_splice a b v m bs : (a + m ≤ length bs)%nat → (b + length v ≤ m)%nat →
  splice a (splice b v (slice a m bs)) bs = splice (a + b) v bs.
Proof.
  intros Hm Hv. assert (length (slice a m bs) = m) as Hl by (by apply length_slice).
  apply list_eq. intros i. rewrite !splice_lookup by (rewrite ?length_splice; lia). rewrite slice_lookup, length_splice by lia. rewrite Hl.
  destruct (decide (a ≤ i < a + m)%nat).
  - destruct (decide (b ≤ i - a < b + length v)%nat).
    + rewrite decide_True by lia. f_equal. lia.
    + rewrite (decide_True (P := (i - a < m)%nat)) by lia. rewrite decide_False by lia. f_equal. lia.
  - by rewrite decide_False by lia.
Qed.

Section files.
Context {D : Type} `{BD : BlockDevice D} `{BL : !BlockDeviceLaws D} `{RD : !ReliableDevice D}.
Implicit Types s : fs D.

(** ** Contents *)

Definition spc (g : geometry) : nat := Z.to_nat (sectors_per_cluster_ g).
Definition cluster_data (s : fs D) (c : Z) : list Z := sectors (disk s) (cluster_lba (geo (fat s)) c) (spc (geo (fat s))).
(** The bytes of the clusters [l]. *)
Definition contents (s : fs D) (l : list Z) : list Z := l ≫= cluster_data s.

Lemma contents_app s l1 l2 : contents s (l1 ++ l2) = contents s l1 ++ contents s l2.
Proof. apply bind_app. Qed.
Lemma length_contents s l : length (contents s l) = (length l * (512 * spc (geo (fat s))))%nat.
Proof.
  induction l as [|c l IH]; [done|]. unfold contents in *. cbn [mbind list_bind]. rewrite length_app, IH.
  unfold cluster_data. rewrite length_sectors. simpl. lia.
Qed.
Lemma contents_bytes s l : Forall is_byte (contents s l).
Proof. induction l as [|c l IH]; [constructor|]. apply Forall_app. split; [apply sectors_bytes|exact IH]. Qed.
Lemma contents_ext s s' l : geo (fat s') = geo (fat s) →
  (∀ c i, c ∈ l → data_lba (geo (fat s)) c i → sector (disk s') i = sector (disk s) i) → 0 ≤ sectors_per_cluster_ (geo (fat s)) →
  contents s' l = contents s l.
Proof.
  intros Hg He H0. induction l as [|c l IH]; [done|]. unfold contents in *. cbn [mbind list_bind]. f_equal.
  - unfold cluster_data. rewrite Hg. apply sectors_ext. intros i Hi. apply (He c); [left|]. unfold data_lba, spc in *. lia.
  - apply IH. intros c' i Hc'. apply He. by right.
Qed.

(** The bytes of one cluster in the contents. *)
Lemma cluster_slice s l1 c l2 : cluster_data s c =
  slice (length l1 * (512 * spc (geo (fat s)))) (512 * spc (geo (fat s))) (contents s (l1 ++ c :: l2)).
Proof.
  rewrite contents_app. change (contents s (c :: l2)) with (cluster_data s c ++ contents s l2).
  rewrite <- length_contents. replace (512 * spc (geo (fat s)))%nat with (length (cluster_data s c)) by apply length_sectors.
  by rewrite slice_mid.
Qed.

(** ** Transfers of a cluster *)

Lemma cluster_read s c buf : fs_ok s → valid_cluster (geo (fat s)) c = true → length buf = (512 * spc (geo (fat s)))%nat →
  ∃ s', read (u32 (partition_start_lba_ (geo (fat s)) + cluster_to_sector (geo (fat s)) c)) (spc (geo (fat s))) buf s
    = Ret (cluster_data s c) s' ∧ fs_ok s' ∧ same s s'.
Proof.
  intros Hok Hv Hlen. destruct (cluster_lba_spec _ _ c (ok_geo _ Hok) Hv) as (H0 & H1 & _ & ->).
  pose proof (g_spc _ _ (ok_geo _ Hok)).
  destruct (read_ok' s (cluster_lba (geo (fat s)) c) (spc (geo (fat s))) buf H0 ltac:(unfold spc; lia) Hlen) as (d & Hr & Hbc & Hd).
  exists (MkFs (fat s) d (heap s)). split; [done|]. destruct (Hok) as [? G ? ? Hca]. split; [|done].
  constructor; simpl; [done|by rewrite Hbc|done|done|]. destruct Hca as [?|[? ?]]; [by left|right]. by rewrite Hd.
Qed.

(** The contents after the cluster [c] of a file was replaced. *)
Lemma cluster_write s l l1 c l2 buf : fs_ok s → (∀ x, x ∈ l → valid_cluster (geo (fat s)) x = true) → NoDup l → l = l1 ++ c :: l2 →
  length buf = (512 * spc (geo (fat s)))%nat → Forall is_byte buf →
  ∃ s', write (u32 (partition_start_lba_ (geo (fat s)) + cluster_to_sector (geo (fat s)) c)) (spc (geo (fat s))) buf s = Ret tt s' ∧
    fs_ok s' ∧ frame s s' ∧ (∀ x, valid_cluster (geo (fat s)) x = true → val_of s' x = val_of s x) ∧
    (∀ i, ¬ data_lba (geo (fat s)) c i → sector (disk s') i = sector (disk s) i) ∧
    contents s' l = splice (length l1 * (512 * spc (geo (fat s)))) buf (contents s l).
Proof.
  intros Hok Hv Hnd El Hlen Hby. pose proof (Hv c ltac:(rewrite El; set_solver)) as Hvc.
  destruct (cluster_lba_spec _ _ c (ok_geo _ Hok) Hvc) as (H0 & H1 & Ha & ->). pose proof (g_spc _ _ (ok_geo _ Hok)) as Hspc.
  destruct (data_write_ok s (cluster_lba (geo (fat s)) c) (spc (geo (fat s))) buf) as (s' & Hr & Hok' & Hf & _ & Hval & Ho & Hi);
    [done|done|unfold spc; lia| |done|done|].
  { intros i Hi. apply Ha. unfold data_lba, spc in *. lia. }
  assert (∀ i, ¬ data_lba (geo (fat s)) c i → sector (disk s') i = sector (disk s) i) as Ho'.
  { intros i Hi'. apply Ho. unfold data_lba, spc in *. lia. }
  exists s'. split_and!; [done..|]. pose proof Hf as (Hg & _). rewrite El in Hnd, Hv |- *. rewrite !contents_app.
  change (contents s' (c :: l2)) with (cluster_data s' c ++ contents s' l2). change (contents s (c :: l2)) with (cluster_data s c ++ contents s l2).
  apply NoDup_app in Hnd as (_ & Hd & Hnd). apply NoDup_cons in Hnd as [Hn2 _].
  assert (∀ k, c ∉ k → (∀ x, x ∈ k → valid_cluster (geo (fat s)) x = true) → contents s' k = contents s k) as Hk.
  { intros k Hck Hvk. apply contents_ext; [done| |lia]. intros c' i Hc' Hdl. apply Ho'. intros Hdl'. apply Hck.
    by rewrite (data_lba_disjoint _ _ c c' i (ok_geo _ Hok) Hvc (Hvk c' Hc') Hdl' Hdl). }
  assert (c ∉ l1) as Hn1 by (intros Hin; apply (Hd c Hin); left).
  rewrite (Hk l1 Hn1), (Hk l2 Hn2) by (intros x Hx; apply Hv; apply elem_of_app; (by left) || (right; by right)).
  unfold cluster_data at 1. rewrite Hg, Hi. rewrite <- length_contents, splice_mid; [done|]. unfold cluster_data. by rewrite length_sectors, Hlen.
Qed.

(** ** The transfer loop *)

Section transfer.
Context (s : fs D) (start : Z) (l : list Z) (writeback : bool) (buf : list Z) (offset size : nat).
Context (Hok : fs_ok s) (Hl : chain (geo (fat s)) (val_of s) start = Some l).
Notation g := (geo (fat s)).
Notation B := (512 * spc g)%nat.
Context (Hfit : (offset + size ≤ length l * B)%nat) (Hbuf : (size ≤ length buf)%nat) (Hsize : Z.of_nat size < 2 ^ 32).
Context (Hbytes : Forall is_byte buf).

(** The bytes transferred after the clusters [l1]. *)
Definition done_bytes (l1 : list Z) : nat := Nat.min size (length l1 * B - offset).

Record io_inv (l1 : list Z) (st : io) (s' : fs D) : Prop := {
  io_ok : fs_ok s';
  io_frame : frame s s';
  io_val c : valid_cluster g c = true → val_of s' c = val_of s c;
  io_solve : solve_bytes st = Z.of_nat (done_bytes l1);
  io_off : io_offset st = Z.of_nat (offset - length l1 * B);
  io_clen : length (cluster_buf st) = B;
  io_data : io_buf st = if writeback then buf else splice 0 (slice offset (done_bytes l1) (contents s l)) buf;
  io_disk : contents s' l = if writeback then splice offset (slice 0 (done_bytes l1) buf) (contents s l) else contents s l;
  io_rest i : writeback = false ∨ (∀ c, c ∈ l → ¬ data_lba g c i) → sector (disk s') i = sector (disk s) i }.

Lemma io_inv_same l1 st s1 s2 : io_inv l1 st s1 → fs_ok s2 → same s1 s2 → io_inv l1 st s2.
Proof.
  intros [H1 H2 H3 H4 H5 H6 H7 H8 H9] Hok2 Hs. pose proof Hs as [Hf Hd]. pose proof H2 as (Hg & _). pose proof Hf as (Hg2 & _).
  constructor; [done|by eapply frame_trans| |done..| |].
  - intros c Hc. rewrite (same_val _ _ _ Hs). by apply H3.
  - rewrite <- H8. apply contents_ext; [done|intros; apply Hd|]. pose proof (g_spc _ _ (ok_geo _ H1)). lia.
  - intros i Hi. rewrite Hd. by apply H9.
Qed.

(** One cluster. *)
Lemma io_body_spec l1 c l2 st s1 : l = l1 ++ c :: l2 → (solve_bytes st <? Z.of_nat size) = true → io_inv l1 st s1 →
  ∃ st' s', io_body (Z.of_nat size) writeback c st s1 = Ret (inl st') s' ∧ io_inv (l1 ++ [c]) st' s'.
Proof using Hok Hl Hfit Hbuf Hsize Hbytes BL RD.
  intros El Hlt%Z.ltb_lt Hi. pose proof Hi as [H1 H2 H3 H4 H5 H6 H7 H8 H9]. pose proof H2 as (Hg & _).
  pose proof (follow_valid _ _ _ _ _ Hl) as Hv. pose proof (follow_NoDup _ _ _ _ _ Hl) as Hnd.
  pose proof (g_spc _ _ (ok_geo _ Hok)) as Hspc. pose proof (g_bpc _ _ (ok_geo _ Hok)) as Hbpc.
  assert (bytes_per_cluster_ g = Z.of_nat B) as HB by (unfold spc; lia).
  unfold io_body. rewrite (bind_Ret (geom id) _ s1 g s1) by (unfold geom, gets; by rewrite Hg).
  cbn zeta. rewrite (bind_Ret _ _ _ _ _ (use_dev_ok s1 H1)). pose proof (Hv c ltac:(rewrite El; set_solver)) as Hvc.
  destruct (cluster_read s1 c (cluster_buf st)) as (s2 & Hr & Hok2 & Hs2); [done|by rewrite Hg|by rewrite Hg|].
  pose proof (io_inv_same _ _ _ _ Hi Hok2 Hs2) as [G1 G2 G3 _ _ _ _ G8 G9]. pose proof G2 as (Hg2 & _).
  rewrite (cluster_slice s1 l1 c l2), <- El, H8, Hg in Hr. fold (spc g). rewrite (bind_Ret _ _ _ _ _ Hr), HB, H5, H4.
  set (n := (length l1 * B)%nat) in *. set (C := contents s l) in *. rewrite H4 in Hlt. unfold done_bytes in *. fold n in H4, H5, H7, H8, G8, Hlt, Hr |- *.
  assert (length C = (length l * B)%nat) as HC by apply length_contents.
  assert (length (l1 ++ [c]) * B = n + B)%nat as En by (rewrite length_app; simpl; lia).
  assert (n + B ≤ length C)%nat as HnC by (rewrite HC, El, length_app; simpl; lia).
  destruct (Z.leb_spec (Z.of_nat B) (Z.of_nat (offset - n))) as [Hskip|Hin].
  { eexists _, s2. split; [done|]. constructor; cbn [solve_bytes io_offset cluster_buf io_buf]; unfold done_bytes; rewrite ?En; [done..| | | | | |done].
    - lia.
    - lia.
    - rewrite length_slice; [done|]. destruct writeback; [rewrite length_splice; [lia|rewrite length_slice_min; lia]|lia].
    - replace (Nat.min size (n + B - offset)) with (Nat.min size (n - offset)) by lia. done.
    - replace (Nat.min size (n + B - offset)) with (Nat.min size (n - offset)) by lia. done. }
  set (a := Nat.min size (n - offset)) in *. set (o := (offset - n)%nat) in *. assert (a = n - offset)%nat as Ea by lia.
  set (k := Nat.min (B - o) (size - a)). assert (Nat.min size (n + B - offset) = a + k)%nat as Ek by lia.
  replace (Z.min (Z.of_nat B - Z.of_nat o) (Z.of_nat size - Z.of_nat a)) with (Z.of_nat k) by lia.
  rewrite (u32_small (Z.of_nat a + Z.of_nat k)), !Nat2Z.id by lia. replace (n + o)%nat with (offset + a)%nat by lia.
  destruct writeback eqn:Ew.
  - set (piece := slice a k buf). assert (length piece = k) as Hpl by (unfold piece; rewrite length_slice; lia).
    set (C1 := splice offset (slice 0 a buf) C) in *.
    assert (length C1 = length C) as HC1 by (unfold C1; apply length_splice; rewrite length_slice; lia).
    destruct (cluster_write s2 l l1 c l2 (splice o piece (slice n B C1))) as (s3 & Hw & Hok3 & Hf3 & Hval3 & Ho3 & Hc3);
      [done|by rewrite Hg2|done|done|rewrite Hg2, length_splice; rewrite length_slice; lia| |].
    { apply splice_bytes; [by apply slice_bytes|]. apply slice_bytes. rewrite <- H8. apply contents_bytes. }
    rewrite Hg2 in Hw, Hval3, Ho3, Hc3. fold n in Hc3. rewrite G8, splice_splice in Hc3 by lia. rewrite H7. fold piece. rewrite (bind_Ret _ _ _ _ _ Hw).
    eexists _, s3. split; [done|].
    constructor; cbn [solve_bytes io_offset cluster_buf io_buf]; unfold done_bytes; rewrite ?En, ?Ek, ?Ew; [done|by eapply frame_trans| | | | |done| |].
    + intros x Hx. by rewrite Hval3, G3.
    + lia.
    + lia.
    + rewrite length_splice; rewrite length_slice; lia.
    + rewrite Hc3. replace (n + o)%nat with (offset + a)%nat by lia. apply (splice_more 0 a k buf offset C); lia.
    + intros i Hi'. rewrite Ho3, G9; [done|done|]. destruct Hi' as [?|Hi']; [done|]. apply Hi'. rewrite El. set_solver.
  - eexists _, s2. split; [done|]. constructor; cbn [solve_bytes io_offset cluster_buf io_buf]; unfold done_bytes; rewrite ?En, ?Ek, ?Ew; [done..| | | | |done|done].
    + lia.
    + lia.
    + by rewrite length_slice.
    + rewrite H7, slice_slice by lia. replace (n + o)%nat with (offset + a)%nat by lia.
      exact (splice_more offset a k C 0 buf ltac:(lia) ltac:(lia)).
Qed.

(** The whole range. *)
Definition io_result (st : io) (s' : fs D) : Prop :=
  solve_bytes st = Z.of_nat size ∧ fs_ok s' ∧ frame s s' ∧ (∀ c, valid_cluster g c = true → val_of s' c = val_of s c) ∧
  io_buf st = (if writeback then buf else splice 0 (slice offset size (contents s l)) buf) ∧
  contents s' l = (if writeback then splice offset (slice 0 size buf) (contents s l) else contents s l) ∧
  ∀ i, writeback = false ∨ (∀ c, c ∈ l → ¬ data_lba g c i) → sector (disk s') i = sector (disk s) i.

Lemma io_loop_spec scratch : length scratch = B →
  ∃ st s', while_chain (R := Empty_set) start (λ st, solve_bytes st <? Z.of_nat size) (MkIo 0 (Z.of_nat offset) buf scratch)
      (io_body (Z.of_nat size) writeback) s = Ret (inl st) s' ∧ io_result st s'.
Proof using Hok Hl Hfit Hbuf Hsize Hbytes BL RD.
  intros Hscr. set (Q := λ o : Out (fs D) (io + Empty_set), ∃ st s', o = Ret (inl st) s' ∧ io_result st s').
  assert (∀ l1 st s', done_bytes l1 = size → io_inv l1 st s' → io_result st s') as Hfin.
  { intros l1 st s' Hd [H1 H2 H3 H4 H5 H6 H7 H8 H9]. rewrite Hd in *. by split_and!. }
  apply (while_rule g (val_of s) start l _ _ io_inv Q Hl).
  - intros l1 a s' [H1 H2 H3 _ _ _ _ _ _]. pose proof H2 as (Hg & _). by split_and!.
  - apply io_inv_same.
  - intros l1 x l2 a s' El Hm Ha. destruct (io_body_spec l1 x l2 a s' El Hm Ha) as (st' & s'' & -> & Hi). exact Hi.
  - intros l1 l2 a s' El Hm%Z.ltb_ge Ha. exists a, s'. split; [done|]. apply (Hfin l1); [|done]. pose proof (io_solve _ _ _ Ha).
    unfold done_bytes in *. lia.
  - intros a s' _ Ha. exists a, s'. split; [done|]. apply (Hfin l); [|done]. unfold done_bytes. lia.
  - constructor; cbn [solve_bytes io_offset cluster_buf io_buf]; unfold done_bytes; cbn [length]; [done..| | |done| | |done].
    + lia.
    + lia.
    + destruct writeback; [done|]. by replace (Nat.min size (0 * B - offset)) with 0%nat by lia.
    + destruct writeback; [|done]. replace (Nat.min size (0 * B - offset)) with 0%nat by lia. unfold splice, slice. simpl.
      by rewrite Nat.add_0_r, take_drop.
Qed.
End transfer.

(** ** The scratch buffer *)

Section buffer.
Context (KERNEL_BASE : Z) (HKB : 0 < KERNEL_BASE).

(** A body that keeps the heap runs in a buffer that is given back. *)
Lemma with_buffer_spec {A} s rs size (body : list Z → M (fs D) A) (Q : A → fs D → Prop) :
  pmm_rep (heap s) rs → coalesced rs → direct_mapped KERNEL_BASE (heap s) → 0 < size ≤ 2 ^ 32 →
  (∀ h, ∃ a s1, body (replicate (Z.to_nat size) 0) (MkFs (fat s) (disk s) h) = Ret a s1 ∧ heap s1 = h ∧ Q a s1) →
  (∃ a s1 h rs', with_buffer KERNEL_BASE size body s = Ret a (MkFs (fat s1) (disk s1) h) ∧ Q a s1 ∧
     pmm_rep h rs' ∧ coalesced rs' ∧ free_pages rs' ≡ₚ free_pages rs ∧ pmm_frame (heap s) h (free_pages rs)) ∨
  (with_buffer KERNEL_BASE size body s = Fail E_NoMem s ∧
     ∀ p, ∃ i, p ≤ i < p + (size + PG_SIZE - 1) / PG_SIZE ∧ i ∉ free_pages rs).
Proof using HKB.
  intros R Hco Hd Hsz Hbody. unfold with_buffer. rewrite (proj2 (Z.eqb_neq size 0)) by lia.
  destruct (kmalloc_kfree_spec KERNEL_BASE HKB (heap s) rs size R Hco Hd ltac:(unfold PG_SIZE in *; lia))
    as [(kva & h1 & rs1 & Hk & Hz & _ & _ & _ & _ & _ & _ & h2 & rs2 & Hf & R2 & Hco2 & Hp & Hfr)|[Hk Hno]].
  - left. destruct (Hbody h1) as (a & s1 & Hb & Hh & HQ). exists a, s1, h2, rs2. split; [|done].
    unfold bind, zoom, try_, ensure. rewrite Hk, (proj2 (Z.eqb_neq _ _) Hz). cbn. rewrite Hb. cbn. by rewrite Hh, Hf.
  - right. split; [|done]. unfold bind, zoom, ensure. rewrite Hk. cbn. by destruct s.
Qed.

Lemma fs_ok_heap s h : fs_ok s → fs_ok (MkFs (fat s) (disk s) h).
Proof. intros [H1 H2 H3 H4 H5]. by constructor. Qed.

(** A volume with a heap, and the file of an entry in it. *)
Record mounted (s : fs D) (rs : list (Z * Z)) : Prop := {
  m_fs : fs_ok s;
  m_heap : pmm_rep (heap s) rs;
  m_coalesced : coalesced rs;
  m_direct : direct_mapped KERNEL_BASE (heap s) }.
Record file_ok (s : fs D) (e : FatDirEntry) (l : list Z) : Prop := {
  f_file : is_directory e = false;
  f_chain : chain (geo (fat s)) (val_of s) (cluster e) = Some l;
  f_size : 0 ≤ file_size e < 2 ^ 31;
  f_fits : file_size e ≤ Z.of_nat (length (contents s l)) }.

(** The volume after a transfer that changed the sectors of [l] only, with
    the heap's free pages as they were and nothing of the others touched. *)
Definition transferred (s s' : fs D) (l : list Z) (rs rs' : list (Z * Z)) : Prop :=
  fs_ok s' ∧ geo (fat s') = geo (fat s) ∧ (∀ c, valid_cluster (geo (fat s)) c = true → val_of s' c = val_of s c) ∧
  (∀ i, (∀ c, c ∈ l → ¬ data_lba (geo (fat s)) c i) → sector (disk s') i = sector (disk s) i) ∧
  pmm_rep (heap s') rs' ∧ coalesced rs' ∧ free_pages rs' ≡ₚ free_pages rs ∧ pmm_frame (heap s) (heap s') (free_pages rs).

(** The answers given before any transfer. *)
Lemma io_edges s e l buf offset size writeback : file_ok s e l →
  (file_size e < offset ∨ (offset = file_size e ∨ size = 0 ∧ offset ≤ file_size e)) →
  do_file_io KERNEL_BASE (Some e) (Some buf) offset size writeback s =
  if file_size e <? offset then Fail E_Invalid s else Ret (0, buf) s.
Proof.
  intros [Hfile _ _ _] Hc. unfold do_file_io, ensure. rewrite Hfile. cbn [negb]. rewrite bind_ret.
  destruct (Z.ltb_spec (file_size e) offset) as [Hlt|Hge].
  - by rewrite (proj2 (Z.leb_gt _ _)) by lia.
  - rewrite (proj2 (Z.leb_le _ _)), bind_ret by lia. replace ((offset =? file_size e) || (size =? 0)) with true; [done|].
    destruct Hc as [?|[->|[-> _]]]; [lia|by rewrite Z.eqb_refl|by rewrite orb_true_r].
Qed.

Lemma do_file_io_spec s rs e l buf offset size writeback :
  mounted s rs → file_ok s e l → 0 ≤ offset < file_size e → 0 < size < 2 ^ 32 → Forall is_byte buf →
  let n := Z.min size (file_size e - offset) in n ≤ Z.of_nat (length buf) →
  (∃ s' rs', do_file_io KERNEL_BASE (Some e) (Some buf) offset size writeback s =
       Ret (n, if writeback then buf else splice 0 (slice (Z.to_nat offset) (Z.to_nat n) (contents s l)) buf) s' ∧
     transferred s s' l rs rs' ∧ (writeback = false → ∀ i, sector (disk s') i = sector (disk s) i) ∧
     contents s' l = if writeback then splice (Z.to_nat offset) (slice 0 (Z.to_nat n) buf) (contents s l) else contents s l) ∨
  (do_file_io KERNEL_BASE (Some e) (Some buf) offset size writeback s = Fail E_NoMem s ∧
     ∀ p, ∃ i, p ≤ i < p + (bytes_per_cluster_ (geo (fat s)) + PG_SIZE - 1) / PG_SIZE ∧ i ∉ free_pages rs).
Proof using HKB BL RD.
  intros [Hok R Hco Hd] [Hfile Hl Hfs Hfit] Hoff Hsize Hby n Hn. unfold do_file_io, ensure. rewrite Hfile.
  rewrite (proj2 (Z.leb_le offset _)), (proj2 (Z.eqb_neq offset _)), (proj2 (Z.eqb_neq size 0)) by lia. cbn [negb orb]. rewrite !bind_ret.
  fold n. rewrite (bind_Ret (geom id) _ s (geo (fat s)) s) by done. pose proof (g_spc _ _ (ok_geo _ Hok)) as Hspc.
  pose proof (g_bpc _ _ (ok_geo _ Hok)) as Hbpc. pose proof (g_max _ _ (ok_geo _ Hok)) as Hmax. unfold FAT32_RESERVED_MIN in Hmax.
  destruct (follow_head _ _ _ _ _ Hl) as [l' El]. pose proof (follow_valid _ _ _ _ _ Hl (cluster e) ltac:(rewrite El; left)) as Hv.
  pose proof (proj1 (valid_cluster_iff _ _ (ok_geo _ Hok) _) Hv) as Hc. pose proof (g_clusters _ _ (ok_geo _ Hok)).
  rewrite (proj2 (Z.leb_le 2 _)), (u32_small (_ + 2)), (proj2 (Z.ltb_lt (cluster e) _)) by lia. cbn [andb]. rewrite bind_ret.
  assert (bytes_per_cluster_ (geo (fat s)) = Z.of_nat (512 * spc (geo (fat s)))) as HB by (unfold spc; lia).
  match goal with |- context [with_buffer _ _ ?b s] => set (body := b) end.
  destruct (with_buffer_spec s rs (bytes_per_cluster_ (geo (fat s))) body (λ r s1, r = (n, if writeback then buf else splice 0 (slice (Z.to_nat offset) (Z.to_nat n) (contents s l)) buf) ∧
    ∃ st h, io_result (MkFs (fat s) (disk s) h) l writeback buf (Z.to_nat offset) (Z.to_nat n) st s1)) as [(r & s1 & h & rs' & Hr & (-> & st & h1 & Hres) & R' & Hco' & Hp & Hfr)|[Hr Hno]];
    [done..|lia| | |right; by rewrite Hr].
  - intros h. set (sh := MkFs (fat s) (disk s) h). rewrite length_contents in Hfit.
    destruct (io_loop_spec sh (cluster e) l writeback buf (Z.to_nat offset) (Z.to_nat n) (fs_ok_heap _ _ Hok) Hl)
      with (scratch := replicate (Z.to_nat (bytes_per_cluster_ (geo (fat s)))) 0) as (st & s1 & Hw & Hres);
      [cbn; lia|lia|lia|done|rewrite length_replicate, HB; cbn; lia|].
    rewrite !Z2Nat.id in Hw by lia. exists (n, io_buf st), s1. pose proof Hres as (Hsolve & _ & (_ & Hh & _) & _ & Hbuf & _).
    split; [|split; [done|split; [by rewrite Hbuf|by exists st, h]]].
    unfold body. rewrite (bind_Ret _ _ _ _ _ Hw), Hsolve, Z2Nat.id, Z.eqb_refl by lia. unfold ensure. rewrite bind_ret.
    rewrite s32_small by lia. done.
  - left. exists (MkFs (fat s1) (disk s1) h), rs'. split; [done|]. destruct Hres as (_ & Hok1 & (Hg1 & _) & Hval & _ & Hcon & Hrest).
    split; [|split].
    + split_and!; [by apply fs_ok_heap|done|done| |done..]. intros i Hi. apply Hrest. by right.
    + intros Hw i. apply Hrest. by left.
    + done.
Qed.

(** C34: [read_file] of [size] bytes at [offset] of a file: with a directory
    entry or an offset past the end it answers [Invalid]; at the end of the
    file, or for no bytes, it returns 0; otherwise it returns the number [n]
    of bytes up to the end of the file and those bytes of the file's contents
    in the buffer, and changes nothing on the device and no free page, or it
    answers [NoMem], which happens only when the heap has no room for one
    cluster. *)
Theorem read_file_correct s rs e l buf offset size :
  mounted s rs → file_ok s e l → 0 ≤ offset → 0 ≤ size < 2 ^ 32 → Forall is_byte buf →
  let n := Z.min size (file_size e - offset) in n ≤ Z.of_nat (length buf) →
  (file_size e < offset → read_file KERNEL_BASE (Some e) (Some buf) offset size s = Fail E_Invalid s) ∧
  (offset = file_size e ∨ size = 0 ∧ offset ≤ file_size e → read_file KERNEL_BASE (Some e) (Some buf) offset size s = Ret (0, buf) s) ∧
  (offset < file_size e → 0 < size →
   (∃ s' rs', read_file KERNEL_BASE (Some e) (Some buf) offset size s =
        Ret (n, splice 0 (slice (Z.to_nat offset) (Z.to_nat n) (contents s l)) buf) s' ∧
      transferred s s' l rs rs' ∧ ∀ i, sector (disk s') i = sector (disk s) i) ∨
   (read_file KERNEL_BASE (Some e) (Some buf) offset size s = Fail E_NoMem s ∧
      ∀ p, ∃ i, p ≤ i < p + (bytes_per_cluster_ (geo (fat s)) + PG_SIZE - 1) / PG_SIZE ∧ i ∉ free_pages rs)).
Proof using HKB BL RD.
  intros Hm Hf Hoff Hsize Hby n Hn. split_and!.
  - intros Hlt. unfold read_file. rewrite (io_edges s e l) by (done || by left). by rewrite (proj2 (Z.ltb_lt _ _)).
  - intros He. unfold read_file. rewrite (io_edges s e l) by (done || by right). rewrite (proj2 (Z.ltb_ge _ _)); [done|lia].
  - intros Hlt Hs. destruct (do_file_io_spec s rs e l buf offset size false Hm Hf ltac:(lia) ltac:(lia) Hby Hn)
      as [(s' & rs' & Hr & Ht & Hi & _)|?]; [left|by right]. exists s', rs'. split; [done|]. split; [done|]. by apply Hi.
Qed.

(** C11: [write_file] of [size] bytes at [offset] of a file replaces exactly
    the bytes of the file from [offset] up to its end by those of the buffer:
    the contents of its clusters change there and nowhere else, no sector
    outside them changes, the allocation table and the free pages of the heap
    are as they were; it answers [NoMem] only when the heap has no room for
    one cluster. *)
Theorem write_file_correct s rs e l buf offset size :
  mounted s rs → file_ok s e l → 0 ≤ offset < file_size e → 0 < size < 2 ^ 32 → Forall is_byte buf →
  let n := Z.min size (file_size e - offset) in n ≤ Z.of_nat (length buf) →
  (∃ s' rs', write_file KERNEL_BASE (Some e) (Some buf) offset size s = Ret (n, buf) s' ∧ transferred s s' l rs rs' ∧
     contents s' l = splice (Z.to_nat offset) (slice 0 (Z.to_nat n) buf) (contents s l)) ∨
  (write_file KERNEL_BASE (Some e) (Some buf) offset size s = Fail E_NoMem s ∧
     ∀ p, ∃ i, p ≤ i < p + (bytes_per_cluster_ (geo (fat s)) + PG_SIZE - 1) / PG_SIZE ∧ i ∉ free_pages rs).
Proof using HKB BL RD.
  intros Hm Hf Hoff Hsize Hby n Hn. destruct (do_file_io_spec s rs e l buf offset size true Hm Hf Hoff Hsize Hby Hn)
    as [(s' & rs' & Hr & Ht & _ & Hc)|?]; [left|by right]. by exists s', rs'.
Qed.
End buffer.
End files.
