(* ===== verification/FatWitness.v ===== *)
(** * The FAT32 driver: a concrete volume

    A volume of 17 one-sector clusters with two copies of the table, a root
    directory at cluster 2 and a file HELLO.TXT of 600 bytes in the clusters
    3 and 4, and the theorems of the driver applied to it. *)

From S2P Require Import Prelude Zstl Pmm PmmProofs LibString BlockDev RamDisk FatLayout FatCore FatCoreProofs FatChain FatMount FatDir FatEntry FatDirProofs FatAdd FatPath FatFile.

Definition ex_boot : list Z :=
  splice 510 [0x55; 0xAA] (splice 66 [0x29] (splice 44 (to_le 4 2) (splice 36 (to_le 4 1) (splice 32 (to_le 4 20)
    (splice 11 (to_le 2 512 ++ [1] ++ to_le 2 1 ++ [2]) (replicate 512 0)))))).
Definition ex_table : list Z :=
  splice 0 (concat (to_le 4 <$> [0x0FFFFFF8; 0x0FFFFFFF; 0x0FFFFFFF; 4; 0x0FFFFFFF])) (replicate 512 0).
Definition ex_hello : FatDirEntry :=
  MkDirEntry (bytes_of "HELLO   ") (bytes_of "TXT") FAT_ATTR_ARCHIVE 0 0 0 0 0 0 0 0 3 600.
Definition ex_root : list Z := splice 0 (bytes_of_entry ex_hello) (replicate 512 0).

Definition ex_disk : ram :=
  MkRam 20 (list_to_map [(0, ex_boot); (1, ex_table); (2, ex_table); (3, ex_root); (4, replicate 512 65); (5, replicate 512 66)]).
Definition ex_start : fs ram := MkFs fat_init ex_disk ex_pmm.
(** The volume, mounted. *)
Definition ex_geo : geometry := MkGeo 0 TYPE_FAT32 512 1 512 1 2 1 1 2 3 17 20.
Definition ex_fs : fs ram := MkFs (MkFat true ex_geo (replicate 512 0) FAT_INVALID_SECTOR false) ex_disk ex_pmm.

Lemma ex_mounts : mount true ex_start = Ret tt ex_fs.
Proof. vm_compute. reflexivity. Qed.
Lemma ex_fs_ok : fs_ok ex_fs.
Proof. constructor; [done|constructor; by vm_compute|done|done|by left]. Qed.

Lemma mount_correct_witness : ∃ s', mount true ex_start = Ret tt s' ∧ fs_ok s'.
Proof.
  pose proof (mount_correct ex_start true eq_refl eq_refl) as H. exists ex_fs. rewrite ex_mounts in H. split; [apply ex_mounts|apply H].
Defined.

Lemma ex_chain : chain (geo (fat ex_fs)) (val_of ex_fs) 3 = Some [3; 4].
Proof. vm_compute. reflexivity. Qed.
Lemma ex_root_chain : chain (geo (fat ex_fs)) (val_of ex_fs) 2 = Some [2].
Proof. vm_compute. reflexivity. Qed.

Lemma chain_walk_correct_witness : ∃ s', walk_chain (R := Empty_set) 3 [] (λ c l, ret (inl (l ++ [c]))) ex_fs = Ret (inl [3; 4]) s'.
Proof. destruct (chain_walk_correct ex_fs 3 ex_fs_ok) as (s' & _ & _ & H). rewrite ex_chain in H. by exists s'. Defined.


Lemma alloc_cluster_correct_witness : ∃ s', alloc_cluster ex_fs = Ret 5 s'.
Proof.
  pose proof (alloc_cluster_correct ex_fs ex_fs_ok) as H.
  replace (first_free (geo (fat ex_fs)) (val_of ex_fs)) with (Some 5) in H by (vm_compute; reflexivity).
  destruct H as (s' & Hr & _). by exists s'.
Defined.

(** ** Paths and contents *)

Notation ex_parts := (bvec (list Z) 16).
Notation hello_txt := (Some (bytes_of "/hello.txt")).
Notation new_txt := (Some (bytes_of "new.txt")).

Lemma ex_dir : dir_of ex_fs [2] = ex_hello :: replicate 15 zero_entry.
Proof. vm_compute. reflexivity. Qed.
Lemma ex_dir_clean : clean (dir_of ex_fs [2]).
Proof. rewrite ex_dir. apply (clean_ends [ex_hello] (replicate 15 zero_entry)); [by repeat constructor|by apply Forall_replicate]. Qed.
Lemma ex_dir_unique : unique_name (bytes_of "HELLO.TXT") (dir_of ex_fs [2]).
Proof.
  rewrite ex_dir. intros es1 e es2 E _ _. apply (f_equal (drop (S (length es1)))) in E.
  change (e :: es2) with ([e] ++ es2) in E. rewrite app_assoc, drop_app_length' in E by (rewrite length_app; simpl; lia).
  change (drop (S (length es1)) (ex_hello :: replicate 15 zero_entry)) with (drop (length es1) (replicate 15 zero_entry)) in E.
  rewrite <- E, drop_replicate. destruct (15 - length es1)%nat; vm_compute; reflexivity.
Qed.


Lemma unlink_correct_witness : ∃ s', unlink (P := ex_parts) hello_txt ex_fs = Ret tt s' ∧ val_of s' 4 = FAT32_FREE.
Proof.
  pose proof (unlink_correct (P := ex_parts) ex_fs hello_txt [bytes_of "HELLO.TXT"] 2 (bytes_of "HELLO.TXT") [2] ex_fs_ok) as H.
  specialize (H ltac:(vm_compute; reflexivity) ltac:(vm_compute; reflexivity) ex_root_chain ex_dir_unique).
  replace (lookup_name (bytes_of "HELLO.TXT") (dir_of ex_fs [2])) with (Some ex_hello) in H by (rewrite ex_dir; vm_compute; reflexivity).
  destruct (H [3; 4] ex_chain ltac:(set_solver)) as (s' & Hr & _ & Hv). exists s'. split; [exact Hr|]. by rewrite Hv.
Defined.

Lemma ex_mounted : mounted 0xFFFFFFFF80000000 ex_fs [(0, 2); (4, 3)].
Proof.
  constructor; [exact ex_fs_ok|exact ex_pmm_rep|exact ex_pmm_coalesced|exact ex_pmm_direct].
Qed.
Lemma ex_file_ok : file_ok ex_fs ex_hello [3; 4].
Proof. constructor; [done|exact ex_chain|done|]. by vm_compute. Qed.
Lemma ex_room n : n = (512 + PG_SIZE - 1) / PG_SIZE → ¬ ∀ p, ∃ i, p ≤ i < p + n ∧ i ∉ free_pages [(0, 2); (4, 3)].
Proof.
  intros -> H. destruct (H 0) as (i & Hi & Hn). apply Hn, elem_of_free_pages. exists 0, 2. split; [left|].
  change ((512 + PG_SIZE - 1) / PG_SIZE) with 1 in Hi. lia.
Qed.

Lemma read_file_correct_witness : ∃ s', read_file 0xFFFFFFFF80000000 (Some ex_hello) (Some (replicate 200 0)) 500 200 ex_fs =
  Ret (100, replicate 12 65 ++ replicate 88 66 ++ replicate 100 0) s'.
Proof.
  destruct (read_file_correct 0xFFFFFFFF80000000 eq_refl ex_fs _ ex_hello [3; 4] (replicate 200 0) 500 200 ex_mounted ex_file_ok)
    as (_ & _ & H); [lia|lia|by apply Forall_replicate|by vm_compute|].
  destruct (H eq_refl eq_refl) as [(s' & rs' & Hr & _)|[_ Hno]]; [|by destruct (ex_room _ eq_refl)].
  exists s'. rewrite Hr. vm_compute. reflexivity.
Defined.

Lemma write_file_correct_witness : ∃ s', write_file 0xFFFFFFFF80000000 (Some ex_hello) (Some (replicate 20 67)) 500 20 ex_fs =
  Ret (20, replicate 20 67) s' ∧ slice 500 20 (contents s' [3; 4]) = replicate 20 67.
Proof.
  destruct (write_file_correct 0xFFFFFFFF80000000 eq_refl ex_fs _ ex_hello [3; 4] (replicate 20 67) 500 20 ex_mounted ex_file_ok)
    as [(s' & rs' & Hr & _ & Hc)|[_ Hno]]; [by vm_compute|by vm_compute|by apply Forall_replicate|by vm_compute| |by destruct (ex_room _ eq_refl)].
  exists s'. split; [exact Hr|]. rewrite Hc. vm_compute. reflexivity.
Defined.
