(* ===== verification/Vfs.v ===== *)
(** * The virtual file system: [kernel/fs/vfs.cpp]

    Mount slots with a count of their users, path resolution, and the
    operations that dispatch to the file system mounted at a path.  File-system
    and file objects live in stores and are named by identities; a use of an
    identity without an object is a use of freed memory. *)

From S2P Require Import Prelude Zstl LibString.

(** ** [vfs.h] *)

Inductive NodeType : Set := NT_Unknown | NT_File | NT_Directory | NT_CharDevice.
Record Stat : Set := MkStat { st_type : NodeType; st_size : Z; st_attrs : Z }.
Record DirEntry : Set := MkDirent { de_name : list Z; de_type : NodeType; de_size : Z; de_attrs : Z }.
(** [DirEntry::set] copies at most 31 bytes of the name. *)
Definition dirent_set (n : list Z) (t : NodeType) (s a : Z) : DirEntry := MkDirent (take 31 n) t s a.

(** ** [class FileSystem] and [class File]

    [F]: file systems, [X]: files, [W]: the rest of the kernel's state, [Dev]:
    block devices.  [fs_open] is given the identity of the file system; a file
    that keeps a pointer to its file system names it with [file_fs]. *)
Class FileSystem (F X W Dev : Type) := {
  fs_mount : option Dev → M (F * W) unit;
  fs_unmount : M (F * W) unit;
  fs_delete : F → M W unit;                         (** the destructor *)
  fs_open : Z → list Z → M (F * W) (option X);
  fs_stat : list Z → M (F * W) Stat;
  fs_readdir : list Z → (list DirEntry → DirEntry → Z) → M (F * W) (list DirEntry);
  fs_mkdir : list Z → M (F * W) unit;
  fs_create : list Z → M (F * W) unit;
  fs_unlink : list Z → M (F * W) unit;
  fs_rmdir : list Z → M (F * W) unit;
  file_fs : X → option Z;
  file_read : X → list Z → Z → Z → M (option F * W) (Z * list Z);
  file_write : X → list Z → Z → Z → M (option F * W) Z;
  file_stat : X → Stat;
  file_delete : X → M W unit }.

(** What an implementation promises: the file systems it serves are found
    through the identity it was opened with. *)
Class FileSystemLaws (F X W Dev : Type) `{FileSystem F X W Dev} : Prop := {
  open_file_fs this p s x s' : fs_open this p s = Ret (Some x) s' → file_fs x = Some this ∨ file_fs x = None }.

(** ** State *)

Record FsEntry (F W : Type) : Type := MkFsEntry { fe_name : list Z; fe_create : M W (option F) }.
Arguments MkFsEntry {F W} fe_name fe_create.
Arguments fe_name {F W} f.
Arguments fe_create {F W} f.
Definition MAX_FS_TYPES : nat := 8.

Record MountSlot (Dev : Type) : Type := MkSlot {
  mount_point : list Z; device : option Dev; device_name : option (list Z); slot_fs : option Z;
  slot_fs_type : option (list Z); users : Z; transitioning : bool }.
Arguments MkSlot {Dev} mount_point device device_name slot_fs slot_fs_type users transitioning.
Arguments mount_point {Dev} m.
Arguments device {Dev} m.
Arguments device_name {Dev} m.
Arguments slot_fs {Dev} m.
Arguments slot_fs_type {Dev} m.
Arguments users {Dev} m.
Arguments transitioning {Dev} m.

(** A file with the slot whose users it counts. *)
Record FileObj (X : Type) : Type := MkFile { impl : X; mount_users_ : option nat }.
Arguments MkFile {X} impl mount_users_.
Arguments impl {X} f.
Arguments mount_users_ {X} f.

Record vfs (F X W Dev V : Type) : Type := MkVfs {
  fs_registry_ : V;
  mounts_ : list (MountSlot Dev);
  fs_objs : gmap Z F;
  files : gmap Z (FileObj X);
  fresh_id : Z;
  world : W }.
Arguments MkVfs {F X W Dev V} fs_registry_ mounts_ fs_objs files fresh_id world.
Arguments fs_registry_ {F X W Dev V} v.
Arguments mounts_ {F X W Dev V} v.
Arguments fs_objs {F X W Dev V} v.
Arguments files {F X W Dev V} v.
Arguments fresh_id {F X W Dev V} v.
Arguments world {F X W Dev V} v.

Section vfs.
Context {F X W Dev V : Type} `{FS : FileSystem F X W Dev} `{IV : InplaceVector V (FsEntry F W)}.
Context (dev_name : Dev → list Z).
Notation S := (vfs F X W Dev V).
Implicit Types s : S.

Definition set_mounts (l : list (MountSlot Dev)) (s : S) : S := MkVfs (fs_registry_ s) l (fs_objs s) (files s) (fresh_id s) (world s).
Definition set_world (w : W) (s : S) : S := MkVfs (fs_registry_ s) (mounts_ s) (fs_objs s) (files s) (fresh_id s) w.
Definition set_objs (o : gmap Z F) (s : S) : S := MkVfs (fs_registry_ s) (mounts_ s) o (files s) (fresh_id s) (world s).
Definition set_files (f : gmap Z (FileObj X)) (s : S) : S := MkVfs (fs_registry_ s) (mounts_ s) (fs_objs s) f (fresh_id s) (world s).
Definition set_fresh (i : Z) (s : S) : S := MkVfs (fs_registry_ s) (mounts_ s) (fs_objs s) (files s) i (world s).

Definition set_users (n : Z) (m : MountSlot Dev) : MountSlot Dev :=
  MkSlot (mount_point m) (device m) (device_name m) (slot_fs m) (slot_fs_type m) n (transitioning m).
Definition set_transitioning (b : bool) (m : MountSlot Dev) : MountSlot Dev :=
  MkSlot (mount_point m) (device m) (device_name m) (slot_fs m) (slot_fs_type m) (users m) b.

(** [slot->...] *)
Definition get_slot (i : nat) : M S (MountSlot Dev) := l <- gets mounts_;; deref (l !! i).
Definition upd_slot (i : nat) (f : MountSlot Dev → MountSlot Dev) : M S unit :=
  slot <- get_slot i;; modify (λ s, set_mounts (<[i := f slot]> (mounts_ s)) s).

(** A virtual call on the file system [p]. *)
Definition call_fs {A} (p : Z) (op : M (F * W) A) : M S A :=
  f <- (o <- gets fs_objs;; deref (o !! p));;
  zoom (λ s, (f, world s)) (λ fw s, set_world fw.2 (set_objs (<[p := fw.1]> (fs_objs s)) s)) op.
(** A virtual call on a file: through the pointer to its file system, if it keeps one. *)
Definition call_file {A} (x : X) (op : M (option F * W) A) : M S A :=
  match file_fs x with
  | None => zoom (λ s, (None, world s)) (λ fw s, set_world fw.2 s) op
  | Some p =>
      f <- (o <- gets fs_objs;; deref (o !! p));;
      zoom (λ s, (Some f, world s)) (λ fw s, set_world fw.2 (match fw.1 with Some f' => set_objs (<[p := f']> (fs_objs s)) s | None => s end)) op
  end.
Definition in_world {A} (op : M W A) : M S A := zoom world (λ w s, set_world w s) op.

(** Run the cleanup of the owners in scope on both ways out. *)
Definition finally {A} (m : M S A) (cleanup : M S unit) : M S A :=
  r <- try_ m;; cleanup;; match r with inl a => ret a | inr e => fail e end.

(** ** Slots *)

Definition SLASH_DEV : list Z := bytes_of "/dev".
Definition SLASH_MNT : list Z := bytes_of "/mnt".
Definition ROOT : list Z := bytes_of "/".
Definition slot_init (mp : list Z) : MountSlot Dev := MkSlot mp None None None None 0 false.
Definition vfs_start (w : W) : S := MkVfs iv_new [slot_init SLASH_DEV; slot_init SLASH_MNT; slot_init ROOT] ∅ ∅ 1 w.

Fixpoint slot_index (l : list (MountSlot Dev)) (mp : list Z) : option nat :=
  match l with
  | [] => None
  | m :: l => if bool_decide (mount_point m = mp) then Some 0%nat else Datatypes.S <$> slot_index l mp
  end.
Definition find_slot (mp : option (list Z)) (s : S) : option nat :=
  match mp with None => None | Some mp => slot_index (mounts_ s) mp end.
Definition lookup_slot (mp : option (list Z)) (e : Error) : M S nat :=
  o <- gets (find_slot mp);; match o with Some i => ret i | None => fail e end.

(** [ReleaseMount] and [FinishTransition] *)
Definition release_mount (i : nat) : M S unit :=
  slot <- get_slot i;;
  assert_ (negb (users slot =? 0));;
  upd_slot i (set_users (u64 (users slot - 1))).
Definition finish_transition (i : nat) : M S unit := upd_slot i (set_transitioning false).

Definition acquire_mount (mp : option (list Z)) : M S nat :=
  i <- lookup_slot mp E_NotFound;;
  slot <- get_slot i;;
  ensure (bool_decide (is_Some (slot_fs slot))) E_NotFound;;
  upd_slot i (set_users (u64 (users slot + 1)));;
  ret i.

(** The mount point of a path and the path below it. *)
Definition split_mount (path : list Z) : list Z * list Z :=
  if bool_decide (path = SLASH_DEV) then (SLASH_DEV, [])
  else if str_starts_with path (bytes_of "/dev/") then (SLASH_DEV, str_skip_char (drop 5 path) 0x2F)
  else if bool_decide (path = SLASH_MNT) then (SLASH_MNT, [])
  else if str_starts_with path (bytes_of "/mnt/") then (SLASH_MNT, str_skip_char (drop 5 path) 0x2F)
  else if bool_decide (head path = Some 0x2F) then (ROOT, str_skip_char (drop 1 path) 0x2F)
  else (ROOT, str_skip_char path 0x2F).
Definition resolve_path (path : option (list Z)) : M S (nat * list Z) :=
  match path with
  | None => fail E_Invalid
  | Some path =>
      let '(mp, relpath) := split_mount path in
      i <- acquire_mount (Some mp);;
      ret (i, relpath)
  end.

(** ** Objects *)

Definition new_id : M S Z := i <- gets fresh_id;; modify (set_fresh (i + 1));; ret i.
(** [sys::unique_ptr<FileSystem>(f)] and the deletion of its object *)
Definition own_fs (f : F) : M S Z := p <- new_id;; modify (λ s, set_objs (<[p := f]> (fs_objs s)) s);; ret p.
Definition delete_fs (p : Z) : M S unit :=
  f <- (o <- gets fs_objs;; deref (o !! p));;
  in_world (fs_delete f);;
  modify (λ s, set_objs (base.delete p (fs_objs s)) s).

(** ** Mounting *)

Definition find_factory (l : list (FsEntry F W)) (fs_type : list Z) : option (M W (option F)) :=
  fe_create <$> list_find (λ e, fe_name e = fs_type) l ≫= λ x, Some x.2.
(** The section that reserves the slot. *)
Definition mount_reserve (mp : option (list Z)) (fs_type : list Z) : M S (nat * M W (option F)) :=
  i <- lookup_slot mp E_NotFound;;
  slot <- get_slot i;;
  ensure (negb (transitioning slot)) E_Busy;;
  ensure (bool_decide (slot_fs slot = None)) E_Exists;;
  r <- gets fs_registry_;;
  match find_factory (iv_elems r) fs_type with
  | None => fail E_NotFound
  | Some factory => upd_slot i (set_transitioning true);; ret (i, factory)
  end.
(** The creation and mounting of the file system, which may sleep. *)
Definition mount_new (factory : M W (option F)) (dev : option Dev) : M S Z :=
  f <- in_world factory;;
  match f with
  | None => fail E_NoMem
  | Some f =>
      owner <- own_fs f;;
      r <- try_ (call_fs owner (fs_mount dev));;
      match r with
      | inl _ => ret owner
      | inr e => delete_fs owner;; fail e
      end
  end.
(** The section that publishes it. *)
Definition mount_publish (i : nat) (dev : option Dev) (fs_type : list Z) (owner : Z) : M S unit :=
  upd_slot i (λ m, MkSlot (mount_point m) dev (dev_name <$> dev) (Some owner) (Some fs_type) (users m) (transitioning m)).
Definition mount (mp : option (list Z)) (dev : option Dev) (fs_type : option (list Z)) : M S unit :=
  match mp, fs_type with
  | Some mp, Some fs_type =>
      r <- mount_reserve (Some mp) fs_type;;
      let '(i, factory) := r in
      finally (owner <- mount_new factory dev;; mount_publish i dev fs_type owner) (finish_transition i)
  | _, _ => fail E_Invalid
  end.

(** The section that detaches the file system from its slot. *)
Definition umount_detach (mp : option (list Z)) : M S (nat * Z) :=
  i <- lookup_slot mp E_NotFound;;
  slot <- get_slot i;;
  ensure (negb (transitioning slot)) E_Busy;;
  match slot_fs slot with
  | None => fail E_NotFound
  | Some owner =>
      ensure (users slot =? 0) E_Busy;;
      upd_slot i (λ m, MkSlot (mount_point m) None None None None (users m) true);;
      ret (i, owner)
  end.
Definition umount_destroy (owner : Z) : M S unit := call_fs owner fs_unmount;; delete_fs owner.
Definition umount (mp : option (list Z)) : M S unit :=
  match mp with
  | None => fail E_Invalid
  | Some mp =>
      r <- umount_detach (Some mp);;
      let '(i, owner) := r in
      umount_destroy owner;;
      finish_transition i
  end.

(** [vfs::init] *)
Definition init : M S (option Error) :=
  r <- try_ (mount (Some SLASH_DEV) None (Some (bytes_of "devfs")));;
  ret (match r with inl _ => None | inr e => Some e end).

Definition register_fs (name : option (list Z)) (factory : option (M W (option F))) : M S unit :=
  match name, factory with
  | Some name, Some factory =>
      r <- gets fs_registry_;;
      match iv_try_push_back (MkFsEntry name factory) r with
      | Some r => modify (λ s, MkVfs r (mounts_ s) (fs_objs s) (files s) (fresh_id s) (world s))
      | None => fail E_Full
      end
  | _, _ => fail E_Invalid
  end.

(** ** Files *)

(** The file system mounted in a slot. *)
Definition slot_object (i : nat) : M S Z := slot <- get_slot i;; deref (slot_fs slot).

(** The call of [FileSystem::open] by a holder of the slot. *)
Definition open_in (i : nat) (relpath : list Z) : M S X :=
  ensure (negb (bool_decide (relpath = []))) E_Invalid;;
  p <- slot_object i;;
  x <- call_fs p (fs_open p relpath);;
  match x with Some x => ret x | None => fail E_Io end.
(** The new file takes over the reference to the slot. *)
Definition adopt (i : nat) (x : X) : M S Z :=
  id <- new_id;;
  let file := MkFile x None in
  assert_ (bool_decide (mount_users_ file = None));;
  modify (λ s, set_files (<[id := MkFile x (Some i)]> (files s)) s);;
  ret id.
Definition open (path : option (list Z)) : M S Z :=
  r <- resolve_path path;;
  let '(i, relpath) := r in
  x <- try_ (open_in i relpath);;
  match x with
  | inr e => release_mount i;; fail e
  | inl x => adopt i x
  end.

Definition get_file (id : Z) : M S (FileObj X) := f <- gets files;; deref (f !! id).
(** [delete file]: the destructor gives back the reference. *)
Definition close (file : option Z) : M S unit :=
  match file with
  | None => ret tt
  | Some id =>
      f <- get_file id;;
      match mount_users_ f with Some i => release_mount i | None => ret tt end;;
      in_world (file_delete (impl f));;
      modify (λ s, set_files (base.delete id (files s)) s)
  end.

Definition read (file : option Z) (buf : option (list Z)) (size offset : Z) : M S (Z * list Z) :=
  match file, buf with
  | Some id, Some buf => f <- get_file id;; call_file (impl f) (file_read (impl f) buf size offset)
  | _, _ => fail E_Invalid
  end.
Definition write (file : option Z) (buf : option (list Z)) (size offset : Z) : M S Z :=
  match file, buf with
  | Some id, Some buf => f <- get_file id;; call_file (impl f) (file_write (impl f) buf size offset)
  | _, _ => fail E_Invalid
  end.

(** ** Operations on paths *)

(** A call on the file system of a path, holding its slot. *)
Definition with_path {A} (path : option (list Z)) (op : list Z → M (F * W) A) : M S A :=
  r <- resolve_path path;;
  let '(i, relpath) := r in
  finally (p <- slot_object i;; call_fs p (op relpath)) (release_mount i).
Definition stat (path : option (list Z)) (st : bool) : M S Stat := ensure st E_Invalid;; with_path path fs_stat.
Definition readdir (path : option (list Z)) (visit : list DirEntry → DirEntry → Z) : M S (list DirEntry) :=
  with_path path (λ p, fs_readdir p visit).
Definition mkdir (path : option (list Z)) : M S unit := with_path path fs_mkdir.
Definition create (path : option (list Z)) : M S unit := with_path path fs_create.
Definition unlink (path : option (list Z)) : M S unit := with_path path fs_unlink.
Definition rmdir (path : option (list Z)) : M S unit := with_path path fs_rmdir.

Definition is_mounted (mp : option (list Z)) : M S bool :=
  o <- gets (find_slot mp);;
  match o with None => ret false | Some i => slot <- get_slot i;; ret (bool_decide (is_Some (slot_fs slot))) end.
Definition mounted_device (mp : option (list Z)) : M S (option (list Z)) :=
  o <- gets (find_slot mp);;
  match o with
  | None => ret None
  | Some i => slot <- get_slot i;; ret (if bool_decide (slot_fs slot = None) then None else device_name slot)
  end.

(** ** [rootfs.cpp]: the first disk with a FAT file system becomes the root *)
Fixpoint rootfs_loop (devs : list (Dev * bool)) : M S Z :=
  match devs with
  | [] => ret (-1)
  | (dev, is_disk) :: devs =>
      if negb is_disk then rootfs_loop devs
      else
        r <- try_ (mount (Some ROOT) (Some dev) (Some (bytes_of "fat")));;
        match r with inl _ => ret 0 | inr _ => rootfs_loop devs end
  end.
Definition rootfs_init (devs : list (Dev * bool)) : M S Z := rootfs_loop devs.
End vfs.
