(* ===== verification/VfsProofs.v ===== *)
(** * The virtual file system: interleavings

    The sections of [mount], [umount], [open] and [close] that run with
    interrupts masked are the steps of a transition system; between two
    sections of one caller any number of sections of others run.  In every
    reachable state the users of a slot are counted exactly, and no file and
    no caller holds a file system that was deleted. *)

From S2P Require Import Prelude Zstl LibString Vfs.

#[local] Arguments Z.of_nat : simpl never.

(** A caller between two sections of its operation. *)
Inductive act (X : Type) : Type :=
| Reserved (i : nat)               (** [mount]: slot reserved *)
| Created (i : nat) (p : Z)        (** [mount]: owns a new file system *)
| Owned (i : nat) (p : Z)          (** [mount]: it is mounted, not published *)
| Detached (i : nat) (p : Z)       (** [umount]: owns the detached file system *)
| Finishing (i : nat)              (** about to end the transition *)
| Using (i : nat)                  (** holds a [MountRef] *)
| Opened (i : nat) (x : X).        (** holds a [MountRef] and a new file *)
Arguments Reserved {X} i.
Arguments Created {X} i p.
Arguments Owned {X} i p.
Arguments Detached {X} i p.
Arguments Finishing {X} i.
Arguments Using {X} i.
Arguments Opened {X} i x.

(** ** Counting *)

Definition cnt (i : nat) (l : list nat) : nat := length (filter (eq i) l).
Lemma cnt_nil i : cnt i [] = 0%nat.
Proof. done. Qed.
Lemma cnt_cons i j l : cnt i (j :: l) = ((if decide (i = j) then 1 else 0) + cnt i l)%nat.
Proof. unfold cnt. rewrite filter_cons. by destruct (decide _). Qed.
Lemma cnt_one i j : cnt i [j] = if decide (i = j) then 1%nat else 0%nat.
Proof. rewrite cnt_cons, cnt_nil. by destruct (decide _). Qed.
Lemma cnt_app i l1 l2 : cnt i (l1 ++ l2) = (cnt i l1 + cnt i l2)%nat.
Proof. unfold cnt. by rewrite filter_app, length_app. Qed.
#[global] Instance cnt_proper : Proper ((=) ==> (≡ₚ) ==> (=)) cnt.
Proof. intros i ? <- l l' Hp. unfold cnt. by rewrite Hp. Qed.
Lemma cnt_in i l : i ∈ l ↔ cnt i l ≠ 0%nat.
Proof.
  induction l as [|j l IH]; [rewrite cnt_nil; split; [intros H; by inversion H|done]|].
  rewrite cnt_cons, elem_of_cons, IH. destruct (decide _); naive_solver lia.
Qed.

Section steps.
Context {F X W Dev V : Type} `{FS : FileSystem F X W Dev} `{FL : !FileSystemLaws F X W Dev} `{IV : InplaceVector V (FsEntry F W)}.
Context (dev_name : Dev → list Z).
Notation S := (vfs F X W Dev V).
Implicit Types (s : S) (acts : list (act X)).

Definition act_ref (a : act X) : list nat := match a with Using i | Opened i _ => [i] | _ => [] end.
Definition act_trans (a : act X) : list nat :=
  match a with Reserved i | Created i _ | Owned i _ | Detached i _ | Finishing i => [i] | _ => [] end.
Definition act_obj (a : act X) : list Z := match a with Created _ p | Owned _ p | Detached _ p => [p] | _ => [] end.

(** The slots that files and callers refer to. *)
Definition file_refs (fs : gmap Z (FileObj X)) : list nat := map_to_list fs ≫= λ kf, option_list (mount_users_ kf.2).
Definition refs s acts : list nat := (acts ≫= act_ref) ++ file_refs (files s).
Definition trans acts : list nat := acts ≫= act_trans.
(** The owners of file-system objects. *)
Definition owners s acts : list Z := omap slot_fs (mounts_ s) ++ (acts ≫= act_obj).

(** One section of one caller. *)
Inductive step : S → list (act X) → S → list (act X) → Prop :=
| step_reserve mp ty s acts i factory s' :
    mount_reserve mp ty s = Ret (i, factory) s' → step s acts s' (Reserved i :: acts)
| step_create_fail i acts acts' s s' (factory : M W (option F)) :
    acts ≡ₚ Reserved i :: acts' → in_world factory s = Ret None s' → step s acts s' (Finishing i :: acts')
| step_create i acts acts' s s1 s' p f (factory : M W (option F)) :
    acts ≡ₚ Reserved i :: acts' → in_world factory s = Ret (Some f) s1 → own_fs f s1 = Ret p s' → step s acts s' (Created i p :: acts')
| step_mount i p dev acts acts' s s' :
    acts ≡ₚ Created i p :: acts' → call_fs p (fs_mount dev) s = Ret tt s' → step s acts s' (Owned i p :: acts')
| step_mount_fail i p dev e acts acts' s s1 s' :
    acts ≡ₚ Created i p :: acts' → call_fs p (fs_mount dev) s = Fail e s1 → delete_fs p s1 = Ret tt s' → step s acts s' (Finishing i :: acts')
| step_publish i p dev ty acts acts' s s' :
    acts ≡ₚ Owned i p :: acts' → mount_publish dev_name i dev ty p s = Ret tt s' → step s acts s' (Finishing i :: acts')
| step_finish i acts acts' s s' :
    acts ≡ₚ Finishing i :: acts' → finish_transition i s = Ret tt s' → step s acts s' acts'
| step_detach mp s acts i p s' :
    umount_detach mp s = Ret (i, p) s' → step s acts s' (Detached i p :: acts)
| step_destroy i p acts acts' s s' :
    acts ≡ₚ Detached i p :: acts' → umount_destroy p s = Ret tt s' → step s acts s' (Finishing i :: acts')
| step_acquire mp s acts i s' :
    Z.of_nat (length (refs s acts)) < 2 ^ 64 - 1 →
    acquire_mount mp s = Ret i s' → step s acts s' (Using i :: acts)
| step_call {A} i (op : M (F * W) A) acts s s' :
    Using i ∈ acts → out_state ((p <- slot_object i;; call_fs p op) s) = Some s' → step s acts s' acts
| step_open i relpath x acts acts' s s' :
    acts ≡ₚ Using i :: acts' → open_in i relpath s = Ret x s' → step s acts s' (Opened i x :: acts')
| step_adopt i x id acts acts' s s' :
    acts ≡ₚ Opened i x :: acts' → adopt i x s = Ret id s' → step s acts s' acts'
| step_release i acts acts' s s' :
    acts ≡ₚ Using i :: acts' → release_mount i s = Ret tt s' → step s acts s' acts'
| step_close id acts s s' : close (Some id) s = Ret tt s' → step s acts s' acts
| step_file {A} id f (op : M (option F * W) A) acts s s' :
    files s !! id = Some f → out_state (call_file (impl f) op s) = Some s' → step s acts s' acts
| step_world (w : W) s acts : step s acts (set_world w s) acts
| step_register name factory s acts s' : register_fs name factory s = Ret tt s' → step s acts s' acts.

Inductive reachable (w : W) : S → list (act X) → Prop :=
| reach_start : reachable w (vfs_start w) []
| reach_step s acts s' acts' : reachable w s acts → step s acts s' acts' → reachable w s' acts'.

(** ** The invariant *)

Definition pointer_ok s (i : nat) (x : X) : Prop :=
  ∀ p, file_fs x = Some p → ∃ slot, mounts_ s !! i = Some slot ∧ slot_fs slot = Some p.

Record vinv s acts : Prop := {
  v_users i slot : mounts_ s !! i = Some slot → users slot = Z.of_nat (cnt i (refs s acts));
  v_bound : Z.of_nat (length (refs s acts)) < 2 ^ 64;
  v_slots i : i ∈ refs s acts ++ trans acts → (i < length (mounts_ s))%nat;
  v_idle i slot : mounts_ s !! i = Some slot → slot_fs slot = None → cnt i (refs s acts) = 0%nat;
  v_trans i slot : mounts_ s !! i = Some slot → cnt i (trans acts) = if transitioning slot then 1%nat else 0%nat;
  v_empty a i slot : a ∈ acts → mounts_ s !! i = Some slot →
    match a with Reserved j | Created j _ | Owned j _ | Detached j _ => j = i | _ => False end → slot_fs slot = None;
  v_owned : NoDup (owners s acts);
  v_alive p : p ∈ owners s acts → is_Some (fs_objs s !! p);
  v_fresh p : is_Some (fs_objs s !! p) → p < fresh_id s;
  v_files id f : files s !! id = Some f → id < fresh_id s ∧ ∃ i, mount_users_ f = Some i ∧ pointer_ok s i (impl f);
  v_opened i x : Opened i x ∈ acts → pointer_ok s i x }.

(** ** What the sections do *)

Lemma get_slot_inv i s m s' : get_slot i s = Ret m s' → s' = s ∧ mounts_ s !! i = Some m.
Proof. unfold get_slot, bind, gets, deref. destruct (mounts_ s !! i); [|done]. by intros [= <- <-]. Qed.
Lemma upd_slot_inv i f s u s' : upd_slot i f s = Ret u s' →
  ∃ m, mounts_ s !! i = Some m ∧ s' = set_mounts (<[i := f m]> (mounts_ s)) s.
Proof.
  unfold upd_slot. intros (m & s1 & [-> Hm]%get_slot_inv & H)%bind_Ret_inv. injection H as _ <-. by exists m.
Qed.
Lemma lookup_slot_inv mp e s i s' : lookup_slot mp e s = Ret i s' → s' = s.
Proof. unfold lookup_slot, bind, gets. by destruct (find_slot mp s); intros [= _ <-]. Qed.

(** A step that keeps slots, files and the set of objects. *)
Definition vkeep s s' : Prop :=
  mounts_ s' = mounts_ s ∧ files s' = files s ∧ fresh_id s' = fresh_id s ∧ ∀ p, is_Some (fs_objs s' !! p) ↔ is_Some (fs_objs s !! p).

Lemma vinv_keep s s' acts : vkeep s s' → vinv s acts → vinv s' acts.
Proof.
  intros (Hm & Hf & Hi & Ho) [H1 H2 H3 H4 H5 H6 H7 H8 H9 H10 H11]. unfold owners, refs, pointer_ok in *.
  constructor; unfold owners, refs, pointer_ok; rewrite ?Hm, ?Hf, ?Hi; try done.
  - intros p Hp. by apply Ho, H8.
  - intros p Hp. apply H9. by apply Ho.
Qed.

Lemma in_world_keep {A} (op : M W A) s s' : out_state (in_world op s) = Some s' → vkeep s s'.
Proof. unfold in_world, zoom. destruct (op (world s)); simpl; intros [= <-]; done. Qed.
Lemma call_fs_keep {A} p (op : M (F * W) A) s s' : out_state (call_fs p op s) = Some s' → vkeep s s'.
Proof.
  unfold call_fs, bind, gets, deref, zoom. destruct (fs_objs s !! p) as [f|] eqn:Hp; [|done]. cbn.
  destruct (op (f, world s)) as [a t|e t|r]; [| |done]; simpl; intros [= <-]; (split_and!; [done..|]); intros q; simpl;
    (destruct (decide (q = p)) as [->|]; [rewrite lookup_insert_eq, Hp|rewrite lookup_insert_ne]; done).
Qed.
Lemma call_file_keep {A} x (op : M (option F * W) A) s s' : out_state (call_file x op s) = Some s' → vkeep s s'.
Proof.
  unfold call_file. destruct (file_fs x) as [p|].
  - unfold bind, gets, deref, zoom. destruct (fs_objs s !! p) as [f|] eqn:Hp; [|done]. cbn.
    destruct (op (Some f, world s)) as [a [[g|] w]|e [[g|] w]|r]; [| | | |done]; simpl; intros [= <-]; (split_and!; [done..|]); intros q; simpl; try done;
      (destruct (decide (q = p)) as [->|]; [rewrite lookup_insert_eq, Hp|rewrite lookup_insert_ne]; done).
  - unfold zoom. destruct (op (None, world s)); simpl; intros [= <-]; done.
Qed.
Lemma delete_fs_inv p s s' : delete_fs p s = Ret tt s' →
  mounts_ s' = mounts_ s ∧ files s' = files s ∧ fresh_id s' = fresh_id s ∧ fs_objs s' = base.delete p (fs_objs s).
Proof.
  unfold delete_fs. intros (f & s1 & H1 & H)%bind_Ret_inv. unfold bind, gets, deref in H1.
  destruct (fs_objs s !! p); [|done]. injection H1 as <- <-. apply bind_Ret_inv in H as (u & s2 & H2 & H3). inversion H3; subst s'.
  unfold in_world, zoom in H2. destruct (fs_delete _ _); [|done..]. inversion H2; subst s2. done.
Qed.

(** ** Callers *)

Lemma refs_perm s acts acts' : acts ≡ₚ acts' → refs s acts ≡ₚ refs s acts'.
Proof. intros Hp. unfold refs. by rewrite Hp. Qed.
Lemma trans_perm acts acts' : acts ≡ₚ acts' → trans acts ≡ₚ trans acts'.
Proof. intros Hp. unfold trans. by rewrite Hp. Qed.
Lemma owners_perm s acts acts' : acts ≡ₚ acts' → owners s acts ≡ₚ owners s acts'.
Proof. intros Hp. unfold owners. by rewrite Hp. Qed.

Lemma vinv_perm s acts acts' : acts ≡ₚ acts' → vinv s acts → vinv s acts'.
Proof.
  intros Hp [H1 H2 H3 H4 H5 H6 H7 H8 H9 H10 H11].
  pose proof (refs_perm s _ _ Hp) as Hr. pose proof (trans_perm _ _ Hp) as Ht. pose proof (owners_perm s _ _ Hp) as Ho.
  constructor.
  - intros i slot. rewrite <- Hr. apply H1.
  - by rewrite <- Hr.
  - intros i. rewrite <- Hr, <- Ht. apply H3.
  - intros i slot. rewrite <- Hr. apply H4.
  - intros i slot. rewrite <- Ht. apply H5.
  - intros a i slot Ha. apply H6. by rewrite Hp.
  - by rewrite <- Ho.
  - intros p. rewrite <- Ho. apply H8.
  - done.
  - done.
  - intros i x Hx. apply H11. by rewrite Hp.
Qed.

(** A caller moves on without touching slots, files or objects. *)
Lemma vinv_swap s a b acts : vinv s (a :: acts) → act_ref b = act_ref a → act_trans b = act_trans a → act_obj b = act_obj a →
  (∀ i x, b = Opened i x → pointer_ok s i x) →
  (∀ i, match b with Reserved j | Created j _ | Owned j _ | Detached j _ => j = i | _ => False end →
        match a with Reserved j | Created j _ | Owned j _ | Detached j _ => j = i | _ => False end) →
  vinv s (b :: acts).
Proof.
  intros [H1 H2 H3 H4 H5 H6 H7 H8 H9 H10 H11] Er Et Eo Hopen Hemp.
  assert (refs s (b :: acts) = refs s (a :: acts)) as Hr by (unfold refs; cbn; by rewrite Er).
  assert (trans (b :: acts) = trans (a :: acts)) as Ht by (unfold trans; cbn; by rewrite Et).
  assert (owners s (b :: acts) = owners s (a :: acts)) as Ho by (unfold owners; cbn; by rewrite Eo).
  constructor; rewrite ?Hr, ?Ht, ?Ho; try done.
  - intros c i slot Hc Hm Hb. apply elem_of_cons in Hc as [->|Hc]; [|by apply (H6 c i slot); [right|..]].
    apply (H6 a i slot); [left|done|by apply Hemp].
  - intros i x Hin. apply elem_of_cons in Hin as [<-|Hin]; [by apply Hopen|]. apply H11. by right.
Qed.

(** ** Changes of a slot *)

Lemma pointer_ok_upd s i m m' j x : mounts_ s !! i = Some m → slot_fs m' = slot_fs m ∨ slot_fs m = None ∨ j ≠ i →
  pointer_ok s j x → pointer_ok (set_mounts (<[i := m']> (mounts_ s)) s) j x.
Proof.
  intros Hm Hc Hp q Hq. destruct (Hp q Hq) as (slot & Hs & Hf). simpl. destruct (decide (j = i)) as [->|Hne].
  - exists m'. rewrite list_lookup_insert_eq by (by eapply lookup_lt_Some). split; [done|]. naive_solver congruence.
  - exists slot. by rewrite list_lookup_insert_ne.
Qed.

(** The slot [i] of [s], changed to [m'], with the callers [acts']. *)
Lemma vinv_slot s acts acts' i m m' : vinv s acts → mounts_ s !! i = Some m →
  (∀ j, cnt j (acts' ≫= act_ref) = cnt j (acts ≫= act_ref) ∨ j = i) → users m' = Z.of_nat (cnt i (refs s acts')) →
  Z.of_nat (length (refs s acts')) < 2 ^ 64 → (slot_fs m' = None → cnt i (refs s acts') = 0%nat) →
  (∀ j, cnt j (trans acts') = cnt j (trans acts) ∨ j = i) → cnt i (trans acts') = (if transitioning m' then 1%nat else 0%nat) →
  (∀ a j, a ∈ acts' → match a with Reserved j' | Created j' _ | Owned j' _ | Detached j' _ => j' = j | _ => False end →
     (j ≠ i ∧ a ∈ acts) ∨ (j = i ∧ slot_fs m' = None)) →
  (∀ k, omap slot_fs (mounts_ s) ≡ₚ option_list (slot_fs m) ++ k → owners s acts ≡ₚ option_list (slot_fs m') ++ k ++ (acts' ≫= act_obj)) →
  slot_fs m' = slot_fs m ∨ slot_fs m = None ∨ i ∉ refs s acts →
  (∀ j x, Opened j x ∈ acts' → Opened j x ∈ acts) →
  vinv (set_mounts (<[i := m']> (mounts_ s)) s) acts'.
Proof.
  intros [H1 H2 H3 H4 H5 H6 H7 H8 H9 H10 H11] Hm Hr Hu Hb Hz Ht Hti He Ho Hp Hop.
  pose proof (lookup_lt_Some _ _ _ Hm) as Hlt. set (s' := set_mounts _ s). assert (refs s' acts' = refs s acts') as Er by done.
  assert (∀ j, j ≠ i → cnt j (refs s acts') = cnt j (refs s acts)) as Hcr.
  { intros j Hj. unfold refs. rewrite !cnt_app. destruct (Hr j) as [->|]; done. }
  assert (∀ j slot, mounts_ s' !! j = Some slot → (j = i ∧ slot = m') ∨ (j ≠ i ∧ mounts_ s !! j = Some slot)) as Hl.
  { intros j slot Hj. simpl in Hj. apply list_lookup_insert_Some in Hj as [(-> & <- & _)|[? ?]]; [by left|by right]. }
  assert (owners s' acts' ≡ₚ owners s acts) as Eo.
  { destruct (omap_perm slot_fs (mounts_ s) i m m' Hm) as (k & E1 & E2). rewrite (Ho k E1). unfold owners. simpl. rewrite E2. by rewrite <- app_assoc. }
  constructor; rewrite ?Er, ?Eo; try done.
  - intros j slot Hj. destruct (Hl j slot Hj) as [[-> ->]|[Hne Hj']]; [done|]. rewrite Hcr by done. by apply H1.
  - intros j Hj. simpl. rewrite length_insert. destruct (decide (j = i)) as [->|Hne]; [done|]. apply H3.
    rewrite !elem_of_app in *. rewrite !cnt_in in *. destruct Hj as [Hj|Hj]; [left; by rewrite <- Hcr|right]. destruct (Ht j) as [<-|]; done.
  - intros j slot Hj. destruct (Hl j slot Hj) as [[-> ->]|[Hne Hj']]; [done|]. rewrite Hcr by done. by apply H4.
  - intros j slot Hj. destruct (Hl j slot Hj) as [[-> ->]|[Hne Hj']]; [done|]. destruct (Ht j) as [->|]; [by apply H5|done].
  - intros a j slot Ha Hj Hmatch. destruct (He a j Ha Hmatch) as [[Hne Hin]|[-> Hn]].
    + destruct (Hl j slot Hj) as [[-> ->]|[_ Hj']]; [done|]. by apply (H6 a j slot).
    + destruct (Hl i slot Hj) as [[_ ->]|[? _]]; [done|done].
  - intros p Hin. apply H8. by rewrite <- Eo.
  - intros id f Hf. destruct (H10 id f Hf) as [Hid (j & Hj & Hpo)]. split; [done|]. exists j. split; [done|].
    apply (pointer_ok_upd s i m); [done| |done]. destruct Hp as [?|[?|Hni]]; [by left|by right; left|]. right; right. intros ->. apply Hni.
    apply elem_of_app. right. apply list_elem_of_bind. exists (id, f). split; [cbn; rewrite Hj; left|by apply elem_of_map_to_list].
  - intros j x Hin. apply Hop in Hin. apply (pointer_ok_upd s i m); [done| |by apply H11]. destruct Hp as [?|[?|Hni]]; [by left|by right; left|].
    right; right. intros ->. apply Hni. apply elem_of_app. left. apply list_elem_of_bind. exists (Opened i x). split; [left|done].
Qed.

Lemma trans_cons a acts : trans (a :: acts) = act_trans a ++ trans acts.
Proof. done. Qed.
Lemma refs_cons s a acts : refs s (a :: acts) = act_ref a ++ refs s acts.
Proof. unfold refs. by rewrite app_assoc. Qed.

Lemma trans_slot s a acts i m : vinv s (a :: acts) → act_trans a = [i] → mounts_ s !! i = Some m →
  transitioning m = true ∧ cnt i (trans acts) = 0%nat.
Proof.
  intros Hv Ha Hm. pose proof (v_trans _ _ Hv i m Hm) as Ht. rewrite trans_cons, Ha, cnt_app, cnt_one in Ht.
  rewrite decide_True in Ht by done. destruct (transitioning m); [|lia]. split; [done|lia].
Qed.
(** A slot in transition belongs to one caller. *)
Lemma trans_alone i acts a : cnt i (trans acts) = 0%nat → a ∈ acts →
  ¬ match a with Reserved j | Created j _ | Owned j _ | Detached j _ => j = i | _ => False end.
Proof.
  intros Hz Ha Hm. assert (i ∈ trans acts) as Hin; [|by apply cnt_in in Hin]. apply list_elem_of_bind. exists a.
  split; [|done]. destruct a; simplify_eq/=; try done; left.
Qed.

Lemma vinv_reserve s acts i m : vinv s acts → mounts_ s !! i = Some m → transitioning m = false → slot_fs m = None →
  vinv (set_mounts (<[i := set_transitioning true m]> (mounts_ s)) s) (Reserved i :: acts).
Proof.
  intros Hv Hm Ht Hf. pose proof (v_trans _ _ Hv i m Hm) as Hc. rewrite Ht in Hc.
  apply (vinv_slot s acts _ i m); cbn [slot_fs set_transitioning users transitioning]; try done.
  - by left.
  - by apply (v_users _ _ Hv).
  - apply (v_bound _ _ Hv).
  - intros _. by apply (v_idle _ _ Hv i m).
  - intros j. rewrite trans_cons, cnt_app. cbn [act_trans]. rewrite cnt_one. destruct (decide (j = i)); [by right|by left].
  - rewrite trans_cons, cnt_app. cbn [act_trans]. rewrite cnt_one, decide_True by done. lia.
  - intros a j [->|Ha]%elem_of_cons Hj; [by right|]. destruct (decide (j = i)) as [->|]; [by right|by left].
  - intros k Hk. unfold owners. rewrite Hf in *. rewrite Hk. done.
  - by left.
  - intros j x [?|?]%elem_of_cons; done.
Qed.

Lemma vinv_finish s acts i m : vinv s (Finishing i :: acts) → mounts_ s !! i = Some m →
  vinv (set_mounts (<[i := set_transitioning false m]> (mounts_ s)) s) acts.
Proof.
  intros Hv Hm. destruct (trans_slot s _ acts i m Hv eq_refl Hm) as [_ Hc].
  apply (vinv_slot s (Finishing i :: acts) _ i m); cbn [slot_fs set_transitioning users transitioning]; try done.
  - by left.
  - by apply (v_users _ _ Hv).
  - apply (v_bound _ _ Hv).
  - intros Hf. by apply (v_idle _ _ Hv i m).
  - intros j. rewrite trans_cons, cnt_app. cbn [act_trans]. rewrite cnt_one. destruct (decide (j = i)); [by right|by left].
  - intros a j Ha Hj. destruct (decide (j = i)) as [->|]; [by destruct (trans_alone i acts a Hc Ha)|]. left. split; [done|by right].
  - intros k Hk. unfold owners. rewrite Hk. cbn. by rewrite app_assoc.
  - by left.
  - intros j x Hx. by right.
Qed.

Lemma vinv_publish s acts i p m m' : vinv s (Owned i p :: acts) → mounts_ s !! i = Some m →
  slot_fs m' = Some p → users m' = users m → transitioning m' = transitioning m →
  vinv (set_mounts (<[i := m']> (mounts_ s)) s) (Finishing i :: acts).
Proof.
  intros Hv Hm Hf Hu Ht. destruct (trans_slot s _ acts i m Hv eq_refl Hm) as [Htr Hc].
  pose proof (v_empty _ _ Hv (Owned i p) i m ltac:(left) Hm eq_refl) as Hn.
  apply (vinv_slot s (Owned i p :: acts) _ i m); rewrite ?Hf, ?Hu, ?Ht; try done.
  - by left.
  - by apply (v_users _ _ Hv).
  - apply (v_bound _ _ Hv).
  - by left.
  - by apply (v_trans _ _ Hv i m).
  - intros a j [->|Ha]%elem_of_cons Hj; [done|]. destruct (decide (j = i)) as [->|]; [by destruct (trans_alone i acts a Hc Ha)|]. left. split; [done|by right].
  - intros k Hk. unfold owners. rewrite Hn in Hk. rewrite Hk. cbn. by rewrite <- Permutation_middle.
  - right. by left.
  - intros j x [?|?]%elem_of_cons; [done|by right].
Qed.

Lemma vinv_detach s acts i p m m' : vinv s acts → mounts_ s !! i = Some m → transitioning m = false → slot_fs m = Some p → users m = 0 →
  slot_fs m' = None → users m' = users m → transitioning m' = true →
  vinv (set_mounts (<[i := m']> (mounts_ s)) s) (Detached i p :: acts).
Proof.
  intros Hv Hm Ht Hf Hu Hf' Hu' Ht'. pose proof (v_trans _ _ Hv i m Hm) as Hc. rewrite Ht in Hc.
  pose proof (v_users _ _ Hv i m Hm) as Hcu. assert (cnt i (refs s acts) = 0%nat) as Hr0 by lia.
  apply (vinv_slot s acts _ i m); rewrite ?Hf', ?Hu', ?Ht'; try done.
  - by left.
  - apply (v_bound _ _ Hv).
  - intros j. rewrite trans_cons, cnt_app. cbn [act_trans]. rewrite cnt_one. destruct (decide (j = i)); [by right|by left].
  - rewrite trans_cons, cnt_app. cbn [act_trans]. rewrite cnt_one, decide_True by done. lia.
  - intros a j [->|Ha]%elem_of_cons Hj; [by right|]. destruct (decide (j = i)) as [->|]; [by right|by left].
  - intros k Hk. unfold owners. rewrite Hf in Hk. rewrite Hk. cbn. by rewrite <- Permutation_middle.
  - right; right. intros Hin%cnt_in. done.
  - intros j x [?|?]%elem_of_cons; done.
Qed.

Lemma vinv_acquire s acts i p m : vinv s acts → mounts_ s !! i = Some m → slot_fs m = Some p →
  Z.of_nat (length (refs s acts)) < 2 ^ 64 - 1 →
  vinv (set_mounts (<[i := set_users (u64 (users m + 1)) m]> (mounts_ s)) s) (Using i :: acts).
Proof.
  intros Hv Hm Hf Hb. pose proof (v_users _ _ Hv i m Hm) as Hu.
  assert (cnt i (refs s acts) ≤ length (refs s acts))%nat by (unfold cnt; apply length_filter).
  apply (vinv_slot s acts _ i m); cbn [slot_fs set_users users transitioning]; try done.
  - intros j. rewrite !bind_cons. cbn [act_ref]. rewrite cnt_app, cnt_one. destruct (decide (j = i)); [by right|by left].
  - rewrite refs_cons, cnt_app. cbn [act_ref]. rewrite cnt_one, decide_True by done. rewrite u64_small; lia.
  - rewrite refs_cons, length_app. simpl. lia.
  - intros Hn. congruence.
  - by left.
  - by apply (v_trans _ _ Hv i m).
  - intros a j [->|Ha]%elem_of_cons Hj; [done|]. destruct (decide (j = i)) as [->|]; [|by left].
    pose proof (v_empty _ _ Hv a i m Ha Hm Hj). congruence.
  - intros k Hk. unfold owners. rewrite Hk. cbn. by rewrite app_assoc.
  - by left.
  - intros j x [?|?]%elem_of_cons; done.
Qed.

(** A caller's reference is counted, so its slot is in use. *)
Lemma ref_slot s acts i : vinv s acts → i ∈ refs s acts →
  ∃ m p, mounts_ s !! i = Some m ∧ slot_fs m = Some p ∧ is_Some (fs_objs s !! p) ∧ 0 < users m < 2 ^ 64.
Proof.
  intros Hv Hi. destruct (lookup_lt_is_Some_2 (mounts_ s) i) as [m Hm]; [apply (v_slots _ _ Hv); apply elem_of_app; by left|].
  pose proof (proj1 (cnt_in i _) Hi) as Hc. destruct (slot_fs m) as [p|] eqn:Hf; [|by destruct Hc; apply (v_idle _ _ Hv i m)].
  exists m, p. split_and!; [done|done| | |].
  - apply (v_alive _ _ Hv). apply elem_of_app. left. apply list_elem_of_omap. exists m. split; [by eapply list_elem_of_lookup_2|done].
  - rewrite (v_users _ _ Hv i m Hm). lia.
  - rewrite (v_users _ _ Hv i m Hm). pose proof (v_bound _ _ Hv). assert (cnt i (refs s acts) ≤ length (refs s acts))%nat by (unfold cnt; apply length_filter). lia.
Qed.

Lemma vinv_release s acts i m : vinv s (Using i :: acts) → mounts_ s !! i = Some m →
  vinv (set_mounts (<[i := set_users (u64 (users m - 1)) m]> (mounts_ s)) s) acts.
Proof.
  intros Hv Hm. destruct (ref_slot s _ i Hv ltac:(left)) as (m' & p & Hm' & Hf & _ & Hu). rewrite Hm in Hm'. injection Hm' as <-.
  pose proof (v_users _ _ Hv i m Hm) as Hc. rewrite refs_cons, cnt_app in Hc. cbn [act_ref] in Hc. rewrite cnt_one, decide_True in Hc by done.
  apply (vinv_slot s (Using i :: acts) _ i m); cbn [slot_fs set_users users transitioning]; try done.
  - intros j. rewrite !bind_cons. cbn [act_ref]. rewrite cnt_app, cnt_one. destruct (decide (j = i)); [by right|by left].
  - rewrite u64_small; lia.
  - pose proof (v_bound _ _ Hv) as Hb. rewrite refs_cons, length_app in Hb. lia.
  - intros Hn. congruence.
  - by left.
  - by apply (v_trans _ _ Hv i m).
  - intros a j Ha Hj. destruct (decide (j = i)) as [->|]; [|left; split; [done|by right]].
    pose proof (v_empty _ _ Hv a i m ltac:(by right) Hm Hj). congruence.
  - intros k Hk. unfold owners. rewrite Hk. cbn. by rewrite app_assoc.
  - by left.
  - intros j x Hx. by right.
Qed.

(** ** Changes of objects and files *)

Lemma owners_cons s a acts : owners s (a :: acts) ≡ₚ act_obj a ++ owners s acts.
Proof. unfold owners. rewrite bind_cons, !app_assoc. f_equiv. apply Permutation_app_comm. Qed.

Lemma vinv_own s acts i f : vinv s (Reserved i :: acts) →
  vinv (set_objs (<[fresh_id s := f]> (fs_objs s)) (set_fresh (fresh_id s + 1) s)) (Created i (fresh_id s) :: acts).
Proof.
  intros Hv. pose proof Hv as [H1 H2 H3 H4 H5 H6 H7 H8 H9 H10 H11].
  assert (fresh_id s ∉ owners s acts) as Hni.
  { intros Hin. assert (is_Some (fs_objs s !! fresh_id s)) as Ho%H9; [apply H8; by rewrite owners_cons|lia]. }
  constructor; try done.
  - intros a j slot [->|Ha]%elem_of_cons Hm Hj; [by apply (H6 (Reserved i) j slot); [left|..]|by apply (H6 a j slot); [right|..]].
  - rewrite owners_cons. rewrite owners_cons in H7. cbn. by constructor.
  - intros p. rewrite owners_cons. cbn. rewrite elem_of_cons, lookup_insert_is_Some. intros [->|Hp]; [by left|].
    right. split; [by intros <-|]. apply H8. by rewrite owners_cons.
  - intros p. simpl. rewrite lookup_insert_is_Some. intros [<-|[_ Hp%H9]]; lia.
  - intros id g Hg. destruct (H10 id g Hg) as [? ?]. split; [simpl; lia|done].
  - intros j x [?|?]%elem_of_cons; [done|]. apply H11. by right.
Qed.

Lemma vinv_delete s s' a acts i p : vinv s (a :: acts) → act_ref a = [] → act_trans a = [i] → act_obj a = [p] →
  mounts_ s' = mounts_ s → files s' = files s → fresh_id s' = fresh_id s → fs_objs s' = base.delete p (fs_objs s) →
  vinv s' (Finishing i :: acts).
Proof.
  intros Hv Er Et Eo Hm Hf Hi Ho. pose proof Hv as [H1 H2 H3 H4 H5 H6 H7 H8 H9 H10 H11].
  assert (refs s' (Finishing i :: acts) = refs s (a :: acts)) as Hr by (unfold refs; rewrite !bind_cons, Er, Hf; done).
  assert (trans (Finishing i :: acts) = trans (a :: acts)) as Ht by (by rewrite !trans_cons, Et).
  assert (owners s (a :: acts) ≡ₚ p :: owners s acts) as Hw by (by rewrite owners_cons, Eo).
  rewrite Hw in H7. apply NoDup_cons in H7 as [Hni Hnd]. assert (owners s' (Finishing i :: acts) = owners s acts) as Hw' by (unfold owners; by rewrite Hm).
  constructor; rewrite ?Hr, ?Ht, ?Hm, ?Hi; try done.
  - intros b j slot [->|Hb]%elem_of_cons Hj Hmt; [done|]. apply (H6 b j slot); [by right|done..].
  - by rewrite Hw'.
  - intros q. rewrite Hw', Ho. intros Hq. rewrite lookup_delete_ne by (by intros ->). apply H8. rewrite Hw. by right.
  - intros q. rewrite Ho, lookup_delete_is_Some. intros [_ ?]. by apply H9.
  - rewrite Hf. unfold pointer_ok in *. rewrite Hm. exact H10.
  - intros j x [?|?]%elem_of_cons; [done|]. unfold pointer_ok in *. rewrite Hm. apply H11. by right.
Qed.

Lemma file_refs_insert (fs : gmap Z (FileObj X)) id x i : fs !! id = None →
  file_refs (<[id := MkFile x (Some i)]> fs) ≡ₚ i :: file_refs fs.
Proof. intros Hn. unfold file_refs. by rewrite map_to_list_insert. Qed.
Lemma file_refs_delete (fs : gmap Z (FileObj X)) id f i : fs !! id = Some f → mount_users_ f = Some i →
  file_refs fs ≡ₚ i :: file_refs (base.delete id fs).
Proof. intros Hf Hi. unfold file_refs. rewrite <- (map_to_list_delete _ _ _ Hf). rewrite bind_cons. cbn. by rewrite Hi. Qed.

(** The files changed so that the references are the same. *)
Lemma vinv_files s acts acts' fs' n : vinv s acts → (acts' ≫= act_ref) ++ file_refs fs' ≡ₚ refs s acts → trans acts' = trans acts →
  (acts' ≫= act_obj) = (acts ≫= act_obj) → fresh_id s ≤ n → (∀ a, a ∈ acts' → a ∈ acts) →
  (∀ id f, fs' !! id = Some f → id < n ∧ ∃ i, mount_users_ f = Some i ∧ pointer_ok s i (impl f)) →
  vinv (set_files fs' (set_fresh n s)) acts'.
Proof.
  intros [H1 H2 H3 H4 H5 H6 H7 H8 H9 H10 H11] Hr Ht Ho Hn Ha Hf. set (s' := set_files _ _).
  assert (refs s' acts' ≡ₚ refs s acts) as Hr' by done. assert (owners s' acts' = owners s acts) as Ho' by (unfold owners; by rewrite Ho).
  constructor; rewrite ?Ht, ?Ho'; try done.
  - intros i slot. rewrite Hr'. apply H1.
  - by rewrite Hr'.
  - intros i. rewrite Hr'. apply H3.
  - intros i slot. rewrite Hr'. apply H4.
  - intros a i slot Hin. apply H6. by apply Ha.
  - intros p Hp. simpl. pose proof (H9 p Hp). lia.
  - intros i x Hin. by apply H11, Ha.
Qed.

Lemma vinv_adopt s acts i x : vinv s (Opened i x :: acts) →
  vinv (set_files (<[fresh_id s := MkFile x (Some i)]> (files s)) (set_fresh (fresh_id s + 1) s)) acts.
Proof.
  intros Hv. apply (vinv_files s (Opened i x :: acts)); [done| |done|done|lia|by right|].
  - rewrite file_refs_insert, refs_cons; [cbn; by rewrite <- Permutation_middle|].
    destruct (files s !! fresh_id s) eqn:E; [|done]. destruct (v_files _ _ Hv _ _ E). lia.
  - intros id f. rewrite lookup_insert_Some. intros [[<- <-]|[_ Hf]].
    + split; [lia|]. exists i. split; [done|]. apply (v_opened _ _ Hv). left.
    + destruct (v_files _ _ Hv _ _ Hf). split; [lia|done].
Qed.

(** Between the destructor's release of the slot and the end of the file the
    reference belongs to the caller. *)
Lemma vinv_unfile s acts id f i : vinv s acts → files s !! id = Some f → mount_users_ f = Some i →
  vinv (set_files (base.delete id (files s)) s) (Using i :: acts).
Proof.
  intros Hv Hf Hi. pose proof Hv as [H1 H2 H3 H4 H5 H6 H7 H8 H9 H10 H11]. set (s' := set_files _ s).
  assert (refs s' (Using i :: acts) ≡ₚ refs s acts) as Hr.
  { unfold refs. rewrite (file_refs_delete _ _ _ _ Hf Hi), bind_cons. cbn. by rewrite Permutation_middle. }
  assert (trans (Using i :: acts) = trans acts) as Ht by done. assert (owners s' (Using i :: acts) = owners s acts) as Ho by done.
  constructor; rewrite ?Ht, ?Ho; try done.
  - intros j slot. rewrite Hr. apply H1.
  - by rewrite Hr.
  - intros j. rewrite Hr. apply H3.
  - intros j slot. rewrite Hr. apply H4.
  - intros a j slot [->|Ha]%elem_of_cons; [done|]. by apply H6.
  - intros id' g. simpl. rewrite lookup_delete_Some. intros [_ Hg]. by apply H10.
  - intros j x [?|?]%elem_of_cons; [done|]. by apply H11.
Qed.

(** ** Preservation *)

Lemma release_inv i s s' : release_mount i s = Ret tt s' →
  ∃ m, mounts_ s !! i = Some m ∧ s' = set_mounts (<[i := set_users (u64 (users m - 1)) m]> (mounts_ s)) s.
Proof.
  unfold release_mount. intros (m & s1 & [-> Hm]%get_slot_inv & H)%bind_Ret_inv. apply bind_Ret_inv in H as (u & s1 & Ha & H).
  unfold assert_ in Ha. destruct (negb _); [|done]. inversion Ha; subst s1.
  apply upd_slot_inv in H as (m' & Hm' & ->). rewrite Hm in Hm'. injection Hm' as <-. by exists m.
Qed.

Lemma open_in_inv i relpath s x s' acts : vinv s acts → open_in i relpath s = Ret x s' → vkeep s s' ∧ pointer_ok s' i x.
Proof.
  intros Hv H. unfold open_in in H. apply bind_Ret_inv in H as (u & s1 & [_ ->]%ensure_Ret_inv & H).
  apply bind_Ret_inv in H as (p & s1 & Hp & H). unfold slot_object in Hp. apply bind_Ret_inv in Hp as (m & s2 & [-> Hm]%get_slot_inv & Hp).
  unfold deref in Hp. destruct (slot_fs m) as [p'|] eqn:Hf; [|done]. injection Hp as -> <-. apply bind_Ret_inv in H as (o & s1 & Ho & H).
  assert (vkeep s s1) as Hk by (apply (call_fs_keep p (fs_open p relpath)); by rewrite Ho).
  destruct o as [y|]; [|done]. injection H as -> <-. split; [done|]. intros q Hq.
  unfold call_fs, bind, gets, deref, zoom in Ho. destruct (fs_objs s !! p) as [g|]; [|done]. cbn in Ho.
  destruct (fs_open p relpath (g, world s)) as [o t|?|?] eqn:Eo; [|done..]. injection Ho as -> _.
  destruct (open_file_fs _ _ _ _ _ Eo) as [Hp|Hp]; [|congruence]. rewrite Hp in Hq. injection Hq as <-.
  destruct Hk as (-> & _). by exists m.
Qed.

Lemma vinv_close id s s' acts : vinv s acts → close (Some id) s = Ret tt s' → vinv s' acts.
Proof.
  intros Hv H. cbn [close] in H. apply bind_Ret_inv in H as (f & s1 & Hf & H). unfold get_file, bind, gets, deref in Hf.
  destruct (files s !! id) as [g|] eqn:Hg; [|done]. injection Hf as -> <-. destruct (v_files _ _ Hv _ _ Hg) as [_ (i & Hi & _)].
  rewrite Hi in H. apply bind_Ret_inv in H as ([] & s1 & (m & Hm & ->)%release_inv & H).
  apply bind_Ret_inv in H as (u & s2 & Hw & H). inversion H; subst s'. unfold in_world, zoom in Hw.
  destruct (file_delete (impl f) _) as [a w|?|?]; [|done..]. inversion Hw; subst s2.
  pose proof (vinv_release _ _ i m (vinv_unfile s acts id f i Hv Hg Hi) Hm) as Hr. by eapply vinv_keep; [|exact Hr].
Qed.

Lemma vinv_step s acts s' acts' : step s acts s' acts' → vinv s acts → vinv s' acts'.
Proof.
  destruct 1 as [mp ty s acts i factory s' H|i acts acts' s s' factory Hp H|i acts acts' s s1 s' p f factory Hp H H'|i p dev acts acts' s s' Hp H
    |i p dev e acts acts' s s1 s' Hp H H'|i p dev ty acts acts' s s' Hp H|i acts acts' s s' Hp H|mp s acts i p s' H|i p acts acts' s s' Hp H
    |mp s acts i s' Hb H|A i op acts s s' Hin H|i relpath x acts acts' s s' Hp H|i x id acts acts' s s' Hp H|i acts acts' s s' Hp H
    |id acts s s' H|A id f op acts s s' Hf H|w s acts|name factory s acts s' H]; intros Hv; try apply (vinv_perm _ _ _ Hp) in Hv.
  - unfold mount_reserve in H. apply bind_Ret_inv in H as (j & s1 & ->%lookup_slot_inv & H). apply bind_Ret_inv in H as (m & s1 & [-> Hm]%get_slot_inv & H).
    apply bind_Ret_inv in H as (u & s1 & [Ht ->]%ensure_Ret_inv & H). apply bind_Ret_inv in H as (u' & s1 & [Hn ->]%ensure_Ret_inv & H).
    apply negb_true_iff in Ht. apply bool_decide_eq_true in Hn. apply bind_Ret_inv in H as (r & s1 & Hg & H). injection Hg as <- <-.
    destruct (find_factory _ ty); [|done]. apply bind_Ret_inv in H as (u2 & s1 & (m' & Hm' & ->)%upd_slot_inv & H).
    injection H as <- _ <-. rewrite Hm in Hm'. injection Hm' as <-. by apply vinv_reserve.
  - apply (vinv_keep s); [apply (in_world_keep factory); by rewrite H|]. by apply (vinv_swap _ (Reserved i)).
  - apply (vinv_keep s s1) in Hv; [|apply (in_world_keep factory); by rewrite H]. inversion H'; subst. by apply vinv_own.
  - apply (vinv_keep s); [by eapply call_fs_keep; rewrite H|]. by apply (vinv_swap _ (Created i p)).
  - apply (vinv_keep s s1) in Hv; [|by eapply call_fs_keep; rewrite H]. apply delete_fs_inv in H' as (? & ? & ? & ?).
    by apply (vinv_delete s1 s' (Created i p) acts' i p).
  - apply upd_slot_inv in H as (m & Hm & ->). by apply (vinv_publish s acts' i p m).
  - apply upd_slot_inv in H as (m & Hm & ->). by apply vinv_finish.
  - unfold umount_detach in H. apply bind_Ret_inv in H as (j & s1 & ->%lookup_slot_inv & H). apply bind_Ret_inv in H as (m & s1 & [-> Hm]%get_slot_inv & H).
    apply bind_Ret_inv in H as (u & s1 & [Ht ->]%ensure_Ret_inv & H). destruct (slot_fs m) as [q|] eqn:Hf; [|done].
    apply bind_Ret_inv in H as (u' & s1 & [Hu ->]%ensure_Ret_inv & H). apply negb_true_iff in Ht. apply Z.eqb_eq in Hu.
    apply bind_Ret_inv in H as (u2 & s1 & (m' & Hm' & ->)%upd_slot_inv & H). injection H as <- <- <-. rewrite Hm in Hm'. injection Hm' as <-.
    by apply (vinv_detach s acts j q m).
  - unfold umount_destroy in H. apply bind_Ret_inv in H as (u & s1 & H1 & H). apply (vinv_keep s s1) in Hv; [|by eapply call_fs_keep; rewrite H1].
    apply delete_fs_inv in H as (? & ? & ? & ?). by apply (vinv_delete s1 s' (Detached i p) acts' i p).
  - unfold acquire_mount in H. apply bind_Ret_inv in H as (j & s1 & ->%lookup_slot_inv & H). apply bind_Ret_inv in H as (m & s1 & [-> Hm]%get_slot_inv & H).
    apply bind_Ret_inv in H as (u & s1 & [[p Hf]%bool_decide_eq_true ->]%ensure_Ret_inv & H).
    apply bind_Ret_inv in H as (u2 & s1 & (m' & Hm' & ->)%upd_slot_inv & H). injection H as <- <-. rewrite Hm in Hm'. injection Hm' as <-.
    by apply (vinv_acquire s acts j p m).
  - apply (vinv_keep s); [|done]. unfold bind in H. destruct (slot_object i s) as [p s1|e s1|r] eqn:Es; [| |done].
    + unfold slot_object in Es. apply bind_Ret_inv in Es as (m & s2 & [-> Hm]%get_slot_inv & Hd). unfold deref in Hd.
      destruct (slot_fs m); [|done]. inversion Hd; subst. by eapply call_fs_keep.
    + unfold slot_object, get_slot, bind, gets, deref in Es. destruct (mounts_ s !! i) as [m|]; [|done]. cbn in Es. by destruct (slot_fs m).
  - destruct (open_in_inv i relpath s x s' _ Hv H) as [Hk Hpo]. apply (vinv_keep s s') in Hv; [|done].
    apply (vinv_swap _ (Using i)); [done..| |done]. by intros j y [= <- <-].
  - inversion H; subst. by apply vinv_adopt.
  - apply release_inv in H as (m & Hm & ->). by apply vinv_release.
  - by eapply vinv_close.
  - apply (vinv_keep s); [by eapply call_file_keep|done].
  - by apply (vinv_keep s).
  - apply (vinv_keep s); [|done]. unfold register_fs in H. destruct name, factory; [|done..].
    apply bind_Ret_inv in H as (r & s1 & Hg & H). inversion Hg; subst. destruct (iv_try_push_back _ _); [|done]. by inversion H; subst.
Qed.

Lemma vinv_start w : vinv (vfs_start w) [].
Proof.
  assert (∀ i (m : MountSlot Dev), mounts_ (vfs_start w : S) !! i = Some m → users m = 0 ∧ slot_fs m = None ∧ transitioning m = false) as Hm.
  { intros i m Hm. do 3 (destruct i as [|i]; [by injection Hm as <-|]). done. }
  constructor; try done.
  - intros i slot H. by destruct (Hm i slot H) as (-> & _).
  - intros i Hi. by inversion Hi.
  - intros i slot H. by destruct (Hm i slot H) as (_ & _ & ->).
  - intros a i slot Ha. by inversion Ha.
  - constructor.
  - intros p Hp. by inversion Hp.
  - intros p [f Hf]. done.
  - intros i x Hx. by inversion Hx.
Qed.

Lemma vinv_reachable w s acts : reachable w s acts → vinv s acts.
Proof. induction 1; [apply vinv_start|by eapply vinv_step]. Qed.

Lemma detach_busy mp s i m : find_slot mp s = Some i → mounts_ s !! i = Some m → users m ≠ 0 → is_Some (slot_fs m) →
  umount_detach mp s = Fail E_Busy s.
Proof.
  intros Hi Hm Hu [p Hf]. unfold umount_detach, lookup_slot, get_slot, bind, gets, deref. rewrite Hi. cbn. rewrite Hm. cbn.
  unfold ensure. destruct (transitioning m); [done|]. cbn. rewrite Hf. cbn. by rewrite (proj2 (Z.eqb_neq _ _) Hu).
Qed.

(** C3: in every state reachable by any interleaving of the sections of
    [mount], [umount], [open], [close] and of calls on mounted file systems and
    open files and registrations: the users of a slot are exactly the open files and the callers
    that refer to it; an open file's slot is mounted, and the file system the
    file points to is the one mounted there and has not been deleted; the same
    holds for a caller that holds a slot; so the slot's count is not zero when
    one of them gives its reference back, and an [umount] of a slot that is in
    use answers [Busy] and changes nothing. *)
Theorem vfs_safe w s acts : reachable w s acts →
  (∀ i m, mounts_ s !! i = Some m → users m = Z.of_nat (cnt i (refs s acts))) ∧
  (∀ id f, files s !! id = Some f → ∃ i m p, mount_users_ f = Some i ∧ mounts_ s !! i = Some m ∧ users m ≠ 0 ∧
     slot_fs m = Some p ∧ is_Some (fs_objs s !! p) ∧ ∀ q, file_fs (impl f) = Some q → q = p) ∧
  (∀ i, Using i ∈ acts → ∃ m p, mounts_ s !! i = Some m ∧ users m ≠ 0 ∧ slot_fs m = Some p ∧ is_Some (fs_objs s !! p)) ∧
  (∀ mp i, find_slot mp s = Some i → i ∈ refs s acts → umount_detach mp s = Fail E_Busy s).
Proof.
  intros Hv%vinv_reachable. split_and!.
  - apply (v_users _ _ Hv).
  - intros id f Hf. destruct (v_files _ _ Hv id f Hf) as [_ (i & Hi & Hp)]. destruct (ref_slot s acts i Hv) as (m & p & Hm & Hs & Ho & Hu).
    { apply elem_of_app. right. apply list_elem_of_bind. exists (id, f). split; [cbn; rewrite Hi; left|by apply elem_of_map_to_list]. }
    exists i, m, p. split_and!; [done..|lia|done|done|]. intros q Hq. destruct (Hp q Hq) as (m' & Hm' & Hs'). congruence.
  - intros i Hi. destruct (ref_slot s acts i Hv) as (m & p & Hm & Hs & Ho & Hu).
    { apply elem_of_app. left. apply list_elem_of_bind. exists (Using i). split; [left|done]. }
    exists m, p. split_and!; [done|lia|done|done].
  - intros mp i Hi Hr. destruct (ref_slot s acts i Hv Hr) as (m & p & Hm & Hs & Ho & Hu). apply (detach_busy mp s i m); [done..|lia|by eexists].
Qed.
End steps.

(** ** Paths *)

(** A path that names the mount point [mp] or something below it. *)
Definition under (mp path : list Z) : Prop := path = mp ∨ ∃ rest, path = mp ++ 0x2F :: rest.

Lemma under_spec mp path : under mp path ↔ path = mp ∨ str_starts_with path (mp ++ [0x2F]) = true.
Proof.
  unfold under. rewrite str_starts_with_spec. split; (intros [?|[rest ->]]; [by left|right; exists rest]); by rewrite <- app_assoc.
Qed.
Lemma under_disjoint path : under SLASH_DEV path → under SLASH_MNT path → False.
Proof. intros [->|[? ->]] [H|[? H]]; discriminate H. Qed.
Lemma below_mount mp path : str_starts_with path (mp ++ [0x2F]) = true → length mp = 4%nat →
  ∃ n, path = mp ++ replicate n 0x2F ++ str_skip_char (drop 5 path) 0x2F.
Proof.
  intros [rest ->]%str_starts_with_spec Hl. destruct (str_skip_char_spec rest 0x2F) as (n & E & _). exists (S n).
  rewrite drop_app_length' by (rewrite length_app, Hl; done). rewrite <- app_assoc. cbn. do 2 f_equal. exact E.
Qed.

(** A path is resolved to [/dev] exactly when it is [/dev] or below it, to
    [/mnt] exactly when it is that or below it, and to the root otherwise, also
    for names such as [/devices]; what is left of the path has no leading
    slash, and the mount point, some slashes and the rest make the path again
    (for the root only slashes and the rest). *)
Theorem split_mount_correct path : let '(mp, rel) := split_mount path in
  head rel ≠ Some 0x2F ∧
  (mp = SLASH_DEV ↔ under SLASH_DEV path) ∧ (mp = SLASH_MNT ↔ under SLASH_MNT path) ∧
  (mp = SLASH_DEV ∨ mp = SLASH_MNT ∨ mp = ROOT) ∧
  ∃ n, path = (if decide (mp = ROOT) then [] else mp) ++ replicate n 0x2F ++ rel.
Proof.
  unfold split_mount. pose proof (under_spec SLASH_DEV path) as Hd. pose proof (under_spec SLASH_MNT path) as Hm. pose proof (under_disjoint path) as Hdm.
  change (bytes_of "/dev/") with (SLASH_DEV ++ [0x2F]). change (bytes_of "/mnt/") with (SLASH_MNT ++ [0x2F]).
  assert (∀ p, head (str_skip_char p 0x2F) ≠ Some 0x2F) as Hh by (intros p; by destruct (str_skip_char_spec p 0x2F) as (? & _ & ?)).
  assert (SLASH_DEV ≠ SLASH_MNT ∧ SLASH_DEV ≠ ROOT ∧ SLASH_MNT ≠ ROOT) as (N1 & N2 & N3) by done.
  case_bool_decide as E1; [|destruct (str_starts_with path (SLASH_DEV ++ _)) eqn:E2; [|case_bool_decide as E3;
    [|destruct (str_starts_with path (SLASH_MNT ++ _)) eqn:E4; [|case_bool_decide as E5]]]];
    (split; [done||apply Hh|split; [|split; [|split; [tauto|]]]]); try (split; [naive_solver|naive_solver congruence]).
  - exists 0%nat. by rewrite decide_False, app_nil_r.
  - rewrite decide_False by done. by apply below_mount.
  - exists 0%nat. by rewrite decide_False, app_nil_r.
  - rewrite decide_False by done. by apply below_mount.
  - rewrite decide_True by done. destruct path as [|c path]; [done|]. injection E5 as ->.
    destruct (str_skip_char_spec path 0x2F) as (n & E & _). exists (S n). cbn. f_equal. exact E.
  - rewrite decide_True by done. destruct (str_skip_char_spec path 0x2F) as (n & E & _). by exists n.
Qed.
