(* ===== verification/FatVfs.v ===== *)
(** * The FAT driver behind the VFS interface: [kernel/fs/fat/fat_vfs.cpp]

    [FatFileSystem] and [FatFile] as an instance of the interface of [Vfs]:
    the driver's volume, with the device and the heap as the rest of the
    kernel.  Objects are allocated by [operator new] over the heap. *)

From S2P Require Import Prelude Zstl Pmm PmmProofs LibString BlockDev FatLayout FatCore FatCoreProofs FatChain FatDir FatDirProofs FatPath FatFile Vfs.

(** [class FatFileSystem]: its volume, and the block it lives in. *)
Record FatFileSystem : Set := MkFatFs { fat_ : FatInfo; fatfs_mem : Z }.
(** [class FatFile]: the file system it was opened on, its entry and its block. *)
Record FatFile : Set := MkFatFile { ff_fat : Z; ff_entry : FatDirEntry; ff_mem : Z }.

(** [VfsDirVisitor::visit]'s view of an entry *)
Definition node_type (e : FatDirEntry) : NodeType := if is_directory e then NT_Directory else NT_File.
Definition vfs_entry (e : FatDirEntry) : DirEntry := dirent_set (c_str (get_filename e)) (node_type e) (file_size e) (attr e).
Definition fat_stat (e : FatDirEntry) : Stat := MkStat (node_type e) (file_size e) (attr e).

Section fat_vfs.
Context {D : Type} `{BD : BlockDevice D} {P : Type} `{IVP : InplaceVector P (list Z)}.
Context (KERNEL_BASE sizeof_FatFile sizeof_FatFileSystem : Z).
Notation W := (D * pmm)%type.

(** A call of the driver on the volume of a file system. *)
Definition on_volume {A} (m : M (fs D) A) : M (FatFileSystem * W) A :=
  zoom (λ fw, MkFs (fat_ fw.1) fw.2.1 fw.2.2) (λ t fw, (MkFatFs (fat t) (fatfs_mem fw.1), (disk t, heap t))) m.
Definition on_file_volume {A} (m : M (fs D) A) : M (option FatFileSystem * W) A := λ fw,
  match fw.1 with
  | None => Halt WildPointer
  | Some f =>
      match on_volume m (f, fw.2) with
      | Ret a t => Ret a (Some t.1, t.2)
      | Fail e t => Fail e (Some t.1, t.2)
      | Halt r => Halt r
      end
  end.
Definition on_heap {A F} (m : M pmm A) : M (F * W) A := zoom (λ fw, fw.2.2) (λ h fw, (fw.1, (fw.2.1, h))) m.

(** [create_vfs_filesystem] *)
Definition create_vfs_filesystem : M W (option FatFileSystem) :=
  ptr <- zoom snd (λ h w, (w.1, h)) (operator_new_nothrow KERNEL_BASE sizeof_FatFileSystem);;
  ret (if ptr =? 0 then None else Some (MkFatFs fat_init ptr)).

(** [FatFileSystem] *)
Definition fatfs_open (this : Z) (relpath : list Z) : M (FatFileSystem * W) (option FatFile) :=
  ensure (negb (bool_decide (relpath = []))) E_Invalid;;
  entry <- on_volume (find_file (P := P) (Some relpath));;
  ensure (negb (is_directory entry)) E_Invalid;;
  ptr <- on_heap (operator_new_nothrow KERNEL_BASE sizeof_FatFile);;
  ensure (negb (ptr =? 0)) E_NoMem;;
  ret (Some (MkFatFile this entry ptr)).
Definition fatfs_stat (relpath : list Z) : M (FatFileSystem * W) Stat :=
  if bool_decide (relpath = []) then ret (MkStat NT_Directory 0 FAT_ATTR_DIRECTORY)
  else
    entry <- on_volume (find_file (P := P) (Some relpath));;
    ret (fat_stat entry).
Definition fatfs_readdir (relpath : list Z) (visit : list DirEntry → DirEntry → Z) : M (FatFileSystem * W) (list DirEntry) :=
  es <- on_volume (read_dir (P := P) (Some relpath) (λ seen e, visit (vfs_entry <$> seen) (vfs_entry e)));;
  ret (vfs_entry <$> es).
Definition nonempty (relpath : list Z) (m : M (fs D) unit) : M (FatFileSystem * W) unit :=
  ensure (negb (bool_decide (relpath = []))) E_Invalid;; on_volume m.

(** [FatFile] *)
Definition is_valid_io (size offset : Z) : bool := negb ((0xFFFFFFFF <? size) || (0xFFFFFFFF <? offset)).
Definition fatfile_read (x : FatFile) (buf : list Z) (size offset : Z) : M (option FatFileSystem * W) (Z * list Z) :=
  ensure (is_valid_io size offset) E_Invalid;;
  on_file_volume (read_file KERNEL_BASE (Some (ff_entry x)) (Some buf) (u32 offset) (u32 size)).
Definition fatfile_write (x : FatFile) (buf : list Z) (size offset : Z) : M (option FatFileSystem * W) Z :=
  ensure (is_valid_io size offset) E_Invalid;;
  r <- on_file_volume (write_file KERNEL_BASE (Some (ff_entry x)) (Some buf) (u32 offset) (u32 size));;
  ret r.1.

#[global] Instance fat_filesystem : FileSystem FatFileSystem FatFile W unit := {|
  fs_mount dev := on_volume (FatCore.mount (bool_decide (is_Some dev)));
  fs_unmount := on_volume unmount;
  fs_delete f := zoom snd (λ h w, (w.1, h)) (operator_delete KERNEL_BASE (fatfs_mem f));
  fs_open := fatfs_open;
  fs_stat := fatfs_stat;
  fs_readdir := fatfs_readdir;
  fs_mkdir p := nonempty p (FatDir.mkdir (P := P) (Some p));
  fs_create p := nonempty p (create_file (P := P) (Some p));
  fs_unlink p := nonempty p (FatDir.unlink (P := P) (Some p));
  fs_rmdir p := nonempty p (FatDir.rmdir (P := P) (Some p));
  file_fs x := Some (ff_fat x);
  file_read := fatfile_read;
  file_write := fatfile_write;
  file_stat x := fat_stat (ff_entry x);
  file_delete x := zoom snd (λ h w, (w.1, h)) (operator_delete KERNEL_BASE (ff_mem x)) |}.

#[global] Instance fat_filesystem_laws : FileSystemLaws FatFileSystem FatFile W unit.
Proof.
  split. intros this p s x s' H. left. cbn in H. unfold fatfs_open in H.
  apply bind_Ret_inv in H as (? & ? & _ & H). apply bind_Ret_inv in H as (e & ? & _ & H). apply bind_Ret_inv in H as (? & ? & _ & H).
  apply bind_Ret_inv in H as (ptr & ? & _ & H). apply bind_Ret_inv in H as (? & ? & _ & H). inversion H; subst. done.
Qed.

(** ** Opening and reading a file *)

Context `{BL : !BlockDeviceLaws D} `{RD : !ReliableDevice D} (HKB : 0 < KERNEL_BASE).

Lemma find_file_at s path parts e : fs_ok s → split_path (P := P) (Some path) s = Ret parts s →
  file_at s (root_cluster_ (geo (fat s))) parts = Some e →
  ∃ s', find_file (P := P) (Some path) s = Ret e s' ∧ fs_ok s' ∧ same s s'.
Proof.
  intros Hok Hp Hf. unfold find_file. rewrite (bind_Ret _ _ _ _ _ Hp). by apply find_parts_at.
Qed.

(** The volume with another heap, after changes of the cache only. *)
Lemma mounted_same s s' h rs rs' : mounted KERNEL_BASE s rs → fs_ok s' → same s s' →
  pmm_rep h rs' → coalesced rs' → direct_mapped KERNEL_BASE h → mounted KERNEL_BASE (MkFs (fat s') (disk s') h) rs'.
Proof. intros [H1 H2 H3 H4] Hok Hs R Hc Hd. constructor; [by apply fs_ok_heap|done..]. Qed.
Lemma contents_same s s' h l : fs_ok s → same s s' → contents (MkFs (fat s') (disk s') h) l = contents s l.
Proof.
  intros Hok [(Hg & _) Hd]. apply contents_ext; [done|intros; apply Hd|]. pose proof (g_spc _ _ (ok_geo _ Hok)). lia.
Qed.
Lemma file_ok_same s s' h e l : fs_ok s → same s s' → file_ok s e l → file_ok (MkFs (fat s') (disk s') h) e l.
Proof.
  intros Hok Hs [H1 H2 H3 H4]. constructor; [done| |done|].
  - rewrite <- H2. change (chain (geo (fat s')) (val_of s') (cluster e) = chain (geo (fat s)) (val_of s) (cluster e)). by apply chain_same.
  - by rewrite (contents_same s s' h l Hok Hs).
Qed.

(** Opening a path that denotes a file of the volume and reading from the
    handle: [open] gives a file that points to the file system it was opened
    on, or [NoMem]; a read of [size] bytes at [offset] then returns the bytes of
    the file's contents from [offset] up to its end, or [NoMem]; a request of
    more than 32 bits is refused. *)
Theorem fat_open_read f d h rs path parts e l this buf offset size : let s := MkFs (fat_ f) d h in
  mounted KERNEL_BASE s rs → path ≠ [] → split_path (P := P) (Some path) s = Ret parts s →
  file_at s (root_cluster_ (geo (fat s))) parts = Some e → file_ok s e l → 0 ≤ sizeof_FatFile < 2 ^ 32 →
  0 ≤ offset < file_size e → 0 < size → Forall is_byte buf →
  let n := Z.min size (file_size e - offset) in n ≤ Z.of_nat (length buf) →
  (∃ t, fs_open this path (f, (d, h)) = Fail E_NoMem t) ∨
  ∃ x f1 w1, fs_open this path (f, (d, h)) = Ret (Some x) (f1, w1) ∧ file_fs x = Some this ∧
    if size <? 2 ^ 32 then
      file_read x buf size offset (Some f1, w1) = Fail E_NoMem (Some f1, w1) ∨
      ∃ t, file_read x buf size offset (Some f1, w1) = Ret (n, splice 0 (slice (Z.to_nat offset) (Z.to_nat n) (contents s l)) buf) t
    else file_read x buf size offset (Some f1, w1) = Fail E_Invalid (Some f1, w1).
Proof using HKB BL RD.
  intros s Hm Hp Hsp Hat Hfo Hsz Hoff Hsize Hby n Hn. pose proof (m_fs _ _ _ Hm) as Hok.
  destruct (find_file_at s path parts e Hok Hsp Hat) as (s1 & Hr & Hok1 & Hs1).
  assert (on_volume (find_file (P := P) (Some path)) (f, (d, h)) = Ret e (MkFatFs (fat s1) (fatfs_mem f), (disk s1, h))) as Hfind.
  { unfold on_volume, zoom. cbn [fst snd]. change (MkFs (fat_ f) d h) with s. rewrite Hr. pose proof Hs1 as [(_ & Hh & _) _]. by rewrite Hh. }
  cbn [fs_open fat_filesystem]. unfold fatfs_open, ensure. rewrite bool_decide_eq_false_2 by done. cbn [negb]. rewrite bind_ret.
  rewrite (bind_Ret _ _ _ _ _ Hfind), (f_file _ _ _ Hfo). cbn [negb]. rewrite bind_ret.
  set (b := if sizeof_FatFile =? 0 then 1 else sizeof_FatFile). assert (0 < b ≤ 2 ^ 64 - PG_SIZE) as Hb by (unfold b, PG_SIZE; case_bool; lia).
  destruct (kmalloc_kfree_spec KERNEL_BASE HKB h rs b (m_heap _ _ _ Hm) (m_coalesced _ _ _ Hm) (m_direct _ _ _ Hm) Hb)
    as [(kva & h1 & rs1 & Hk & Hz & _ & _ & R1 & Hco1 & Hd1 & _)|[Hk _]].
  - right. rewrite (bind_Ret _ _ _ kva (MkFatFs (fat s1) (fatfs_mem f), (disk s1, h1))).
    2:{ unfold on_heap, zoom, operator_new_nothrow. cbn [snd]. fold b. by rewrite Hk. }
    rewrite (proj2 (Z.eqb_neq _ _) Hz). cbn [negb]. rewrite bind_ret. eexists _, _, _. split; [reflexivity|]. split; [done|].
    cbn [file_read fat_filesystem]. unfold fatfile_read, ensure, is_valid_io.
    pose proof (f_size _ _ _ Hfo). rewrite (proj2 (Z.ltb_ge _ offset)) by lia. destruct (Z.ltb_spec size (2 ^ 32)) as [Hlt|Hge].
    + rewrite (proj2 (Z.ltb_ge _ size)) by lia. cbn [orb negb]. rewrite bind_ret, !u32_small by lia.
      destruct (do_file_io_spec KERNEL_BASE HKB (MkFs (fat s1) (disk s1) h1) rs1 e l buf offset size false) as [(s' & rs' & Hio & _)|[Hio _]];
        [by eapply mounted_same|by apply (file_ok_same s)|done|lia|done|done|right|left].
      * rewrite (contents_same s s1 h1 l Hok Hs1) in Hio. unfold read_file, on_file_volume, on_volume, zoom. cbn [fst snd fat_ ff_entry].
        eexists. fold n in Hio. by rewrite Hio.
      * unfold read_file, on_file_volume, on_volume, zoom. cbn [fst snd fat_ ff_entry]. by rewrite Hio.
    + by rewrite (proj2 (Z.ltb_lt _ size)) by lia.
  - left. rewrite (bind_Ret _ _ _ 0 (MkFatFs (fat s1) (fatfs_mem f), (disk s1, h))); [by eexists|].
    unfold on_heap, zoom, operator_new_nothrow. cbn [snd]. fold b. by rewrite Hk.
Qed.
End fat_vfs.
