(* ===== verification/Fd.v ===== *)
(** * File-descriptor tables: [kernel/fs/fd.cpp]

    A table owns the files behind its descriptors.  Destroying a handle runs
    [close_file] ([FileCloser]); its effect on the rest of the kernel, of type
    [S], is a parameter. *)

From S2P Require Import Prelude.

Definition MAX_FD : Z := 16.

Inductive ForkPolicy : Set := FP_Reset | FP_Share.

(** [struct Entry]; [file] is the owned handle. *)
Record Entry : Set := MkEntry { file : option Z; offset : Z; used : bool }.
Definition entry0 : Entry := MkEntry None 0 false.

Section table.
Context {S : Type} (close_file : option Z → M S unit).
Notation T := (list Entry * S)%type.

Definition close_handle (h : option Z) : M T unit := zoom snd (λ s t, (t.1, s)) (close_file h).
Definition get_entry (i : nat) : M T Entry := l <- gets fst;; deref (l !! i).
Definition put_entry (i : nat) (e : Entry) : M T unit := modify (λ t, (<[i := e]> t.1, t.2)).

(** [Entry::set] and [Entry::reset]: assigning a handle destroys the old one. *)
Definition entry_set (i : nat) (f : option Z) (off : Z) (in_use : bool) : M T unit :=
  e <- get_entry i;;
  put_entry i (MkEntry f off in_use);;
  close_handle (file e).
Definition entry_reset (i : nat) : M T unit :=
  e <- get_entry i;;
  put_entry i (MkEntry None (offset e) (used e));;
  close_handle (file e);;
  put_entry i entry0.

Definition table_new : list Entry := replicate (Z.to_nat MAX_FD) entry0.

Definition reset_all : M T unit := l <- gets fst;; forM (seq 0 (length l)) entry_reset.
Definition init : M T unit := reset_all.
Definition close_all : M T unit := reset_all.

(** The first unused entry. *)
Fixpoint find_unused (l : list Entry) (i : nat) : option nat :=
  match l with [] => None | e :: l => if negb (used e) then Some i else find_unused l (i + 1) end.
Definition alloc (f : option Z) : M T Z :=
  match f with
  | None => fail E_Invalid
  | Some _ =>
      l <- gets fst;;
      match find_unused l 0 with
      | Some i => entry_set i f 0 true;; ret (Z.of_nat i)
      | None => close_handle f;; fail E_Full
      end
  end.

(** A descriptor's entry, null when it is not open. *)
Definition get_fd (fd : Z) (l : list Entry) : option nat :=
  if (fd <? 0) || (MAX_FD <=? fd) then None
  else match l !! Z.to_nat fd with
       | Some e => if negb (used e) || bool_decide (file e = None) then None else Some (Z.to_nat fd)
       | None => None
       end.
Definition close (fd : Z) : M T unit :=
  o <- gets (λ t, get_fd fd t.1);;
  match o with None => fail E_Invalid | Some i => entry_reset i end.

Definition fork_from (policy : ForkPolicy) : M T unit :=
  match policy with FP_Reset => init | FP_Share => fail E_NotSupported end.

(** ** Correctness *)

(** A table has 16 entries; the used ones are those that own a file, and no
    file has two owners. *)
Record table_ok (l : list Entry) : Prop := {
  t_length : length l = Z.to_nat MAX_FD;
  t_used e : e ∈ l → used e = bool_decide (is_Some (file e));
  t_owner : NoDup (omap file l) }.

(** The table as a partial function from descriptors to open files. *)
Definition open_file (l : list Entry) (fd : Z) : option (Z * Z) :=
  i ← get_fd fd l; e ← l !! i; f ← file e; Some (f, offset e).

Lemma find_unused_spec l i :
  match find_unused l i with
  | Some j => ∃ k e, j = (i + k)%nat ∧ l !! k = Some e ∧ used e = false ∧ ∀ k' e', (k' < k)%nat → l !! k' = Some e' → used e' = true
  | None => ∀ k e, l !! k = Some e → used e = true
  end.
Proof.
  revert i. induction l as [|e l IH]; intros i; cbn; [done|]. destruct (used e) eqn:Hu; cbn.
  - specialize (IH (i + 1)%nat). destruct (find_unused l (i + 1)) as [j|].
    + destruct IH as (k & x & -> & Hk & Hx & Hlt). exists (Datatypes.S k), x. split_and!; [lia|done|done|].
      intros [|k'] e' Hk' He'; [by injection He' as <-|]. apply (Hlt k'); [lia|done].
    + intros [|k] x; [by intros [= <-]|apply IH].
  - exists 0%nat, e. split_and!; [lia|done|done|lia].
Qed.

(** Replacing an entry by one that owns [f], or nothing. *)
Lemma table_ok_insert l i e f off : table_ok l → l !! i = Some e → (∀ x, f = Some x → x ∉ omap file l) →
  table_ok (<[i := MkEntry f off (bool_decide (is_Some f))]> l).
Proof.
  intros [H1 H2 H3] Hi Hf. destruct (omap_perm file l i e (MkEntry f off (bool_decide (is_Some f))) Hi) as (k & E & E'). constructor.
  - by rewrite length_insert.
  - intros x Hx. apply list_elem_of_lookup_1 in Hx as [j Hj]. apply list_lookup_insert_Some in Hj as [(-> & <- & _)|[_ Hj]]; [done|].
    by apply H2, list_elem_of_lookup_2 with j.
  - rewrite E'. rewrite E in H3. cbn. apply NoDup_app in H3 as (_ & _ & H3). destruct f as [x|]; [|done]. apply NoDup_cons. split; [|done].
    intros Hx. apply (Hf x eq_refl). rewrite E. apply elem_of_app. by right.
Qed.

Lemma get_fd_Some fd l i : get_fd fd l = Some i → 0 ≤ fd < MAX_FD ∧ i = Z.to_nat fd ∧ ∃ e f, l !! i = Some e ∧ used e = true ∧ file e = Some f.
Proof.
  unfold get_fd. destruct (Z.ltb_spec fd 0), (Z.leb_spec MAX_FD fd); try done. cbn. destruct (l !! _) as [e|] eqn:He; [|done].
  destruct (used e) eqn:Hu; [|done]. cbn. case_bool_decide as Hf; [done|]. intros [= <-]. split; [lia|]. split; [done|].
  destruct (file e) as [f|] eqn:Hfe; [|done]. by exists e, f.
Qed.

Lemma open_file_insert l i e fd : table_ok l → (i < length l)%nat → used e = bool_decide (is_Some (file e)) →
  open_file (<[i := e]> l) fd = if decide (fd = Z.of_nat i) then (λ f, (f, offset e)) <$> file e else open_file l fd.
Proof.
  intros [Hl _ _] Hi He. rewrite Hl in Hi. unfold open_file, get_fd. destruct (decide (fd = Z.of_nat i)) as [->|Hne].
  - unfold MAX_FD in *. rewrite (proj2 (Z.ltb_ge _ 0)), (proj2 (Z.leb_gt _ _)) by lia. cbn. rewrite Nat2Z.id, list_lookup_insert_eq by (rewrite Hl; done).
    rewrite He. destruct (file e) as [f|] eqn:Hf; cbn; [|by case_bool_decide].
    rewrite list_lookup_insert_eq by (rewrite Hl; done). cbn. by rewrite Hf.
  - destruct (Z.ltb_spec fd 0); [done|]. destruct (Z.leb_spec MAX_FD fd); [done|]. cbn. rewrite list_lookup_insert_ne by lia.
    destruct (l !! Z.to_nat fd) as [x|] eqn:Hx; [|done]. destruct (negb (used x) || _); [done|]. cbn. by rewrite list_lookup_insert_ne, Hx by lia.
Qed.

Lemma entry_reset_spec l s i e s' : l !! i = Some e → close_file (file e) s = Ret tt s' →
  entry_reset i (l, s) = Ret tt (<[i := entry0]> l, s').
Proof.
  intros Hi Hc. unfold entry_reset, get_entry, put_entry, close_handle, bind, gets, deref, modify, zoom. cbn. rewrite Hi. cbn.
  rewrite Hc. cbn. by rewrite list_insert_insert_eq.
Qed.

Context (close_total : ∀ h s, ∃ s', close_file h s = Ret tt s') (close_null : ∀ s, close_file None s = Ret tt s).

End table.

(** A kernel that records the files closed. *)
Definition log_close (h : option Z) : M (list Z) unit := λ s, Ret tt (match h with Some f => f :: s | None => s end).

