(* ===== verification/DevFs.v ===== *)
(** * Device files: [kernel/fs/devfs.cpp] and [kernel/cons/cons_vfs.cpp]

    The registry of character devices, the file system that shows them under
    [/dev], and the console's file.  A factory is named by an element of [C]
    and run by [run_factory]. *)

From S2P Require Import Prelude Zstl LibString Vfs.

Record CharDevEntry (C : Type) : Type := MkCharDev { cd_name : list Z; cd_create : C }.
Arguments MkCharDev {C} cd_name cd_create.
Arguments cd_name {C} c.
Arguments cd_create {C} c.
Definition MAX_CHAR_DEVS : nat := 8.

(** What the file of a character device does. *)
Class CharFile (X W : Type) := {
  cf_read : X → list Z → Z → M W (Z * list Z);
  cf_write : X → list Z → Z → M W Z;
  cf_stat : X → Stat;
  cf_delete : X → M W unit }.

Section devfs.
Context {X W Dev C V : Type} `{CF : CharFile X W} `{IV : InplaceVector V (CharDevEntry C)}.
Context (devices : W → V) (set_devices : V → W → W) (run_factory : C → M W (option X)) (delete_devfs : Z → M W unit).

Definition named (nm : list Z) (l : list (CharDevEntry C)) : option (CharDevEntry C) :=
  list_find (λ e, cd_name e = nm) l ≫= λ x, Some x.2.

Definition register_char_dev (name : option (list Z)) (factory : option C) : M W unit :=
  match name, factory with
  | Some name, Some factory =>
      ensure (negb (bool_decide (name = []))) E_Invalid;;
      v <- gets devices;;
      ensure (bool_decide (named name (iv_elems v) = None)) E_Exists;;
      match iv_try_push_back (MkCharDev name factory) v with
      | Some v => modify (set_devices v)
      | None => fail E_Full
      end
  | _, _ => fail E_Invalid
  end.

(** [class DevFileSystem], with the block it lives in *)
Definition devfs_open (relpath : list Z) : M (Z * W) (option X) :=
  ensure (negb (bool_decide (relpath = []))) E_Invalid;;
  v <- gets (λ fw, devices fw.2);;
  match named relpath (iv_elems v) with
  | Some e =>
      file <- zoom snd (λ w fw, (fw.1, w)) (run_factory (cd_create e));;
      ensure (bool_decide (is_Some file)) E_Io;;
      ret file
  | None => fail E_NotFound
  end.
Definition devfs_stat (relpath : list Z) : M (Z * W) Stat :=
  if bool_decide (relpath = []) then ret (MkStat NT_Directory 0 0)
  else
    v <- gets (λ fw, devices fw.2);;
    match named relpath (iv_elems v) with
    | Some _ => ret (MkStat NT_CharDevice 0 0)
    | None => fail E_NotFound
    end.
(** Every device is visited; the visitor's answers are not looked at. *)
Definition devfs_readdir (relpath : list Z) : M (Z * W) (list DirEntry) :=
  if negb (bool_decide (relpath = [])) then fail E_NotFound
  else
    v <- gets (λ fw, devices fw.2);;
    ret ((λ e, dirent_set (cd_name e) NT_CharDevice 0 0) <$> iv_elems v).
Definition not_supported : M (Z * W) unit := fail E_NotSupported.
Definition on_char_file {A} (m : M W A) : M (option Z * W) A := zoom snd (λ w fw, (fw.1, w)) m.

#[global] Instance dev_filesystem : FileSystem Z X W Dev := {|
  fs_mount _ := ret tt;
  fs_unmount := ret tt;
  fs_delete := delete_devfs;
  fs_open _ := devfs_open;
  fs_stat := devfs_stat;
  fs_readdir p _ := devfs_readdir p;
  fs_mkdir _ := not_supported;
  fs_create _ := not_supported;
  fs_unlink _ := not_supported;
  fs_rmdir _ := not_supported;
  file_fs _ := None;
  file_read x buf size _ := on_char_file (cf_read x buf size);
  file_write x buf size _ := on_char_file (cf_write x buf size);
  file_stat := cf_stat;
  file_delete := cf_delete |}.
#[global] Instance dev_filesystem_laws : FileSystemLaws Z X W Dev.
Proof. split. by right. Qed.

(** ** The registry *)

Context `{IVL : !InplaceVectorLaws V (CharDevEntry C) MAX_CHAR_DEVS}.
Context (devices_set : ∀ v w, devices (set_devices v w) = v).

Lemma named_app nm l e : named nm (l ++ [e]) =
  match named nm l with Some x => Some x | None => if bool_decide (cd_name e = nm) then Some e else None end.
Proof.
  unfold named. induction l as [|x l IH]; cbn.
  - destruct (decide (cd_name e = nm)); [by rewrite bool_decide_eq_true_2|by rewrite bool_decide_eq_false_2].
  - destruct (decide (cd_name x = nm)); [done|]. destruct (list_find _ (l ++ [e])) as [[? ?]|], (list_find _ l) as [[? ?]|]; cbn in *; done.
Qed.

(** Registering a character device under a new name adds exactly that
    name: opening it runs its factory, opening any other name does what it
    did, and [readdir] lists it last; a taken name is refused with [Exists] and a
    full registry with [Full], both leaving the registry as it was. *)
Theorem register_char_dev_correct name factory (w : W) : name ≠ [] →
  let l := iv_elems (devices w) in
  match named name l with
  | Some _ => register_char_dev (Some name) (Some factory) w = Fail E_Exists w
  | None =>
      if decide (length l = MAX_CHAR_DEVS) then register_char_dev (Some name) (Some factory) w = Fail E_Full w
      else ∃ w', register_char_dev (Some name) (Some factory) w = Ret tt w' ∧
        (∀ f, devfs_open name (f, w') = (x <- zoom snd (λ w fw, (fw.1, w)) (run_factory factory);; ensure (bool_decide (is_Some x)) E_Io;; ret x) (f, w')) ∧
        (∀ nm, nm ≠ name → named nm (iv_elems (devices w')) = named nm l) ∧
        (∀ f, devfs_readdir [] (f, w') = Ret (((λ e, dirent_set (cd_name e) NT_CharDevice 0 0) <$> l) ++ [dirent_set name NT_CharDevice 0 0]) (f, w'))
  end.
Proof using IVL devices_set.
  intros Hn l. unfold register_char_dev, ensure. rewrite bool_decide_eq_false_2 by done. cbn [negb]. rewrite bind_ret.
  rewrite (bind_Ret (gets devices) _ _ (devices w) w) by done. fold l. destruct (named name l) eqn:El.
  { by rewrite bool_decide_eq_false_2. }
  rewrite bool_decide_eq_true_2 by done. rewrite bind_ret. pose proof (iv_capacity (devices w)) as Hcap. fold l in Hcap.
  destruct (decide (length l = MAX_CHAR_DEVS)) as [Hf|Hf]; [by rewrite iv_push_full|].
  destruct (iv_push_room (MkCharDev name factory) (devices w)) as (v' & -> & Hv'); [fold l; lia|]. fold l in Hv'.
  exists (set_devices v' w). split; [done|]. split_and!.
  - intros f. unfold devfs_open, ensure. rewrite bool_decide_eq_false_2 by done. cbn [negb]. rewrite bind_ret.
    rewrite (bind_Ret (gets _) _ _ v' (f, set_devices v' w)) by (unfold gets; cbn; by rewrite devices_set).
    by rewrite Hv', named_app, El, bool_decide_eq_true_2.
  - intros nm Hne. rewrite devices_set, Hv', named_app. destruct (named nm l); [done|]. by rewrite bool_decide_eq_false_2.
  - intros f. unfold devfs_readdir. cbn. unfold bind, gets. cbn. by rewrite devices_set, Hv', fmap_app.
Qed.
End devfs.

(** ** The console's file *)

Section console.
Context {W : Type} (getc : M W Z) (putc : Z → M W unit) (delete_console : Z → M W unit).

Record ConsoleFile : Set := MkConsole { console_mem : Z }.

Fixpoint read_chars (n : nat) : M W (list Z) :=
  match n with O => ret [] | S n => c <- getc;; cs <- read_chars n;; ret (c :: cs) end.
Definition console_read (x : ConsoleFile) (buf : list Z) (size : Z) : M W (Z * list Z) :=
  cs <- read_chars (Z.to_nat size);;
  ret (s32 size, cs ++ drop (length cs) buf).
Definition console_write (x : ConsoleFile) (buf : list Z) (size : Z) : M W Z :=
  forM (take (Z.to_nat size) buf) putc;;
  ret (s32 size).
#[global] Instance console_file : CharFile ConsoleFile W := {|
  cf_read := console_read;
  cf_write := console_write;
  cf_stat _ := MkStat NT_CharDevice 0 0;
  cf_delete x := delete_console (console_mem x) |}.
End console.
