(* ===== verification/VfsWitness.v ===== *)
(** * The virtual file system: concrete runs *)

From S2P Require Import Prelude Zstl Pmm PmmProofs LibString BlockDev RamDisk FatLayout FatCore FatCoreProofs FatChain FatDir FatDirProofs FatPath FatFile FatWitness Vfs VfsProofs FatVfs DevFs.

(** ** A kernel whose only state are its character devices *)

Notation ex_devs := (bvec (CharDevEntry unit) 8).
Definition ex_char_file : CharFile Z ex_devs := {|
  cf_read _ buf _ := ret (0, buf); cf_write _ _ size := ret size; cf_stat _ := MkStat NT_CharDevice 0 0; cf_delete _ := ret tt |}.
Definition ex_devfs : FileSystem Z Z ex_devs unit :=
  @dev_filesystem Z ex_devs unit unit ex_devs ex_char_file _ id (λ _, ret (Some 5)) (λ _, ret tt).
Definition ex_devfs_laws : @FileSystemLaws Z Z ex_devs unit ex_devfs :=
  @dev_filesystem_laws Z ex_devs unit unit ex_devs ex_char_file _ id (λ _, ret (Some 5)) (λ _, ret tt).

Lemma register_char_dev_correct_witness :
  ∃ w' : ex_devs, register_char_dev id (λ v _, v) (Some (bytes_of "console")) (Some tt) iv_new = Ret tt w' ∧
    named (bytes_of "zero") (iv_elems w') = None.
Proof.
  destruct (register_char_dev_correct (X := Z) id (λ v (_ : ex_devs), v) (λ _, ret (Some 5)) ltac:(done) (bytes_of "console") tt iv_new ltac:(done))
    as (w' & Hr & _ & Hn & _).
  exists w'. split; [exact Hr|]. exact (Hn (bytes_of "zero") ltac:(done)).
Defined.

(** A caller that holds the mounted [/dev] keeps it from being unmounted. *)
Definition ex_vfs_type : Type := vfs Z Z ex_devs unit (bvec (FsEntry Z ex_devs) 8).
Lemma vfs_safe_witness : ∃ s : ex_vfs_type, find_slot (Some SLASH_DEV) s = Some 0%nat ∧ umount_detach (Some SLASH_DEV) s = Fail E_Busy s.
Proof.
  assert (∃ s : ex_vfs_type, @reachable Z Z ex_devs unit _ ex_devfs _ (λ _, []) iv_new s [Using 0] ∧ find_slot (Some SLASH_DEV) s = Some 0%nat) as (s & Hr & Hs).
  { eexists. split.
    - eapply reach_step; [eapply reach_step; [eapply reach_step; [eapply reach_step; [eapply reach_step; [eapply reach_step; [eapply reach_step; [apply reach_start|]|]|]|]|]|]|].
      + apply (step_register _ (Some (bytes_of "devfs")) (Some (ret (Some 1)))). reflexivity.
      + apply (step_reserve _ (Some SLASH_DEV) (bytes_of "devfs") _ _ 0 (ret (Some 1))). reflexivity.
      + eapply (step_create _ 0 _ _ _ _ _ _ _ (ret (Some 1))); reflexivity.
      + eapply (step_mount _ 0 _ None); reflexivity.
      + eapply (step_publish _ 0 _ None (bytes_of "devfs")); reflexivity.
      + eapply (step_finish _ 0); reflexivity.
      + apply (step_acquire _ (Some SLASH_DEV) _ _ 0); [done|reflexivity].
    - reflexivity. }
  exists s. split; [exact Hs|]. destruct (@vfs_safe Z Z ex_devs unit _ ex_devfs ex_devfs_laws _ (λ _, []) iv_new s [Using 0] Hr) as (_ & _ & _ & Hb).
  apply (Hb _ 0%nat); [exact Hs|]. apply elem_of_app. left. left.
Defined.

(** ** The FAT volume of [FatWitness] *)

Notation ex_fatfs := (fat_filesystem (D := ram) (P := ex_parts) 0xFFFFFFFF80000000 400).
Lemma fat_open_read_witness : ∃ x f1 w1, @fs_open _ _ _ _ ex_fatfs 9 (bytes_of "/hello.txt") (MkFatFs (fat ex_fs) 0, (disk ex_fs, heap ex_fs)) = Ret (Some x) (f1, w1) ∧
  @file_fs _ _ _ _ ex_fatfs x = Some 9.
Proof.
  destruct (fat_open_read (P := ex_parts) 0xFFFFFFFF80000000 400 eq_refl (MkFatFs (fat ex_fs) 0) (disk ex_fs) (heap ex_fs) [(0, 2); (4, 3)]
    (bytes_of "/hello.txt") [bytes_of "HELLO.TXT"] ex_hello [3; 4] 9 (replicate 200 0) 500 200) as [(t & Ht)|(x & f1 & w1 & Hx & Hf & _)].
  - exact ex_mounted.
  - done.
  - vm_compute. reflexivity.
  - vm_compute. reflexivity.
  - exact ex_file_ok.
  - lia.
  - by vm_compute.
  - lia.
  - by apply Forall_replicate.
  - by vm_compute.
  - exfalso. vm_compute in Ht. discriminate Ht.
  - exists x, f1, w1. split; [exact Hx|exact Hf].
Defined.
