(* ===== verification/Syscall.v ===== *)
(** * System calls: [kernel/syscall]

    [open], [read], [write], [close] and the dispatcher.  The state of a call
    is the memory manager's, the descriptor table of the calling task and the
    rest of the kernel, [W], whose files are reached through [FileEnv] and share
    the page allocator with the memory manager.  A task is the root table of
    its address space, if it has one; what a call stores in a [KernelBuffer] is
    a list of bytes beside the page the buffer occupies. *)

From S2P Require Import Prelude LibList Pmm PmmProofs Paging SwapSlots PageTable PageTableProofs Vmm Fd.

(** What the calls use of [fs/vfs.h]: [vfs::open], the deleter of a file handle,
    [vfs::read] (the count, and the buffer after the call) and [vfs::write]. *)
Class FileEnv (W : Type) : Type := {
  fe_open : list Z → M (pmm * W) Z;
  fe_close : option Z → M (pmm * W) unit;
  fe_read : Z → list Z → Z → Z → M (pmm * W) (Z * list Z);
  fe_write : Z → list Z → Z → Z → M (pmm * W) Z }.

(** [abi/syscall.h] *)
Definition NR_EXIT : Z := 1.
Definition NR_READ : Z := 3.
Definition NR_WRITE : Z := 4.
Definition NR_OPEN : Z := 5.
Definition NR_CLOSE : Z := 6.

Definition SYSCALL_PATH_MAX : Z := 128.
Inductive FileIo : Set := Io_Read | Io_Write.

Record sys (W : Type) : Type := MkSys { sy_mm : mm; sy_files : list Entry; sy_env : W }.
Arguments MkSys {W} sy_mm sy_files sy_env.
Arguments sy_mm {W} s.
Arguments sy_files {W} s.
Arguments sy_env {W} s.

Section syscall.
Context `{Paging} {W : Type} `{FileEnv W}.
Notation S := (sys W).

Definition on_mm {A} (m : M mm A) : M S A := zoom sy_mm (λ t s, MkSys t (sy_files s) (sy_env s)) m.
Definition on_world {A} (m : M (pmm * W) A) : M S A :=
  zoom (λ s, (pm (sy_mm s), sy_env s)) (λ t s, MkSys (with_pm t.1 (sy_mm s)) (sy_files s) t.2) m.
Definition on_table {A} (m : M (list Entry * (pmm * W)) A) : M S A :=
  zoom (λ s, (sy_files s, (pm (sy_mm s), sy_env s))) (λ t s, MkSys (with_pm t.2.1 (sy_mm s)) t.1 t.2.2) m.

(** A task: the root table of [memory()]. *)
Definition caller : Type := option Z.

(** The loop of [copy_user_cstr] from index [i]: the bytes before the
    terminator, or the failure. *)
Fixpoint cstr_loop (fuel : nat) (cur : caller) (base i out_size : Z) (out : list Z) : M S (option (list Z)) :=
  match fuel with
  | O => halt OutOfFuel
  | Datatypes.S fuel =>
      if out_size <=? i then ret None
      else
        let addr := u64 (base + i) in
        if USER_SPACE_TOP <=? addr then ret None
        else
          r <- try_ (on_mm (copy_from_user cur addr 1));;
          match r with
          | inl [ch] => if ch =? 0 then ret (Some out) else cstr_loop fuel cur base (i + 1) out_size (out ++ [ch])
          | _ => ret None
          end
  end.
Definition copy_user_cstr (cur : option caller) (user out_size : Z) : M S (option (list Z)) :=
  match cur with
  | None => ret None
  | Some cur =>
      if (user =? 0) || (out_size =? 0) then ret None
      else if USER_SPACE_TOP <=? user then ret None
      else cstr_loop (Datatypes.S (Z.to_nat out_size)) cur user 0 out_size []
  end.

(** The entry behind a descriptor. *)
Definition entry_at_fd (i : nat) : M S Entry := l <- gets sy_files;; deref (l !! i).

(** The loop of [sys_file_io]: [buf] is the kernel buffer, the result the bytes
    transferred and whether a step failed. *)
Fixpoint io_loop (fuel : nat) (cur : caller) (i : nat) (user_buf count : Z) (operation : FileIo) (buf : list Z) (done : Z)
    : M S (Z * bool) :=
  match fuel with
  | O => halt OutOfFuel
  | Datatypes.S fuel =>
      if count <=? done then ret (done, false)
      else
        let chunk := Z.min (count - done) PG_SIZE in
        let va := u64 (user_buf + done) in
        src <- match operation with
               | Io_Read => ret (Some buf)
               | Io_Write =>
                   r <- try_ (on_mm (copy_from_user cur va chunk));;
                   ret (match r with inl bs => Some (bs ++ drop (Z.to_nat chunk) buf) | inr _ => None end)
               end;;
        match src with
        | None => ret (done, true)
        | Some buf =>
            e <- entry_at_fd i;;
            f <- deref (file e);;
            r <- try_ (on_world (match operation with
                                 | Io_Read => fe_read f buf chunk (offset e)
                                 | Io_Write => n <- fe_write f buf chunk (offset e);; ret (n, buf)
                                 end));;
            match r with
            | inr _ => ret (done, true)
            | inl (bytes, buf) =>
                if (bytes <? 0) || (chunk <? bytes) then ret (done, true)
                else
                  stored <- match operation with
                            | Io_Read => r <- try_ (on_mm (copy_to_user cur va (take (Z.to_nat bytes) buf)));; ret (match r with inl _ => true | inr _ => false end)
                            | Io_Write => ret true
                            end;;
                  if negb stored then ret (done, true)
                  else
                    e <- entry_at_fd i;;
                    modify (λ s, MkSys (sy_mm s) (<[i := MkEntry (file e) (u64 (offset e + bytes)) (used e)]> (sy_files s)) (sy_env s));;
                    if bytes <? chunk then ret (done + bytes, false)
                    else io_loop fuel cur i user_buf count operation buf (done + bytes)
            end
        end
  end.

Definition sys_file_io (cur : option caller) (fd user_buf count : Z) (operation : FileIo) : M S Z :=
  if count =? 0 then ret 0
  else
    match cur with
    | None => ret (-1)
    | Some cur =>
        ok <- on_mm (user_range_valid cur user_buf count (match operation with Io_Read => true | Io_Write => false end));;
        if negb ok then ret (-1)
        else
          o <- gets (λ s, get_fd fd (sy_files s));;
          match o with
          | None => ret (-1)
          | Some i =>
              storage <- on_mm (on_pm (kmalloc KERNEL_BASE PG_SIZE));;
              if storage =? 0 then ret (-1)
              else
                buf <- gets (λ s, bytes_get (ram (sy_mm s)) (u64 (storage - KERNEL_BASE)) PG_SIZE);;
                r <- io_loop (Datatypes.S (Z.to_nat count)) cur i user_buf count operation buf 0;;
                on_mm (on_pm (kfree KERNEL_BASE storage));;
                ret (if snd r && (fst r =? 0) then -1 else fst r)
          end
    end.

Definition sys_open (cur : option caller) (user_path : Z) : M S Z :=
  match cur with
  | None => ret (-1)
  | Some _ =>
      path <- copy_user_cstr cur user_path SYSCALL_PATH_MAX;;
      match path with
      | None => ret (-1)
      | Some path =>
          file <- try_ (on_world (fe_open path));;
          match file with
          | inr _ => ret (-1)
          | inl f =>
              fd <- try_ (on_table (alloc fe_close (Some f)));;
              ret (match fd with inl n => n | inr _ => -1 end)
          end
      end
  end.
Definition sys_read (cur : option caller) (fd user_buf count : Z) : M S Z :=
  match cur with None => ret (-1) | Some _ => sys_file_io cur fd user_buf count Io_Read end.
Definition sys_close (cur : option caller) (fd : Z) : M S Z :=
  match cur with
  | None => ret (-1)
  | Some _ => r <- try_ (on_table (close fe_close fd));; ret (match r with inl _ => 0 | inr _ => -1 end)
  end.
Definition sys_write (cur : option caller) (fd user_buf count : Z) : M S Z := sys_file_io cur fd user_buf count Io_Write.

(** Whether the number is a call's, and [result] after it.  [sched_exit] is
    [sched::exit]; the line it is announced with on the console is left out. *)
Definition dispatch (sched_exit : Z → M S unit) (task : option caller) (nr arg0 arg1 arg2 result : Z) : M S (bool * Z) :=
  if nr =? NR_EXIT then
    match task with
    | None => ret (true, -1)
    | Some _ => sched_exit (s32 arg0);; ret (true, result)
    end
  else if nr =? NR_OPEN then r <- sys_open task arg0;; ret (true, r)
  else if nr =? NR_READ then r <- sys_read task (s32 arg0) arg1 arg2;; ret (true, r)
  else if nr =? NR_CLOSE then r <- sys_close task (s32 arg0);; ret (true, r)
  else if nr =? NR_WRITE then r <- sys_write task (s32 arg0) arg1 arg2;; ret (true, r)
  else ret (false, result).
End syscall.
