(* ===== verification/SyscallProofs.v ===== *)
(** * Correctness of [read] and [write]

    The calls against what they rely on of the files behind the descriptors,
    [FileEnvLaws]: [read] stores the file's bytes in the user's buffer, [write]
    the buffer's bytes in the file, each advancing the offset by what it
    reports, with every other byte of memory, the address space and the free
    pages as they were. *)

From S2P Require Import Prelude LibList Pmm PmmProofs Paging SwapSlots PageTable PageTableProofs Vmm VmmProofs AddrSpace Fd Exec ExecProofs Syscall.

#[local] Arguments seqZ : simpl never.

(** Consecutive free pages. *)
Definition room (n : Z) (ps : list Z) : Prop := ∃ p, ∀ i, p ≤ i < p + n → i ∈ ps.

Lemma room_perm n ps qs : ps ≡ₚ qs → room n ps → room n qs.
Proof. intros E [p Hp]. exists p. intros i Hi. rewrite <- E. by apply Hp. Qed.

(** The allocator and the files after a transfer: the free pages are the same
    and nothing of the other pages was touched. *)
Record env_step {W} (ok : W → Prop) (t : pmm) (rs : list (Z * Z)) (t' : pmm) (w' : W) (rs' : list (Z * Z)) : Prop := {
  es_ok : ok w';
  es_rep : pmm_rep t' rs';
  es_coalesced : coalesced rs';
  es_free : free_pages rs' ≡ₚ free_pages rs;
  es_frame : pmm_frame t t' (free_pages rs) }.

(** [d] written over the bytes of [bs] at [off]. *)
Definition overwrite (off : Z) (d bs : list Z) : list Z := take (Z.to_nat off) bs ++ d ++ drop (Z.to_nat off + length d) bs.

Lemma length_overwrite off d bs : 0 ≤ off → off + Z.of_nat (length d) ≤ Z.of_nat (length bs) → length (overwrite off d bs) = length bs.
Proof. intros. unfold overwrite. rewrite !length_app, length_take, length_drop. lia. Qed.
Lemma overwrite_nil off bs : overwrite off [] bs = bs.
Proof. unfold overwrite. simpl. by rewrite Nat.add_0_r, take_drop. Qed.
Lemma overwrite_app off d1 d2 bs : 0 ≤ off → off + Z.of_nat (length d1) ≤ Z.of_nat (length bs) →
  overwrite (off + Z.of_nat (length d1)) d2 (overwrite off d1 bs) = overwrite off (d1 ++ d2) bs.
Proof.
  intros Ho Hl. unfold overwrite. replace (Z.to_nat (off + Z.of_nat (length d1))) with (Z.to_nat off + length d1)%nat by lia.
  assert (length (take (Z.to_nat off) bs) = Z.to_nat off) as Ht by (rewrite length_take; lia).
  assert (length (take (Z.to_nat off) bs ++ d1) = (Z.to_nat off + length d1)%nat) as Ht1 by (rewrite length_app; lia).
  rewrite (app_assoc (take _ bs) d1), <- Ht1, take_app_length, drop_app_ge by lia.
  rewrite <- !app_assoc. do 3 f_equal. rewrite drop_drop. f_equal. rewrite !length_app in *. lia.
Qed.

(** Files of a fixed length.  A read returns the bytes at the offset up to the
    end of the file; a write replaces these bytes.  Either may need [io_pages]
    consecutive free pages, and fails only without them or past the end of the
    file. *)
Class FileEnvLaws `{Paging} (W : Type) `{FileEnv W} := {
  env_ok : W → Prop;
  fbytes : W → Z → option (list Z);
  io_pages : W → Z → Z;
  fbytes_range w f bs : env_ok w → fbytes w f = Some bs → Forall is_byte bs ∧ Z.of_nat (length bs) < 2 ^ 63;
  fe_read_spec t w rs f bs buf (n off : Z) :
    env_ok w → fbytes w f = Some bs → pmm_rep t rs → coalesced rs → direct_mapped KERNEL_BASE t →
    0 < n ≤ PG_SIZE → n ≤ Z.of_nat (length buf) → 0 ≤ off → Forall is_byte buf →
    ∃ t' w' rs', env_step env_ok t rs t' w' rs' ∧ (∀ g, fbytes w' g = fbytes w g ∧ io_pages w' g = io_pages w g) ∧
      let d := take (Z.to_nat n) (drop (Z.to_nat off) bs) in
      ((fe_read f buf n off (t, w) = Ret (Z.of_nat (length d), d ++ drop (length d) buf) (t', w') ∧ off ≤ Z.of_nat (length bs)) ∨
       ∃ e, fe_read f buf n off (t, w) = Fail e (t', w') ∧ (Z.of_nat (length bs) < off ∨ ¬ room (io_pages w f) (free_pages rs)));
  fe_write_spec t w rs f bs buf (n off : Z) :
    env_ok w → fbytes w f = Some bs → pmm_rep t rs → coalesced rs → direct_mapped KERNEL_BASE t →
    0 < n ≤ PG_SIZE → n ≤ Z.of_nat (length buf) → 0 ≤ off → Forall is_byte buf →
    ∃ t' w' rs', env_step env_ok t rs t' w' rs' ∧ io_pages w' f = io_pages w f ∧
      let k := Z.min n (Z.of_nat (length bs) - off) in
      ((fe_write f buf n off (t, w) = Ret k (t', w') ∧ off ≤ Z.of_nat (length bs) ∧
          fbytes w' f = Some (overwrite off (take (Z.to_nat k) buf) bs)) ∨
       ∃ e, fe_write f buf n off (t, w) = Fail e (t', w') ∧ fbytes w' f = Some bs ∧
         (Z.of_nat (length bs) < off ∨ ¬ room (io_pages w f) (free_pages rs))) }.

Lemma get_fd_entry l fd f off : 0 ≤ fd < MAX_FD → l !! Z.to_nat fd = Some (MkEntry (Some f) off true) → get_fd fd l = Some (Z.to_nat fd).
Proof. intros Hfd Hl. unfold get_fd. by rewrite (proj2 (Z.ltb_ge _ _)), (proj2 (Z.leb_gt _ _)), Hl by lia. Qed.

Section user.
Context `{PL : PagingLaws} `{UL : !UserLayout} `{UU : !UserLayoutLaws}.
Implicit Types (s : mm) (rs : list (Z * Z)).

(** ** User ranges of an address space *)

Lemma as_allowed s rs root A va w : as_rep s rs root A → 0 ≤ va < USER_SPACE_TOP → allowed (ram s) root va w = true →
  ∃ u, A !! (va / PG_SIZE) = Some u ∧ paddr (ram s) root va = up_page u * PG_SIZE + va mod PG_SIZE.
Proof.
  intros R Hva Ha. unfold allowed in Ha. destruct (A !! (va / PG_SIZE)) as [u|] eqn:Hu.
  - exists u. split; [done|]. unfold paddr. by rewrite (as_translate s rs root A va u).
  - by rewrite (as_unmapped s rs root A va) in Ha.
Qed.

Lemma as_private s rs root A va n w : as_rep s rs root A → range_ok (ram s) root va n w → private (ram s) root va n.
Proof.
  intros R (Hva & Htop & Hal). unfold PG_SIZE in Hva.
  assert (∀ i, 0 ≤ i < n → ∃ u, A !! ((va + i) / PG_SIZE) = Some u ∧ paddr (ram s) root (va + i) = up_page u * PG_SIZE + (va + i) mod PG_SIZE) as Hp.
  { intros i Hi. eapply as_allowed; [done|lia|by apply Hal]. }
  assert (∀ i, 0 ≤ (va + i) mod PG_SIZE < PG_SIZE) as Hm by (intros; by apply Z.mod_pos_bound). constructor.
  - intros i j Hi Hj E. destruct (Hp i Hi) as (u & Hu & Eu), (Hp j Hj) as (u' & Hu' & Eu').
    assert (up_page u = up_page u' ∧ (va + i) mod PG_SIZE = (va + j) mod PG_SIZE) as [E1 E2].
    { rewrite Eu, Eu' in E. pose proof (Hm i). pose proof (Hm j). unfold PG_SIZE in *. lia. }
    pose proof (as_inj _ _ _ _ R _ _ _ _ Hu Hu' E1) as E3. pose proof (Z.div_mod (va + i) PG_SIZE ltac:(done)).
    pose proof (Z.div_mod (va + j) PG_SIZE ltac:(done)). rewrite E3, E2 in *. lia.
  - intros i q a j Hi Hq Ha Hj E. destruct (Hp i Hi) as (u & Hu & Eu).
    apply (as_tables _ _ _ _ R _ u q a Hu Hq Ha). destruct (wf_tables _ _ _ (as_wf _ _ _ _ R) q a Hq Ha) as [Hf _].
    rewrite <- (phys_page_entry a j) by done. rewrite <- E, Eu. apply byte_page, Hm.
Qed.

Lemma range_sub m root va n w c k : range_ok m root va n w → 0 ≤ c → 0 ≤ k → c + k ≤ n → c < n → range_ok m root (va + c) k w.
Proof.
  intros (Hva & Htop & Hal) Hc Hk Hck Hlt. unfold range_ok, PG_SIZE in *. split_and!; [lia..|]. intros i Hi. rewrite <- Z.add_assoc. apply Hal. lia.
Qed.
Lemma range_same m m' root va n w : (∀ v, translate m' root v = translate m root v) → range_ok m root va n w → range_ok m' root va n w.
Proof. intros Ht (? & ? & Hal). split_and!; [lia..|]. intros i Hi. rewrite (allowed_same m m') by done. by apply Hal. Qed.

(** ** Address spaces while the allocator works on free pages *)

Lemma as_pm_frame s rs root A pm' rs' : as_rep s rs root A → pmm_frame (pm s) pm' (free_pages rs) → pmm_rep pm' rs' →
  (∀ k, k ∈ free_pages rs' → k ∈ free_pages rs) → as_rep (with_pm pm' s) rs' root A.
Proof.
  intros R (Fd & Fs & Fn) Rp Hsub. pose proof (as_wf _ _ _ _ R) as W.
  assert (∀ v u, A !! v = Some u → up_page u ∉ free_pages rs) as Hpg by (intros v u Hu; by apply (as_page _ _ _ _ R v u Hu)).
  apply (as_pm s rs root A pm' rs'); [done|done|..].
  - intros k Hk%Hsub. split; [by apply W|]. split; [intros q a Hv Hq <-; by apply (wf_tables _ _ _ W q a Hv Hq)|].
    intros v u Hu <-. by eapply Hpg.
  - intros k Hk. rewrite Fd; [done|]. destruct Hk as [(q & Hv & _ & Hq)|(v & u & Hu & <-)]; [|by eapply Hpg].
    by destruct (owned_page s rs root q k W Hv Hq).
  - apply (as_linked _ _ _ _ _ R). intros x Hx. apply Fn; destruct Hx as [[i ->]|(v' & u' & Hu' & ->)]; try done.
    intros i Hi [= <-]. by apply (Hpg v' u').
Qed.

Lemma frame_direct (t t' : pmm) ps : pmm_frame t t' ps → direct_mapped KERNEL_BASE t → direct_mapped KERNEL_BASE t'.
Proof. intros (_ & Fs & _) Hd i Hi. by apply Hd, Fs. Qed.
End user.

(** ** The loop *)

Section io.
Context `{PL : PagingLaws} `{UL : !UserLayout} `{UU : !UserLayoutLaws}.
Context {W : Type} `{FE : !FileEnv W} `{FL : !FileEnvLaws W}.
Context (root : Z) (A : gmap Z upage) (i : nat) (f user_buf count : Z).
Implicit Types (s : sys W) (rs : list (Z * Z)) (bs : list Z).

(** The descriptor [i] is open on the file [f], of contents [bs], at [off]. *)
Record io_pre s rs (off : Z) bs : Prop := {
  ip_as : as_rep (sy_mm s) rs root A;
  ip_coalesced : coalesced rs;
  ip_direct : direct_mapped KERNEL_BASE (pm (sy_mm s));
  ip_ok : env_ok (sy_env s);
  ip_bytes : fbytes (sy_env s) f = Some bs;
  ip_entry : sy_files s !! i = Some (MkEntry (Some f) off true);
  ip_off : 0 ≤ off < 2 ^ 64 }.

(** What a transfer of [n] bytes leaves alone, the user's memory apart. *)
Record io_frame s s' rs rs' (off n : Z) : Prop := {
  if_as : as_rep (sy_mm s') rs' root A;
  if_pm : pmm_frame (pm (sy_mm s)) (pm (sy_mm s')) (free_pages rs);
  if_free : free_pages rs' ≡ₚ free_pages rs;
  if_coalesced : coalesced rs';
  if_ok : env_ok (sy_env s');
  if_pages : io_pages (sy_env s') f = io_pages (sy_env s) f;
  if_tables : same_tables (ram (sy_mm s)) (ram (sy_mm s')) root;
  if_rest : page_count (sy_mm s') = page_count (sy_mm s) ∧ cpu_root (sy_mm s') = cpu_root (sy_mm s) ∧
    tlb (sy_mm s') = tlb (sy_mm s) ∧ swp (sy_mm s') = swp (sy_mm s);
  if_files : sy_files s' = <[i := MkEntry (Some f) (off + n) true]> (sy_files s) }.

Lemma pmm_frame_refl (t : pmm) ps : pmm_frame t t ps.
Proof. done. Qed.

Lemma if_tr s s' rs rs' off n : io_frame s s' rs rs' off n → ∀ va, translate (ram (sy_mm s')) root va = translate (ram (sy_mm s)) root va.
Proof. intros F. by destruct (same_tables_translate _ _ _ (if_tables _ _ _ _ _ _ F)). Qed.

Lemma io_frame_trans s s1 s2 rs rs1 rs2 off n1 n2 :
  io_frame s s1 rs rs1 off n1 → io_frame s1 s2 rs1 rs2 (off + n1) n2 → io_frame s s2 rs rs2 off (n1 + n2).
Proof.
  intros F G. pose proof (if_rest _ _ _ _ _ _ F) as (? & ? & ? & ?). pose proof (if_rest _ _ _ _ _ _ G) as (? & ? & ? & ?). constructor.
  - apply G.
  - eapply pmm_frame_trans; [apply F| |apply pmm_frame_refl]. eapply pmm_frame_mono; [apply G|]. intros k. by rewrite (if_free _ _ _ _ _ _ F).
  - by rewrite (if_free _ _ _ _ _ _ G), (if_free _ _ _ _ _ _ F).
  - apply G.
  - apply G.
  - by rewrite (if_pages _ _ _ _ _ _ G), (if_pages _ _ _ _ _ _ F).
  - intros q a j Hq Ha Hj. destruct (same_tables_translate _ _ _ (if_tables _ _ _ _ _ _ F)) as [_ Htab].
    rewrite (if_tables _ _ _ _ _ _ G q a j), (if_tables _ _ _ _ _ _ F q a j); try done. by rewrite Htab.
  - split_and!; congruence.
  - by rewrite (if_files _ _ _ _ _ _ G), (if_files _ _ _ _ _ _ F), list_insert_insert_eq, Z.add_assoc.
Qed.

Lemma io_pre_next s s' rs rs' off n bs bs' : io_pre s rs off bs → io_frame s s' rs rs' off n → fbytes (sy_env s') f = Some bs' →
  0 ≤ off + n < 2 ^ 64 → io_pre s' rs' (off + n) bs'.
Proof.
  intros P F Hb Hn. constructor; try done; try apply F.
  - eapply frame_direct; [apply F|apply P].
  - rewrite (if_files _ _ _ _ _ _ F), list_lookup_insert_eq; [done|]. eapply lookup_lt_Some, P.
Qed.

(** The three steps of an iteration: the file, the user's memory, the offset. *)
Lemma io_frame_env s rs off bs t' w' rs' : io_pre s rs off bs → env_step env_ok (pm (sy_mm s)) rs t' w' rs' →
  io_pages w' f = io_pages (sy_env s) f → io_frame s (MkSys (with_pm t' (sy_mm s)) (sy_files s) w') rs rs' off 0.
Proof.
  intros P E Hpg. constructor; cbn [sy_mm sy_files sy_env pm with_pm]; try apply E; try done.
  - eapply as_pm_frame; [apply P|apply E|apply E|]. intros k. by rewrite (es_free _ _ _ _ _ _ E).
  - rewrite Z.add_0_r, list_insert_id; [done|]. apply P.
Qed.
Lemma io_frame_ram s rs off bs m' : io_pre s rs off bs → same_tables (ram (sy_mm s)) m' root → (∀ a, 0 ≤ word m' a < 2 ^ 64) →
  io_frame s (MkSys (with_ram m' (sy_mm s)) (sy_files s) (sy_env s)) rs rs off 0.
Proof.
  intros P Hs Hw. constructor; cbn [sy_mm sy_files sy_env pm with_ram]; try apply P; try done.
  - apply as_ram; [apply P|done|done].
  - rewrite Z.add_0_r, list_insert_id; [done|]. apply P.
Qed.
Lemma io_frame_offset s rs off bs n : io_pre s rs off bs →
  io_frame s (MkSys (sy_mm s) (<[i := MkEntry (Some f) (off + n) true]> (sy_files s)) (sy_env s)) rs rs off n.
Proof. intros P. constructor; cbn [sy_mm sy_files sy_env]; first [done|apply P]. Qed.

(** The bytes of the file from [off] in user memory at [va]. *)
Definition received s s' (va off n : Z) bs : Prop :=
  (∀ j, 0 ≤ j < n → byte_get (ram (sy_mm s')) (paddr (ram (sy_mm s)) root (va + j)) = default 0 (bs !! Z.to_nat (off + j))) ∧
  (∀ x, (∀ j, 0 ≤ j < n → x ≠ paddr (ram (sy_mm s)) root (va + j)) → byte_get (ram (sy_mm s')) x = byte_get (ram (sy_mm s)) x).

Lemma received_trans s s1 s2 va off n1 n2 bs : 0 ≤ n1 → 0 ≤ n2 →
  (∀ v, translate (ram (sy_mm s1)) root v = translate (ram (sy_mm s)) root v) → private (ram (sy_mm s)) root va (n1 + n2) →
  received s s1 va off n1 bs → received s1 s2 (va + n1) (off + n1) n2 bs → received s s2 va off (n1 + n2) bs.
Proof.
  intros Hn Hn2 Htr P [H1 H2] [G1 G2].
  assert (∀ v, paddr (ram (sy_mm s1)) root v = paddr (ram (sy_mm s)) root v) as Hp by (intros v; by apply paddr_same). split.
  - intros j Hj. destruct (Z.ltb_spec j n1).
    + rewrite G2; [apply H1; lia|]. intros k Hk. rewrite Hp, <- Z.add_assoc. intros E.
      pose proof (pv_inj _ _ _ _ P j (n1 + k) ltac:(lia) ltac:(lia) E). lia.
    + specialize (G1 (j - n1) ltac:(lia)). rewrite Hp in G1. replace (va + n1 + (j - n1)) with (va + j) in G1 by lia.
      by replace (off + n1 + (j - n1)) with (off + j) in G1 by lia.
  - intros x Hx. rewrite G2, H2; [done|intros j Hj; apply Hx; lia|]. intros j Hj. rewrite Hp, <- Z.add_assoc. apply Hx. lia.
Qed.

Definition len bs : Z := Z.of_nat (length bs).
(** The bytes a transfer of [n] at [off] can move. *)
Definition avail bs (off n : Z) : Z := Z.max 0 (Z.min n (len bs - off)).
(** Why a transfer stops early. *)
Definition starved s rs (off : Z) bs : Prop := len bs < off ∨ ¬ room (io_pages (sy_env s) f) (free_pages rs).

Lemma starved_back s s1 rs rs1 off n bs bs1 : io_frame s s1 rs rs1 off n → len bs1 = len bs → off + n ≤ len bs →
  starved s1 rs1 (off + n) bs1 → starved s rs off bs.
Proof.
  intros F Hl Hn [?|Hr]; [lia|right]. intros Hroom. apply Hr. rewrite (if_pages _ _ _ _ _ _ F).
  eapply room_perm; [|exact Hroom]. symmetry. apply F.
Qed.

Lemma entry_at_fd_Ret s rs off bs : io_pre s rs off bs → entry_at_fd i s = Ret (MkEntry (Some f) off true) s.
Proof. intros P. unfold entry_at_fd, gets, bind, deref. by rewrite (ip_entry _ _ _ _ P). Qed.
Lemma on_mm_Ret {B} (m : M mm B) s a t : m (sy_mm s) = Ret a t → on_mm m s = Ret a (MkSys t (sy_files s) (sy_env s)).
Proof. intros Hm. unfold on_mm. by erewrite zoom_Ret by exact Hm. Qed.

Lemma on_world_Ret {B} (m : M (pmm * W) B) s a t w : m (pm (sy_mm s), sy_env s) = Ret a (t, w) →
  on_world m s = Ret a (MkSys (with_pm t (sy_mm s)) (sy_files s) w).
Proof. intros Hm. unfold on_world. by erewrite zoom_Ret by exact Hm. Qed.
Lemma on_world_Fail {B} (m : M (pmm * W) B) s e t w : m (pm (sy_mm s), sy_env s) = Fail e (t, w) →
  on_world m s = Fail e (MkSys (with_pm t (sy_mm s)) (sy_files s) w).
Proof. intros Hm. unfold on_world. by erewrite zoom_Fail by exact Hm. Qed.

(** One read from the file into the user's memory, before the offset moves. *)
Lemma read_step s rs off bs buf (va n : Z) :
  io_pre s rs off bs → range_ok (ram (sy_mm s)) root va n true → 0 < n ≤ PG_SIZE → n ≤ len buf → Forall is_byte buf →
  (∃ e s1 rs1, on_world (fe_read f buf n off) s = Fail e s1 ∧ io_frame s s1 rs rs1 off 0 ∧ ram (sy_mm s1) = ram (sy_mm s) ∧
     (∀ g, fbytes (sy_env s1) g = fbytes (sy_env s) g) ∧ starved s rs off bs) ∨
  (∃ buf' s1 s2 rs', on_world (fe_read f buf n off) s = Ret (avail bs off n, buf') s1 ∧ off ≤ len bs ∧
     on_mm (copy_to_user (Some root) va (take (Z.to_nat (avail bs off n)) buf')) s1 = Ret tt s2 ∧
     len buf' = len buf ∧ Forall is_byte buf' ∧ io_frame s s2 rs rs' off 0 ∧
     received s s2 va off (avail bs off n) bs ∧ ∀ g, fbytes (sy_env s2) g = fbytes (sy_env s) g).
Proof.
  intros P Hr Hn Hbuf Hby. unfold len in *. pose proof (fbytes_range _ _ _ (ip_ok _ _ _ _ P) (ip_bytes _ _ _ _ P)) as [Hbs _].
  destruct (fe_read_spec (pm (sy_mm s)) (sy_env s) rs f bs buf n off (ip_ok _ _ _ _ P) (ip_bytes _ _ _ _ P)
    (wf_rep _ _ _ (as_wf _ _ _ _ (ip_as _ _ _ _ P))) (ip_coalesced _ _ _ _ P) (ip_direct _ _ _ _ P) Hn Hbuf (proj1 (ip_off _ _ _ _ P)) Hby)
    as (t' & w' & rs' & E & Hsame & Hcase).
  pose proof (io_frame_env s rs off bs t' w' rs' P E (proj2 (Hsame f))) as F1. set (s1 := MkSys _ _ w') in F1.
  set (d := take (Z.to_nat n) (drop (Z.to_nat off) bs)) in *. cbv zeta in Hcase. pose proof (ip_off _ _ _ _ P) as Hoff.
  assert (Z.of_nat (length d) = avail bs off n) as Hd by (unfold d, avail, len; rewrite length_take, length_drop; lia).
  destruct Hcase as [[Hrd Hle]|(e & Hrd & Hst)]; [right|left].
  2:{ exists e, s1, rs'. split; [by apply on_world_Fail|]. split; [done|]. split; [done|]. split; [intros g; by apply Hsame|]. done. }
  rewrite Hd in Hrd. set (buf' := d ++ drop (length d) buf) in *.
  assert (take (Z.to_nat (avail bs off n)) buf' = d) as Hbd by (rewrite <- Hd, Nat2Z.id; unfold buf'; by rewrite take_app_length).
  assert (Forall is_byte d) as Hdb by (by apply Forall_take, Forall_drop).
  assert (range_ok (ram (sy_mm s1)) root va (Z.of_nat (length d)) true) as Hr1.
  { rewrite Hd. destruct Hr as (? & ? & Hal). split_and!; [lia|lia|unfold avail, len in *; lia|]. intros j Hj. apply Hal. unfold avail in *. lia. }
  destruct (copy_to_user_spec (sy_mm s1) root va d Hr1 Hdb (as_private _ _ _ _ _ _ _ (if_as _ _ _ _ _ _ F1) Hr1)) as (m' & Hcp & Hst & Hin & Hout & Hw).
  assert (io_pre s1 rs' (off + 0) bs) as P1 by (eapply io_pre_next; [done|done|cbn [sy_env s1]; rewrite (proj1 (Hsame f)); apply P|lia]).
  assert (io_frame s1 (MkSys (with_ram m' (sy_mm s1)) (sy_files s1) (sy_env s1)) rs' rs' (off + 0) 0) as F2.
  { eapply io_frame_ram; [done|done|]. apply Hw, (as_wf _ _ _ _ (ip_as _ _ _ _ P1)). }
  eexists buf', s1, _, rs'. split; [by apply on_world_Ret|]. split; [done|]. rewrite Hbd. split; [by apply on_mm_Ret|].
  split; [unfold buf'; rewrite length_app, length_drop; unfold avail in *; lia|].
  split; [apply Forall_app; split; [done|by apply Forall_drop]|]. split; [apply (io_frame_trans _ _ _ _ _ _ _ _ _ F1 F2)|]. split; [|intros g; by apply Hsame].
  rewrite Hd in Hin, Hout. change (ram (sy_mm s1)) with (ram (sy_mm s)) in Hin, Hout. split; [|done]. intros j Hj. cbn [sy_mm ram with_ram]. rewrite (Hin j Hj). unfold d. rewrite lookup_take_lt, lookup_drop by (unfold avail in *; lia).
  do 2 f_equal. lia.
Qed.

Lemma chunk_range m (done : Z) w : range_ok m root user_buf count w → 0 ≤ done < count →
  let chunk := Z.min (count - done) PG_SIZE in
  0 < chunk ≤ PG_SIZE ∧ u64 (user_buf + done) = user_buf + done ∧ range_ok m root (user_buf + done) chunk w.
Proof.
  intros Hr Hd chunk. pose proof user_top. pose proof Hr as (Hva & Htop & _). assert (0 < chunk ≤ PG_SIZE) as Hc by (unfold chunk, PG_SIZE in *; lia).
  split; [done|]. split; [apply u64_small; unfold PG_SIZE in *; lia|]. apply (range_sub m root user_buf count w); [done|lia..].
Qed.

Lemma io_next s s2 rs rs' off n bs bs' : io_pre s rs off bs → io_frame s s2 rs rs' off 0 → fbytes (sy_env s2) f = Some bs' → 0 ≤ n → off + n ≤ len bs ∨ n = 0 →
  let s3 := MkSys (sy_mm s2) (<[i := MkEntry (Some f) (u64 (off + n)) true]> (sy_files s2)) (sy_env s2) in
  io_pre s3 rs' (off + n) bs' ∧ io_frame s s3 rs rs' off n.
Proof.
  intros P F Hb Hn Hle. pose proof (fbytes_range _ _ _ (ip_ok _ _ _ _ P) (ip_bytes _ _ _ _ P)) as [_ Hlen]. pose proof (ip_off _ _ _ _ P).
  assert (0 ≤ off + n < 2 ^ 64) as Hr by (unfold len in *; lia). rewrite u64_small by done. intros s3.
  assert (io_pre s2 rs' (off + 0) bs') as P2 by (eapply io_pre_next; [done..|lia]).
  assert (io_frame s s3 rs rs' off n) as F3.
  { pose proof (io_frame_offset _ _ _ _ n P2) as G. pose proof (io_frame_trans _ _ _ _ _ _ _ _ _ F G) as G'. by rewrite Z.add_0_l, Z.add_0_r in G'. }
  split; [|done]. by eapply io_pre_next.
Qed.

Lemma read_loop_spec bs fuel : ∀ s rs buf (done off : Z),
  io_pre s rs off bs → (Z.to_nat (count - done) < fuel)%nat → 0 ≤ done ≤ count → range_ok (ram (sy_mm s)) root user_buf count true →
  len buf = PG_SIZE → Forall is_byte buf →
  ∃ n failed s' rs', io_loop fuel (Some root) i user_buf count Io_Read buf done s = Ret (done + n, failed) s' ∧
    io_frame s s' rs rs' off n ∧ received s s' (user_buf + done) off n bs ∧ (∀ g, fbytes (sy_env s') g = fbytes (sy_env s) g) ∧
    0 ≤ n ≤ avail bs off (count - done) ∧ (if failed : bool then starved s rs off bs else n = avail bs off (count - done)).
Proof.
  induction fuel as [|fuel IH]; intros s rs buf done off P Hf Hd Hr Hbuf Hby; [lia|]. cbn [io_loop].
  pose proof (io_frame_offset s rs off bs 0 P) as F0.
  assert (∀ s1, ram (sy_mm s1) = ram (sy_mm s) → received s s1 (user_buf + done) off 0 bs) as Hr0 by (intros s1 E; split; [lia|by rewrite E]).
  destruct (Z.leb_spec count done) as [Hge|Hlt].
  { exists 0, false, s, rs. rewrite Z.add_0_r. split; [done|]. split; [|split; [by apply Hr0|split; [done|unfold avail; lia]]].
    rewrite Z.add_0_r, list_insert_id in F0 by apply P. by destruct s. }
  clear F0. destruct (chunk_range _ done true Hr ltac:(lia)) as (Hc & -> & Hrc). set (c := Z.min _ PG_SIZE) in *. rewrite bind_ret.
  rewrite (bind_Ret _ _ _ _ _ (entry_at_fd_Ret _ _ _ _ P)). cbn [file offset deref used]. rewrite bind_ret.
  destruct (read_step s rs off bs buf (user_buf + done) c P Hrc Hc ltac:(lia) Hby) as
    [(e & s1 & rs1 & Hrd & F & Hm & Hsame & Hst)|(buf' & s1 & s2 & rs1 & Hrd & Hle & Hcp & Hl' & Hby' & F & Hrcv & Hsame)].
  { rewrite (bind_Ret _ _ _ _ _ (try_Fail _ _ _ _ Hrd)). exists 0, true, s1, rs1. rewrite Z.add_0_r. split; [done|].
    split; [done|]. split; [by apply Hr0|]. split; [done|]. unfold avail; split; [lia|done]. }
  rewrite (bind_Ret _ _ _ _ _ (try_Ret _ _ _ _ Hrd)). set (n := avail bs off c) in *.
  assert (0 ≤ n ≤ c ∧ (off + n ≤ len bs ∨ n = 0)) as [Hn Hnl] by (unfold n, avail; lia).
  rewrite (proj2 (Z.ltb_ge n 0)), (proj2 (Z.ltb_ge c n)) by lia. cbn [orb].
  rewrite bind_assoc, (bind_Ret _ _ _ _ _ (try_Ret _ _ _ _ Hcp)), bind_ret. cbn [negb].
  assert (fbytes (sy_env s2) f = Some bs) as Hb2 by (rewrite Hsame; apply P).
  assert (io_pre s2 rs1 (off + 0) bs) as P2 by (eapply io_pre_next; [done..|pose proof (ip_off _ _ _ _ P); lia]).
  rewrite (bind_Ret _ _ _ _ _ (entry_at_fd_Ret _ _ _ _ P2)). cbn [file offset used]. rewrite Z.add_0_r.
  unfold modify at 1. erewrite bind_Ret by reflexivity.
  destruct (io_next s s2 rs rs1 off n bs bs P F Hb2 ltac:(lia) Hnl) as [P3 F3]. set (s3 := MkSys _ _ _) in *.
  assert (received s s3 (user_buf + done) off n bs) as Hrcv3 by exact Hrcv.
  destruct (Z.ltb_spec n c) as [Hsh|Hfull].
  { exists n, false, s3, rs1. split; [done|]. split; [done|]. split; [done|]. split; [done|]. unfold n, avail, c in *. lia. }
  assert (n = c) as En by lia.
  destruct (IH s3 rs1 buf' (done + n) (off + n) P3) as (n' & failed & s' & rs' & Hrun & F' & Hrcv' & Hsame' & Hn' & Hres); [lia|unfold c in *; lia| |lia|done|].
  { eapply range_same; [|exact Hr]. intros v. by rewrite (if_tr _ _ _ _ _ _ F3). }
  assert (avail bs off (count - done) = n + avail bs (off + n) (count - (done + n))) as Hav by (unfold avail in *; lia).
  exists (n + n'), failed, s', rs'. rewrite Z.add_assoc. split; [done|]. split; [by eapply io_frame_trans|]. rewrite Hav. split; [|split; [|split; [lia|]]].
  - eapply received_trans; [lia|lia|intros v; by rewrite (if_tr _ _ _ _ _ _ F3)| |exact Hrcv3|].
    + eapply as_private; [apply P|]. apply (range_sub _ _ user_buf count true); [done|lia|lia| |lia]. unfold avail in *; lia.
    + by rewrite <- Z.add_assoc.
  - intros g. by rewrite Hsame', <- Hsame.
  - destruct failed; [|lia]. eapply starved_back; [exact F3|done| |done]. destruct Hnl; lia.
Qed.

(** The user's bytes at [va]. *)
Definition user_bytes m (va n : Z) : list Z := (λ j, byte_get m (paddr m root (va + j))) <$> seqZ 0 n.

Lemma user_bytes_take m va n k : 0 ≤ k ≤ n → take (Z.to_nat k) (user_bytes m va n) = user_bytes m va k.
Proof.
  intros Hk. unfold user_bytes. rewrite (seqZ_split 0 k n), fmap_app by lia.
  rewrite take_app_le, take_ge; [done|..]; rewrite length_fmap, length_seqZ; lia.
Qed.
Lemma user_bytes_app m va n k : 0 ≤ n → 0 ≤ k → user_bytes m va n ++ user_bytes m (va + n) k = user_bytes m va (n + k).
Proof.
  intros. unfold user_bytes. rewrite (seqZ_split 0 n (n + k)), fmap_app, Z.add_0_l by lia. f_equal.
  replace (n + k - n) with k by lia. replace (seqZ n k) with (Z.add n <$> seqZ 0 k) by (rewrite fmap_add_seqZ; f_equal; lia).
  rewrite <- list_fmap_compose. apply list_fmap_ext. intros ? j _. simpl. by rewrite Z.add_assoc.
Qed.
Lemma length_user_bytes m va n : 0 ≤ n → Z.of_nat (length (user_bytes m va n)) = n.
Proof. intros. unfold user_bytes. rewrite length_fmap, length_seqZ. lia. Qed.
Lemma user_bytes_byte m va n : Forall is_byte (user_bytes m va n).
Proof. apply Forall_fmap, Forall_forall. intros j _. unfold is_byte, byte_get. simpl. apply Z.mod_pos_bound. lia. Qed.

(** One write of the user's bytes to the file, before the offset moves. *)
Lemma write_step s rs off bs buf (va n : Z) : io_pre s rs off bs → 0 < n ≤ PG_SIZE → n ≤ len buf → Forall is_byte buf →
  let buf1 := user_bytes (ram (sy_mm s)) va n ++ drop (Z.to_nat n) buf in
  ∃ s1 rs1, io_frame s s1 rs rs1 off 0 ∧ ram (sy_mm s1) = ram (sy_mm s) ∧ len buf1 = len buf ∧ Forall is_byte buf1 ∧
  ((∃ e, on_world (n <- fe_write f buf1 n off;; ret (n, buf1)) s = Fail e s1 ∧ fbytes (sy_env s1) f = Some bs ∧ starved s rs off bs) ∨
   (on_world (n <- fe_write f buf1 n off;; ret (n, buf1)) s = Ret (avail bs off n, buf1) s1 ∧ off ≤ len bs ∧
     fbytes (sy_env s1) f = Some (overwrite off (user_bytes (ram (sy_mm s)) va (avail bs off n)) bs))).
Proof.
  intros P Hn Hbuf Hby buf1. pose proof (length_user_bytes (ram (sy_mm s)) va n ltac:(lia)) as Hlu.
  assert (len buf1 = len buf) as Hl by (unfold buf1, len in *; rewrite length_app, length_drop; lia).
  assert (Forall is_byte buf1) as Hb1 by (apply Forall_app; split; [apply user_bytes_byte|by apply Forall_drop]).
  destruct (fe_write_spec (pm (sy_mm s)) (sy_env s) rs f bs buf1 n off (ip_ok _ _ _ _ P) (ip_bytes _ _ _ _ P)
    (wf_rep _ _ _ (as_wf _ _ _ _ (ip_as _ _ _ _ P))) (ip_coalesced _ _ _ _ P) (ip_direct _ _ _ _ P) Hn ltac:(fold (len buf1); lia) (proj1 (ip_off _ _ _ _ P)) Hb1)
    as (t' & w' & rs' & E & Hpg & Hcase).
  exists (MkSys (with_pm t' (sy_mm s)) (sy_files s) w'), rs'. split; [by eapply io_frame_env|]. split; [done|]. split; [done|]. split; [done|].
  destruct Hcase as [(Hw & Hle & Hfb)|(e & Hw & Hfb & Hst)]; [right|left].
  - assert (Z.min n (Z.of_nat (length bs) - off) = avail bs off n) as Hk by (unfold avail, len; lia). rewrite Hk in Hw, Hfb.
    split; [apply on_world_Ret; by rewrite (bind_Ret _ _ _ _ _ Hw)|]. split; [done|]. cbn [sy_env]. rewrite Hfb. do 2 f_equal.
    assert (0 ≤ avail bs off n ≤ n) as Ha by (unfold avail; lia). rewrite <- (user_bytes_take _ va n) by done. unfold buf1. by rewrite take_app_le by lia.
  - exists e. split; [apply on_world_Fail; by rewrite (bind_Fail _ _ _ _ _ Hw)|]. done.
Qed.

Lemma write_loop_spec fuel : ∀ s rs buf (done off : Z) bs,
  io_pre s rs off bs → (Z.to_nat (count - done) < fuel)%nat → 0 ≤ done ≤ count → range_ok (ram (sy_mm s)) root user_buf count false →
  len buf = PG_SIZE → Forall is_byte buf →
  ∃ n failed s' rs', io_loop fuel (Some root) i user_buf count Io_Write buf done s = Ret (done + n, failed) s' ∧
    io_frame s s' rs rs' off n ∧ ram (sy_mm s') = ram (sy_mm s) ∧
    fbytes (sy_env s') f = Some (overwrite off (user_bytes (ram (sy_mm s)) (user_buf + done) n) bs) ∧
    0 ≤ n ≤ avail bs off (count - done) ∧ (if failed : bool then starved s rs off bs else n = avail bs off (count - done)).
Proof.
  induction fuel as [|fuel IH]; intros s rs buf done off bs P Hf Hd Hr Hbuf Hby; [lia|]. cbn [io_loop].
  destruct (Z.leb_spec count done) as [Hge|Hlt].
  { exists 0, false, s, rs. rewrite Z.add_0_r. split; [done|]. pose proof (io_frame_offset s rs off bs 0 P) as F0.
    rewrite Z.add_0_r, list_insert_id in F0 by apply P. split; [by destruct s|]. split; [done|]. split; [|unfold avail; lia].
    change (user_bytes _ _ 0) with (@nil Z). rewrite overwrite_nil. apply P. }
  destruct (chunk_range _ done false Hr ltac:(lia)) as (Hc & -> & Hrc). set (c := Z.min _ PG_SIZE) in *.
  rewrite bind_assoc. erewrite bind_Ret by (apply try_Ret, on_mm_Ret, copy_from_user_spec; [lia|done]). rewrite bind_ret.
  fold (user_bytes (ram (sy_mm s)) (user_buf + done) c). replace (MkSys (sy_mm s) (sy_files s) (sy_env s)) with s by (by destruct s).
  destruct (write_step s rs off bs buf (user_buf + done) c P Hc ltac:(lia) Hby) as (s1 & rs1 & F & Hm & Hl' & Hby' & Hcase). cbv zeta in *.
  set (buf1 := user_bytes _ _ _ ++ _) in *.
  rewrite (bind_Ret _ _ _ _ _ (entry_at_fd_Ret _ _ _ _ P)). cbn [file offset deref used]. rewrite bind_ret.
  destruct Hcase as [(e & Hw & Hfb & Hst)|(Hw & Hle & Hfb)].
  { rewrite (bind_Ret _ _ _ _ _ (try_Fail _ _ _ _ Hw)). exists 0, true, s1, rs1. rewrite Z.add_0_r. split; [done|].
    split; [done|]. split; [done|]. split; [|unfold avail; split; [lia|done]]. change (user_bytes _ _ 0) with (@nil Z). by rewrite overwrite_nil. }
  rewrite (bind_Ret _ _ _ _ _ (try_Ret _ _ _ _ Hw)). set (n := avail bs off c) in *.
  assert (0 ≤ n ≤ c ∧ off + n ≤ len bs) as [Hn Hnl] by (unfold n, avail; lia).
  rewrite (proj2 (Z.ltb_ge n 0)), (proj2 (Z.ltb_ge c n)) by lia. cbn [orb]. rewrite bind_ret. cbn [negb].
  set (bs1 := overwrite _ _ bs) in *. pose proof (length_user_bytes (ram (sy_mm s)) (user_buf + done) n ltac:(lia)) as Hlu. pose proof (ip_off _ _ _ _ P) as Hoff.
  assert (len bs1 = len bs) as Hlb by (unfold bs1, len in *; rewrite length_overwrite by lia; done).
  assert (io_pre s1 rs1 (off + 0) bs1) as P1 by (eapply io_pre_next; [done..|lia]).
  rewrite (bind_Ret _ _ _ _ _ (entry_at_fd_Ret _ _ _ _ P1)). cbn [file offset used]. rewrite Z.add_0_r.
  unfold modify at 1. erewrite bind_Ret by reflexivity.
  destruct (io_next s s1 rs rs1 off n bs bs1 P F Hfb ltac:(lia) ltac:(by left)) as [P3 F3]. set (s3 := MkSys _ _ _) in *.
  destruct (Z.ltb_spec n c) as [Hsh|Hfull].
  { exists n, false, s3, rs1. split; [done|]. split; [done|]. split; [done|]. split; [done|]. unfold n, avail, c in *. lia. }
  assert (n = c) as En by lia.
  destruct (IH s3 rs1 buf1 (done + n) (off + n) bs1 P3) as (n' & failed & s' & rs' & Hrun & F' & Hm' & Hfb' & Hn' & Hres);
    [lia|unfold c in *; lia|by cbn [sy_mm s3]; rewrite Hm|lia|done|].
  assert (avail bs off (count - done) = n + avail bs1 (off + n) (count - (done + n))) as Hav by (unfold avail in *; rewrite Hlb; lia).
  exists (n + n'), failed, s', rs'. rewrite Z.add_assoc. split; [done|]. split; [by eapply io_frame_trans|]. rewrite Hav.
  split; [by rewrite Hm'|]. split; [|split; [lia|]].
  - rewrite Hfb'. f_equal. cbn [sy_mm s3]. rewrite Hm, <- user_bytes_app, Z.add_assoc by lia. rewrite <- overwrite_app by (unfold len in *; lia). by rewrite Hlu.
  - destruct failed; [|lia]. eapply starved_back; [exact F3|exact Hlb|done|done].
Qed.

(** ** The buffer *)

(** Room for a buffer and a transfer: whichever page the buffer takes, the
    pages the transfer needs are left. *)
Definition plenty (np : Z) rs : Prop := ∀ k : Z, ∃ p, ∀ j, p ≤ j < p + Z.max 1 np → j ∈ free_pages rs ∧ j ≠ k.

Lemma plenty_room np rs rs1 (k : Z) : plenty np rs → free_pages rs ≡ₚ k :: free_pages rs1 → room np (free_pages rs1).
Proof.
  intros Hp E. destruct (Hp k) as [p Hk]. exists p. intros j Hj. destruct (Hk j ltac:(lia)) as [Hin Hne]. rewrite E in Hin. set_solver.
Qed.

Lemma kpage_frame (t t' : pmm) ps k : pmm_frame t t' ps → k ∉ ps → kpage t k → kpage t' k.
Proof. intros (Fd & _) Hk (pg & Hpg & ?). exists pg. by rewrite Fd. Qed.

(** Freeing the buffer after the loop. *)
Lemma buffer_free s s2 rs rs1 rs2 t1 off n bs k : io_pre s rs off bs →
  pmm_frame (pm (sy_mm s)) t1 (free_pages rs) → free_pages rs ≡ₚ k :: free_pages rs1 → k ∉ free_pages rs1 → kpage t1 k →
  kva_of k ≠ 0 → 0 ≤ k → kva_of k < 2 ^ 64 →
  io_frame (MkSys (with_pm t1 (sy_mm s)) (sy_files s) (sy_env s)) s2 rs1 rs2 off n →
  ∃ t3 rs3, on_mm (on_pm (kfree KERNEL_BASE (kva_of k))) s2 = Ret tt (MkSys (with_pm t3 (sy_mm s2)) (sy_files s2) (sy_env s2)) ∧
    io_frame s (MkSys (with_pm t3 (sy_mm s2)) (sy_files s2) (sy_env s2)) rs rs3 off n.
Proof.
  intros P F1 Hfree Hk Hkp Hz H0 Hlt F. set (s1 := MkSys _ _ _) in F.
  pose proof (wf_rep _ _ _ (as_wf _ _ _ _ (if_as _ _ _ _ _ _ F))) as Rp2.
  destruct (kfree_page (pm (sy_mm s2)) rs2 k Rp2) as (t3 & rs3 & Hf & Rp3 & Hfree3 & F3 & Hco3); try done.
  { eapply kpage_frame; [apply F|done|done]. } { by rewrite (if_free _ _ _ _ _ _ F). }
  assert (free_pages rs3 ≡ₚ free_pages rs) as Hfr by (by rewrite Hfree3, (if_free _ _ _ _ _ _ F), Hfree).
  assert (pmm_frame (pm (sy_mm s)) t3 (free_pages rs)) as F13.
  { eapply pmm_frame_trans; [exact F1|eapply pmm_frame_mono; [apply F|]|eapply pmm_frame_mono; [exact F3|]].
    - intros j Hj. rewrite Hfree. by right.
    - intros j. by rewrite <- Hfree3, Hfr. }
  exists t3, rs3. split; [apply on_mm_Ret; by eapply on_pm_Ret|].
  constructor; cbn [sy_mm sy_files sy_env pm with_pm]; try apply F; try done.
  - pose proof (as_ram _ _ _ _ (ram (sy_mm s2)) (ip_as _ _ _ _ P) (if_tables _ _ _ _ _ _ F) (wf_words _ _ _ (as_wf _ _ _ _ (if_as _ _ _ _ _ _ F)))) as R.
    eapply as_rep_same; [| |apply (as_pm_frame _ _ _ _ t3 rs3 R)]; [done|done|done|done|]. intros j. by rewrite Hfr.
  - apply Hco3, F.
Qed.

(** What both calls do around the loop. *)
Lemma sys_file_io_spec s rs off bs fd operation (Q : gmap Z Z → W → Z → Prop) :
  io_pre s rs off bs → get_fd fd (sy_files s) = Some i → 0 < count →
  range_ok (ram (sy_mm s)) root user_buf count (match operation with Io_Read => true | Io_Write => false end) →
  Q (ram (sy_mm s)) (sy_env s) 0 →
  (∀ t1 rs1 buf, let s1 := MkSys (with_pm t1 (sy_mm s)) (sy_files s) (sy_env s) in io_pre s1 rs1 off bs → len buf = PG_SIZE → Forall is_byte buf →
    ∃ n failed s2 rs2, io_loop (S (Z.to_nat count)) (Some root) i user_buf count operation buf 0 s1 = Ret (n, failed) s2 ∧
      io_frame s1 s2 rs1 rs2 off n ∧ Q (ram (sy_mm s2)) (sy_env s2) n ∧
      0 ≤ n ≤ avail bs off count ∧ (if failed : bool then starved s1 rs1 off bs else n = avail bs off count)) →
  ∃ n s' rs', sys_file_io (Some (Some root)) fd user_buf count operation s = Ret n s' ∧
    io_frame s s' rs rs' off (Z.max 0 n) ∧ Q (ram (sy_mm s')) (sy_env s') (Z.max 0 n) ∧ -1 ≤ n ≤ avail bs off count ∧
    (off ≤ len bs → plenty (io_pages (sy_env s) f) rs → n = avail bs off count).
Proof.
  intros P Hfd Hcount Hr HQ0 Hloop. pose proof (as_wf _ _ _ _ (ip_as _ _ _ _ P)) as Wf. unfold sys_file_io. rewrite (proj2 (Z.eqb_neq count 0)) by lia.
  erewrite bind_Ret by (apply on_mm_Ret, range_valid; [lia|exact Hr]). cbn [negb].
  replace (MkSys (sy_mm s) (sy_files s) (sy_env s)) with s by (by destruct s).
  unfold gets at 1. erewrite bind_Ret by reflexivity. rewrite Hfd.
  assert (0 ≤ avail bs off count) as Hav by (unfold avail; lia).
  destruct (kmalloc_page (pm (sy_mm s)) rs PG_SIZE (wf_rep _ _ _ Wf) (ip_direct _ _ _ _ P) ltac:(done)) as
    [[E ->]|(k & t1 & rs1 & E & Hz & H0 & Hlt & Rp1 & Hfree & Hk & Hkp & F1 & Hco)].
  { exists (-1), s, []. erewrite bind_Ret by (apply on_mm_Ret; eapply on_pm_Ret; exact E). cbn.
    split; [by destruct s as [[] ? ?]|]. split; [|split; [done|split; [lia|]]].
    - pose proof (io_frame_offset s [] off bs 0 P) as F0. rewrite Z.add_0_r, list_insert_id in F0 by apply P. by destruct s.
    - intros _ Hp. destruct (Hp 0) as [p Hp']. destruct (Hp' p ltac:(lia)) as [[]%elem_of_nil _]. }
  erewrite bind_Ret by (apply on_mm_Ret; eapply on_pm_Ret; exact E). rewrite (proj2 (Z.eqb_neq _ 0)) by done.
  set (s1 := MkSys _ _ _). unfold gets at 1. erewrite bind_Ret by reflexivity.
  assert (∀ j, j ∈ free_pages rs1 → j ∈ free_pages rs) as Hsub by (intros j Hj; rewrite Hfree; by right).
  assert (io_pre s1 rs1 off bs) as P1.
  { constructor; try apply P; [by eapply as_pm_frame; [apply P|..]|by apply Hco, P|by eapply frame_direct; [|apply P]]. }
  destruct (Hloop t1 rs1 (bytes_get (ram (sy_mm s1)) (u64 (kva_of k - KERNEL_BASE)) PG_SIZE) P1) as (n & failed & s2 & rs2 & Hrun & F & HQ & Hn & Hres).
  { unfold len, bytes_get. by rewrite length_fmap, length_seqZ. }
  { apply Forall_fmap, Forall_forall. intros j _. unfold is_byte, byte_get. simpl. apply Z.mod_pos_bound. lia. }
  rewrite (bind_Ret _ _ _ _ _ Hrun). cbn [fst snd].
  destruct (buffer_free s s2 rs rs1 rs2 t1 off n bs k P F1 Hfree Hk Hkp Hz H0 Hlt F) as (t3 & rs3 & Hf & F3). rewrite (bind_Ret _ _ _ _ _ Hf).
  assert (off ≤ len bs → plenty (io_pages (sy_env s) f) rs → failed = false) as Hnf.
  { intros Ho Hp. destruct failed; [|done]. destruct Hres as [?|Hno]; [lia|]. destruct Hno. by eapply plenty_room. }
  eexists _, _, rs3. split; [reflexivity|]. assert ((if failed && (n =? 0) then -1 else n) `max` 0 = n) as Hmx by (destruct failed, (Z.eqb_spec n 0); simpl; lia).
  rewrite Z.max_comm, Hmx. split; [done|]. split; [done|]. split; [destruct failed, (Z.eqb_spec n 0); simpl; lia|].
  intros Ho Hp. rewrite (Hnf Ho Hp) in *. done.
Qed.

Lemma sys_file_io_bad_fd s fd operation : get_fd fd (sy_files s) = None → 0 < count → sys_file_io (Some (Some root)) fd user_buf count operation s = Ret (-1) s.
Proof.
  intros Hfd Hc. unfold sys_file_io. rewrite (proj2 (Z.eqb_neq count 0)) by lia.
  set (w := match operation with Io_Read => true | Io_Write => false end).
  destruct (user_range_valid_spec (sy_mm s) root user_buf count w ltac:(lia)) as (b & Hv & _).
  erewrite bind_Ret by (apply on_mm_Ret; exact Hv). replace (MkSys (sy_mm s) (sy_files s) (sy_env s)) with s by (by destruct s).
  destruct b; [|done]. cbn [negb]. unfold gets, bind. by rewrite Hfd.
Qed.
Lemma sys_file_io_bad_range s fd operation : 0 < count →
  ¬ range_ok (ram (sy_mm s)) root user_buf count (match operation with Io_Read => true | Io_Write => false end) →
  sys_file_io (Some (Some root)) fd user_buf count operation s = Ret (-1) s.
Proof.
  intros Hc Hr. unfold sys_file_io. rewrite (proj2 (Z.eqb_neq count 0)) by lia.
  erewrite bind_Ret by (apply on_mm_Ret, range_invalid; [lia|exact Hr]). by destruct s.
Qed.
End io.

(** ** The calls *)

Section calls.
Context `{PL : PagingLaws} `{UL : !UserLayout} `{UU : !UserLayoutLaws}.
Context {W : Type} `{FE : !FileEnv W} `{FL : !FileEnvLaws W}.
Implicit Types (s : sys W) (rs : list (Z * Z)).

(** C5: [read] of [count > 0] bytes from the descriptor [fd], open on a file at
    offset [off], into a buffer user code may write: the call returns, and
    what it returns, [-1] counting as none, is the number [n] of bytes moved:
    the user's buffer holds the file's bytes from [off], no other byte of
    memory changed, the offset is [off + n] and no other descriptor changed,
    no file changed, and the address space, the page tables' translations and
    the free pages are as before.  [n] is the smaller of [count] and what is
    left of the file whenever there is memory for the call's buffer and the
    file system's.  A buffer user code may not write, or a descriptor that is
    not open, gives [-1] and changes nothing. *)
Theorem sys_read_correct root A f s rs off bs fd buf count :
  io_pre root A (Z.to_nat fd) f s rs off bs → 0 ≤ fd < MAX_FD → 0 < count →
  (range_ok (ram (sy_mm s)) root buf count true →
   ∃ n s' rs', sys_read (Some (Some root)) fd buf count s = Ret n s' ∧ -1 ≤ n ≤ avail bs off count ∧
     io_frame root A (Z.to_nat fd) f s s' rs rs' off (Z.max 0 n) ∧ received root s s' buf off (Z.max 0 n) bs ∧
     (∀ g, fbytes (sy_env s') g = fbytes (sy_env s) g) ∧
     (off ≤ len bs → plenty (io_pages (sy_env s) f) rs → n = avail bs off count)) ∧
  (¬ range_ok (ram (sy_mm s)) root buf count true → sys_read (Some (Some root)) fd buf count s = Ret (-1) s) ∧
  (∀ fd', get_fd fd' (sy_files s) = None → sys_read (Some (Some root)) fd' buf count s = Ret (-1) s).
Proof.
  intros P Hfd Hc. split; [|split; [intros Hr; by apply (sys_file_io_bad_range root buf count s fd Io_Read)|by intros; apply sys_file_io_bad_fd]]. intros Hr.
  destruct (sys_file_io_spec root A (Z.to_nat fd) f buf count s rs off bs fd Io_Read
    (λ m w n, (∀ s', ram (sy_mm s') = m → received root s s' buf off n bs) ∧ ∀ g, fbytes w g = fbytes (sy_env s) g)) as (n & s' & rs' & Hrun & F & [Hrc Hfb] & Hn & Hall).
  - done.
  - by eapply get_fd_entry; [|apply P].
  - done.
  - done.
  - split; [|done]. intros s' E. split; [lia|by rewrite E].
  - intros t1 rs1 b s1 P1 Hl Hb. destruct (read_loop_spec root A (Z.to_nat fd) f buf count bs (S (Z.to_nat count)) s1 rs1 b 0 off P1) as
      (n & failed & s2 & rs2 & Hrun & F & Hrc & Hfb & Hn); [lia|lia|done..|]. rewrite Z.sub_0_r in Hn.
    exists n, failed, s2, rs2. split; [done|]. split; [done|]. split; [|done]. split; [|done]. intros s' E. rewrite Z.add_0_r in Hrc. unfold received in *. by rewrite E.
  - exists n, s', rs'. split; [done|]. split; [done|]. split; [done|]. split; [by apply Hrc|]. done.
Qed.

(** C13: [write] of [count > 0] bytes to the descriptor [fd], open on a file at
    offset [off], from a buffer user code may read: the call returns, and what
    it returns, [-1] counting as none, is the number [n] of bytes moved: the
    file's bytes from [off] are those of the user's buffer and its others are
    as they were, the offset is [off + n] and no other descriptor changed,
    memory is unchanged, and the address space and the free pages are as
    before.  [n] is the smaller of [count] and what is left of the file (a file
    does not grow) whenever there is memory for the call's buffer and the file
    system's.  A buffer user code may not read, or a descriptor that is not
    open, gives [-1] and changes nothing. *)
Theorem sys_write_correct root A f s rs off bs fd buf count :
  io_pre root A (Z.to_nat fd) f s rs off bs → 0 ≤ fd < MAX_FD → 0 < count →
  (range_ok (ram (sy_mm s)) root buf count false →
   ∃ n s' rs', sys_write (Some (Some root)) fd buf count s = Ret n s' ∧ -1 ≤ n ≤ avail bs off count ∧
     io_frame root A (Z.to_nat fd) f s s' rs rs' off (Z.max 0 n) ∧ ram (sy_mm s') = ram (sy_mm s) ∧
     fbytes (sy_env s') f = Some (overwrite off (user_bytes root (ram (sy_mm s)) buf (Z.max 0 n)) bs) ∧
     (off ≤ len bs → plenty (io_pages (sy_env s) f) rs → n = avail bs off count)) ∧
  (¬ range_ok (ram (sy_mm s)) root buf count false → sys_write (Some (Some root)) fd buf count s = Ret (-1) s) ∧
  (∀ fd', get_fd fd' (sy_files s) = None → sys_write (Some (Some root)) fd' buf count s = Ret (-1) s).
Proof.
  intros P Hfd Hc. split; [|split; [intros Hr; by apply (sys_file_io_bad_range root buf count s fd Io_Write)|by intros; apply sys_file_io_bad_fd]]. intros Hr.
  destruct (sys_file_io_spec root A (Z.to_nat fd) f buf count s rs off bs fd Io_Write
    (λ m w n, m = ram (sy_mm s) ∧ fbytes w f = Some (overwrite off (user_bytes root (ram (sy_mm s)) buf n) bs))) as (n & s' & rs' & Hrun & F & [Hm Hfb] & Hn & Hall).
  - done.
  - by eapply get_fd_entry; [|apply P].
  - done.
  - done.
  - split; [done|]. change (user_bytes _ _ _ 0) with (@nil Z). rewrite overwrite_nil. apply P.
  - intros t1 rs1 b s1 P1 Hl Hb. destruct (write_loop_spec root A (Z.to_nat fd) f buf count (S (Z.to_nat count)) s1 rs1 b 0 off bs P1) as
      (n & failed & s2 & rs2 & Hrun & F & Hm & Hfb & Hn); [lia|lia|done..|]. rewrite Z.sub_0_r in Hn. rewrite Z.add_0_r in Hfb.
    by exists n, failed, s2, rs2.
  - by exists n, s', rs'.
Qed.
End calls.
