(* ===== verification/FatEnv.v ===== *)
(** * Files of a FAT volume behind the system calls

    [vfs::open], [close], [read] and [write] on the handles of a mounted FAT
    volume are the files the system calls rely on: [fat_env] runs the VFS of
    [Vfs] over the driver of [FatVfs] with the kernel's allocator as its heap,
    and [fat_env_laws] proves of it what [SyscallProofs] asks of files. *)

From S2P Require Import Prelude Zstl LibList Pmm PmmProofs LibString BlockDev FatLayout FatCore FatCoreProofs FatChain FatDir FatDirProofs FatPath FatFile Vfs FatVfs.
From S2P Require Import Paging Vmm VmmProofs Fd Syscall SyscallProofs.

Section lists.
Implicit Types bs : list Z.

Lemma take_slice (n off m : nat) bs : (off + n ≤ m)%nat → take n (drop off (take m bs)) = slice off n bs.
Proof. intros H. unfold slice. rewrite skipn_firstn_comm, take_take. f_equal. lia. Qed.

Lemma take_splice (off m : nat) d bs : (off + length d ≤ m)%nat → (m ≤ length bs)%nat →
  take m (splice off d bs) = take off (take m bs) ++ d ++ drop (off + length d) (take m bs).
Proof.
  intros H Hm. unfold splice. rewrite take_take, Nat.min_l by lia.
  rewrite take_app_ge, take_app_ge by (rewrite length_take; lia). rewrite length_take. do 2 f_equal.
  rewrite skipn_firstn_comm. f_equal. lia.
Qed.
End lists.

Section fat_env.
Context {D : Type} `{BD : BlockDevice D} {P : Type} `{IVP : InplaceVector P (list Z)}.
Context {V : Type} `{IV : InplaceVector V (FsEntry FatFileSystem (D * pmm))}.
Context `{PG : Paging} (sizeof_FatFile : Z).
Notation fatvfs := (vfs FatFileSystem FatFile (D * pmm) unit V).
#[local] Instance the_fat : FileSystem FatFileSystem FatFile (D * pmm) unit :=
  fat_filesystem (D := D) (P := P) KERNEL_BASE sizeof_FatFile.

(** The VFS with the kernel's allocator as its heap. *)
Definition put_heap (t : pmm) (v : fatvfs) : fatvfs := set_world ((world v).1, t) v.
Definition lend {A} (m : M fatvfs A) : M (pmm * fatvfs) A := zoom (λ tv, put_heap tv.1 tv.2) (λ v _, ((world v).2, v)) m.
#[global] Instance fat_env : FileEnv fatvfs := {|
  fe_open p := lend (Vfs.open (Some p));
  fe_close h := lend (Vfs.close h);
  fe_read f buf size offset := lend (Vfs.read (Some f) (Some buf) size offset);
  fe_write f buf size offset := lend (Vfs.write (Some f) (Some buf) size offset) |}.

(** ** Contents *)

(** The bytes of the file of an entry. *)
Definition entry_bytes (s : fs D) (e : FatDirEntry) : option (list Z) :=
  l ← chain (geo (fat s)) (val_of s) (cluster e);
  if bool_decide (is_directory e = false ∧ 0 ≤ file_size e < 2 ^ 31 ∧ file_size e ≤ Z.of_nat (length (contents s l)))
  then Some (take (Z.to_nat (file_size e)) (contents s l)) else None.
Definition volume (v : fatvfs) (o : FatFileSystem) : fs D := MkFs (fat_ o) (world v).1 (world v).2.
Definition fat_bytes (v : fatvfs) (id : Z) : option (list Z) :=
  f ← files v !! id; o ← fs_objs v !! ff_fat (impl f); entry_bytes (volume v o) (ff_entry (impl f)).
Definition fat_pages (v : fatvfs) (id : Z) : Z :=
  default 0 (f ← files v !! id; o ← fs_objs v !! ff_fat (impl f); Some ((bytes_per_cluster_ (geo (fat_ o)) + PG_SIZE - 1) / PG_SIZE)).
(** One volume is mounted, and its driver's state is sound. *)
Definition fat_ok (v : fatvfs) : Prop := ∃ p o, fs_objs v = {[p := o]} ∧ fs_ok (volume v o).

Context `{BL : !BlockDeviceLaws D} `{RD : !ReliableDevice D} (HKB : 0 < KERNEL_BASE).

Lemma entry_bytes_Some s e bs : entry_bytes s e = Some bs → ∃ l, file_ok s e l ∧ bs = take (Z.to_nat (file_size e)) (contents s l).
Proof.
  unfold entry_bytes. destruct (chain _ _ _) as [l|] eqn:Hl; [|done]. simpl. case_bool_decide as H; [|done]. intros [= <-].
  exists l. destruct H as (? & ? & ?). by split; [constructor|].
Qed.
Lemma entry_bytes_ok s e l : file_ok s e l → entry_bytes s e = Some (take (Z.to_nat (file_size e)) (contents s l)).
Proof. intros [H1 H2 H3 H4]. unfold entry_bytes. rewrite H2. simpl. by rewrite bool_decide_eq_true_2. Qed.

Lemma chain_agree s s' c : geo (fat s') = geo (fat s) → (∀ c, valid_cluster (geo (fat s)) c = true → val_of s' c = val_of s c) →
  chain (geo (fat s')) (val_of s') c = chain (geo (fat s)) (val_of s) c.
Proof. intros Hg Hv. unfold chain. rewrite Hg. by apply follow_ext. Qed.

Lemma entry_bytes_ext s s' e : fs_ok s → geo (fat s') = geo (fat s) → (∀ c, valid_cluster (geo (fat s)) c = true → val_of s' c = val_of s c) →
  (∀ i, sector (disk s') i = sector (disk s) i) → entry_bytes s' e = entry_bytes s e.
Proof.
  intros Hok Hg Hv Hs. unfold entry_bytes. rewrite (chain_agree s s') by done. destruct (chain _ _ _) as [l|]; [|done]. simpl.
  rewrite (contents_ext s s' l); [done|done|intros; apply Hs|]. pose proof (g_spc _ _ (ok_geo _ Hok)). lia.
Qed.

(** ** Calls through a handle *)

Definition after (v : fatvfs) (p : Z) (s' : fs D) (o : FatFileSystem) : fatvfs :=
  set_world (disk s', heap s') (set_objs (<[p := MkFatFs (fat s') (fatfs_mem o)]> (fs_objs v)) v).

Lemma lend_file {B} v t id f o (op : FatFile → M (option FatFileSystem * (D * pmm)) B) : files v !! id = Some f → fs_objs v !! ff_fat (impl f) = Some o →
  lend (x <- get_file id;; call_file (FS := the_fat) (impl x) (op (impl x))) (t, v) =
  match op (impl f) (Some o, ((world v).1, t)) with
  | Ret b (Some o', w') => Ret b (w'.2, set_world w' (set_objs (<[ff_fat (impl f) := o']> (fs_objs v)) v))
  | Ret b (None, w') => Ret b (w'.2, set_world w' v)
  | Fail e (Some o', w') => Fail e (w'.2, set_world w' (set_objs (<[ff_fat (impl f) := o']> (fs_objs v)) v))
  | Fail e (None, w') => Fail e (w'.2, set_world w' v)
  | Halt r => Halt r
  end.
Proof.
  intros Hf Ho. unfold lend, zoom, get_file, call_file, bind, gets, deref. cbn. rewrite Hf. cbn. unfold bind, gets, deref. cbn. rewrite Ho. cbn.
  unfold zoom. cbn. by destruct (op _ _) as [b [[o'|] w']|e [[o'|] w']|r].
Qed.

Lemma after_step v t rs p o s' l rs' : fs_objs v = {[p := o]} → let s := MkFs (fat_ o) (world v).1 t in
  transferred s s' l rs rs' → env_step fat_ok t rs (heap s') (after v p s' o) rs' ∧
  (∀ id, fat_pages (after v p s' o) id = fat_pages v id) ∧
  (∀ id f, files v !! id = Some f → ff_fat (impl f) = p → fat_bytes (after v p s' o) id = entry_bytes s' (ff_entry (impl f))).
Proof.
  intros Hv s (Hok & Hg & _ & _ & R & Hco & Hfr & Hframe). split_and!.
  - constructor; try done. exists p, (MkFatFs (fat s') (fatfs_mem o)). split; [|by destruct s'].
    cbn. by rewrite Hv, insert_singleton_eq.
  - intros id. unfold fat_pages. cbn. destruct (files v !! id) as [f|]; [|done]. cbn. rewrite Hv. destruct (decide (ff_fat (impl f) = p)) as [->|Hne].
    + rewrite lookup_insert_eq, lookup_singleton_eq. cbn. by rewrite Hg.
    + rewrite lookup_insert_ne, lookup_singleton_ne by done. done.
  - intros id f Hf Hp. unfold fat_bytes. cbn. rewrite Hf. cbn. rewrite Hp, lookup_insert_eq. cbn. by destruct s'.
Qed.

(** ** A transfer *)

Definition vol_io (e : FatDirEntry) (buf : list Z) (n off : Z) (writeback : bool) : M (fs D) (Z * list Z) :=
  ensure (is_valid_io n off) E_Invalid;; do_file_io KERNEL_BASE (Some e) (Some buf) (u32 off) (u32 n) writeback.

Lemma transferred_refl s l rs : mounted KERNEL_BASE s rs → transferred s s l rs rs.
Proof. intros [H1 H2 H3 H4]. by split_and!. Qed.

Lemma vol_io_spec s rs e l buf (n off : Z) writeback :
  mounted KERNEL_BASE s rs → file_ok s e l → 0 < n ≤ PG_SIZE → n ≤ Z.of_nat (length buf) → 0 ≤ off → Forall BlockDev.is_byte buf →
  let k := Z.min n (file_size e - off) in
  ∃ s' rs', transferred s s' l rs rs' ∧ (writeback = false → ∀ i, sector (disk s') i = sector (disk s) i) ∧
    ((vol_io e buf n off writeback s = Ret (k, if writeback then buf else splice 0 (slice (Z.to_nat off) (Z.to_nat k) (contents s l)) buf) s' ∧
        off ≤ file_size e ∧ contents s' l = if writeback then splice (Z.to_nat off) (slice 0 (Z.to_nat k) buf) (contents s l) else contents s l) ∨
     (∃ x, vol_io e buf n off writeback s = Fail x s' ∧ s' = s ∧
        (file_size e < off ∨ ¬ room ((bytes_per_cluster_ (geo (fat s)) + PG_SIZE - 1) / PG_SIZE) (free_pages rs)))).
Proof using HKB BL RD.
  intros Hm Hf Hn Hbuf Hoff Hby k. pose proof (f_size _ _ _ Hf) as Hsz. unfold vol_io, is_valid_io, ensure. unfold PG_SIZE in Hn.
  pose proof (transferred_refl s l rs Hm) as T0. rewrite (proj2 (Z.ltb_ge _ n)) by lia. cbn [orb]. destruct (Z.ltb_spec 0xFFFFFFFF off).
  { exists s, rs. split; [done|]. split; [done|]. right. exists E_Invalid. split; [done|]. split; [done|]. left. lia. }
  cbn [negb]. rewrite bind_ret, !u32_small by lia. destruct (Z.ltb_spec off (file_size e)) as [Hlt|Hge].
  - destruct (do_file_io_spec KERNEL_BASE HKB s rs e l buf off n writeback Hm Hf ltac:(lia) ltac:(lia) Hby) as [(s' & rs' & Hio & Ht & Hs & Hc)|[Hio Hno]]; [lia|..].
    + exists s', rs'. split; [done|]. split; [done|]. left. split; [done|]. split; [lia|done].
    + exists s, rs. split; [done|]. split; [done|]. right. exists E_NoMem. split; [done|]. split; [done|]. right. intros [q Hq].
      destruct (Hno q) as (j & Hj & Hnj). by apply Hnj, Hq.
  - exists s, rs. split; [done|]. split; [done|]. destruct (Z.ltb_spec (file_size e) off) as [Hgt|].
    + right. exists E_Invalid. rewrite (io_edges KERNEL_BASE s e l) by (done || by left). rewrite (proj2 (Z.ltb_lt _ _)) by done. split; [done|]. split; [done|]. by left.
    + left. assert (off = file_size e) as -> by lia. assert (k = 0) as -> by (unfold k; lia). split; [|split; [lia|]].
      * rewrite (io_edges KERNEL_BASE s e l) by (done || right; by left). rewrite (proj2 (Z.ltb_ge _ _)) by done. by destruct writeback.
      * destruct writeback; [|done]. change (slice 0 (Z.to_nat 0) buf) with (@nil Z). unfold splice. cbn [length app]. by rewrite Nat.add_0_r, take_drop.
Qed.

(** The volume of a handle. *)
Lemma handle_volume v t rs id bs : fat_ok v → fat_bytes v id = Some bs → pmm_rep t rs → coalesced rs → direct_mapped KERNEL_BASE t →
  ∃ f o p l, files v !! id = Some f ∧ fs_objs v = {[p := o]} ∧ ff_fat (impl f) = p ∧
    let s := MkFs (fat_ o) (world v).1 t in
    mounted KERNEL_BASE s rs ∧ file_ok s (ff_entry (impl f)) l ∧ bs = take (Z.to_nat (file_size (ff_entry (impl f)))) (contents s l) ∧
    length bs = Z.to_nat (file_size (ff_entry (impl f))) ∧
    fat_pages v id = (bytes_per_cluster_ (geo (fat s)) + PG_SIZE - 1) / PG_SIZE.
Proof.
  intros (p & o & Hv & Hok) Hb R Hco Hd. unfold fat_bytes in Hb. destruct (files v !! id) as [f|] eqn:Hf; [|done]. cbn in Hb.
  rewrite Hv in Hb. destruct (decide (ff_fat (impl f) = p)) as [Hp|Hp]; [|by rewrite lookup_singleton_ne in Hb].
  rewrite Hp, lookup_singleton_eq in Hb. cbn in Hb. apply (entry_bytes_Some (MkFs (fat_ o) (world v).1 t)) in Hb as (l & Hfo & ->).
  exists f, o, p, l. split; [done|]. split; [done|]. split; [done|]. cbv zeta. split; [|split; [done|split; [done|split]]].
  - constructor; try done. by apply (fs_ok_heap (volume v o)).
  - rewrite length_take. pose proof (f_fits _ _ _ Hfo). lia.
  - unfold fat_pages. rewrite Hf. cbn. by rewrite Hv, Hp, lookup_singleton_eq.
Qed.

(** [vfs::read] and [vfs::write] of the handle are the transfer. *)
Lemma fat_read_run v t id f o buf n off : files v !! id = Some f → fs_objs v !! ff_fat (impl f) = Some o →
  fe_read id buf n off (t, v) =
  match vol_io (ff_entry (impl f)) buf n off false (MkFs (fat_ o) (world v).1 t) with
  | Ret b s' => Ret b (heap s', after v (ff_fat (impl f)) s' o)
  | Fail e s' => Fail e (heap s', after v (ff_fat (impl f)) s' o)
  | Halt r => Halt r
  end.
Proof.
  intros Hf Ho. change (fe_read id buf n off (t, v)) with (lend (x <- get_file id;; call_file (FS := the_fat) (impl x) (fatfile_read KERNEL_BASE (impl x) buf n off)) (t, v)).
  rewrite (lend_file v t id f o (λ x, fatfile_read KERNEL_BASE x buf n off) Hf Ho). unfold fatfile_read, vol_io, read_file.
  generalize (do_file_io KERNEL_BASE (Some (ff_entry (impl f))) (Some buf) (u32 off) (u32 n) false). intros m. unfold ensure, bind. destruct (is_valid_io n off); cbn.
  - unfold on_file_volume, on_volume, zoom. cbn. by destruct (m _).
  - unfold after. cbn. by destruct o.
Qed.
Lemma fat_write_run v t id f o buf n off : files v !! id = Some f → fs_objs v !! ff_fat (impl f) = Some o →
  fe_write id buf n off (t, v) =
  match vol_io (ff_entry (impl f)) buf n off true (MkFs (fat_ o) (world v).1 t) with
  | Ret b s' => Ret b.1 (heap s', after v (ff_fat (impl f)) s' o)
  | Fail e s' => Fail e (heap s', after v (ff_fat (impl f)) s' o)
  | Halt r => Halt r
  end.
Proof.
  intros Hf Ho. change (fe_write id buf n off (t, v)) with (lend (x <- get_file id;; call_file (FS := the_fat) (impl x) (fatfile_write KERNEL_BASE (impl x) buf n off)) (t, v)).
  rewrite (lend_file v t id f o (λ x, fatfile_write KERNEL_BASE x buf n off) Hf Ho). unfold fatfile_write, vol_io, write_file.
  generalize (do_file_io KERNEL_BASE (Some (ff_entry (impl f))) (Some buf) (u32 off) (u32 n) true). intros m. unfold ensure, bind. destruct (is_valid_io n off); cbn.
  - unfold on_file_volume, on_volume, zoom. cbn. by destruct (m _).
  - unfold after. cbn. by destruct o.
Qed.

Lemma fat_bytes_range v id bs : fat_ok v → fat_bytes v id = Some bs → Forall is_byte bs ∧ Z.of_nat (length bs) < 2 ^ 63.
Proof.
  intros _ Hb. unfold fat_bytes in Hb. destruct (files v !! id) as [f|]; [|done]. cbn in Hb. destruct (fs_objs v !! _) as [o|]; [|done]. cbn in Hb.
  apply entry_bytes_Some in Hb as (l & Hfo & ->). split; [apply Forall_take; exact (contents_bytes _ _)|].
  rewrite length_take. pose proof (f_size _ _ _ Hfo). lia.
Qed.

Lemma fat_read_spec t v rs id bs buf (n off : Z) :
  fat_ok v → fat_bytes v id = Some bs → pmm_rep t rs → coalesced rs → direct_mapped KERNEL_BASE t →
  0 < n ≤ PG_SIZE → n ≤ Z.of_nat (length buf) → 0 ≤ off → Forall is_byte buf →
  ∃ t' v' rs', env_step fat_ok t rs t' v' rs' ∧ (∀ g, fat_bytes v' g = fat_bytes v g ∧ fat_pages v' g = fat_pages v g) ∧
    let d := take (Z.to_nat n) (drop (Z.to_nat off) bs) in
    ((fe_read id buf n off (t, v) = Ret (Z.of_nat (length d), d ++ drop (length d) buf) (t', v') ∧ off ≤ Z.of_nat (length bs)) ∨
     ∃ e, fe_read id buf n off (t, v) = Fail e (t', v') ∧ (Z.of_nat (length bs) < off ∨ ¬ room (fat_pages v id) (free_pages rs))).
Proof using HKB BL RD.
  intros Hok Hb R Hco Hd Hn Hbuf Hoff Hby.
  destruct (handle_volume v t rs id bs Hok Hb R Hco Hd) as (f & o & p & l & Hf & Hv & Hp & Hm & Hfo & Ebs & Hlen & Hpg). cbv zeta in *.
  set (s := MkFs (fat_ o) (world v).1 t) in *. set (e := ff_entry (impl f)) in *. pose proof (f_size _ _ _ Hfo) as Hsz.
  destruct (vol_io_spec s rs e l buf n off false Hm Hfo Hn Hbuf Hoff Hby) as (s' & rs' & Ht & Hsec & Hcase).
  destruct (after_step v t rs p o s' l rs' Hv Ht) as (Hstep & Hpages & Hbytes).
  assert (fs_objs v !! ff_fat (impl f) = Some o) as Ho by (by rewrite Hv, Hp, lookup_singleton_eq).
  exists (heap s'), (after v p s' o), rs'. split; [done|]. split.
  { intros g. split; [|apply Hpages]. destruct (files v !! g) as [fg|] eqn:Hg; [|unfold fat_bytes; cbn; by rewrite Hg].
    destruct Ht as (_ & Hgeo & Hval & _). destruct (decide (ff_fat (impl fg) = p)) as [Hpg'|Hne].
    - rewrite (Hbytes g fg Hg Hpg'). unfold fat_bytes. rewrite Hg. cbn. rewrite Hv, Hpg', lookup_singleton_eq. cbn.
      apply (entry_bytes_ext s s'); [apply Hm|done|done|by apply Hsec].
    - unfold fat_bytes. cbn. rewrite Hg. cbn. by rewrite Hv, lookup_insert_ne, lookup_singleton_ne by done. }
  cbv zeta. rewrite (fat_read_run v t id f o) by done. fold s e. rewrite Hp, Hlen, Hpg, Z2Nat.id by lia.
  destruct Hcase as [(Hr & Hle & _)|(x & Hr & -> & Hx)]; rewrite Hr; [left|right; by exists x].
  split; [|done]. rewrite Ebs. set (k := Z.min n (file_size e - off)). pose proof (f_fits _ _ _ Hfo) as Hfit.
  assert (take (Z.to_nat n) (drop (Z.to_nat off) (take (Z.to_nat (file_size e)) (contents s l))) = slice (Z.to_nat off) (Z.to_nat k) (contents s l)) as ->.
  { rewrite <- (take_slice _ _ (Z.to_nat (file_size e))) by (unfold k; lia). destruct (Z.le_ge_cases n (file_size e - off)).
    - by replace (Z.to_nat k) with (Z.to_nat n) by (unfold k; lia).
    - trans (drop (Z.to_nat off) (take (Z.to_nat (file_size e)) (contents s l))); [|symmetry]; apply take_ge; rewrite length_drop, length_take; unfold k; lia. }
  assert (length (slice (Z.to_nat off) (Z.to_nat k) (contents s l)) = Z.to_nat k) as Hl by (rewrite length_slice_min; unfold k in *; lia).
  rewrite Hl, Z2Nat.id by (unfold k; lia). f_equal. f_equal. unfold splice. by rewrite Hl.
Qed.

Lemma fat_write_spec t v rs id bs buf (n off : Z) :
  fat_ok v → fat_bytes v id = Some bs → pmm_rep t rs → coalesced rs → direct_mapped KERNEL_BASE t →
  0 < n ≤ PG_SIZE → n ≤ Z.of_nat (length buf) → 0 ≤ off → Forall is_byte buf →
  ∃ t' v' rs', env_step fat_ok t rs t' v' rs' ∧ fat_pages v' id = fat_pages v id ∧
    let k := Z.min n (Z.of_nat (length bs) - off) in
    ((fe_write id buf n off (t, v) = Ret k (t', v') ∧ off ≤ Z.of_nat (length bs) ∧
        fat_bytes v' id = Some (overwrite off (take (Z.to_nat k) buf) bs)) ∨
     ∃ e, fe_write id buf n off (t, v) = Fail e (t', v') ∧ fat_bytes v' id = Some bs ∧
       (Z.of_nat (length bs) < off ∨ ¬ room (fat_pages v id) (free_pages rs))).
Proof using HKB BL RD.
  intros Hok Hb R Hco Hd Hn Hbuf Hoff Hby.
  destruct (handle_volume v t rs id bs Hok Hb R Hco Hd) as (f & o & p & l & Hf & Hv & Hp & Hm & Hfo & Ebs & Hlen & Hpg). cbv zeta in *.
  set (s := MkFs (fat_ o) (world v).1 t) in *. set (e := ff_entry (impl f)) in *. pose proof (f_size _ _ _ Hfo) as Hsz.
  destruct (vol_io_spec s rs e l buf n off true Hm Hfo Hn Hbuf Hoff Hby) as (s' & rs' & Ht & _ & Hcase).
  destruct (after_step v t rs p o s' l rs' Hv Ht) as (Hstep & Hpages & Hbytes).
  assert (fs_objs v !! ff_fat (impl f) = Some o) as Ho by (by rewrite Hv, Hp, lookup_singleton_eq).
  exists (heap s'), (after v p s' o), rs'. split; [done|]. split; [apply Hpages|]. cbv zeta.
  rewrite (fat_write_run v t id f o), (Hbytes id f Hf Hp) by done. fold s e. rewrite Hp, Hlen, Hpg, Z2Nat.id by lia.
  destruct Hcase as [(Hr & Hle & Hc)|(x & Hr & -> & Hx)]; rewrite Hr; [left|right].
  2:{ exists x. split; [done|]. split; [|done]. by rewrite (entry_bytes_ok s e l Hfo), Ebs. }
  split; [done|]. split; [done|]. pose proof (f_fits _ _ _ Hfo) as Hfit. set (k := Z.min n (file_size e - off)) in *.
  assert (length (slice 0 (Z.to_nat k) buf) = Z.to_nat k) as Hl by (rewrite length_slice_min; unfold k in *; lia).
  assert (length (contents s' l) = length (contents s l)) as Hlc by (rewrite Hc; apply length_splice; rewrite Hl; unfold k; lia).
  assert (file_ok s' e l) as Hfo'.
  { destruct Ht as (_ & Hgeo & Hval & _). destruct Hfo as [H1 H2 H3 H4]. constructor; [done| |done|by rewrite Hlc]. by rewrite (chain_agree s s'). }
  rewrite (entry_bytes_ok s' e l Hfo'), Hc, Ebs. f_equal. unfold overwrite. rewrite take_splice by (rewrite ?Hl; unfold k in *; lia).
  unfold slice in *. by rewrite drop_0 in *.
Qed.

(** The files of the volume are files in the sense of the system calls. *)
#[global] Instance fat_env_laws : FileEnvLaws fatvfs.
Proof using HKB BL RD.
  exact {| env_ok := fat_ok; fbytes := fat_bytes; io_pages := fat_pages; fbytes_range := fat_bytes_range;
           fe_read_spec := fat_read_spec; fe_write_spec := fat_write_spec |}.
Defined.
End fat_env.
