(* ===== verification/SyscallWitness.v ===== *)
(** * System calls: concrete runs

    The program loaded in [ExecWitness] reads from and writes to the file of
    the volume of [FatWitness], with a buffer on its stack. *)

From S2P Require Import Prelude PagingX86.
From S2P Require Import Zstl LibList Pmm PmmProofs LibString BlockDev RamDisk FatLayout FatCore FatCoreProofs FatChain FatDir FatDirProofs FatPath FatFile FatWitness Vfs FatVfs.
From S2P Require Import Paging SwapSlots PageTable PageTableProofs Vmm VmmProofs AddrSpace Exec ExecProofs ExecWitness Fd Syscall SyscallProofs FatEnv.

#[local] Existing Instance x86_paging.
#[local] Existing Instance x86_laws.
#[local] Existing Instance x86_layout.
#[local] Existing Instance x86_user.

(** ** The files: descriptor 3 is open on [/hello.txt] at offset 500 *)

Notation ex_v := (vfs FatFileSystem FatFile (RamDisk.ram * pmm) unit (bvec (FsEntry FatFileSystem (RamDisk.ram * pmm)) 8)).
Definition ex_fatvfs : ex_v :=
  MkVfs iv_new [] {[9 := MkFatFs (fat ex_fs) 0]} {[1 := MkFile (MkFatFile 9 ex_hello 0) None]} 10 (disk ex_fs, heap ex_fs).
#[local] Instance ex_env : FileEnv ex_v := fat_env (D := RamDisk.ram) (P := ex_parts) 400.
#[local] Instance ex_laws : FileEnvLaws ex_v := fat_env_laws (D := RamDisk.ram) (P := ex_parts) 400 eq_refl.
Definition ex_files : list Entry := <[3%nat := MkEntry (Some 1) 500 true]> table_new.
Definition ex_text : list Z := Eval vm_compute in default [] (fat_bytes ex_fatvfs 1).

Lemma ex_fat_ok : fat_ok ex_fatvfs.
Proof. exists 9, (MkFatFs (fat ex_fs) 0). split; [done|]. exact ex_fs_ok. Qed.
Lemma ex_fat_bytes : fat_bytes ex_fatvfs 1 = Some ex_text.
Proof. by vm_compute. Qed.

(** ** The process *)

Definition ex_buf : Z := USER_STACK_TOP - 4000.

Definition ex_sys : sys ex_v := MkSys ex_proc ex_files ex_fatvfs.
Lemma ex_io_pre : ∃ A, io_pre 12288 A (Z.to_nat 3) 1 ex_sys [(16, 6)] 500 ex_text.
Proof.
  destruct ex_proc_rep as (A & R & Hd & _). exists A. constructor; [exact R| |exact Hd|exact ex_fat_ok|exact ex_fat_bytes|reflexivity|lia].
  intros p k q m [= -> ->]%list_elem_of_singleton [= -> ->]%list_elem_of_singleton. lia.
Qed.
Lemma ex_range w : range_ok (PageTable.ram ex_proc) 12288 ex_buf 200 w.
Proof.
  split; [by vm_compute|]. split; [by vm_compute|].
  assert (Forall (λ i, allowed (PageTable.ram ex_proc) 12288 (ex_buf + i) w = true) (seqZ 0 200)) as Hf by (apply (bool_decide_unpack _); by destruct w; vm_compute).
  intros i Hi. rewrite Forall_forall in Hf. apply Hf, elem_of_seqZ. lia.
Qed.
Lemma ex_plenty : plenty (io_pages ex_fatvfs 1) [(16, 6)].
Proof.
  change (io_pages ex_fatvfs 1) with 1. intros k. exists (if decide (k = 16) then 17 else 16). intros j Hj.
  change (free_pages [(16, 6)]) with [16; 17; 18; 19; 20; 21]. case_decide; split; try lia; set_solver by lia.
Qed.

Lemma ex_avail : 500 ≤ len ex_text ∧ avail ex_text 500 200 = 100 ∧ 0 ≤ 3 < MAX_FD ∧ 0 < 200.
Proof. by vm_compute. Qed.

Lemma sys_read_correct_witness : ∃ s', sys_read (Some (Some 12288)) 3 ex_buf 200 ex_sys = Ret 100 s' ∧
  received 12288 ex_sys s' ex_buf 500 100 ex_text.
Proof.
  destruct ex_io_pre as (A & P), ex_avail as (Hle & Hav & Hfd & Hc).
  destruct (sys_read_correct 12288 A 1 ex_sys [(16, 6)] 500 ex_text 3 ex_buf 200 P Hfd Hc) as (H & _).
  destruct (H (ex_range true)) as (n & s' & rs' & Hr & _ & _ & Hb & _ & Hn).
  rewrite (Hn Hle ex_plenty), Hav in *.
  exists s'. split; [exact Hr|]. exact Hb.
Defined.
Lemma sys_write_correct_witness : ∃ s', sys_write (Some (Some 12288)) 3 ex_buf 200 ex_sys = Ret 100 s' ∧
  fbytes (sy_env s') 1 = Some (overwrite 500 (user_bytes 12288 (PageTable.ram (sy_mm ex_sys)) ex_buf 100) ex_text).
Proof.
  destruct ex_io_pre as (A & P), ex_avail as (Hle & Hav & Hfd & Hc).
  destruct (sys_write_correct 12288 A 1 ex_sys [(16, 6)] 500 ex_text 3 ex_buf 200 P Hfd Hc) as (H & _).
  destruct (H (ex_range false)) as (n & s' & rs' & Hr & _ & _ & _ & Hb & Hn).
  rewrite (Hn Hle ex_plenty), Hav in *.
  exists s'. split; [exact Hr|]. exact Hb.
Defined.
