(* ===== verification/Sched.v ===== *)
(** * Tasks and the scheduler: [kernel/sched]

    [sched] is the state of [Scheduler], [SchedulerPolicy] and [TaskManager]
    with the task objects themselves, keyed by address.  A task is linked into
    three intrusive lists; the rings of [LibList] are here the sequences they
    represent ([list_ops_refine]): [add] puts a node in front, [unlink] takes it
    out of the ring it is in.

    A context switch ends the run of one task's code and continues another's,
    so an operation that may switch is split at [switch_to]: [schedule] runs up
    to the switch and returns the interrupt flags its guards saved;
    [schedule_exit] is what remains to be done when the task is on the CPU
    again. *)

From S2P Require Import Prelude Fd.

Inductive TaskState : Set := Uninit | Sleeping | Runnable | Running | Zombie.
#[export] Instance TaskState_eq_dec : EqDecision TaskState.
Proof. solve_decision. Defined.

Definition HIGHEST_PRIORITY : Z := 0.
Definition DEFAULT : Z := 10.
Definition LOWEST_PRIORITY : Z := 20.
Definition IDLE_PRIO : Z := 31.
Definition BASE_TIMESLICE : Z := 10.
Definition KSTACK_SIZE : Z := 4096.
Definition HASH_SHIFT : Z := 10.

(** A [MemoryDesc*] with the physical address of its page table, absent when
    [pgdir] is null. *)
Record Mem : Set := MkMem { mm : Z; pgdir : option Z }.

(** [struct Task].  [context] holds the entry point and the stack pointer,
    [trap_frame] the frame's address and its words; the list links are in the
    lists of the scheduler state. *)
Record Task : Type := MkTask {
  pid : Z;
  name_ : list Z;
  context : Z * Z;
  kernel_stack_ : option Z;
  boot_stack : Z;
  owned_memory : option Mem;
  borrowed_memory : option Mem;
  state : TaskState;
  files : list Entry;
  trap_frame : Z * list Z;
  exit_code : Z;
  wait_state : Z;
  parent : option Z;
  child_list : list Z;
  priority : Z;
  time_slice : Z;
  need_resched : Z }.

Definition set_pid (x : Z) (t : Task) : Task :=
  MkTask x (name_ t) (context t) (kernel_stack_ t) (boot_stack t) (owned_memory t) (borrowed_memory t) (state t)
    (files t) (trap_frame t) (exit_code t) (wait_state t) (parent t) (child_list t) (priority t) (time_slice t)
    (need_resched t).
Definition set_name (x : list Z) (t : Task) : Task :=
  MkTask (pid t) x (context t) (kernel_stack_ t) (boot_stack t) (owned_memory t) (borrowed_memory t) (state t)
    (files t) (trap_frame t) (exit_code t) (wait_state t) (parent t) (child_list t) (priority t) (time_slice t)
    (need_resched t).
Definition set_context (x : Z * Z) (t : Task) : Task :=
  MkTask (pid t) (name_ t) x (kernel_stack_ t) (boot_stack t) (owned_memory t) (borrowed_memory t) (state t)
    (files t) (trap_frame t) (exit_code t) (wait_state t) (parent t) (child_list t) (priority t) (time_slice t)
    (need_resched t).
Definition set_kernel_stack (x : option Z) (t : Task) : Task :=
  MkTask (pid t) (name_ t) (context t) x (boot_stack t) (owned_memory t) (borrowed_memory t) (state t) (files t)
    (trap_frame t) (exit_code t) (wait_state t) (parent t) (child_list t) (priority t) (time_slice t)
    (need_resched t).
Definition set_boot_stack (x : Z) (t : Task) : Task :=
  MkTask (pid t) (name_ t) (context t) (kernel_stack_ t) x (owned_memory t) (borrowed_memory t) (state t) (files
    t) (trap_frame t) (exit_code t) (wait_state t) (parent t) (child_list t) (priority t) (time_slice t)
    (need_resched t).
Definition set_owned_memory (x : option Mem) (t : Task) : Task :=
  MkTask (pid t) (name_ t) (context t) (kernel_stack_ t) (boot_stack t) x (borrowed_memory t) (state t) (files t)
    (trap_frame t) (exit_code t) (wait_state t) (parent t) (child_list t) (priority t) (time_slice t)
    (need_resched t).
Definition set_borrowed_memory (x : option Mem) (t : Task) : Task :=
  MkTask (pid t) (name_ t) (context t) (kernel_stack_ t) (boot_stack t) (owned_memory t) x (state t) (files t)
    (trap_frame t) (exit_code t) (wait_state t) (parent t) (child_list t) (priority t) (time_slice t)
    (need_resched t).
Definition set_state (x : TaskState) (t : Task) : Task :=
  MkTask (pid t) (name_ t) (context t) (kernel_stack_ t) (boot_stack t) (owned_memory t) (borrowed_memory t) x
    (files t) (trap_frame t) (exit_code t) (wait_state t) (parent t) (child_list t) (priority t) (time_slice t)
    (need_resched t).
Definition set_files (x : list Entry) (t : Task) : Task :=
  MkTask (pid t) (name_ t) (context t) (kernel_stack_ t) (boot_stack t) (owned_memory t) (borrowed_memory t)
    (state t) x (trap_frame t) (exit_code t) (wait_state t) (parent t) (child_list t) (priority t) (time_slice t)
    (need_resched t).
Definition set_trap_frame (x : Z * list Z) (t : Task) : Task :=
  MkTask (pid t) (name_ t) (context t) (kernel_stack_ t) (boot_stack t) (owned_memory t) (borrowed_memory t)
    (state t) (files t) x (exit_code t) (wait_state t) (parent t) (child_list t) (priority t) (time_slice t)
    (need_resched t).
Definition set_exit_code (x : Z) (t : Task) : Task :=
  MkTask (pid t) (name_ t) (context t) (kernel_stack_ t) (boot_stack t) (owned_memory t) (borrowed_memory t)
    (state t) (files t) (trap_frame t) x (wait_state t) (parent t) (child_list t) (priority t) (time_slice t)
    (need_resched t).
Definition set_wait_state (x : Z) (t : Task) : Task :=
  MkTask (pid t) (name_ t) (context t) (kernel_stack_ t) (boot_stack t) (owned_memory t) (borrowed_memory t)
    (state t) (files t) (trap_frame t) (exit_code t) x (parent t) (child_list t) (priority t) (time_slice t)
    (need_resched t).
Definition set_parent (x : option Z) (t : Task) : Task :=
  MkTask (pid t) (name_ t) (context t) (kernel_stack_ t) (boot_stack t) (owned_memory t) (borrowed_memory t)
    (state t) (files t) (trap_frame t) (exit_code t) (wait_state t) x (child_list t) (priority t) (time_slice t)
    (need_resched t).
Definition set_child_list (x : list Z) (t : Task) : Task :=
  MkTask (pid t) (name_ t) (context t) (kernel_stack_ t) (boot_stack t) (owned_memory t) (borrowed_memory t)
    (state t) (files t) (trap_frame t) (exit_code t) (wait_state t) (parent t) x (priority t) (time_slice t)
    (need_resched t).
Definition set_priority (x : Z) (t : Task) : Task :=
  MkTask (pid t) (name_ t) (context t) (kernel_stack_ t) (boot_stack t) (owned_memory t) (borrowed_memory t)
    (state t) (files t) (trap_frame t) (exit_code t) (wait_state t) (parent t) (child_list t) x (time_slice t)
    (need_resched t).
Definition set_time_slice (x : Z) (t : Task) : Task :=
  MkTask (pid t) (name_ t) (context t) (kernel_stack_ t) (boot_stack t) (owned_memory t) (borrowed_memory t)
    (state t) (files t) (trap_frame t) (exit_code t) (wait_state t) (parent t) (child_list t) (priority t) x
    (need_resched t).
Definition set_need_resched (x : Z) (t : Task) : Task :=
  MkTask (pid t) (name_ t) (context t) (kernel_stack_ t) (boot_stack t) (owned_memory t) (borrowed_memory t)
    (state t) (files t) (trap_frame t) (exit_code t) (wait_state t) (parent t) (child_list t) (priority t)
    (time_slice t) x.

(** [Task task{}] *)
Definition task_new : Task :=
  MkTask 0 [] (0, 0) None 0 None None Uninit table_new (0, []) 0 0 None [] DEFAULT 0 0.

Definition memory (t : Task) : option Mem :=
  match owned_memory t with Some m => Some m | None => borrowed_memory t end.
Definition kernel_stack (t : Task) : Z :=
  match kernel_stack_ t with Some a => a | None => boot_stack t end.

(** A [ListNode*] into the process list: its head or the link of a task. *)
Inductive Cursor : Set := CHead | CTask (t : Z).
#[export] Instance Cursor_eq_dec : EqDecision Cursor.
Proof. solve_decision. Defined.

Record Stats : Set := MkStats {
  tick_count : Z; schedule_calls : Z; need_resched_events : Z;
  context_switches : Z; same_task_runs : Z; pick_idle : Z; pick_non_idle : Z }.
Definition stats0 : Stats := MkStats 0 0 0 0 0 0 0.

(** The processor: its interrupt flag, the loaded page-table root and the
    stack for traps from user mode. *)
Record Cpu : Set := MkCpu { irq : bool; root : Z; trap_stack : Z }.

Record sched : Type := MkSched {
  tasks : gmap Z Task;
  proc_list : list Z;
  hash_list : gmap Z (list Z);
  current_ : option Z;
  idle_proc : option Z;
  init_proc : option Z;
  process_count : Z;
  next_pid : Z;
  cursor : option Cursor;
  stats : Stats;
  cpu : Cpu }.

Definition with_tasks (x : gmap Z Task) (s : sched) : sched :=
  MkSched x (proc_list s) (hash_list s) (current_ s) (idle_proc s) (init_proc s) (process_count s) (next_pid s)
    (cursor s) (stats s) (cpu s).
Definition with_proc_list (x : list Z) (s : sched) : sched :=
  MkSched (tasks s) x (hash_list s) (current_ s) (idle_proc s) (init_proc s) (process_count s) (next_pid s)
    (cursor s) (stats s) (cpu s).
Definition with_hash_list (x : gmap Z (list Z)) (s : sched) : sched :=
  MkSched (tasks s) (proc_list s) x (current_ s) (idle_proc s) (init_proc s) (process_count s) (next_pid s)
    (cursor s) (stats s) (cpu s).
Definition with_current (x : option Z) (s : sched) : sched :=
  MkSched (tasks s) (proc_list s) (hash_list s) x (idle_proc s) (init_proc s) (process_count s) (next_pid s)
    (cursor s) (stats s) (cpu s).
Definition with_idle_proc (x : option Z) (s : sched) : sched :=
  MkSched (tasks s) (proc_list s) (hash_list s) (current_ s) x (init_proc s) (process_count s) (next_pid s)
    (cursor s) (stats s) (cpu s).
Definition with_init_proc (x : option Z) (s : sched) : sched :=
  MkSched (tasks s) (proc_list s) (hash_list s) (current_ s) (idle_proc s) x (process_count s) (next_pid s)
    (cursor s) (stats s) (cpu s).
Definition with_process_count (x : Z) (s : sched) : sched :=
  MkSched (tasks s) (proc_list s) (hash_list s) (current_ s) (idle_proc s) (init_proc s) x (next_pid s) (cursor
    s) (stats s) (cpu s).
Definition with_next_pid (x : Z) (s : sched) : sched :=
  MkSched (tasks s) (proc_list s) (hash_list s) (current_ s) (idle_proc s) (init_proc s) (process_count s) x
    (cursor s) (stats s) (cpu s).
Definition with_cursor (x : option Cursor) (s : sched) : sched :=
  MkSched (tasks s) (proc_list s) (hash_list s) (current_ s) (idle_proc s) (init_proc s) (process_count s)
    (next_pid s) x (stats s) (cpu s).
Definition with_stats (x : Stats) (s : sched) : sched :=
  MkSched (tasks s) (proc_list s) (hash_list s) (current_ s) (idle_proc s) (init_proc s) (process_count s)
    (next_pid s) (cursor s) x (cpu s).
Definition with_cpu (x : Cpu) (s : sched) : sched :=
  MkSched (tasks s) (proc_list s) (hash_list s) (current_ s) (idle_proc s) (init_proc s) (process_count s)
    (next_pid s) (cursor s) (stats s) x.

Definition on_stats (f : Stats → Stats) : M sched unit := modify (λ s, with_stats (f (stats s)) s).
Definition inc_tick (x : Stats) := MkStats (u64 (tick_count x + 1)) (schedule_calls x) (need_resched_events x) (context_switches x) (same_task_runs x) (pick_idle x) (pick_non_idle x).
Definition inc_calls (x : Stats) := MkStats (tick_count x) (u64 (schedule_calls x + 1)) (need_resched_events x) (context_switches x) (same_task_runs x) (pick_idle x) (pick_non_idle x).
Definition inc_events (x : Stats) := MkStats (tick_count x) (schedule_calls x) (u64 (need_resched_events x + 1)) (context_switches x) (same_task_runs x) (pick_idle x) (pick_non_idle x).
Definition inc_switches (x : Stats) := MkStats (tick_count x) (schedule_calls x) (need_resched_events x) (u64 (context_switches x + 1)) (same_task_runs x) (pick_idle x) (pick_non_idle x).
Definition inc_same (x : Stats) := MkStats (tick_count x) (schedule_calls x) (need_resched_events x) (context_switches x) (u64 (same_task_runs x + 1)) (pick_idle x) (pick_non_idle x).
Definition inc_idle (x : Stats) := MkStats (tick_count x) (schedule_calls x) (need_resched_events x) (context_switches x) (same_task_runs x) (u64 (pick_idle x + 1)) (pick_non_idle x).
Definition inc_non_idle (x : Stats) := MkStats (tick_count x) (schedule_calls x) (need_resched_events x) (context_switches x) (same_task_runs x) (pick_idle x) (u64 (pick_non_idle x + 1)).

(** ** Interrupt guards: [kernel/drivers/intr.cpp] *)

Definition set_irq (b : bool) : M sched unit :=
  modify (λ s, with_cpu (MkCpu b (root (cpu s)) (trap_stack (cpu s))) s).
Definition irq_enable : M sched unit := set_irq true.
Definition irq_disable : M sched unit := set_irq false.
Definition save_impl : M sched bool :=
  b <- gets (λ s, irq (cpu s));;
  if b then irq_disable;; ret true else ret false.
Definition restore_impl (flag : bool) : M sched unit := whenM flag irq_enable.
(** A scope that holds an [intr::Guard]: the destructor runs on every way out. *)
Definition guarded {A} (m : M sched A) : M sched A :=
  flag <- save_impl;;
  r <- try_ m;;
  restore_impl flag;;
  match r with inl a => ret a | inr e => fail e end.

(** ** Access to tasks *)

Definition get_task (t : Z) : M sched Task := s <- get;; deref (tasks s !! t).
Definition upd_task (t : Z) (f : Task → Task) : M sched unit :=
  _ <- get_task t;; modify (λ s, with_tasks (alter f t (tasks s)) s).

(** ** [Task]: [kernel/sched/task.cpp] *)

Definition wakeup (t : Z) : M sched unit :=
  k <- get_task t;;
  assert_ (bool_decide (state k ≠ Zombie));;
  whenM (bool_decide (state k ≠ Runnable)) (upd_task t (set_state Runnable)).
Definition mark_running (t : Z) : M sched unit :=
  k <- get_task t;;
  assert_ (bool_decide (state k ≠ Zombie));;
  whenM (bool_decide (state k ≠ Running)) (upd_task t (set_state Running)).
Definition mark_zombie (t : Z) (code : Z) : M sched unit :=
  upd_task t (set_state Zombie);; upd_task t (set_exit_code code).
Definition sleep (t : Z) : M sched unit :=
  k <- get_task t;;
  assert_ (bool_decide (state k ≠ Zombie));;
  whenM (bool_decide (state k ≠ Sleeping)) (upd_task t (set_state Sleeping)).

(** The name is a buffer of 32 characters; [n] holds the characters before the
    terminator. *)
Definition set_task_name (t : Z) (n : option (list Z)) : M sched unit :=
  match n with None => ret tt | Some n => upd_task t (set_name (take 31 n)) end.

Definition page_table_root_pa (t : Task) : M sched Z :=
  assert_ (bool_decide ((m ← memory t; pgdir m) ≠ None));;
  deref (m ← memory t; pgdir m).

Definition load_root (r : Z) : M sched unit :=
  modify (λ s, with_cpu (MkCpu (irq (cpu s)) r (trap_stack (cpu s))) s).
Definition set_trap_stack (a : Z) : M sched unit :=
  modify (λ s, with_cpu (MkCpu (irq (cpu s)) (root (cpu s)) a) s).

(** Up to [switch_to]; the result is the flag of the guard. *)
Definition run (t : Z) : M sched bool :=
  cur <- gets current_;;
  if bool_decide (Some t = cur) then ret false
  else
    flag <- save_impl;;
    prev <- deref cur;;
    modify (with_current (Some t));;
    mark_running t;;
    k <- get_task t;;
    next_root <- page_table_root_pa k;;
    p <- get_task prev;;
    previous_root <- page_table_root_pa p;;
    whenM (negb (next_root =? previous_root)) (load_root next_root);;
    set_trap_stack (kernel_stack k + KSTACK_SIZE);;
    ret flag.

(** ** [SchedulerPolicy]: [kernel/sched/sched_priority_rr.cpp] *)

Definition calc_time_slice (priority : Z) : Z :=
  let slice := Z.quot (BASE_TIMESLICE * (LOWEST_PRIORITY + 1 - priority)) (DEFAULT + 1) in
  if slice <? 1 then 1 else slice.

Definition policy_tick (current idle : option Z) : M sched unit :=
  match current with
  | None => ret tt
  | Some c =>
      if bool_decide (current = idle) then ret tt
      else
        t <- get_task c;;
        whenM (0 <? time_slice t) (upd_task c (set_time_slice (time_slice t - 1)));;
        t <- get_task c;;
        whenM (time_slice t <=? 0) (upd_task c (set_need_resched 1))
  end.

Definition task_removed (t : Z) : M sched unit :=
  s <- get;; whenM (bool_decide (cursor s = Some (CTask t))) (modify (with_cursor None)).

(** [head.next_node()] and [t->list_node.next_node()]. *)
Definition first_node (l : list Z) : Cursor := match l with [] => CHead | x :: _ => CTask x end.
Definition next_node (l : list Z) (t : Z) : option Cursor :=
  '(i, _) ← list_find (λ x, x = t) l; Some (first_node (drop (S i) l)).
(** The tasks [circular_from(c)] visits, in order; a cursor outside the list
    walks through foreign memory. *)
Definition circular (l : list Z) (c : Cursor) : option (list Z) :=
  match c with
  | CHead => Some l
  | CTask t => '(i, _) ← list_find (λ x, x = t) l; Some (drop i l ++ take i l)
  end.

(** The test on a task in the loop of [pick_next]. *)
Definition eligible (idle current : option Z) (p : Z) (t : Task) : bool :=
  bool_decide ((state t = Runnable ∨ (Some p = current ∧ state t = Running)) ∧ Some p ≠ idle).

Fixpoint pick_loop (idle current : option Z) (l : list Z) (next : option Z) (best_prio : Z) : M sched (option Z) :=
  match l with
  | [] => ret next
  | p :: l =>
      t <- get_task p;;
      if eligible idle current p t && (priority t <? best_prio)
      then pick_loop idle current l (Some p) (priority t)
      else pick_loop idle current l next best_prio
  end.

Definition pick_next (idle current : option Z) : M sched (option Z) :=
  s <- get;;
  whenM (bool_decide (cursor s = None ∨ cursor s = Some CHead))
    (modify (with_cursor (Some (first_node (proc_list s)))));;
  s <- get;;
  c <- deref (cursor s);;
  l <- deref (circular (proc_list s) c);;
  next <- pick_loop idle current l idle (IDLE_PRIO + 1);;
  whenM (bool_decide (next ≠ idle))
    (n <- deref next;;
     c <- deref (next_node (proc_list s) n);;
     modify (with_cursor (Some c)));;
  ret next.

(** ** [Scheduler]: [kernel/sched/sched.cpp] *)

Definition tick : M sched unit :=
  on_stats inc_tick;;
  s <- get;;
  prev_need_resched <-
    match current_ s with None => ret 0 | Some c => t <- get_task c;; ret (need_resched t) end;;
  policy_tick (current_ s) (idle_proc s);;
  match current_ s with
  | None => ret tt
  | Some c =>
      t <- get_task c;;
      whenM ((prev_need_resched =? 0) && negb (need_resched t =? 0)) (on_stats inc_events)
  end.

Definition schedule : M sched (bool * bool) :=
  flag <- save_impl;;
  on_stats inc_calls;;
  s <- get;;
  next <- pick_next (idle_proc s) (current_ s);;
  on_stats (if bool_decide (next = idle_proc s) then inc_idle else inc_non_idle);;
  n <- deref next;;
  t <- get_task n;;
  whenM (time_slice t <=? 0) (upd_task n (set_time_slice (calc_time_slice (priority t))));;
  if bool_decide (next ≠ current_ s) then
    on_stats inc_switches;;
    c <- deref (current_ s);;
    k <- get_task c;;
    whenM (bool_decide (state k = Running)) (wakeup c);;
    upd_task c (set_need_resched 0);;
    flag2 <- run n;;
    ret (flag, flag2)
  else
    on_stats inc_same;;
    upd_task n (set_need_resched 0);;
    ret (flag, false).
(** The guards of [Task::run] and [Scheduler::schedule] on the way out. *)
Definition schedule_exit (flags : bool * bool) : M sched unit :=
  restore_impl flags.2;; restore_impl flags.1.

(** ** The process table: [kernel/sched/task_table.cpp] *)

Definition pid_hash (x : Z) : Z := Z.shiftr (u32 (u32 x * 0x61C88647)) (32 - HASH_SHIFT).

Definition bucket (s : sched) (h : Z) : list Z := default [] (hash_list s !! h).
Definition unlink_from (t : Z) (l : list Z) : list Z := filter (λ x, x ≠ t) l.

Definition add_process (t : Z) : M sched unit :=
  k <- get_task t;;
  modify (λ s, with_hash_list (<[pid_hash (pid k) := t :: bucket s (pid_hash (pid k))]> (hash_list s)) s);;
  modify (λ s, with_proc_list (t :: proc_list s) s);;
  modify (λ s, with_process_count (s32 (process_count s + 1)) s).

Definition remove_process (t : Z) : M sched unit :=
  guarded (
    task_removed t;;
    modify (λ s, with_hash_list (unlink_from t <$> hash_list s) s);;
    modify (λ s, with_proc_list (unlink_from t (proc_list s)) s);;
    modify (λ s, with_process_count (s32 (process_count s - 1)) s)).

Fixpoint find_in (l : list Z) (p : Z) : M sched (option Z) :=
  match l with
  | [] => ret None
  | t :: l => k <- get_task t;; if pid k =? p then ret (Some t) else find_in l p
  end.
Definition find_process (p : Z) : M sched (option Z) :=
  if p <=? 0 then ret None
  else l <- gets (λ s, bucket s (pid_hash p));; find_in l p.

(** [Task::set_links] and [Task::remove_links]; [child_node] leaves whichever
    list of children it is in. *)
Definition set_links (t : Z) : M sched unit :=
  add_process t;;
  k <- get_task t;;
  match parent k with
  | None => ret tt
  | Some p => upd_task p (λ q, set_child_list (t :: child_list q) q)
  end.
Definition unlink_child (t : Z) : M sched unit :=
  modify (λ s, with_tasks ((λ q, set_child_list (unlink_from t (child_list q)) q) <$> tasks s) s).
Definition remove_links (t : Z) : M sched unit :=
  remove_process t;;
  unlink_child t.
