(* ===== verification/SchedProofs.v ===== *)
(** * The scheduler is correct

    [pick_next] chooses an eligible task of the best priority, and among those
    the first one after the last choice; [schedule] switches to it.  The last
    theorem bounds how often a task of the best priority is passed over. *)

From S2P Require Import Prelude Fd Sched.

(** The page-table root of a task. *)
Definition root_of (k : Task) : option Z := m ← memory k; pgdir m.

(** What the scheduler relies on: the process list holds every task once, the
    cursor stays inside it, every task has an address space, the loaded root is
    the current task's, and no task but the current one is marked running. *)
Record sched_ok (s : sched) : Prop := {
  so_list t : t ∈ proc_list s ↔ is_Some (tasks s !! t);
  so_nodup : NoDup (proc_list s);
  so_cursor t : cursor s = Some (CTask t) → t ∈ proc_list s;
  so_idle : ∃ i k, idle_proc s = Some i ∧ tasks s !! i = Some k ∧ (state k = Runnable ∨ state k = Running);
  so_cur : ∃ c k, current_ s = Some c ∧ tasks s !! c = Some k ∧ root_of k = Some (root (cpu s));
  so_mem t k : tasks s !! t = Some k → is_Some (root_of k);
  so_running t k : tasks s !! t = Some k → state k = Running → current_ s = Some t }.

(** The order in which [pick_next] looks at the tasks. *)
Definition order (s : sched) : list Z :=
  match cursor s with
  | Some (CTask t) => default [] (circular (proc_list s) (CTask t))
  | _ => proc_list s
  end.

Lemma find_mid (a b : list Z) x : x ∉ a → list_find (λ y, y = x) (a ++ x :: b) = Some (length a, x).
Proof.
  intros Hx. apply list_find_Some. rewrite list_lookup_middle by done. split_and!; [done..|].
  intros j y Hj Hlt ->. apply Hx. apply list_elem_of_lookup. exists j. by rewrite lookup_app_l in Hj.
Qed.

Lemma circular_mid a b x : x ∉ a → circular (a ++ x :: b) (CTask x) = Some (x :: b ++ a).
Proof. intros Hx. unfold circular. rewrite find_mid by done. cbn [mbind option_bind]. by rewrite drop_app_length, take_app_length. Qed.
Lemma circular_first l : circular l (first_node l) = Some l.
Proof. destruct l as [|x l]; [done|]. pose proof (circular_mid [] l x) as H. cbn [app] in H. cbn [first_node]. rewrite H by set_solver. by rewrite app_nil_r. Qed.
Lemma next_node_mid a b x : x ∉ a → next_node (a ++ x :: b) x = Some (first_node b).
Proof.
  intros Hx. unfold next_node. rewrite find_mid by done. cbn [mbind option_bind].
  replace (Datatypes.S (length a)) with (length (a ++ [x])) by (rewrite length_app; cbn; lia).
  rewrite (cons_middle x a b), (assoc_L (++)). by rewrite drop_app_length.
Qed.

Lemma elem_of_unlink t u l : u ∈ unlink_from t l ↔ u ≠ t ∧ u ∈ l.
Proof. unfold unlink_from. by rewrite list_elem_of_filter. Qed.
Lemma unlink_from_id t l : t ∉ l → unlink_from t l = l.
Proof.
  induction l as [|u l IH]; intros Ht; [done|]. unfold unlink_from. rewrite filter_cons_True by (intros ->; apply Ht; by left).
  f_equal. apply IH. intros ?. apply Ht. by right.
Qed.
Lemma unlink_from_nodup t l : NoDup l → NoDup (unlink_from t l).
Proof. apply NoDup_filter. Qed.

(** The order is a rotation of the process list. *)
Lemma order_rot s : sched_ok s → ∃ u v, proc_list s = u ++ v ∧ order s = v ++ u.
Proof.
  intros Hok. unfold order. destruct (cursor s) as [[|t]|] eqn:Hc; [by exists [], (proc_list s); rewrite app_nil_r| |by exists [], (proc_list s); rewrite app_nil_r].
  destruct (list_elem_of_split _ _ (so_cursor _ Hok _ Hc)) as (a & b & E). pose proof (so_nodup _ Hok) as Hn. rewrite E in Hn |- *.
  apply NoDup_app in Hn as (_ & Hn & _). rewrite circular_mid by set_solver. by exists a, (t :: b).
Qed.

(** After a choice the order starts behind the chosen task. *)
Lemma order_next s x l1 l2 c s1 : sched_ok s → order s = l1 ++ x :: l2 →
  next_node (proc_list s) x = Some c → proc_list s1 = proc_list s → cursor s1 = Some c → order s1 = l2 ++ l1 ++ [x].
Proof.
  intros Hok Ho Hc Hl1 Hc1. destruct (order_rot s Hok) as (u & v & Hp & Hr). rewrite Hr in Ho.
  assert (∃ a b, proc_list s = a ++ x :: b ∧ b ++ a = l2 ++ l1) as (a & b & Hab & Hba).
  { apply app_eq_inv in Ho as [(k & -> & Hk)|(k & -> & ->)].
    - destruct k as [|y k]; cbn in Hk.
      + subst u. exists [], (l2 ++ l1). by rewrite Hp, !app_nil_r.
      + injection Hk as <- ->. exists (u ++ l1), k. rewrite Hp. by rewrite <- !(assoc_L (++)).
    - exists k, (l2 ++ v). rewrite Hp. by rewrite <- !(assoc_L (++)). }
  pose proof (so_nodup _ Hok) as Hn. rewrite Hab in Hn, Hc. apply NoDup_app in Hn as (_ & Hn & Hnb).
  rewrite next_node_mid in Hc by set_solver. injection Hc as <-.
  rewrite (assoc_L (++)), <- Hba. unfold order. rewrite Hc1, Hl1, Hab. destruct b as [|y b]; cbn [first_node]; [done|].
  rewrite (cons_middle x a (y :: b)), (assoc_L (++)), circular_mid; [by cbn; rewrite <- (assoc_L (++))|].
  apply NoDup_cons in Hnb as [Hxb Hnb]. apply NoDup_cons in Hnb as [Hyb _].
  rewrite elem_of_app, list_elem_of_singleton. set_solver.
Qed.

Lemma get_task_Ret t k s : tasks s !! t = Some k → get_task t s = Ret k s.
Proof. intros H. unfold get_task, bind, get. by rewrite H. Qed.
Lemma upd_task_Ret t k f s : tasks s !! t = Some k → upd_task t f s = Ret tt (with_tasks (alter f t (tasks s)) s).
Proof. intros H. unfold upd_task. by rewrite (bind_Ret _ _ _ _ _ (get_task_Ret t k s H)). Qed.

(** The candidates in [s]. *)
Definition candidate (s : sched) (p : Z) (k : Task) : Prop :=
  tasks s !! p = Some k ∧ eligible (idle_proc s) (current_ s) p k = true.

(** The choice among the tasks [l], looked at in this order. *)
Definition chosen (s : sched) (l : list Z) (best : Z) (r : Z) : Prop :=
  ∃ l1 l2 k, l = l1 ++ r :: l2 ∧ candidate s r k ∧ priority k < best ∧
    (∀ q kq, q ∈ l1 → candidate s q kq → priority k < priority kq) ∧
    (∀ q kq, q ∈ l2 → candidate s q kq → priority k ≤ priority kq).

Lemma pick_loop_spec s l next best : (∀ p, p ∈ l → is_Some (tasks s !! p)) →
  ∃ r, pick_loop (idle_proc s) (current_ s) l next best s = Ret r s ∧
    ((r = next ∧ ∀ q kq, q ∈ l → candidate s q kq → best ≤ priority kq) ∨ ∃ x, r = Some x ∧ chosen s l best x).
Proof.
  revert next best. induction l as [|p l IH]; intros next best Hl.
  { exists next. split; [done|]. left. split; [done|]. by intros ? ? ?%elem_of_nil. }
  destruct (Hl p) as [k Hk]; [by left|]. cbn [pick_loop]. rewrite (bind_Ret _ _ _ _ _ (get_task_Ret p k s Hk)).
  assert (∀ q, q ∈ l → is_Some (tasks s !! q)) as Hl' by (intros q Hq; apply Hl; by right).
  destruct (eligible _ _ p k) eqn:He; [destruct (Z.ltb_spec (priority k) best) as [Hlt|Hge]|]; cbn [andb].
  - destruct (IH (Some p) (priority k) Hl') as (r & Hr & [[-> Hmin]|(x & -> & l1 & l2 & k' & -> & Hc & Hlt' & H1 & H2)]).
    + exists (Some p). split; [done|]. right. exists p. split; [done|]. exists [], l, k. split_and!; [done..| |done]. by intros ? ? ?%elem_of_nil.
    + exists (Some x). split; [done|]. right. exists x. split; [done|]. exists (p :: l1), l2, k'. split_and!; [done..|lia| |done].
      intros q kq [->|Hq]%elem_of_cons [Hq1 Hq2]; [by simplify_eq|]. by apply (H1 q).
  - destruct (IH next best Hl') as (r & Hr & [[-> Hmin]|(x & -> & l1 & l2 & k' & -> & Hc & Hlt' & H1 & H2)]).
    + exists next. split; [done|]. left. split; [done|]. intros q kq [->|Hq]%elem_of_cons Hc; [destruct Hc; simplify_eq; lia|by apply (Hmin q)].
    + exists (Some x). split; [done|]. right. exists x. split; [done|]. exists (p :: l1), l2, k'. split_and!; [done..| |done].
      intros q kq [->|Hq]%elem_of_cons Hq'; [destruct Hq'; simplify_eq; lia|]. by apply (H1 q).
  - destruct (IH next best Hl') as (r & Hr & [[-> Hmin]|(x & -> & l1 & l2 & k' & -> & Hc & Hlt' & H1 & H2)]).
    + exists next. split; [done|]. left. split; [done|]. intros q kq [->|Hq]%elem_of_cons Hc; [destruct Hc; simplify_eq; congruence|by apply (Hmin q)].
    + exists (Some x). split; [done|]. right. exists x. split; [done|]. exists (p :: l1), l2, k'. split_and!; [done..| |done].
      intros q kq [->|Hq]%elem_of_cons Hq'; [destruct Hq'; simplify_eq; congruence|]. by apply (H1 q).
Qed.

(** The outcome of [pick_next]: the idle task when there is no candidate, and
    otherwise the choice along the order, behind which the cursor then stands. *)
Definition picks (s : sched) (n : Z) (c' : Cursor) : Prop :=
  (idle_proc s = Some n ∧ ∀ q kq, candidate s q kq → IDLE_PRIO < priority kq) ∨
  (idle_proc s ≠ Some n ∧ chosen s (order s) (IDLE_PRIO + 1) n ∧ next_node (proc_list s) n = Some c').

Lemma chosen_not_idle s l b n : chosen s l b n → idle_proc s ≠ Some n.
Proof. intros (l1 & l2 & k & _ & [_ He] & _). unfold eligible in He. apply bool_decide_eq_true in He as [_ He]. congruence. Qed.

Lemma order_elem s t : sched_ok s → t ∈ order s ↔ t ∈ proc_list s.
Proof. intros Hok. destruct (order_rot s Hok) as (u & v & -> & ->). set_solver. Qed.

(** The cursor the walk starts from. *)
Definition start_cursor (s : sched) : Cursor :=
  match cursor s with Some (CTask t) => CTask t | _ => first_node (proc_list s) end.
Lemma circular_start s : sched_ok s → circular (proc_list s) (start_cursor s) = Some (order s).
Proof.
  intros Hok. unfold start_cursor, order. destruct (cursor s) as [[|t]|] eqn:Hc.
  - apply circular_first.
  - destruct (list_elem_of_split _ _ (so_cursor _ Hok _ Hc)) as (a & b & E). pose proof (so_nodup _ Hok) as Hn. rewrite E in Hn |- *.
    apply NoDup_app in Hn as (_ & Hn & _). by rewrite circular_mid by set_solver.
  - apply circular_first.
Qed.

Lemma candidate_cursor s c p k : candidate (with_cursor c s) p k ↔ candidate s p k.
Proof. done. Qed.

Lemma pick_next_spec s : sched_ok s →
  ∃ n c, pick_next (idle_proc s) (current_ s) s = Ret (Some n) (with_cursor (Some c) s) ∧ picks s n c ∧
    (∀ t, c = CTask t → t ∈ proc_list s) ∧ is_Some (tasks s !! n).
Proof.
  intros Hok. destruct (so_idle _ Hok) as (i & ki & Hi & Hki & _). set (c0 := start_cursor s). set (s0 := with_cursor (Some c0) s).
  assert (∀ A (k : sched → M sched A), bind get (λ s : sched, bind (whenM (bool_decide (cursor s = None ∨ cursor s = Some CHead))
    (modify (with_cursor (Some (first_node (proc_list s)))))) (λ _, bind get k)) s = k s0 s0) as Hget.
  { intros A k. unfold s0, c0, start_cursor, bind, get, whenM, modify, ret. destruct s as [a b c d e f g h [[|t]|] j l]; by cbn. }
  unfold pick_next. rewrite Hget. clear Hget. cbn [cursor s0 with_cursor]. change (deref (Some c0)) with (@ret sched _ c0). rewrite bind_ret.
  change (proc_list s0) with (proc_list s). unfold c0 at 1. rewrite circular_start by done. change (deref (Some ?x)) with (@ret sched _ x). rewrite bind_ret.
  destruct (pick_loop_spec s0 (order s) (idle_proc s) (IDLE_PRIO + 1)) as (r & Hr & Hcase).
  { intros p Hp. apply (so_list _ Hok). by apply order_elem. }
  rewrite (bind_Ret _ _ _ _ _ Hr). destruct Hcase as [[-> Hmin]|(x & -> & Hx)].
  - rewrite bool_decide_eq_false_2 by naive_solver. cbn [whenM]. rewrite bind_ret. exists i, c0. rewrite Hi. split; [done|]. split; [|split].
    + left. split; [done|]. intros q kq Hq. pose proof (Hmin q kq). assert (q ∈ order s); [|unfold candidate in *; cbn in *; specialize (Hmin q kq H0 Hq); lia].
      apply order_elem; [done|]. apply (so_list _ Hok). destruct Hq as [-> _]. done.
    + intros t. unfold c0, start_cursor. destruct (cursor s) as [[|t']|] eqn:Hc; [| |].
      * destruct (proc_list s); cbn; [done|]. intros [= <-]. by left.
      * intros [= <-]. by apply (so_cursor _ Hok).
      * destruct (proc_list s); cbn; [done|]. intros [= <-]. by left.
    + done.
  - pose proof (chosen_not_idle _ _ _ _ Hx) as Hne. change (idle_proc s0) with (idle_proc s) in Hne.
    assert (x ∈ proc_list s) as Hin. { apply order_elem; [done|]. destruct Hx as (l1 & l2 & k & -> & _). set_solver. }
    destruct (list_elem_of_split _ _ Hin) as (a & b & E). assert (next_node (proc_list s) x = Some (first_node b)) as Hnx.
    { pose proof (so_nodup _ Hok) as Hn. rewrite E in Hn |- *. apply NoDup_app in Hn as (_ & Hn & _). apply next_node_mid. set_solver. }
    rewrite bool_decide_eq_true_2 by congruence. cbn [whenM]. exists x, (first_node b). split; [|split; [|split]].
    + unfold bind, deref, ret. cbn. rewrite Hnx. done.
    + right. split; [done|]. split; [|done]. done.
    + intros t Ht. rewrite E. destruct b; cbn in Ht; [done|]. injection Ht as ->. set_solver.
    + apply (so_list _ Hok). done.
Qed.

(** What [schedule] does to the task it selects and to the one it leaves. *)
Definition refill (k : Task) : Task :=
  if time_slice k <=? 0 then set_time_slice (calc_time_slice (priority k)) k else k.
Definition leave (k : Task) : Task :=
  set_need_resched 0 (if bool_decide (state k = Running) then set_state Runnable k else k).
Definition enter (k : Task) : Task := set_state Running (refill k).
Definition stay (k : Task) : Task := set_need_resched 0 (refill k).

(** [s'] is [s] after a switch from [c] to [n]. *)
Record switched (s : sched) (c n : Z) (s' : sched) : Prop := {
  sw_tasks : tasks s' = if decide (n = c) then alter stay n (tasks s) else alter enter n (alter leave c (tasks s));
  sw_current : current_ s' = Some n;
  sw_list : proc_list s' = proc_list s;
  sw_hash : hash_list s' = hash_list s;
  sw_idle : idle_proc s' = idle_proc s;
  sw_init : init_proc s' = init_proc s;
  sw_count : process_count s' = process_count s;
  sw_pid : next_pid s' = next_pid s;
  sw_cursor : ∃ c', cursor s' = Some c' ∧ picks s n c' ∧ ∀ t, c' = CTask t → t ∈ proc_list s;
  sw_irq : irq (cpu s') = false;
  sw_root : ∃ k, tasks s !! n = Some k ∧ root_of k = Some (root (cpu s')) }.

Lemma save_impl_spec s : ∃ s1, save_impl s = Ret (irq (cpu s)) s1 ∧
  s1 = with_cpu (MkCpu false (root (cpu s)) (trap_stack (cpu s))) s.
Proof. unfold save_impl, gets, bind, irq_disable, set_irq, modify, ret. destruct s as [? ? ? ? ? ? ? ? ? ? [[] r t]]; cbn; eauto. Qed.

Lemma root_of_Ret k r s : root_of k = Some r → page_table_root_pa k s = Ret r s.
Proof. intros H. unfold page_table_root_pa. fold (root_of k). rewrite H. done. Qed.

Lemma root_of_refill k : root_of (refill k) = root_of k.
Proof. unfold refill. by destruct (_ <=? _). Qed.
Lemma root_of_leave k : root_of (leave k) = root_of k.
Proof. unfold leave. by case_bool_decide. Qed.
Lemma state_refill k : state (refill k) = state k.
Proof. unfold refill. by destruct (_ <=? _). Qed.

(** A conditional update is the update by a conditional function. *)
Lemma upd_when t k f (b : Task → bool) s : tasks s !! t = Some k →
  whenM (b k) (upd_task t f) s = Ret tt (with_tasks (alter (λ k, if b k then f k else k) t (tasks s)) s).
Proof.
  intros Hk. unfold whenM. destruct (b k) eqn:Hb.
  - rewrite (upd_task_Ret t k) by done. f_equal. f_equal. apply map_eq. intros i. destruct (decide (i = t)) as [->|Hi].
    + by rewrite !lookup_alter_eq, Hk; cbn; rewrite Hb.
    + by rewrite !lookup_alter_ne.
  - unfold ret. f_equal. replace (alter _ t (tasks s)) with (tasks s); [by destruct s|]. apply map_eq. intros i. destruct (decide (i = t)) as [->|Hi].
    + by rewrite lookup_alter_eq, Hk; cbn; rewrite Hb.
    + by rewrite lookup_alter_ne.
Qed.

(** [wakeup], [sleep] and [mark_running] set the state of a live task. *)
Lemma mark_Ret x t k s : tasks s !! t = Some k → state k ≠ Zombie →
  (k <- get_task t;; assert_ (bool_decide (state k ≠ Zombie));;
   whenM (bool_decide (state k ≠ x)) (upd_task t (set_state x))) s =
  Ret tt (with_tasks (alter (set_state x) t (tasks s)) s).
Proof.
  intros Hk Hz. rewrite (bind_Ret _ _ _ _ _ (get_task_Ret t k s Hk)), bool_decide_eq_true_2 by done. cbn [assert_]. rewrite bind_ret.
  rewrite (upd_when t k _ (λ k, bool_decide (state k ≠ x))) by done. f_equal. f_equal. apply alter_ext. intros k' Hk'. simplify_eq.
  case_bool_decide as Hs; [done|]. destruct k; cbn in *; by subst.
Qed.
Lemma wakeup_Ret t k s : tasks s !! t = Some k → state k ≠ Zombie →
  wakeup t s = Ret tt (with_tasks (alter (set_state Runnable) t (tasks s)) s).
Proof. apply mark_Ret. Qed.
Lemma sleep_Ret t k s : tasks s !! t = Some k → state k ≠ Zombie →
  sleep t s = Ret tt (with_tasks (alter (set_state Sleeping) t (tasks s)) s).
Proof. apply mark_Ret. Qed.
Lemma mark_running_Ret t k s : tasks s !! t = Some k → state k ≠ Zombie →
  mark_running t s = Ret tt (with_tasks (alter (set_state Running) t (tasks s)) s).
Proof. apply mark_Ret. Qed.

(** [Task::run] of another task. *)
Lemma run_Ret n kn c kc r rc s : current_ s = Some c → n ≠ c → irq (cpu s) = false →
  tasks s !! n = Some kn → state kn ≠ Zombie → root_of kn = Some r →
  tasks s !! c = Some kc → root_of kc = Some rc → rc = root (cpu s) →
  run n s = Ret false (with_cpu (MkCpu false r (kernel_stack kn + KSTACK_SIZE))
    (with_tasks (alter (set_state Running) n (tasks s)) (with_current (Some n) s))).
Proof.
  intros Hc Hne Hirq Hn Hz Hr Hkc Hrc Hroot. unfold run. rewrite (bind_Ret _ _ _ (Some c) s) by (unfold gets; by rewrite Hc).
  rewrite bool_decide_eq_false_2 by congruence. destruct (save_impl_spec s) as (s1 & Hs1 & E1). rewrite (bind_Ret _ _ _ _ _ Hs1), Hirq.
  rewrite (bind_Ret _ _ _ c s1) by done. rewrite (bind_Ret _ _ _ tt (with_current (Some n) s1)) by done.
  set (s2 := with_current (Some n) s1). assert (tasks s2 = tasks s) as Ht by (unfold s2; by rewrite E1).
  rewrite (bind_Ret _ _ _ _ _ (mark_running_Ret n kn s2 ltac:(by rewrite Ht) Hz)). rewrite Ht. set (s3 := with_tasks _ s2).
  assert (tasks s3 !! n = Some (set_state Running kn)) as H3n by (unfold s3; cbn; by rewrite lookup_alter_eq, Hn).
  assert (tasks s3 !! c = Some kc) as H3c by (unfold s3; cbn; by rewrite lookup_alter_ne).
  rewrite (bind_Ret _ _ _ _ _ (get_task_Ret _ _ _ H3n)), (bind_Ret _ _ _ _ _ (root_of_Ret (set_state Running kn) r s3 Hr)).
  rewrite (bind_Ret _ _ _ _ _ (get_task_Ret _ _ _ H3c)), (bind_Ret _ _ _ _ _ (root_of_Ret kc rc s3 Hrc)).
  subst s3 s2 s1 rc. destruct s as [ts ? ? ? ? ? ? ? ? ? [i r0 tst]]. cbn in *. subst i.
  unfold bind, whenM, load_root, set_trap_stack, modify, ret. destruct (Z.eqb_spec r r0) as [->|]; cbn; done.
Qed.

(** The invariant does not depend on the counters and the interrupt flag. *)
Lemma sched_ok_same s s' : sched_ok s → tasks s' = tasks s → proc_list s' = proc_list s → cursor s' = cursor s →
  idle_proc s' = idle_proc s → current_ s' = current_ s → root (cpu s') = root (cpu s) → sched_ok s'.
Proof. intros [H1 H2 H3 H4 H5 H6 H7] E1 E2 E3 E4 E5 E6. constructor; rewrite ?E1, ?E2, ?E3, ?E4, ?E5, ?E6; auto. Qed.

Lemma picks_live s n c k : picks s n c → sched_ok s → tasks s !! n = Some k → state k ≠ Zombie.
Proof.
  intros [[Hi _]|(_ & (l1 & l2 & k' & _ & [Hk' He] & _) & _)] Hok Hk.
  - destruct (so_idle _ Hok) as (i & ki & Hi' & Hki & Hz). simplify_eq. by destruct Hz as [->| ->].
  - simplify_eq. unfold eligible in He. apply bool_decide_eq_true in He as [[->|[_ ->]] _]; done.
Qed.

Lemma alter_if {f : Task → Task} (b : Task → bool) (m : gmap Z Task) t k : m !! t = Some k →
  alter (λ k, if b k then f k else k) t m = if b k then alter f t m else m.
Proof.
  intros Hk. apply map_eq. intros i. destruct (decide (i = t)) as [->|Hi].
  - rewrite lookup_alter_eq, Hk. cbn. destruct (b k); by rewrite ?lookup_alter_eq, Hk.
  - rewrite lookup_alter_ne by done. by destruct (b k); rewrite ?lookup_alter_ne.
Qed.

(** The part of [schedule] behind [pick_next]. *)
Lemma switch_spec (flag : bool) s c kc n kn : current_ s = Some c → tasks s !! c = Some kc → root_of kc = Some (root (cpu s)) →
  tasks s !! n = Some kn → state kn ≠ Zombie → is_Some (root_of kn) → irq (cpu s) = false →
  let m := (t <- get_task n;;
    whenM (time_slice t <=? 0) (upd_task n (set_time_slice (calc_time_slice (priority t))));;
    if bool_decide (Some n ≠ Some c) then
      on_stats inc_switches;;
      c <- deref (Some c);;
      k <- get_task c;;
      whenM (bool_decide (state k = Running)) (wakeup c);;
      upd_task c (set_need_resched 0);;
      flag2 <- run n;;
      ret (flag, flag2)
    else on_stats inc_same;; upd_task n (set_need_resched 0);; ret (flag, false)) in
  ∃ st' cpu', irq cpu' = false ∧ root_of kn = Some (root cpu') ∧
    m s = Ret (flag, false) (with_stats st' (with_cpu cpu' (with_current (Some n) (with_tasks
      (if decide (n = c) then alter stay n (tasks s) else alter enter n (alter leave c (tasks s))) s)))).
Proof.
  intros Hc Hkc Hrc Hn Hz [r Hr] Hirq m. unfold m. rewrite (bind_Ret _ _ _ _ _ (get_task_Ret n kn s Hn)).
  rewrite (bind_Ret _ _ _ _ _ (upd_when n kn (set_time_slice (calc_time_slice (priority kn))) (λ k, time_slice k <=? 0) s Hn)).
  assert (alter (λ k, if time_slice k <=? 0 then set_time_slice (calc_time_slice (priority kn)) k else k) n (tasks s) = alter refill n (tasks s)) as ->.
  { apply alter_ext. intros k Hk. by simplify_eq. }
  set (s1 := with_tasks _ s). destruct (decide (n = c)) as [->|Hne].
  - simplify_eq. rewrite bool_decide_eq_false_2 by naive_solver. exists (inc_same (stats s)), (cpu s). split_and!; [done..|].
    rewrite (bind_Ret _ _ _ tt (with_stats (inc_same (stats s)) s1)) by done.
    rewrite (bind_Ret _ _ _ _ _ (upd_task_Ret c (refill kc) (set_need_resched 0) (with_stats (inc_same (stats s)) s1) ltac:(cbn; by rewrite lookup_alter_eq, Hkc))).
    unfold ret. f_equal. unfold s1. cbn. rewrite alter_alter_eq. destruct s. cbn in *. by subst.
  - rewrite bool_decide_eq_true_2 by naive_solver. rewrite (bind_Ret _ _ _ tt (with_stats (inc_switches (stats s)) s1)) by done.
    set (s2 := with_stats _ s1). rewrite (bind_Ret _ _ _ c s2) by done.
    assert (tasks s2 !! c = Some kc) as H2 by (cbn; by rewrite lookup_alter_ne). rewrite (bind_Ret _ _ _ _ _ (get_task_Ret c kc s2 H2)).
    assert (whenM (bool_decide (state kc = Running)) (wakeup c) s2 = Ret tt (with_tasks (alter (λ k, if bool_decide (state k = Running) then set_state Runnable k else k) c (tasks s2)) s2)) as Hw.
    { rewrite (alter_if _ _ c kc H2). case_bool_decide as Hs; cbn [whenM]; [|unfold ret; f_equal; by destruct s]. apply (wakeup_Ret c kc); [done|]. by rewrite Hs. }
    rewrite (bind_Ret _ _ _ _ _ Hw). set (s3 := with_tasks _ s2).
    erewrite (bind_Ret _ _ s3) by (eapply upd_task_Ret; cbn; by rewrite lookup_alter_eq, lookup_alter_ne, Hkc by done). cbn [tasks s3 with_tasks]. rewrite alter_alter_eq.
    set (s4 := with_tasks _ s3). assert (tasks s4 = alter refill n (alter leave c (tasks s))) as E4.
    { cbn. rewrite alter_alter_ne by done. f_equal. }
    rewrite (bind_Ret _ _ _ _ _ (run_Ret n (refill kn) c (leave kc) r (root (cpu s)) s4 Hc Hne Hirq
      ltac:(by rewrite E4, lookup_alter_eq, lookup_alter_ne, Hn by done) ltac:(by rewrite state_refill) ltac:(by rewrite root_of_refill)
      ltac:(by rewrite E4, lookup_alter_ne, lookup_alter_eq, Hkc by done) ltac:(by rewrite root_of_leave) eq_refl)).
    rewrite E4, alter_alter_eq. exists (inc_switches (stats s)), (MkCpu false r (kernel_stack (refill kn) + KSTACK_SIZE)). split_and!; [done..|].
    unfold ret. f_equal.
Qed.

Lemma schedule_spec s : sched_ok s →
  ∃ c n s', current_ s = Some c ∧ schedule s = Ret (irq (cpu s), false) s' ∧ switched s c n s'.
Proof.
  intros Hok. destruct (so_cur _ Hok) as (c & kc & Hc & Hkc & Hrc). unfold schedule.
  destruct (save_impl_spec s) as (s1 & Hs1 & E1). rewrite (bind_Ret _ _ _ _ _ Hs1).
  rewrite (bind_Ret _ _ _ tt (with_stats (inc_calls (stats s1)) s1)) by done. set (s2 := with_stats _ s1).
  assert (sched_ok s2) as Hok2 by (apply (sched_ok_same s); [done|by unfold s2; rewrite E1..]).
  rewrite (bind_Ret _ _ _ s2 s2) by done. destruct (pick_next_spec s2 Hok2) as (n & c' & Hp & Hpick & Hc' & [kn Hn]).
  rewrite (bind_Ret _ _ _ _ _ Hp). unfold on_stats at 1. rewrite (bind_Ret _ _ _ tt (with_stats ((if bool_decide (Some n = idle_proc s2) then inc_idle else inc_non_idle) (stats s2)) (with_cursor (Some c') s2))) by done.
  set (s3 := with_stats _ (with_cursor _ s2)). rewrite (bind_Ret _ _ _ n s3) by done.
  assert (tasks s3 = tasks s ∧ current_ s3 = Some c ∧ current_ s2 = Some c ∧ tasks s2 = tasks s) as (Ht3 & Hc3 & Hc2 & Ht2) by (unfold s3, s2; rewrite E1; done).
  rewrite Hc2. destruct (switch_spec (irq (cpu s)) s3 c kc n kn Hc3) as (st' & cpu' & Hirq & Hroot & Hm).
  { by rewrite Ht3. } { unfold s3, s2. by rewrite E1. } { by rewrite Ht3, <- Ht2. } { by apply (picks_live s2 n c'). } { by apply (so_mem _ Hok2 n). } { unfold s3, s2. by rewrite E1. }
  exists c, n. eexists. split; [done|]. split; [exact Hm|]. rewrite Ht3. constructor; try (unfold s3, s2; rewrite E1; done).
  - exists c'. split; [done|]. unfold s2 in Hpick, Hc'. rewrite E1 in Hpick, Hc'. done.
  - exists kn. split; [by rewrite <- Ht2|done].
Qed.

(** The tasks after a switch, one by one. *)
Lemma switched_lookup s c n s' t : switched s c n s' →
  tasks s' !! t = (λ k, if decide (t = n) then (if decide (n = c) then stay k else enter k) else if decide (t = c) then leave k else k) <$> tasks s !! t.
Proof.
  intros H. rewrite (sw_tasks _ _ _ _ H). destruct (decide (t = n)) as [->|Hn], (decide (n = c)) as [->|Hne]; cbn.
  - by rewrite lookup_alter_eq.
  - by rewrite lookup_alter_eq, lookup_alter_ne.
  - rewrite lookup_alter_ne by done. destruct (decide (t = c)); [done|]. by rewrite option_fmap_id.
  - rewrite lookup_alter_ne by done. destruct (decide (t = c)) as [->|]; [by rewrite lookup_alter_eq|].
    rewrite lookup_alter_ne by done. by rewrite option_fmap_id.
Qed.

Lemma root_of_switched k (t c n : Z) :
  root_of (if decide (t = n) then (if decide (n = c) then stay k else enter k) else if decide (t = c) then leave k else k) = root_of k.
Proof. destruct (decide (t = n)), (decide (n = c)), (decide (t = c)); rewrite ?root_of_leave; try done; unfold stay, enter; apply (root_of_refill k). Qed.

Lemma switched_ok s c n s' : sched_ok s → current_ s = Some c → switched s c n s' → sched_ok s'.
Proof.
  intros Hok Hc Hsw. pose proof (λ t, switched_lookup s c n s' t Hsw) as Hl. destruct (sw_cursor _ _ _ _ Hsw) as (c' & Hcur & Hpick & Hc'). constructor.
  - intros t. rewrite (sw_list _ _ _ _ Hsw), Hl, fmap_is_Some. apply (so_list _ Hok).
  - rewrite (sw_list _ _ _ _ Hsw). apply (so_nodup _ Hok).
  - intros t. rewrite Hcur, (sw_list _ _ _ _ Hsw). intros [= ->]. by apply Hc'.
  - destruct (so_idle _ Hok) as (i & k & Hi & Hk & Hz). rewrite (sw_idle _ _ _ _ Hsw). exists i. eexists. split; [done|]. rewrite Hl, Hk. split; [done|].
    destruct (decide (i = n)), (decide (n = c)), (decide (i = c)); unfold stay, leave, enter; cbn; rewrite ?state_refill; try case_bool_decide; auto.
  - destruct (sw_root _ _ _ _ Hsw) as (k & Hk & Hr). exists n. eexists. rewrite (sw_current _ _ _ _ Hsw), Hl, Hk. split; [done|]. split; [done|]. by rewrite root_of_switched.
  - intros t k. rewrite Hl. intros (k0 & Hk0 & ->)%fmap_Some. rewrite root_of_switched. by apply (so_mem _ Hok t).
  - intros t k. rewrite Hl, (sw_current _ _ _ _ Hsw). intros (k0 & Hk0 & ->)%fmap_Some. destruct (decide (t = n)) as [->|Hn]; [done|].
    destruct (decide (t = c)) as [->|Hne]; [|intros Hs; pose proof (so_running _ Hok t k0 Hk0 Hs); congruence].
    unfold leave. cbn. case_bool_decide; [done|]. intros Hs. done.
Qed.

(** ** The status of a task *)

(** The state of a task up to whether it is on the CPU. *)
Definition norm (x : TaskState) : TaskState := if bool_decide (x = Running) then Runnable else x.
Definition status (s : sched) (t : Z) : option TaskState := (λ k, norm (state k)) <$> tasks s !! t.
(** The current task may run. *)
Definition cur_ready (s : sched) : Prop := ∃ c, current_ s = Some c ∧ status s c = Some Runnable.

Lemma norm_ready x : norm x = Runnable ↔ x = Runnable ∨ x = Running.
Proof. unfold norm. case_bool_decide; naive_solver. Qed.
Lemma norm_other x y : y ≠ Runnable → norm x = y → x = y.
Proof. by destruct x, y. Qed.
Lemma norm_leave k : norm (state (leave k)) = norm (state k).
Proof. destruct k as [? ? ? ? ? ? ? [] ? ? ? ? ? ? ? ? ?]; done. Qed.

Lemma picks_ready s n c : picks s n c → sched_ok s → status s n = Some Runnable.
Proof.
  unfold status. intros [[Hi _]|(_ & (l1 & l2 & k' & _ & [Hk' He] & _) & _)] Hok.
  - destruct (so_idle _ Hok) as (i & ki & Hi' & Hki & Hz). simplify_eq. rewrite Hki. cbn. f_equal. by apply norm_ready.
  - rewrite Hk'. cbn. f_equal. apply norm_ready. unfold eligible in He. apply bool_decide_eq_true in He as [[->|[_ ->]] _]; auto.
Qed.

(** A switch changes the status of no task. *)
Lemma switched_status s c n s' t : sched_ok s → switched s c n s' → status s' t = status s t.
Proof.
  intros Hok Hsw. destruct (sw_cursor _ _ _ _ Hsw) as (c' & _ & Hpick & _). pose proof (picks_ready s n c' Hpick Hok) as Hr.
  unfold status in *. rewrite (switched_lookup _ _ _ _ t Hsw). destruct (tasks s !! t) as [k|] eqn:Hk; [|done]. cbn. f_equal.
  destruct (decide (t = n)) as [->|].
  - rewrite Hk in Hr. injection Hr as Hr. rewrite Hr. destruct (decide (n = c)); [|done]. unfold stay. cbn. by rewrite state_refill.
  - destruct (decide (t = c)); [|done]. apply norm_leave.
Qed.
Lemma switched_ready s c n s' : sched_ok s → switched s c n s' → cur_ready s'.
Proof.
  intros Hok Hsw. exists n. split; [apply (sw_current _ _ _ _ Hsw)|]. rewrite (switched_status s c n) by done.
  destruct (sw_cursor _ _ _ _ Hsw) as (c' & _ & Hpick & _). by apply (picks_ready s n c').
Qed.

(** The invariant under a change of one task's state. *)
Lemma sched_ok_set s t k x : sched_ok s → tasks s !! t = Some k → x ≠ Running →
  (idle_proc s = Some t → x = Runnable) → sched_ok (with_tasks (alter (set_state x) t (tasks s)) s).
Proof.
  intros Hok Hk Hx Hidle. pose proof Hok as [H1 H2 H3 (i & ki & Hi & Hki & Hz) (c & kc & Hc & Hkc & Hr) H6 H7]. constructor; cbn.
  - intros p. rewrite H1. destruct (decide (p = t)) as [->|]; [by rewrite lookup_alter_eq, fmap_is_Some|by rewrite lookup_alter_ne].
  - done.
  - done.
  - exists i. destruct (decide (i = t)) as [->|]; [|exists ki; by rewrite lookup_alter_ne].
    exists (set_state x ki). rewrite lookup_alter_eq, Hki. split; [done|]. split; [done|]. left. by apply Hidle.
  - exists c. destruct (decide (c = t)) as [->|]; [|exists kc; by rewrite lookup_alter_ne].
    exists (set_state x kc). by rewrite lookup_alter_eq, Hkc.
  - intros p q [[-> (q0 & Hq0 & ->)]|[_ Hq]]%lookup_alter_Some; [by apply (H6 p q0)|by apply (H6 p)].
  - intros p q [[-> (q0 & Hq0 & ->)]|[_ Hq]]%lookup_alter_Some; [done|by apply H7].
Qed.

(** ** Fairness *)

(** [t] waits for the CPU, and no candidate has a better priority. *)
Definition contends (t : Z) (s : sched) : Prop :=
  ∃ k, candidate s t k ∧ priority k ≤ IDLE_PRIO ∧ ∀ q kq, candidate s q kq → priority k ≤ priority kq.

(** [starves t s n]: from [s] on, [schedule] runs [n] times without selecting
    [t], which contends all the while.  Between the runs the rest of the state
    may change in any way that keeps the process list and the cursor. *)
Inductive starves (t : Z) : sched → nat → Prop :=
| starves_0 s : sched_ok s → contends t s → starves t s 0
| starves_S s flags s' s1 n : sched_ok s → contends t s → schedule s = Ret flags s' → current_ s' ≠ Some t →
    proc_list s1 = proc_list s' → cursor s1 = cursor s' → starves t s1 n → starves t s (S n).

Lemma split_unique (l a b a' b' : list Z) t : NoDup l → l = a ++ t :: b → l = a' ++ t :: b' → a = a'.
Proof.
  intros Hn -> E. assert (t ∉ a) as Ha by (apply NoDup_app in Hn as (_ & Hn & _); set_solver).
  rewrite E in Hn. assert (t ∉ a') as Ha' by (apply NoDup_app in Hn as (_ & Hn & _); set_solver).
  pose proof (find_mid a b t Ha) as H1. rewrite E, (find_mid a' b' t Ha') in H1. injection H1 as Hl.
  by apply app_inj_1 in E as [-> _].
Qed.

Lemma order_nodup s : sched_ok s → NoDup (order s).
Proof.
  intros Hok. destruct (order_rot s Hok) as (u & v & Hu & ->). rewrite (comm (++)), <- Hu. apply (so_nodup _ Hok).
Qed.

Lemma starves_distance t s n : starves t s n → ∀ l1 l2, order s = l1 ++ t :: l2 → (n ≤ length l1)%nat.
Proof.
  induction 1 as [s Hok _|s flags s' s1 n Hok Hcont Hs Hne Hl Hc Hst IH]; intros l1 l2 Ho; [lia|].
  destruct (schedule_spec s Hok) as (c & x & s'' & Hcur & Hs' & Hsw). rewrite Hs in Hs'. injection Hs' as -> <-.
  destruct Hcont as (k & Hcand & Hp & Hbest). destruct (sw_cursor _ _ _ _ Hsw) as (c' & Hc' & [[Hi Hnone]|(_ & Hx & Hnx)] & _).
  { specialize (Hnone t k Hcand). lia. }
  destruct Hx as (m1 & m2 & kx & Hox & Hcx & _ & Hm1 & _). rewrite (sw_current _ _ _ _ Hsw) in Hne.
  assert (t ∈ order s) as Hin by (rewrite Ho; set_solver). rewrite Hox in Hin. apply elem_of_app in Hin as [Hin|Hin].
  { specialize (Hm1 t k Hin Hcand). specialize (Hbest x kx Hcx). lia. }
  apply elem_of_cons in Hin as [->|Hin]; [done|]. destruct (list_elem_of_split _ _ Hin) as (a & b & ->).
  assert (n ≤ length a)%nat as Hn.
  { apply (IH a (b ++ m1 ++ [x])). rewrite (order_next s x m1 (a ++ t :: b) c' s1); [by rewrite <- (assoc_L (++))|done..|by rewrite Hl, (sw_list _ _ _ _ Hsw)|by rewrite Hc]. }
  assert (l1 = m1 ++ x :: a) as ->; [|rewrite length_app; cbn; lia].
  apply (split_unique (order s) _ l2 _ b t); [by apply order_nodup|done|]. rewrite Hox, <- (assoc_L (++)). done.
Qed.

(** C12: [schedule] always comes back with a candidate of the best priority on
    the CPU, marked running with a positive time slice and its page table
    loaded, or with the idle task when there is no candidate; and a task that
    contends for the CPU with no better candidate around is passed over fewer
    times than there are tasks, whatever the tasks in front of it do. *)
Theorem schedule_fair (s : sched) : sched_ok s →
  (∃ flags s' n k k', schedule s = Ret flags s' ∧ sched_ok s' ∧ current_ s' = Some n ∧ tasks s !! n = Some k ∧ tasks s' !! n = Some k' ∧
     (idle_proc s = Some n ∨ candidate s n k) ∧
     (current_ s ≠ Some n → state k' = Running) ∧ 1 ≤ time_slice k' ∧ root_of k' = Some (root (cpu s')) ∧
     (∀ q kq, candidate s q kq → priority kq ≤ IDLE_PRIO → candidate s n k ∧ priority k ≤ priority kq)) ∧
  (∀ t n, starves t s n → (n < length (proc_list s))%nat).
Proof.
  intros Hok. split.
  - destruct (schedule_spec s Hok) as (c & n & s' & Hc & Hs & Hsw). destruct (sw_root _ _ _ _ Hsw) as (k & Hk & Hr).
    destruct (sw_cursor _ _ _ _ Hsw) as (c' & _ & Hpick & _). eexists _, s', n, k, _. split; [done|]. split; [by eapply switched_ok|].
    split; [apply (sw_current _ _ _ _ Hsw)|]. split; [done|]. rewrite (switched_lookup _ _ _ _ n Hsw), Hk. cbn. rewrite decide_True by done. split; [done|].
    assert (1 ≤ time_slice (refill k)) as Hslice.
    { unfold refill. destruct (Z.leb_spec (time_slice k) 0); cbn; [|lia]. unfold calc_time_slice. case_bool; lia. }
    split_and!.
    + destruct Hpick as [[Hi _]|(_ & (l1 & l2 & kn & _ & Hcand & _) & _)]; [by left|right]. destruct Hcand as [Hkn ?]. by simplify_eq.
    + intros Hne. rewrite decide_False by congruence. done.
    + destruct (decide (n = c)); done.
    + destruct (decide (n = c)); unfold stay, enter; rewrite <- Hr; apply (root_of_refill k).
    + intros q kq Hq Hp. destruct Hpick as [[Hi Hno]|(_ & (l1 & l2 & kn & Ho & [Hkn Hcand] & _ & H1 & H2) & _)]; [specialize (Hno q kq Hq); lia|].
      simplify_eq. split; [done|]. assert (q ∈ order s) as Hin. { apply order_elem; [done|]. apply (so_list _ Hok). destruct Hq as [-> _]. done. }
      rewrite Ho in Hin. apply elem_of_app in Hin as [Hin|Hin]; [specialize (H1 q kq Hin Hq); lia|].
      apply elem_of_cons in Hin as [->|Hin]; [destruct Hq; simplify_eq; lia|by apply (H2 q kq)].
  - intros t n Hst. assert (contends t s) as (k & [Hk _] & _) by (by inversion Hst).
    assert (t ∈ order s) as Hin by (apply order_elem; [done|]; apply (so_list _ Hok); by rewrite Hk).
    destruct (list_elem_of_split _ _ Hin) as (l1 & l2 & Ho). pose proof (starves_distance t s n Hst l1 l2 Ho).
    destruct (order_rot s Hok) as (u & v & Hu & Hv). apply (f_equal length) in Hv, Ho, Hu. rewrite !length_app in *. cbn in *. lia.
Qed.
