(* ===== verification/Sync.v ===== *)
(** * Blocking synchronisation: [kernel/sync] and the console input of
    [kernel/cons/cons.cpp]

    The operations run on the scheduler state and one object.  A blocking
    operation is a loop around [WaitQueue::sleep]; it is split where the task
    leaves the CPU, so that one iteration is an attempt, which succeeds or ends
    with the task asleep, and a resumption, which runs when the task is
    scheduled again and leads to the next attempt.  The interrupt flags the
    guards of the sleeping frame hold are the result of a failed attempt. *)

From S2P Require Import Prelude Fd Sched.

(** Operations on the scheduler and an object of type [T]. *)
Definition lift {T A} (m : M sched A) : M (sched * T) A := zoom fst (λ s x, (s, x.2)) m.
Definition obj {T} : M (sched * T) T := gets snd.
Definition put_obj {T} (y : T) : M (sched * T) unit := modify (λ x, (x.1, y)).
Definition current {T} : M (sched * T) (option Z) := lift (gets current_).

(** ** [Spinlock] *)

Record Spinlock : Set := MkSpinlock { locked : bool; saved_flags : bool }.
Definition spin0 : Spinlock := MkSpinlock false false.

Class HasLock (T : Type) : Type := { lock_of : T → Spinlock; put_lock : Spinlock → T → T }.

Section spinlock.
Context {T : Type} `{HasLock T}.
(** A lock that is taken is never released while the only CPU spins on it with
    interrupts off. *)
Definition spin_lock : M (sched * T) unit :=
  flags <- lift (gets (λ s, irq (cpu s)));;
  lift irq_disable;;
  x <- obj;;
  if locked (lock_of x) then halt OutOfFuel
  else put_obj (put_lock (MkSpinlock true flags) x).
Definition spin_unlock : M (sched * T) unit :=
  x <- obj;;
  put_obj (put_lock (MkSpinlock false (saved_flags (lock_of x))) x);;
  lift (set_irq (saved_flags (lock_of x))).
(** A scope that holds a [sys::lock_guard<Spinlock>]. *)
Definition with_lock {A} (m : M (sched * T) A) : M (sched * T) A :=
  spin_lock;;
  r <- try_ m;;
  spin_unlock;;
  match r with inl a => ret a | inr e => fail e end.
End spinlock.

(** ** [WaitQueue] *)

(** A task sleeps in one queue at a time, so its [Entry] is named by the task. *)
Record WaitQueue : Set := MkWaitQueue { head_ : list Z; wq_lock : Spinlock }.
Definition waitq0 : WaitQueue := MkWaitQueue [] spin0.
#[export] Instance waitq_lock : HasLock WaitQueue :=
  {| lock_of := wq_lock; put_lock := λ l q, MkWaitQueue (head_ q) l |}.
Definition put_head (h : list Z) : M (sched * WaitQueue) unit := modify (λ x, (x.1, MkWaitQueue h (wq_lock x.2))).

(** The flags of the guards of a sleeping task: of [sleep] and of [schedule]. *)
Definition saved : Type := bool * (bool * bool).

(** [sleep] up to the switch, and from the switch back on. *)
Definition wq_sleep : M (sched * WaitQueue) saved :=
  flag <- lift save_impl;;
  task <- current;;
  with_lock (
    x <- obj;;
    t <- deref task;;
    put_head (head_ x ++ [t]);;
    lift (sleep t));;
  flags <- lift schedule;;
  ret (flag, flags).
Definition wq_resume (t : Z) (fl : saved) : M (sched * WaitQueue) unit :=
  lift (schedule_exit fl.2);;
  with_lock (x <- obj;; put_head (unlink_from t (head_ x)));;
  lift (restore_impl fl.1).

Definition wakeup_one : M (sched * WaitQueue) unit :=
  with_lock (
    x <- obj;;
    match head_ x with
    | [] => ret tt
    | t :: h => put_head h;; lift (wakeup t)
    end).
Fixpoint wake_loop (h : list Z) : M (sched * WaitQueue) unit :=
  match h with
  | [] => ret tt
  | t :: h => put_head h;; lift (wakeup t);; wake_loop h
  end.
Definition wakeup_all : M (sched * WaitQueue) unit := with_lock (x <- obj;; wake_loop (head_ x)).
Definition wq_empty (q : WaitQueue) : bool := bool_decide (head_ q = []).

(** An object with a wait queue. *)
Class HasQueue (T : Type) : Type := { queue_of : T → WaitQueue; put_queue : WaitQueue → T → T }.
Definition on_queue {T A} `{HasQueue T} (m : M (sched * WaitQueue) A) : M (sched * T) A :=
  zoom (λ x, (x.1, queue_of x.2)) (λ y x, (y.1, put_queue y.2 x.2)) m.

(** ** [Semaphore] *)

Record Semaphore : Set := MkSemaphore { count_ : Z; sem_lock : Spinlock; sem_waitq : WaitQueue }.
Definition semaphore_new (initial_count : Z) : Semaphore := MkSemaphore initial_count spin0 waitq0.
#[export] Instance sem_has_lock : HasLock Semaphore :=
  {| lock_of := sem_lock; put_lock := λ l m, MkSemaphore (count_ m) l (sem_waitq m) |}.
#[export] Instance sem_has_queue : HasQueue Semaphore :=
  {| queue_of := sem_waitq; put_queue := λ q m, MkSemaphore (count_ m) (sem_lock m) q |}.
Definition put_count (c : Z) : M (sched * Semaphore) unit :=
  modify (λ x, (x.1, MkSemaphore c (sem_lock x.2) (sem_waitq x.2))).

(** The test and decrement that [down] and [try_down] make under the lock. *)
Definition sem_take : M (sched * Semaphore) bool :=
  with_lock (
    x <- obj;;
    if 0 <? count_ x then put_count (s32 (count_ x - 1));; ret true else ret false).
(** One iteration of [down]: it returned, or the task went to sleep. *)
Definition down : M (sched * Semaphore) (unit + bool * saved) :=
  flag <- lift save_impl;;
  ok <- sem_take;;
  if ok then lift (restore_impl flag);; ret (inl tt)
  else fl <- on_queue wq_sleep;; ret (inr (flag, fl)).
Definition down_resume (t : Z) (fl : bool * saved) : M (sched * Semaphore) unit :=
  on_queue (wq_resume t fl.2);;
  lift (restore_impl fl.1).
Definition try_down : M (sched * Semaphore) bool := sem_take.
(** [up] in two steps: interrupts may be enabled in between. *)
Definition up_count : M (sched * Semaphore) unit :=
  with_lock (x <- obj;; put_count (s32 (count_ x + 1))).
Definition up : M (sched * Semaphore) unit := up_count;; on_queue wakeup_one.

(** ** [Mutex] *)

Record Mutex : Set := MkMutex { held_ : bool; owner_ : option Z; spin_ : Spinlock; mtx_waitq : WaitQueue }.
Definition mutex_new : Mutex := MkMutex false None spin0 waitq0.
#[export] Instance mtx_has_lock : HasLock Mutex :=
  {| lock_of := spin_; put_lock := λ l m, MkMutex (held_ m) (owner_ m) l (mtx_waitq m) |}.
#[export] Instance mtx_has_queue : HasQueue Mutex :=
  {| queue_of := mtx_waitq; put_queue := λ q m, MkMutex (held_ m) (owner_ m) (spin_ m) q |}.
Definition put_owner (h : bool) (o : option Z) : M (sched * Mutex) unit :=
  modify (λ x, (x.1, MkMutex h o (spin_ x.2) (mtx_waitq x.2))).

Definition mtx_take : M (sched * Mutex) bool :=
  with_lock (
    x <- obj;;
    if negb (held_ x) then cur <- current;; put_owner true cur;; ret true else ret false).
Definition lock : M (sched * Mutex) (unit + bool * saved) :=
  flag <- lift save_impl;;
  ok <- mtx_take;;
  if ok then lift (restore_impl flag);; ret (inl tt)
  else fl <- on_queue wq_sleep;; ret (inr (flag, fl)).
Definition lock_resume (t : Z) (fl : bool * saved) : M (sched * Mutex) unit :=
  on_queue (wq_resume t fl.2);;
  lift (restore_impl fl.1).
Definition unlock_release : M (sched * Mutex) unit :=
  with_lock (
    x <- obj;;
    cur <- current;;
    assert_ (held_ x && bool_decide (owner_ x = cur));;
    put_owner false None).
Definition unlock : M (sched * Mutex) unit := unlock_release;; on_queue wakeup_one.
Definition try_lock : M (sched * Mutex) bool := mtx_take.
Definition is_locked (m : Mutex) : bool := held_ m.

(** ** Console input *)

Definition INPUT_SIZE : Z := 128.
Record Console : Set := MkConsole { input_ : list Z; read_ : Z; write_ : Z; con_waitq : WaitQueue }.
Definition console_new : Console := MkConsole (replicate 128 0) 0 0 waitq0.
#[export] Instance con_has_queue : HasQueue Console :=
  {| queue_of := con_waitq; put_queue := λ q m, MkConsole (input_ m) (read_ m) (write_ m) q |}.

(** [sys::array] indexing. *)
Definition input_at (x : Console) (i : Z) : M (sched * Console) Z := deref (input_ x !! Z.to_nat i).
Definition put_input (i c : Z) : M (sched * Console) unit :=
  modify (λ x, (x.1, MkConsole (<[Z.to_nat i := c]> (input_ x.2)) (read_ x.2) (write_ x.2) (con_waitq x.2))).
Definition put_read (r : Z) : M (sched * Console) unit :=
  modify (λ x, (x.1, MkConsole (input_ x.2) r (write_ x.2) (con_waitq x.2))).
Definition put_write (w : Z) : M (sched * Console) unit :=
  modify (λ x, (x.1, MkConsole (input_ x.2) (read_ x.2) w (con_waitq x.2))).

(** [push_input] never fails, so the guard's destructor is at its two ends. *)
Definition push_input (c : Z) : M (sched * Console) unit :=
  flag <- lift save_impl;;
  x <- obj;;
  let next := (write_ x + 1) mod INPUT_SIZE in
  whenM (negb (next =? read_ x))
    (put_input (write_ x) c;;
     put_write next;;
     on_queue wakeup_one);;
  lift (restore_impl flag).
Definition getc : M (sched * Console) (Z + bool * saved) :=
  flag <- lift save_impl;;
  x <- obj;;
  if negb (read_ x =? write_ x) then
    c <- input_at x (read_ x);;
    put_read ((read_ x + 1) mod INPUT_SIZE);;
    lift (restore_impl flag);;
    ret (inl c)
  else fl <- on_queue wq_sleep;; ret (inr (flag, fl)).
Definition getc_resume (t : Z) (fl : bool * saved) : M (sched * Console) unit :=
  on_queue (wq_resume t fl.2);;
  lift (restore_impl fl.1).
