(* ===== verification/SyncProofs.v ===== *)
(** * Blocking operations neither lose wake-ups nor get stuck

    The first part gives the effect of the wait-queue operations.  The second
    states what a blocking object promises (the class [Blocking]): an abstract
    state with atomic operations, and an implementation whose segments perform
    them.  The third runs such an object under every interleaving of the tasks
    that use it and proves, once for all objects, that the operations take
    effect in an order that is a run of the abstract object, that no segment
    gets stuck, and that the object is never available with all its waiters
    asleep. *)

From S2P Require Import Prelude Fd Sched SchedProofs Sync.

(** ** Wait queues *)

Definition irq_to (b : bool) (s : sched) : sched := with_cpu (MkCpu b (root (cpu s)) (trap_stack (cpu s))) s.

Lemma save_Ret s : save_impl s = Ret (irq (cpu s)) (irq_to false s).
Proof. destruct (save_impl_spec s) as (s1 & -> & ->). done. Qed.
Lemma restore_Ret b s : restore_impl b s = Ret tt (if b then irq_to true s else s).
Proof. by destruct b. Qed.
Lemma irq_to_to b c s : irq_to b (irq_to c s) = irq_to b s.
Proof. done. Qed.
Lemma irq_to_id s : irq_to (irq (cpu s)) s = s.
Proof. by destruct s as [? ? ? ? ? ? ? ? ? ? []]. Qed.
(** A guard around code that keeps the flag restores the state. *)
Lemma restore_saved s : (if irq (cpu s) then irq_to true (irq_to false s) else irq_to false s) = s.
Proof. rewrite <- (irq_to_id s) at 4. by destruct (irq (cpu s)). Qed.
Lemma lift_Ret {T A} (m : M sched A) s (x : T) a s' : m s = Ret a s' → lift m (s, x) = Ret a (s', x).
Proof. intros H. unfold lift, zoom. cbn. by rewrite H. Qed.

Lemma with_lock_Ret {T A} `{HasLock T} (m : M (sched * T) A) s x a s1 x1 : locked (lock_of x) = false →
  m (irq_to false s, put_lock (MkSpinlock true (irq (cpu s))) x) = Ret a (s1, x1) →
  with_lock m (s, x) = Ret a (irq_to (saved_flags (lock_of x1)) s1, put_lock (MkSpinlock false (saved_flags (lock_of x1))) x1).
Proof.
  intros Hl Hm. unfold with_lock. rewrite (bind_Ret _ _ _ tt (irq_to false s, put_lock (MkSpinlock true (irq (cpu s))) x)).
  - unfold bind, try_. rewrite Hm. done.
  - unfold spin_lock, bind, obj, gets, put_obj, modify. cbn. by rewrite Hl.
Qed.

Lemma sched_ok_irq b s : sched_ok s → sched_ok (irq_to b s).
Proof. intros H. by apply (sched_ok_same s). Qed.
Lemma status_irq b s t : status (irq_to b s) t = status s t.
Proof. done. Qed.

(** A task changes its own or another's state. *)
Lemma status_set s t k x p : tasks s !! t = Some k → x ≠ Running →
  status (with_tasks (alter (set_state x) t (tasks s)) s) p = if decide (p = t) then Some x else status s p.
Proof.
  intros Hk Hx. unfold status. cbn. destruct (decide (p = t)) as [->|]; [|by rewrite lookup_alter_ne].
  rewrite lookup_alter_eq, Hk. cbn. f_equal. unfold norm. by rewrite bool_decide_eq_false_2.
Qed.

Lemma status_task s t x : status s t = Some x → ∃ k, tasks s !! t = Some k ∧ norm (state k) = x.
Proof. unfold status. intros (k & Hk & ->)%fmap_Some. eauto. Qed.
Lemma status_live s t x : status s t = Some x → x ≠ Zombie → ∃ k, tasks s !! t = Some k ∧ state k ≠ Zombie.
Proof. intros (k & Hk & <-)%status_task Hx. exists k. split; [done|]. intros E. by rewrite E in Hx. Qed.

(** The lock of the queue is free, and its waiters are these. *)
Definition queue_ok (q : WaitQueue) : Prop := locked (wq_lock q) = false.

Lemma schedule_ready s : sched_ok s → ∃ s', schedule s = Ret (irq (cpu s), false) s' ∧ sched_ok s' ∧ cur_ready s' ∧
  idle_proc s' = idle_proc s ∧ init_proc s' = init_proc s ∧ ∀ p, status s' p = status s p.
Proof.
  intros Hok. destruct (schedule_spec s Hok) as (c & n & s' & Hc & Hs & Hsw). exists s'. split_and!; [done|by eapply switched_ok|by eapply switched_ready|apply Hsw..|].
  intros p. by apply (switched_status s c n).
Qed.

Lemma wq_sleep_spec s q t : sched_ok s → queue_ok q → current_ s = Some t → status s t = Some Runnable → idle_proc s ≠ Some t →
  ∃ s' q', wq_sleep (s, q) = Ret (irq (cpu s), (false, false)) (s', q') ∧ sched_ok s' ∧ cur_ready s' ∧ queue_ok q' ∧
    idle_proc s' = idle_proc s ∧ head_ q' = head_ q ++ [t] ∧ ∀ p, status s' p = if decide (p = t) then Some Sleeping else status s p.
Proof.
  intros Hok Hq Hc Hst Hi. destruct (status_live s t _ Hst) as (k & Hk & Hz); [done|].
  set (s1 := with_tasks (alter (set_state Sleeping) t (tasks s)) (irq_to false s)). unfold wq_sleep.
  rewrite (bind_Ret _ _ _ _ _ (lift_Ret _ _ _ _ _ (save_Ret s))). rewrite (bind_Ret _ _ _ (Some t) (irq_to false s, q)) by (cbn; by rewrite Hc).
  set (q1 := MkWaitQueue (head_ q ++ [t]) (MkSpinlock false false)).
  assert (with_lock (x <- obj;; t <- deref (Some t);; put_head (head_ x ++ [t]);; lift (sleep t)) (irq_to false s, q) = Ret tt (s1, q1)) as ->%(bind_Ret _ _ _ _ _).
  { erewrite with_lock_Ret; [|done|]; cycle 1.
    { unfold bind at 1 2 3. cbn. apply lift_Ret. by apply (sleep_Ret t k). } done. }
  assert (sched_ok s1) as Hok1. { apply (sched_ok_set (irq_to false s) t k); [by apply sched_ok_irq|done..|]. intros E. by destruct Hi. }
  destruct (schedule_ready s1 Hok1) as (s' & Hs & Hok' & Hr & Hi' & _ & Hst'). rewrite (bind_Ret _ _ _ _ _ (lift_Ret _ _ q1 _ _ Hs)).
  exists s', q1. split_and!; [done..|]. intros p. rewrite Hst'. unfold s1. rewrite (status_set (irq_to false s) t k) by done. done.
Qed.

Lemma wq_resume_spec s q t f : queue_ok q →
  ∃ q', wq_resume t (f, (false, false)) (s, q) = Ret tt (if f then irq_to true s else s, q') ∧ queue_ok q' ∧ head_ q' = unlink_from t (head_ q).
Proof.
  intros Hq. unfold wq_resume. rewrite (bind_Ret _ _ _ tt (s, q)) by done. erewrite (bind_Ret (with_lock _)); [|apply with_lock_Ret; [exact Hq|reflexivity]].
  cbn. rewrite irq_to_to, irq_to_id. rewrite (lift_Ret _ _ _ _ _ (restore_Ret f s)). by eexists.
Qed.

Lemma wakeup_one_spec s q : sched_ok s → queue_ok q → (∀ t, t ∈ head_ q → status s t = Some Sleeping) →
  ∃ s' q', wakeup_one (s, q) = Ret tt (s', q') ∧ sched_ok s' ∧ queue_ok q' ∧ current_ s' = current_ s ∧ idle_proc s' = idle_proc s ∧ irq (cpu s') = irq (cpu s) ∧
    head_ q' = tail (head_ q) ∧ ∀ p, status s' p = if decide (head (head_ q) = Some p) then Some Runnable else status s p.
Proof.
  intros Hok Hq Hh. unfold wakeup_one. destruct (head_ q) as [|t h] eqn:Hhd.
  - exists s. eexists. erewrite with_lock_Ret; [|done|]; cycle 1. { unfold bind at 1. cbn. by rewrite Hhd. }
    cbn. rewrite irq_to_to, irq_to_id. split; [done|]. split_and!; done.
  - destruct (status_live s t _ (Hh t ltac:(by left))) as (k & Hk & Hz); [done|].
    exists (with_tasks (alter (set_state Runnable) t (tasks s)) s). eexists. erewrite with_lock_Ret; [|done|]; cycle 1.
    { unfold bind at 1. cbn. rewrite Hhd. unfold bind at 1. cbn. apply lift_Ret. by apply (wakeup_Ret t k). }
    cbn. split; [do 2 f_equal; by destruct s as [? ? ? ? ? ? ? ? ? ? []]|]. split_and!; try done.
    + by apply (sched_ok_set s t k).
    + intros p. rewrite (status_set s t k) by done. destruct (decide (p = t)), (decide (Some t = Some p)); congruence.
Qed.

(** ** What a blocking object promises *)

Definition waiters {T} `{HasQueue T} (x : T) : list Z := head_ (queue_of x).

(** The scheduler state after [t] went to sleep. *)
Definition fell_asleep (s : sched) (t : Z) (s' : sched) : Prop :=
  sched_ok s' ∧ cur_ready s' ∧ idle_proc s' = idle_proc s ∧
  ∀ p, status s' p = if decide (p = t) then Some Sleeping else status s p.
(** The scheduler state after the first of [ws], if any, was woken. *)
Definition first_woken (s : sched) (ws : list Z) (s' : sched) : Prop :=
  sched_ok s' ∧ current_ s' = current_ s ∧ idle_proc s' = idle_proc s ∧
  ∀ p, status s' p = if decide (head ws = Some p) then Some Runnable else status s p.

(** An object of type [T] that hands out values of type [V].  [Ab] is its
    abstract state: [a_take] is the operation that may have to wait, [avail]
    counts how often it succeeds, [a_give] is what a releasing task does before
    it wakes a waiter, [a_signal] an operation that also wakes one. *)
Class Blocking (T V : Type) `{HasQueue T} : Type := {
  Ab : Type; G : Type; Sg : Type; Pl : Type;
  abs : T → Ab;
  avail : Ab → Z;
  a_take : Z → Ab → option (V * Ab);
  a_give : Z → G → Ab → option Ab;
  a_signal : Sg → Ab → Ab;
  obj_ok : T → Prop;
  attempt : M (sched * T) (V + bool * saved);
  resume : Z → bool * saved → M (sched * T) unit;
  poll : Pl → M (sched * T) (option V);
  give : G → M (sched * T) unit;
  signal : Sg → M (sched * T) unit;
  ok_queue x : obj_ok x → queue_ok (queue_of x);
  ok_put x q : obj_ok x → queue_ok q →
    obj_ok (put_queue q x) ∧ abs (put_queue q x) = abs x ∧ queue_of (put_queue q x) = q;
  avail_take t a : 0 < avail a ↔ is_Some (a_take t a);
  take_avail t a v a' : a_take t a = Some (v, a') → avail a' = avail a - 1;
  give_avail t g a a' : a_give t g a = Some a' → avail a' ≤ avail a + 1;
  attempt_take s x t v a' : obj_ok x → current_ s = Some t → a_take t (abs x) = Some (v, a') →
    ∃ x', attempt (s, x) = Ret (inl v) (s, x') ∧ obj_ok x' ∧ abs x' = a' ∧ waiters x' = waiters x;
  attempt_sleep s x t : obj_ok x → sched_ok s → current_ s = Some t → status s t = Some Runnable →
    idle_proc s ≠ Some t → a_take t (abs x) = None →
    ∃ f s' x', attempt (s, x) = Ret (inr (f, (false, (false, false)))) (s', x') ∧ fell_asleep s t s' ∧
      obj_ok x' ∧ abs x' = abs x ∧ waiters x' = waiters x ++ [t];
  resume_ok s x t f : obj_ok x → ∃ b x', resume t (f, (false, (false, false))) (s, x) = Ret tt (irq_to b s, x') ∧
    obj_ok x' ∧ abs x' = abs x ∧ waiters x' = unlink_from t (waiters x);
  poll_ok s x t p : obj_ok x → current_ s = Some t → ∃ x', poll p (s, x) = Ret (fst <$> a_take t (abs x)) (s, x') ∧
    obj_ok x' ∧ abs x' = default (abs x) (snd <$> a_take t (abs x)) ∧ waiters x' = waiters x;
  give_ok s x t g a' : obj_ok x → current_ s = Some t → a_give t g (abs x) = Some a' →
    ∃ x', give g (s, x) = Ret tt (s, x') ∧ obj_ok x' ∧ abs x' = a' ∧ waiters x' = waiters x;
  signal_ok s x g : obj_ok x → sched_ok s → (∀ t, t ∈ waiters x → status s t = Some Sleeping) →
    ∃ s' x', signal g (s, x) = Ret tt (s', x') ∧ obj_ok x' ∧ abs x' = a_signal g (abs x) ∧
      ((s' = s ∧ waiters x' = waiters x ∧ abs x' = abs x) ∨
       (first_woken s (waiters x) s' ∧ waiters x' = tail (waiters x) ∧ avail (abs x') ≤ avail (abs x) + 1)) }.

(** ** The object under all interleavings *)

Section machine.
Context {T V : Type} `{HasQueue T, B : !Blocking T V}.

(** Where a task is in an operation: at the top of the loop, asleep or woken
    inside it, or past a release and about to wake a waiter.  A task that is in
    no operation has no entry. *)
Inductive pc : Type := Top | Asleep (fl : bool * saved) | Waking.
Record sys : Type := MkSys { sch : sched; object : T; pcs : gmap Z pc }.

Inductive event : Type :=
| Took (t : Z) (v : V) | Polled (t : Z) (o : option V) | Gave (t : Z) (g : G) | Signalled (g : Sg).

(** The rest of the system may do anything that keeps the scheduler's own
    invariant and neither wakes, puts to sleep nor kills a task that is in an
    operation on this object. *)
Definition other (s s' : sched) (p : gmap Z pc) : Prop :=
  sched_ok s' ∧ cur_ready s' ∧ idle_proc s' = idle_proc s ∧ ∀ t, is_Some (p !! t) → status s' t = status s t.

(** The segments a task executes while it is on the CPU, and the interrupts. *)
Inductive step : sys → list event → sys → Prop :=
| st_enter s x p t : current_ s = Some t → idle_proc s ≠ Some t → p !! t = None →
    step (MkSys s x p) [] (MkSys s x (<[t := Top]> p))
| st_took s x p t v s' x' : current_ s = Some t → p !! t = Some Top → attempt (s, x) = Ret (inl v) (s', x') →
    step (MkSys s x p) [Took t v] (MkSys s' x' (delete t p))
| st_sleep s x p t fl s' x' : current_ s = Some t → p !! t = Some Top → attempt (s, x) = Ret (inr fl) (s', x') →
    step (MkSys s x p) [] (MkSys s' x' (<[t := Asleep fl]> p))
| st_resume s x p t fl s' x' : current_ s = Some t → p !! t = Some (Asleep fl) → resume t fl (s, x) = Ret tt (s', x') →
    step (MkSys s x p) [] (MkSys s' x' (<[t := Top]> p))
| st_poll s x p t q o s' x' : current_ s = Some t → p !! t = None → poll q (s, x) = Ret o (s', x') →
    step (MkSys s x p) [Polled t o] (MkSys s' x' p)
| st_give s x p t g s' x' : current_ s = Some t → idle_proc s ≠ Some t → p !! t = None →
    is_Some (a_give t g (abs x)) → give g (s, x) = Ret tt (s', x') →
    step (MkSys s x p) [Gave t g] (MkSys s' x' (<[t := Waking]> p))
| st_wake s x p t s' x' : current_ s = Some t → p !! t = Some Waking → on_queue wakeup_one (s, x) = Ret tt (s', x') →
    step (MkSys s x p) [] (MkSys s' x' (delete t p))
| st_signal s x p g s' x' : signal g (s, x) = Ret tt (s', x') →
    step (MkSys s x p) [Signalled g] (MkSys s' x' p)
| st_other s x p s' : other s s' p → step (MkSys s x p) [] (MkSys s' x p).

Inductive steps : sys → list event → sys → Prop :=
| steps_nil y : steps y [] y
| steps_snoc y l y1 e y2 : steps y l y1 → step y1 e y2 → steps y (l ++ e) y2.

(** The runs of the abstract object. *)
Inductive a_run : Ab → list event → Ab → Prop :=
| ar_nil a : a_run a [] a
| ar_took a l a1 t v a2 : a_run a l a1 → a_take t a1 = Some (v, a2) → a_run a (l ++ [Took t v]) a2
| ar_polled a l a1 t : a_run a l a1 → a_run a (l ++ [Polled t (fst <$> a_take t a1)]) (default a1 (snd <$> a_take t a1))
| ar_gave a l a1 t g a2 : a_run a l a1 → a_give t g a1 = Some a2 → a_run a (l ++ [Gave t g]) a2
| ar_signalled a l a1 g : a_run a l a1 → a_run a (l ++ [Signalled g]) (a_signal g a1).

Record machine_ok (y : sys) : Prop := {
  mk_sched : sched_ok (sch y);
  mk_ready : cur_ready (sch y);
  mk_obj : obj_ok (object y);
  mk_nodup : NoDup (waiters (object y));
  mk_waiting t : t ∈ waiters (object y) ↔ (∃ fl, pcs y !! t = Some (Asleep fl)) ∧ status (sch y) t = Some Sleeping;
  mk_pc t q : pcs y !! t = Some q → idle_proc (sch y) ≠ Some t ∧
    match q with
    | Asleep fl => fl.2 = (false, (false, false)) ∧ (status (sch y) t = Some Runnable ∨ status (sch y) t = Some Sleeping)
    | _ => status (sch y) t = Some Runnable
    end;
  mk_wake : waiters (object y) ≠ [] → avail (abs (object y)) + Z.of_nat (length (waiters (object y))) ≤ Z.of_nat (size (pcs y)) }.

(** The object is available and some task waits for it: then a task inside an
    operation is ready to run. *)
Definition no_lost_wakeup (y : sys) : Prop :=
  0 < avail (abs (object y)) → waiters (object y) ≠ [] →
  ∃ t q, pcs y !! t = Some q ∧ t ∉ waiters (object y) ∧ status (sch y) t = Some Runnable.

Lemma waiters_size y : machine_ok y → (length (waiters (object y)) ≤ size (pcs y))%nat.
Proof.
  intros Hm. rewrite <- (size_list_to_set (C := gset Z)) by apply (mk_nodup _ Hm). rewrite <- (size_dom (D := gset Z)). apply subseteq_size.
  intros t Ht%elem_of_list_to_set. apply (mk_waiting _ Hm) in Ht as [[fl Hfl] _]. by apply elem_of_dom.
Qed.

Lemma machine_no_lost_wakeup y : machine_ok y → no_lost_wakeup y.
Proof.
  intros Hm Ha Hw. pose proof (mk_wake _ Hm Hw) as Hle.
  destruct (decide (dom (pcs y) ⊆ (list_to_set (waiters (object y)) : gset Z))) as [Hs|Hs].
  - apply subseteq_size in Hs. rewrite size_dom, size_list_to_set in Hs by apply (mk_nodup _ Hm). lia.
  - assert (∃ t, t ∈ dom (pcs y) ∖ (list_to_set (waiters (object y)) : gset Z)) as [t Ht].
    { apply set_choose_L. intros E. apply Hs. intros u Hu. destruct (decide (u ∈ waiters (object y))); [by apply elem_of_list_to_set|]. set_solver. }
    apply elem_of_difference in Ht as [Hd Hn]. rewrite elem_of_list_to_set in Hn. apply elem_of_dom in Hd as [q Hq]. exists t, q. split_and!; [done..|].
    destruct (mk_pc _ Hm t q Hq) as [_ Hst]. destruct q as [|fl|]; [done| |done]. destruct Hst as [_ [Hst|Hst]]; [done|].
    destruct Hn. apply (mk_waiting _ Hm). eauto.
Qed.
(** Steps that neither wake a waiter nor add one. *)
Lemma machine_ok_pcs s x p x' p' : machine_ok (MkSys s x p) → obj_ok x' → waiters x' = waiters x →
  (∀ t q, p' !! t = Some q → p !! t = Some q ∨ (idle_proc s ≠ Some t ∧ status s t = Some Runnable ∧ (q = Top ∨ q = Waking))) →
  (∀ t fl, p !! t = Some (Asleep fl) → status s t = Some Sleeping → p' !! t = Some (Asleep fl)) →
  avail (abs x') - Z.of_nat (size p') ≤ avail (abs x) - Z.of_nat (size p) → machine_ok (MkSys s x' p').
Proof.
  intros [H1 H2 H3 H4 H5 H6 H7] Hx Hw Hp Hp' Hle. cbn in *. constructor; cbn; rewrite ?Hw; try done.
  - intros t. rewrite H5. split; intros [[fl Hfl] Hst]; (split; [|done]).
    + exists fl. by apply Hp'.
    + destruct (Hp t _ Hfl) as [?|(_ & ? & [?|?])]; [by exists fl|congruence..].
  - intros t q Hq. destruct (Hp t q Hq) as [Hq'|(Hi & Hst & Hqq)]; [by apply H6|]. split; [done|]. by destruct Hqq as [-> | ->].
  - intros Hne. specialize (H7 Hne). lia.
Qed.

Lemma machine_ok_irq b s x p : machine_ok (MkSys s x p) → machine_ok (MkSys (irq_to b s) x p).
Proof. intros [H1 H2 H3 H4 H5 H6 H7]. constructor; try done. by apply sched_ok_irq. Qed.

(** The current task is ready, so it is no waiter. *)
Lemma current_not_waiting s x p t : machine_ok (MkSys s x p) → current_ s = Some t → status s t = Some Runnable ∧ t ∉ waiters x.
Proof.
  intros Hm Hc. destruct (mk_ready _ Hm) as (c & Hc' & Hst). cbn in *. simplify_eq. split; [done|].
  intros Hin. apply (mk_waiting _ Hm) in Hin as [_ Hin]. cbn in Hin. congruence.
Qed.

Lemma machine_ok_sleep s x p t f s' x' : machine_ok (MkSys s x p) → current_ s = Some t → p !! t = Some Top →
  avail (abs x) ≤ 0 → fell_asleep s t s' → obj_ok x' → abs x' = abs x → waiters x' = waiters x ++ [t] →
  machine_ok (MkSys s' x' (<[t := Asleep (f, (false, (false, false)))]> p)).
Proof.
  intros Hm Hc Hp Ha (Hok & Hr & Hi & Hst) Hx Habs Hw. destruct (current_not_waiting _ _ _ _ Hm Hc) as [_ Hnw].
  pose proof (waiters_size _ Hm) as Hsz. pose proof Hm as [H1 H2 H3 H4 H5 H6 H7]. cbn in *. assert (∀ u, u ∈ waiters x → u ≠ t) as Hut by congruence.
  assert (NoDup (waiters x ++ [t])) as Hnd. { apply NoDup_app. split_and!; [done|set_solver|apply NoDup_singleton]. }
  constructor; cbn; rewrite ?Hw, ?Habs; try done.
  - intros u. rewrite elem_of_app, list_elem_of_singleton, H5, Hst. destruct (decide (u = t)) as [->|Hne].
    + rewrite lookup_insert_eq. split; [eauto|by right].
    + rewrite lookup_insert_ne by done. naive_solver.
  - intros u q. rewrite Hi, Hst. destruct (decide (u = t)) as [->|Hne].
    + rewrite lookup_insert_eq. intros [= <-]. split; [apply (H6 t Top Hp)|auto].
    + rewrite lookup_insert_ne by done. apply H6.
  - intros _. enough (length (waiters x ++ [t]) ≤ size (<[t:=Asleep (f, (false, (false, false)))]> p))%nat by lia.
    rewrite <- (size_list_to_set (C := gset Z)) by done. rewrite <- (size_dom (D := gset Z)). apply subseteq_size.
    intros u Hu. rewrite elem_of_list_to_set in Hu. apply elem_of_dom. destruct (decide (u = t)) as [->|Hne]; [by rewrite lookup_insert_eq|].
    rewrite lookup_insert_ne by done. apply elem_of_app in Hu as [Hu|Hu]; [apply H5 in Hu as [[fl ->] _]; done|set_solver].
Qed.

(** Steps that wake the first waiter. *)
Lemma machine_ok_wake s x p s' x' p' : machine_ok (MkSys s x p) → first_woken s (waiters x) s' → obj_ok x' →
  waiters x' = tail (waiters x) →
  (p' = p ∨ ∃ t, current_ s = Some t ∧ p' = delete t p) →
  (tail (waiters x) ≠ [] → avail (abs x') - Z.of_nat (size p') ≤ avail (abs x) - Z.of_nat (size p) + 1) →
  machine_ok (MkSys s' x' p').
Proof.
  intros Hm (Hok & Hc & Hi & Hst) Hx Hw Hp Hle. pose proof Hm as [H1 H2 H3 H4 H5 H6 H7]. cbn in *.
  assert (∀ u, u ∈ waiters x → p' !! u = p !! u) as Hpw.
  { intros u Hu. destruct Hp as [->|(t & Ht & ->)]; [done|]. destruct (current_not_waiting _ _ _ _ Hm Ht). apply lookup_delete_ne. congruence. }
  assert (∀ u q, p' !! u = Some q → p !! u = Some q) as Hsub.
  { intros u q. destruct Hp as [->|(t & Ht & ->)]; [done|]. by intros [_ ?]%lookup_delete_Some. }
  constructor; cbn; rewrite ?Hw; try done.
  - destruct H2 as (c & Hcc & Hsc). exists c. rewrite Hc, Hst. split; [done|]. by destruct (decide _).
  - destruct (waiters x); [done|]. by apply NoDup_cons in H4 as [_ ?].
  - intros u. rewrite Hst. destruct (waiters x) as [|w ws] eqn:E; cbn.
    + rewrite decide_False by done. split; [by intros ?%elem_of_nil|]. intros [[fl Hfl] Hu]. apply H5. split; [|done]. exists fl. by apply Hsub.
    + apply NoDup_cons in H4 as [Hn _]. destruct (decide (Some w = Some u)) as [[= <-]|Hne]; [naive_solver|].
      specialize (H5 u). rewrite elem_of_cons in H5. split.
      * intros Hu. destruct (proj1 H5) as [[fl Hfl] ?]; [by right|]. split; [|done]. exists fl. rewrite Hpw; [done|by right].
      * intros [[fl Hfl] Hu]. destruct (proj2 H5) as [->|?]; [|done..]. split; [|done]. exists fl. by apply Hsub.
  - intros u q Hq. rewrite Hi, Hst. apply Hsub in Hq. destruct (H6 u q Hq) as [? Hs]. split; [done|]. destruct (decide _); [|done].
    destruct q; [done| |done]. split; [apply Hs|by left].
  - intros Hne. specialize (Hle Hne). destruct (waiters x) as [|w ws]; [done|]. specialize (H7 ltac:(done)). cbn in *. lia.
Qed.
Lemma wake_queue_spec s x : sched_ok s → obj_ok x → (∀ t, t ∈ waiters x → status s t = Some Sleeping) →
  ∃ s' x', on_queue wakeup_one (s, x) = Ret tt (s', x') ∧ first_woken s (waiters x) s' ∧ obj_ok x' ∧ abs x' = abs x ∧ waiters x' = tail (waiters x).
Proof.
  intros Hok Hx Hw. destruct (wakeup_one_spec s (queue_of x) Hok (ok_queue x Hx) Hw) as (s' & q' & E & Hok' & Hq' & Hc & Hi & _ & Hh & Hst).
  destruct (ok_put x q' Hx Hq') as (Hx' & Ha' & Hq''). exists s', (put_queue q' x). unfold on_queue, zoom. cbn. rewrite E. cbn.
  split_and!; try done. unfold waiters. by rewrite Hq''.
Qed.

Lemma waiting_asleep y t : machine_ok y → t ∈ waiters (object y) → status (sch y) t = Some Sleeping.
Proof. intros Hm Ht. by apply (mk_waiting _ Hm) in Ht as [_ ?]. Qed.

Lemma take_dec t a : (∃ v a', a_take t a = Some (v, a') ∧ avail a' = avail a - 1) ∨ (a_take t a = None ∧ avail a ≤ 0).
Proof.
  destruct (a_take t a) as [[v a']|] eqn:E; [left; exists v, a'; split; [done|by eapply take_avail]|right; split; [done|]].
  destruct (decide (0 < avail a)) as [Hlt|]; [|lia]. apply (avail_take t) in Hlt. rewrite E in Hlt. by destruct Hlt.
Qed.

(** Every step keeps the invariant and is a step of the abstract object or none. *)
Lemma step_ok y e y' : step y e y' → machine_ok y →
  machine_ok y' ∧ ∀ a l, a_run a l (abs (object y)) → a_run a (l ++ e) (abs (object y')).
Proof.
  intros Hstep Hm. assert (∀ x x' : T, abs x' = abs x → ∀ a l, a_run a l (abs x) → a_run a (l ++ []) (abs x')) as Hnil.
  { intros x x' E a l. by rewrite app_nil_r, E. }
  destruct Hstep as [s x p t Hc Hi Hp|s x p t v s' x' Hc Hp E|s x p t fl s' x' Hc Hp E|s x p t fl s' x' Hc Hp E|
    s x p t q o s' x' Hc Hp E|s x p t g s' x' Hc Hi Hp [a' Ha'] E|s x p t s' x' Hc Hp E|s x p g s' x' E|s x p s' Ho];
    pose proof (mk_obj _ Hm) as Hx; pose proof (mk_sched _ Hm) as Hok; cbn in Hx, Hok;
    try (destruct (current_not_waiting _ _ _ _ Hm Hc) as [Hrd Hnw]).
  - split; [|by apply Hnil]. apply (machine_ok_pcs s x p); try done; [|intros u fl Hu _; rewrite lookup_insert_ne; congruence|rewrite map_size_insert_None by done; lia].
    intros u q [[<- <-]|[_ ?]]%lookup_insert_Some; [right; auto|by left].
  - destruct (take_dec t (abs x)) as [(v1 & a1 & Ht & Hav)|[Hn _]].
    + destruct (attempt_take s x t v1 a1 Hx Hc Ht) as (x1 & E1 & Hx1 & Ha1 & Hw1). rewrite E in E1. injection E1 as <- -> <-. split.
      * apply (machine_ok_pcs s x p); try done; [intros u q [_ ?]%lookup_delete_Some; by left|intros u fl Hu _; rewrite lookup_delete_ne; congruence|].
        rewrite map_size_delete_Some by (by eexists). cbn. assert (size p ≠ 0%nat) by (apply map_size_non_empty_iff; intros ->; done). rewrite Ha1. lia.
      * intros a l Hr. apply (ar_took _ _ (abs x)); [done|]. cbn. by rewrite Ha1.
    + destruct (mk_pc _ Hm t Top Hp) as [Hi _]. destruct (attempt_sleep s x t Hx Hok Hc Hrd Hi Hn) as (f & s1 & x1 & E1 & _). by rewrite E in E1.
  - destruct (mk_pc _ Hm t Top Hp) as [Hi _]. destruct (take_dec t (abs x)) as [(v1 & a1 & Ht & Hav)|[Hn Hle]].
    + destruct (attempt_take s x t v1 a1 Hx Hc Ht) as (x1 & E1 & _). by rewrite E in E1.
    + destruct (attempt_sleep s x t Hx Hok Hc Hrd Hi Hn) as (f & s1 & x1 & E1 & Hf & Hx1 & Ha1 & Hw1). rewrite E in E1. injection E1 as -> <- <-.
      split; [|by apply Hnil]. by apply (machine_ok_sleep s x).
  - destruct (mk_pc _ Hm t _ Hp) as [Hi [Hfl _]]. destruct fl as [f fl]. cbn in Hfl. subst fl.
    destruct (resume_ok s x t f Hx) as (b & x1 & E1 & Hx1 & Ha1 & Hw1). apply (eq_trans (eq_sym E)) in E1. injection E1 as -> <-. split; [|by apply Hnil].
    apply machine_ok_irq. apply (machine_ok_pcs s x p); try done.
    + by rewrite Hw1, unlink_from_id.
    + intros u q [[<- <-]|[_ ?]]%lookup_insert_Some; [right; auto|by left].
    + intros u fl Hu Hst. rewrite lookup_insert_ne; congruence.
    + rewrite Ha1, map_size_insert_Some by (by eexists). lia.
  - destruct (poll_ok s x t q Hx Hc) as (x1 & E1 & Hx1 & Ha1 & Hw1). rewrite E in E1. injection E1 as -> -> <-. split.
    + apply (machine_ok_pcs s x p); try done; [by left|]. rewrite Ha1. destruct (take_dec t (abs x)) as [(v1 & a1 & -> & Hav)|[-> _]]; cbn; lia.
    + intros a l Hr. cbn. rewrite Ha1. by apply (ar_polled _ _ (abs x)).
  - destruct (give_ok s x t g a' Hx Hc Ha') as (x1 & E1 & Hx1 & Ha1 & Hw1). rewrite E in E1. injection E1 as -> <-. split.
    + apply (machine_ok_pcs s x p); try done; [|intros u fl Hu _; rewrite lookup_insert_ne; congruence|].
      * intros u q [[<- <-]|[_ ?]]%lookup_insert_Some; [right; auto|by left].
      * rewrite map_size_insert_None by done. pose proof (give_avail _ _ _ _ Ha'). rewrite Ha1. lia.
    + intros a l Hr. apply (ar_gave _ _ (abs x)); [done|]. cbn. by rewrite Ha1.
  - destruct (wake_queue_spec s x Hok Hx (λ u, waiting_asleep _ u Hm)) as (s1 & x1 & E1 & Hf & Hx1 & Ha1 & Hw1). rewrite E in E1. injection E1 as <- <-.
    split; [|by apply Hnil]. apply (machine_ok_wake s x p); try done; [right; eauto|]. intros _. rewrite map_size_delete_Some by (by eexists). rewrite Ha1. lia.
  - destruct (signal_ok s x g Hx Hok (λ u, waiting_asleep _ u Hm)) as (s1 & x1 & E1 & Hx1 & Ha1 & Hcase). rewrite E in E1. injection E1 as <- <-. split.
    + destruct Hcase as [(-> & Hw1 & Ha2)|(Hf & Hw1 & Hle)].
      * apply (machine_ok_pcs s x p); try done; [by left|]. rewrite Ha2. lia.
      * apply (machine_ok_wake s x p); try done; [by left|]. intros _. lia.
    + intros a l Hr. cbn. rewrite Ha1. by apply ar_signalled.
  - split; [|by apply Hnil]. destruct Ho as (Hok' & Hr & Hi & Hst). pose proof Hm as [H1 H2 H3 H4 H5 H6 H7]. cbn in *. constructor; cbn; try done.
    + intros t. rewrite H5. split; intros [[fl Hfl] Hs]; (split; [by exists fl|]); [rewrite Hst by (by eexists)|rewrite Hst in Hs by (by eexists)]; done.
    + intros t q Hq. rewrite Hi, Hst by (by eexists). by apply H6.
Qed.

(** The current task's next segment always completes. *)
Lemma progress y t q : machine_ok y → current_ (sch y) = Some t → pcs y !! t = Some q → ∃ e y', step y e y'.
Proof.
  destruct y as [s x p]. cbn. intros Hm Hc Hp. pose proof (mk_obj _ Hm) as Hx; pose proof (mk_sched _ Hm) as Hok; cbn in Hx, Hok.
  destruct (current_not_waiting _ _ _ _ Hm Hc) as [Hrd Hnw]. destruct (mk_pc _ Hm t q Hp) as [Hi Hq]. destruct q as [|[f fl]|].
  - destruct (take_dec t (abs x)) as [(v1 & a1 & Ht & _)|[Hn _]].
    + destruct (attempt_take s x t v1 a1 Hx Hc Ht) as (x1 & E1 & _). eexists _, _. by eapply st_took.
    + destruct (attempt_sleep s x t Hx Hok Hc Hrd Hi Hn) as (f & s1 & x1 & E1 & _). eexists _, _. by eapply st_sleep.
  - destruct Hq as [Hfl _]. cbn in Hfl. subst fl. destruct (resume_ok s x t f Hx) as (b & x1 & E1 & _). eexists _, _. by eapply st_resume.
  - destruct (wake_queue_spec s x Hok Hx (λ u, waiting_asleep _ u Hm)) as (s1 & x1 & E1 & _). eexists _, _. by eapply st_wake.
Qed.

(** An object that nobody uses yet. *)
Lemma machine_start s x : sched_ok s → cur_ready s → obj_ok x → waiters x = [] → machine_ok (MkSys s x ∅).
Proof.
  intros Hok Hr Hx Hw. constructor; cbn; rewrite ?Hw; try done; [apply NoDup_nil_2|]. intros t. split; [by intros ?%elem_of_nil|]. intros [[fl Hfl] _]. done.
Qed.

Lemma steps_ok y l y' a : steps y l y' → machine_ok y → a = abs (object y) → machine_ok y' ∧ a_run a l (abs (object y')).
Proof.
  intros Hs Hm ->. induction Hs as [y|y l y1 e y2 Hs IH Hst]; [by split; [|apply ar_nil]|].
  destruct (IH Hm) as [Hm1 Hr1]. destruct (step_ok y1 e y2 Hst Hm1) as [Hm2 Hr2]. auto.
Qed.
End machine.
