(* ===== verification/SyncObjects.v ===== *)
(** * Semaphores, mutexes and the console input keep their promises

    Each object is an instance of [Blocking]; the theorems read the abstract
    runs back as statements about the calls that returned: a semaphore's count,
    the holder of a mutex, and the characters of the console in their order. *)

From S2P Require Import Prelude Fd Sched SchedProofs Sync SyncProofs.

(** The wait queue inside an object. *)
Lemma on_queue_Ret {T A} `{HasQueue T} (m : M (sched * WaitQueue) A) s (x : T) a s' q' :
  m (s, queue_of x) = Ret a (s', q') → on_queue m (s, x) = Ret a (s', put_queue q' x).
Proof. intros E. unfold on_queue, zoom. cbn. by rewrite E. Qed.

Lemma bind_sleep {T V} `{HasQueue T} (x : T) s t : queue_ok (queue_of x) → sched_ok s → current_ s = Some t →
  status s t = Some Runnable → idle_proc s ≠ Some t → ∃ s' q',
  (fl <- on_queue wq_sleep;; ret (@inr V _ (irq (cpu s), fl))) (irq_to false s, x) = Ret (inr (irq (cpu s), (false, (false, false)))) (s', put_queue q' x) ∧
  fell_asleep s t s' ∧ queue_ok q' ∧ head_ q' = head_ (queue_of x) ++ [t].
Proof.
  intros Hq Hok Hc Hst Hi. destruct (wq_sleep_spec (irq_to false s) (queue_of x) t) as (s' & q' & E & Hok' & Hr & Hq' & Hi' & Hh & Hs); try done; [by apply sched_ok_irq|].
  exists s', q'. rewrite (bind_Ret _ _ _ _ _ (on_queue_Ret _ _ x _ _ _ E)). split_and!; done.
Qed.

Lemma bind_resume {T} `{HasQueue T} (x : T) s t f : queue_ok (queue_of x) → ∃ q',
  (on_queue (wq_resume t (false, (false, false)));; lift (restore_impl f)) (s, x) = Ret tt (if f then irq_to true s else s, put_queue q' x) ∧
  queue_ok q' ∧ head_ q' = unlink_from t (head_ (queue_of x)).
Proof.
  intros Hq. destruct (wq_resume_spec s (queue_of x) t false Hq) as (q' & E & Hq' & Hh). exists q'.
  rewrite (bind_Ret _ _ _ _ _ (on_queue_Ret _ _ x _ _ _ E)). by rewrite (lift_Ret _ _ _ _ _ (restore_Ret f s)).
Qed.

(** ** Semaphores *)

Definition sem_ok (x : Semaphore) : Prop :=
  locked (sem_lock x) = false ∧ queue_ok (sem_waitq x) ∧ - 2 ^ 31 ≤ count_ x < 2 ^ 31.
Definition sem_takes (t n : Z) : option (unit * Z) := if 0 <? n then Some (tt, n - 1) else None.
Definition sem_gives (t : Z) (g : unit) (n : Z) : option Z := if n + 1 <? 2 ^ 31 then Some (n + 1) else None.

Lemma sem_take_Ret s x : sem_ok x → sem_take (s, x) =
  Ret (0 <? count_ x) (s, MkSemaphore (if 0 <? count_ x then count_ x - 1 else count_ x) (MkSpinlock false (irq (cpu s))) (sem_waitq x)).
Proof.
  intros (Hl & Hq & Hc). unfold sem_take. destruct (0 <? count_ x) eqn:E;
    (erewrite with_lock_Ret; [|done|unfold bind at 1; cbn; rewrite E; reflexivity]); cbn; rewrite irq_to_to, irq_to_id; [|done].
  by rewrite s32_small by lia.
Qed.
Lemma up_count_Ret s x : sem_ok x → count_ x + 1 < 2 ^ 31 → up_count (s, x) =
  Ret tt (s, MkSemaphore (count_ x + 1) (MkSpinlock false (irq (cpu s))) (sem_waitq x)).
Proof.
  intros (Hl & Hq & Hc) Hlt. unfold up_count. erewrite with_lock_Ret; [|done|reflexivity]. cbn. rewrite irq_to_to, irq_to_id, s32_small by lia. done.
Qed.

#[export, refine] Instance semaphore_blocking : Blocking Semaphore unit := {|
  Ab := Z; G := unit; Sg := Empty_set; Pl := unit;
  abs := count_; avail := λ n, n; a_take := sem_takes; a_give := sem_gives; a_signal := λ g, match g with end;
  obj_ok := sem_ok; attempt := down; resume := down_resume;
  poll := λ _, (b <- try_down;; ret (if b then Some tt else None)); give := λ _, up_count; signal := λ g, match g with end |}.
Proof.
  all: cbn beta.
  - intros x (_ & Hq & _). done.
  - intros x q (Hl & _ & Hc) Hq. done.
  - intros t a. unfold sem_takes. destruct (Z.ltb_spec 0 a); [naive_solver|]. split; [lia|by intros [? ?]].
  - intros t a v a'. unfold sem_takes. destruct (0 <? a); [|done]. by intros [= _ <-].
  - intros t g a a'. unfold sem_gives. destruct (_ <? _); [|done]. intros [= <-]. lia.
  - intros s x t v a' Hx Hc Ht. unfold sem_takes in Ht. destruct (0 <? count_ x) eqn:E; [|done]. injection Ht as <- <-. eexists.
    unfold down. rewrite (bind_Ret _ _ _ _ _ (lift_Ret _ _ _ _ _ (save_Ret s))), (bind_Ret _ _ _ _ _ (sem_take_Ret _ x Hx)), E.
    rewrite (bind_Ret _ _ _ _ _ (lift_Ret _ _ _ _ _ (restore_Ret _ _))), restore_saved. rewrite ?E. split; [done|]. destruct Hx as (Hl & Hq & Hcc). apply Z.ltb_lt in E.
    unfold sem_ok; split_and!; try done; cbn; lia.
  - intros s x t Hx Hok Hc Hst Hi Ht. unfold sem_takes in Ht. destruct (0 <? count_ x) eqn:E; [done|].
    set (x1 := MkSemaphore (count_ x) (MkSpinlock false false) (sem_waitq x)).
    destruct (bind_sleep (V := unit) x1 s t) as (s' & q' & Es & Hf & Hq' & Hh); try done; [apply Hx|].
    eexists _, s', _. unfold down. rewrite (bind_Ret _ _ _ _ _ (lift_Ret _ _ _ _ _ (save_Ret s))), (bind_Ret _ _ _ _ _ (sem_take_Ret _ x Hx)), E.
    split; [exact Es|]. split; [done|]. destruct Hx as (Hl & Hq & Hcc). unfold sem_ok; split_and!; try done; apply Hcc.
  - intros s x t f Hx. destruct (bind_resume x s t f) as (q' & E & Hq' & Hh); [apply Hx|]. exists (if f then true else irq (cpu s)), (put_queue q' x). split; [unfold down_resume; etrans; [exact E|]|].
    + f_equal. f_equal. destruct f; [done|by rewrite irq_to_id].
    + destruct Hx as (Hl & Hq & Hcc). unfold sem_ok; split_and!; try done; apply Hcc.
  - intros s x t p Hx Hc. unfold try_down. rewrite (bind_Ret _ _ _ _ _ (sem_take_Ret _ x Hx)). unfold ret, sem_takes.
    exists (MkSemaphore (if 0 <? count_ x then count_ x - 1 else count_ x) (MkSpinlock false (irq (cpu s))) (sem_waitq x)). split; [|split; [|split]].
    + by destruct (0 <? count_ x).
    + destruct Hx as (Hl & Hq & Hcc). unfold sem_ok. split_and!; try done; cbn; destruct (Z.ltb_spec 0 (count_ x)); cbn; lia.
    + cbn. by destruct (0 <? count_ x).
    + done.
  - intros s x t g a' Hx Hc Hg. unfold sem_gives in Hg. destruct (Z.ltb_spec (count_ x + 1) (2 ^ 31)) as [Hlt|]; [|done]. injection Hg as <-.
    eexists. rewrite (up_count_Ret s x Hx Hlt). split; [done|]. destruct Hx as (Hl & Hq & Hcc). unfold sem_ok; split_and!; try done; cbn; lia.
  - intros s x [].
Defined.

(** ** Mutexes *)

Definition mtx_ok (x : Mutex) : Prop :=
  locked (spin_ x) = false ∧ queue_ok (mtx_waitq x) ∧ held_ x = bool_decide (is_Some (owner_ x)).
Definition mtx_takes (t : Z) (o : option Z) : option (unit * option Z) :=
  match o with None => Some (tt, Some t) | Some _ => None end.
Definition mtx_gives (t : Z) (g : unit) (o : option Z) : option (option Z) :=
  if decide (o = Some t) then Some None else None.
Definition mtx_free (o : option Z) : Z := match o with None => 1 | Some _ => 0 end.

Lemma mtx_take_Ret s x t : mtx_ok x → current_ s = Some t → mtx_take (s, x) =
  Ret (negb (held_ x)) (s, MkMutex true (if held_ x then owner_ x else Some t) (MkSpinlock false (irq (cpu s))) (mtx_waitq x)).
Proof.
  intros (Hl & Hq & Ho) Hc. unfold mtx_take. destruct (held_ x) eqn:E;
    (erewrite with_lock_Ret; [|done|unfold bind at 1; cbn; rewrite E; reflexivity]); cbn; rewrite irq_to_to, irq_to_id, ?Hc, ?E; done.
Qed.
Lemma unlock_release_Ret s x t : mtx_ok x → current_ s = Some t → owner_ x = Some t → unlock_release (s, x) =
  Ret tt (s, MkMutex false None (MkSpinlock false (irq (cpu s))) (mtx_waitq x)).
Proof.
  intros (Hl & Hq & Ho) Hc Hw. unfold unlock_release. erewrite with_lock_Ret; [|done|]; cycle 1.
  { unfold bind at 1. cbn. unfold bind at 1. cbn. rewrite Hw, Hc, bool_decide_eq_true_2 by done. rewrite Ho, Hw. reflexivity. }
  cbn. by rewrite irq_to_to, irq_to_id.
Qed.

#[export, refine] Instance mutex_blocking : Blocking Mutex unit := {|
  Ab := option Z; G := unit; Sg := Empty_set; Pl := unit;
  abs := owner_; avail := mtx_free; a_take := mtx_takes; a_give := mtx_gives; a_signal := λ g, match g with end;
  obj_ok := mtx_ok; attempt := lock; resume := lock_resume;
  poll := λ _, (b <- try_lock;; ret (if b then Some tt else None)); give := λ _, unlock_release; signal := λ g, match g with end |}.
Proof.
  all: cbn beta.
  - intros x (_ & Hq & _). done.
  - intros x q (Hl & _ & Hc) Hq. done.
  - intros t [o|]; cbn; [|naive_solver]. split; [lia|by intros [? ?]].
  - intros t [o|] v a'; cbn; [done|]. by intros [= _ <-].
  - intros t g a a'. unfold mtx_gives. case_decide; [|done]. intros [= <-]. subst a. cbn. lia.
  - intros s x t v a' Hx Hc Ht. pose proof Hx as (Hl & Hq & Ho). destruct (owner_ x) as [o|] eqn:E; [done|]. injection Ht as <- <-. cbn in Ho. eexists.
    unfold lock. rewrite (bind_Ret _ _ _ _ _ (lift_Ret _ _ _ _ _ (save_Ret s))), (bind_Ret _ _ _ _ _ (mtx_take_Ret (irq_to false s) x t Hx Hc)), Ho.
    cbn [negb]. rewrite (bind_Ret _ _ _ _ _ (lift_Ret _ _ _ _ _ (restore_Ret _ _))), restore_saved. split; done.
  - intros s x t Hx Hok Hc Hst Hi Ht. pose proof Hx as (Hl & Hq & Ho). destruct (owner_ x) as [o|] eqn:E; [|done]. cbn in Ho.
    set (x1 := MkMutex true (Some o) (MkSpinlock false false) (mtx_waitq x)).
    destruct (bind_sleep (V := unit) x1 s t) as (s' & q' & Es & Hf & Hq' & Hh); try done.
    eexists _, s', _. unfold lock. rewrite (bind_Ret _ _ _ _ _ (lift_Ret _ _ _ _ _ (save_Ret s))), (bind_Ret _ _ _ _ _ (mtx_take_Ret (irq_to false s) x t Hx Hc)), Ho, E.
    split; [exact Es|]. done.
  - intros s x t f Hx. pose proof Hx as (Hl & Hq & Ho). destruct (bind_resume x s t f) as (q' & E & Hq' & Hh); [done|]. exists (if f then true else irq (cpu s)), (put_queue q' x). split; [unfold lock_resume; etrans; [exact E|]|split_and!; [done|done|exact Hh]].
    f_equal. f_equal. destruct f; [done|by rewrite irq_to_id].
  - intros s x t p Hx Hc. unfold try_lock. rewrite (bind_Ret _ _ _ _ _ (mtx_take_Ret _ x t Hx Hc)). pose proof Hx as (Hl & Hq & Ho).
    destruct (owner_ x) as [o|] eqn:E; cbn in Ho; rewrite Ho; eexists; done.
  - intros s x t g a' Hx Hc Hg. unfold mtx_gives in Hg. case_decide as Ho; [|done]. injection Hg as <-.
    eexists. rewrite (unlock_release_Ret s x t Hx Hc Ho). split; [done|]. destruct Hx as (Hl & Hq & _). done.
  - intros s x [].
Defined.

(** ** Console input *)

(** The characters between the two positions of the ring. *)
Definition unread (x : Console) : list Z :=
  (λ i, default 0 (input_ x !! Z.to_nat ((read_ x + i) mod INPUT_SIZE))) <$> seqZ 0 ((write_ x - read_ x) mod INPUT_SIZE).
Definition con_ok (x : Console) : Prop :=
  queue_ok (con_waitq x) ∧ length (input_ x) = 128%nat ∧ 0 ≤ read_ x < INPUT_SIZE ∧ 0 ≤ write_ x < INPUT_SIZE.
Definition con_takes (t : Z) (l : list Z) : option (Z * list Z) := match l with [] => None | c :: l => Some (c, l) end.
Definition con_signal (c : Z) (l : list Z) : list Z := if Z.of_nat (length l) <? INPUT_SIZE - 1 then l ++ [c] else l.

Lemma ring_distance r w n : 0 ≤ r < INPUT_SIZE → 0 ≤ w < INPUT_SIZE → n = (w - r) mod INPUT_SIZE →
  0 ≤ n < INPUT_SIZE ∧ (r + n) mod INPUT_SIZE = w.
Proof.
  unfold INPUT_SIZE. intros Hr Hw ->. split; [by apply Z.mod_pos_bound|]. rewrite Zplus_mod_idemp_r. replace (r + (w - r)) with w by lia. by apply Z.mod_small.
Qed.
Lemma ring_inj r i j : 0 ≤ i < INPUT_SIZE → 0 ≤ j < INPUT_SIZE → (r + i) mod INPUT_SIZE = (r + j) mod INPUT_SIZE → i = j.
Proof.
  unfold INPUT_SIZE. intros Hi Hj E. pose proof (Z.div_mod (r + i) 128). pose proof (Z.div_mod (r + j) 128). nia.
Qed.
Lemma unread_length x : Z.of_nat (length (unread x)) = (write_ x - read_ x) mod INPUT_SIZE.
Proof. unfold unread. rewrite length_fmap, length_seqZ, Z2Nat.id; [done|]. apply Z.mod_pos_bound. done. Qed.

(** The buffer is full when the write position would meet the read position. *)
Lemma full_iff x : con_ok x → ((write_ x + 1) mod INPUT_SIZE =? read_ x) = negb (Z.of_nat (length (unread x)) <? INPUT_SIZE - 1).
Proof.
  intros (_ & _ & Hr & Hw). rewrite unread_length. destruct (ring_distance (read_ x) (write_ x) _ Hr Hw eq_refl) as [Hn Hm]. unfold INPUT_SIZE in *.
  set (n := (write_ x - read_ x) mod 128) in *. apply Bool.eq_iff_eq_true. rewrite Z.eqb_eq, negb_true_iff, Z.ltb_ge. rewrite <- Hm, Zplus_mod_idemp_l. split; intros H.
  - destruct (Z.le_gt_cases (128 - 1) n) as [|Hlt]; [done|]. pose proof (ring_inj (read_ x) (n + 1) 0) as Hi. unfold INPUT_SIZE in Hi.
    rewrite Z.add_assoc, Z.add_0_r, (Z.mod_small (read_ x)) in Hi by lia. specialize (Hi ltac:(lia) ltac:(lia) H). lia.
  - replace (read_ x + n + 1) with (read_ x + 1 * 128) by lia. rewrite Z.mod_add by lia. by apply Z.mod_small.
Qed.

Lemma unread_push x c : con_ok x → Z.of_nat (length (unread x)) < INPUT_SIZE - 1 →
  unread (MkConsole (<[Z.to_nat (write_ x) := c]> (input_ x)) (read_ x) ((write_ x + 1) mod INPUT_SIZE) (con_waitq x)) = unread x ++ [c].
Proof.
  intros (_ & Hl & Hr & Hw) Hlt. rewrite unread_length in Hlt. destruct (ring_distance (read_ x) (write_ x) _ Hr Hw eq_refl) as [Hn Hm].
  unfold unread. cbn [read_ write_ input_]. set (n := (write_ x - read_ x) mod INPUT_SIZE) in *.
  assert (((write_ x + 1) mod INPUT_SIZE - read_ x) mod INPUT_SIZE = n + 1) as ->.
  { rewrite Zminus_mod_idemp_l. unfold n. replace (write_ x + 1 - read_ x) with (write_ x - read_ x + 1) by lia.
    rewrite <- Zplus_mod_idemp_l. fold n. apply Z.mod_small. lia. }
  rewrite seqZ_app by lia. rewrite fmap_app. f_equal.
  - apply list_fmap_ext. intros i j Hj. apply lookup_seqZ in Hj as [-> Hj]. f_equal. apply list_lookup_insert_ne. intros E.
    assert ((read_ x + n) mod INPUT_SIZE = (read_ x + (0 + Z.of_nat i)) mod INPUT_SIZE) as E'.
    { rewrite Hm. pose proof (Z.mod_pos_bound (read_ x + (0 + Z.of_nat i)) INPUT_SIZE ltac:(done)). lia. }
    apply ring_inj in E'; unfold INPUT_SIZE in *; lia.
  - rewrite (seqZ_cons (0 + n) 1), seqZ_nil by lia. cbn [fmap list_fmap]. rewrite Z.add_0_l, Hm, list_lookup_insert_eq by (unfold INPUT_SIZE in *; lia). done.
Qed.

Lemma unread_pop x : con_ok x → (read_ x =? write_ x) = false →
  ∃ c, input_ x !! Z.to_nat (read_ x) = Some c ∧
    unread x = c :: unread (MkConsole (input_ x) ((read_ x + 1) mod INPUT_SIZE) (write_ x) (con_waitq x)).
Proof.
  intros (_ & Hl & Hr & Hw) Hne%Z.eqb_neq. destruct (ring_distance (read_ x) (write_ x) _ Hr Hw eq_refl) as [Hn Hm].
  destruct (lookup_lt_is_Some_2 (input_ x) (Z.to_nat (read_ x))) as [c Hc]; [unfold INPUT_SIZE in *; lia|]. exists c. split; [done|].
  unfold unread. cbn [read_ write_ input_]. set (n := (write_ x - read_ x) mod INPUT_SIZE) in *.
  assert (0 < n) as Hpos. { destruct (decide (n = 0)) as [E|]; [|lia]. rewrite E, Z.add_0_r, Z.mod_small in Hm by lia. done. }
  assert ((write_ x - (read_ x + 1) mod INPUT_SIZE) mod INPUT_SIZE = n - 1) as ->.
  { rewrite Zminus_mod_idemp_r. replace (write_ x - (read_ x + 1)) with ((write_ x - read_ x) - 1) by lia.
    rewrite <- Zminus_mod_idemp_l. fold n. apply Z.mod_small. lia. }
  rewrite seqZ_cons by lia. cbn [fmap list_fmap]. rewrite Z.add_0_r, Z.mod_small, Hc by lia. cbn. f_equal.
  change (Z.succ 0) with (1 + 0). rewrite <- (fmap_add_seqZ 1 0), <- list_fmap_compose. apply list_fmap_ext. intros i j _. cbn.
  rewrite Zplus_mod_idemp_l. do 4 f_equal. lia.
Qed.

#[export, refine] Instance console_blocking : Blocking Console Z := {|
  Ab := list Z; G := Empty_set; Sg := Z; Pl := Empty_set;
  abs := unread; avail := λ l, Z.of_nat (length l); a_take := con_takes; a_give := λ _ g, match g with end; a_signal := con_signal;
  obj_ok := con_ok; attempt := getc; resume := getc_resume;
  poll := λ p, match p with end; give := λ g, match g with end; signal := push_input |}.
Proof.
  all: cbn beta.
  - intros x (Hq & _). done.
  - intros x q (_ & Hc) Hq. done.
  - intros t [|c l]; cbn; [split; [lia|by intros [? ?]]|]. split; [by eexists|lia].
  - intros t [|c l] v a'; cbn; [done|]. intros [= _ <-]. lia.
  - intros t [].
  - intros s x t v a' Hx Hc Ht. unfold getc. rewrite (bind_Ret _ _ _ _ _ (lift_Ret _ _ _ _ _ (save_Ret s))), (bind_Ret _ _ _ x (irq_to false s, x)) by done.
    destruct (read_ x =? write_ x) eqn:E.
    { apply Z.eqb_eq in E. unfold con_takes, unread in Ht. rewrite E, Z.sub_diag in Ht. done. }
    destruct (unread_pop x Hx E) as (c & Hin & Hu). rewrite Hu in Ht. injection Ht as <- <-. cbn [negb].
    rewrite (bind_Ret _ _ _ c (irq_to false s, x)) by (unfold input_at; by rewrite Hin). eexists.
    rewrite (bind_Ret _ _ _ tt (irq_to false s, MkConsole (input_ x) ((read_ x + 1) mod INPUT_SIZE) (write_ x) (con_waitq x))) by done.
    rewrite (bind_Ret _ _ _ _ _ (lift_Ret _ _ _ _ _ (restore_Ret _ _))), restore_saved. split; [done|].
    destruct Hx as (Hq & Hl & Hr & Hw). unfold con_ok. split_and!; try done; cbn; try apply Hw; apply Z.mod_pos_bound; done.
  - intros s x t Hx Hok Hc Hst Hi Ht. unfold getc. rewrite (bind_Ret _ _ _ _ _ (lift_Ret _ _ _ _ _ (save_Ret s))), (bind_Ret _ _ _ x (irq_to false s, x)) by done.
    destruct (read_ x =? write_ x) eqn:E; [|destruct (unread_pop x Hx E) as (c & Hin & Hu); by rewrite Hu in Ht].
    destruct (bind_sleep (V := Z) x s t) as (s' & q' & Es & Hf & Hq' & Hh); try done; [apply Hx|].
    eexists _, s', _. split; [exact Es|]. destruct Hx as (Hq & Hx). done.
  - intros s x t f Hx. pose proof Hx as (Hq & Hx'). destruct (bind_resume x s t f) as (q' & E & Hq' & Hh); [done|]. exists (if f then true else irq (cpu s)), (put_queue q' x). split; [unfold getc_resume; etrans; [exact E|]|split_and!; [done|done|exact Hh]].
    f_equal. f_equal. destruct f; [done|by rewrite irq_to_id].
  - intros s x t [].
  - intros s x t [].
  - intros s x c Hx Hok Hw. unfold push_input, con_signal. rewrite (bind_Ret _ _ _ _ _ (lift_Ret _ _ _ _ _ (save_Ret s))), (bind_Ret _ _ _ x (irq_to false s, x)) by done.
    cbv zeta. rewrite (full_iff x Hx). destruct (Z.ltb_spec (Z.of_nat (length (unread x))) (INPUT_SIZE - 1)) as [Hlt|Hge]; cbn [negb whenM].
    + set (x1 := MkConsole (<[Z.to_nat (write_ x) := c]> (input_ x)) (read_ x) ((write_ x + 1) mod INPUT_SIZE) (con_waitq x)).
      destruct (wakeup_one_spec (irq_to false s) (con_waitq x)) as (s' & q' & E & Hok' & Hq' & Hc' & Hi' & Hirq & Hh & Hst); [by apply sched_ok_irq|apply Hx|done|].
      exists (if irq (cpu s) then irq_to true s' else s'), (put_queue q' x1).
      assert (on_queue wakeup_one (irq_to false s, x1) = Ret tt (s', put_queue q' x1)) as Ew by (by apply on_queue_Ret).
      rewrite (bind_Ret _ _ _ tt (s', put_queue q' x1)) by exact Ew.
      rewrite (lift_Ret _ _ _ _ _ (restore_Ret _ _)). pose proof (unread_push x c Hx Hlt) as Hu. destruct Hx as (Hq & Hl & Hr & Hww).
      split; [done|]. split; [|split; [exact Hu|right; split; [|split; [done|]]]].
      * unfold con_ok. split_and!; cbn; try done; try apply Hr; [by rewrite length_insert|apply Z.mod_pos_bound; done..].
      * assert (∀ b : bool, first_woken s (waiters x) (if b then irq_to true s' else s')) as Hb; [|apply Hb]. intros b. unfold first_woken. destruct b; split_and!; try done. by apply sched_ok_irq.
      * change (unread (put_queue q' x1)) with (unread x1). unfold x1. rewrite Hu, length_app. cbn. lia.
    + exists s, x. rewrite bind_ret, (lift_Ret _ _ _ _ _ (restore_Ret _ _)), restore_saved. split_and!; try done. by left.
Defined.

(** ** The runs, read back from the calls *)

Section traces.
Context {T V : Type} `{HasQueue T, B : !Blocking T V}.
(** The task to which an event gave the object, and the one that gave it back. *)
Definition took (e : event (T := T) (V := V)) : option Z :=
  match e with Took t _ => Some t | Polled t (Some _) => Some t | _ => None end.
Definition gave (e : event (T := T) (V := V)) : option Z := match e with Gave t _ => Some t | _ => None end.
(** The tasks that took the object and did not give it back since. *)
Definition hold (h : list Z) (e : event (T := T) (V := V)) : list Z :=
  match took e, gave e with Some t, _ => t :: h | None, Some t => unlink_from t h | None, None => h end.
Definition holders (l : list (event (T := T) (V := V))) : list Z := foldl hold [] l.

(** What every object has in every reachable state. *)
Definition live (y : sys (T := T)) : Prop :=
  no_lost_wakeup y ∧ ∀ t q, current_ (sch y) = Some t → pcs y !! t = Some q → ∃ e y', step y e y'.

Lemma reachable s x l y : sched_ok s → cur_ready s → obj_ok x → waiters x = [] → steps (MkSys s x ∅) l y →
  a_run (abs x) l (abs (object y)) ∧ obj_ok (object y) ∧ live y.
Proof.
  intros Hok Hr Hx Hw Hs. destruct (steps_ok _ _ _ (abs x) Hs (machine_start s x Hok Hr Hx Hw) eq_refl) as [Hm Hrun].
  split; [done|]. split; [apply (mk_obj _ Hm)|]. split; [by apply machine_no_lost_wakeup|]. intros t q. by apply progress.
Qed.

(** A preemption is one of the things the rest of the system may do. *)
Lemma preemption y : machine_ok y → ∃ flags s', schedule (sch y) = Ret flags s' ∧ step y [] (MkSys s' (object y) (pcs y)).
Proof.
  intros Hm. destruct (schedule_ready (sch y) (mk_sched _ Hm)) as (s' & Hs & Hok & Hr & Hi & _ & Hst). eexists _, s'. split; [done|].
  destruct y as [s x p]. apply st_other. unfold other. auto.
Qed.
End traces.

Lemma semaphore_run n l m : a_run (T := Semaphore) n l m →
  m = n + Z.of_nat (length (omap gave l)) - Z.of_nat (length (omap took l)) ∧ (0 ≤ n → 0 ≤ m).
Proof.
  induction 1 as [a|a l a1 t v a2 Hr [-> IH] Ht|a l a1 t Hr [-> IH]|a l a1 t g a2 Hr [-> IH] Ht|a l a1 [] Hr IH]; [split; [cbn; lia|done]|..];
    rewrite !omap_app, !length_app; cbn in *; unfold sem_takes, sem_gives in *.
  - destruct (Z.ltb_spec 0 (a + Z.of_nat (length (omap gave l)) - Z.of_nat (length (omap took l)))); [|done]. injection Ht as _ <-. lia.
  - destruct (Z.ltb_spec 0 (a + Z.of_nat (length (omap gave l)) - Z.of_nat (length (omap took l)))); cbn; lia.
  - destruct (_ <? _); [|done]. injection Ht as <-. lia.
Qed.


Lemma unlink_self t : unlink_from t [t] = [].
Proof. unfold unlink_from. by rewrite filter_cons_False by (by intros ?). Qed.

Lemma mutex_run l m : a_run (T := Mutex) None l m → holders l = option_list m.
Proof.
  intros Hrun. remember None as a eqn:Ea. revert Ea. unfold holders.
  induction Hrun as [a|a l a1 t v a2 Hr IH Ht|a l a1 t Hr IH|a l a1 t g a2 Hr IH Ht|a l a1 [] Hr IH]; intros ->; [done|..];
    rewrite foldl_app, IH by done.
  - destruct a1; [done|]. by injection Ht as _ <-.
  - by destruct a1.
  - cbn in Ht. unfold mtx_gives in Ht. case_decide as E; [|done]. subst a1. injection Ht as <-. apply unlink_self.
Qed.


(** The characters [getc] returned, and those [push_input] stored: it drops a
    character when 127 are unread. *)
Definition got (e : event (T := Console) (V := Z)) : option Z := match e with Took _ c => Some c | Polled _ o => o | _ => None end.
Definition store (a : list Z * nat) (e : event (T := Console) (V := Z)) : list Z * nat :=
  match e with
  | Signalled c => if Z.of_nat (length a.1 - a.2) <? 127 then (a.1 ++ [c], a.2) else a
  | Took _ _ | Polled _ (Some _) => (a.1, S a.2)
  | _ => a
  end.
Definition stored (l : list (event (T := Console) (V := Z))) : list Z := (foldl store ([], 0%nat) l).1.

Lemma console_run l m : a_run (T := Console) [] l m →
  foldl store ([], 0%nat) l = (omap got l ++ m, length (omap got l)).
Proof.
  intros Hrun. remember [] as a eqn:Ea. revert Ea.
  induction Hrun as [a|a l a1 t v a2 Hr IH Ht|a l a1 t Hr IH|a l a1 t [] a2 Hr IH Ht|a l a1 c Hr IH]; intros ->; [done|..];
    rewrite foldl_app, omap_app, IH by done; cbn in *.
  - unfold con_takes in Ht. destruct a1 as [|c a1]; [done|]. injection Ht as <- <-. rewrite <- (assoc_L (++)). cbn. f_equal. rewrite length_app. cbn. lia.
  - unfold con_takes. destruct a1 as [|c a1]; cbn; [by rewrite !app_nil_r|]. rewrite <- (assoc_L (++)). cbn. f_equal. rewrite length_app. cbn. lia.
  - rewrite app_nil_r, length_app, Nat.add_comm, Nat.add_sub. unfold con_signal, INPUT_SIZE. change (128 - 1) with 127.
    destruct (_ <? _); cbn; [by rewrite <- (assoc_L (++))|done].
Qed.

