(* ===== verification/Process.v ===== *)
(** * Process lifetime: [kernel/sched/process.cpp] and [init_proc.cpp]

    Creating, ending and reaping tasks.  The state is the scheduler's together
    with the rest of the kernel, of type [W], whose services are the class
    [KernelEnv]: the heap for task objects, stacks and address spaces, and the
    virtual file system.  [wait] is split where the caller leaves the CPU, like
    the blocking operations of [Sync]. *)

From S2P Require Import Prelude Fd LibString Sched.

Class KernelEnv (W : Type) : Type := {
  env_new : M W (option Z);               (* [new (sys::nothrow) Task()]: the address *)
  env_delete : Z → M W unit;              (* the memory of a [Task] *)
  env_open : list Z → M W Z;              (* [vfs::open] *)
  env_close : option Z → M W unit;        (* [vfs::FileCloser] *)
  env_alloc_buffer : Z → M W Z;           (* [KernelBuffer::alloc] *)
  env_free_buffer : Z → M W unit;
  env_free_memory : Mem → M W unit }.     (* [~MemoryDesc] *)

Section process.
Context {W : Type} `{KernelEnv W}.
(** The kernel's address space; the size of a trap frame, the address of
    [forkret], and the architecture's two operations on trap frames. *)
Context (kernel_mm : Mem) (tf_size forkret : Z) (fixup_fork_tf : list Z → Z → list Z)
  (setup_kthread_tf : Z → Z → Z → list Z) (kernel_thread_entry init_main user_stack : Z).
Notation P := (sched * W)%type.

Definition on_sched {A} (m : M sched A) : M P A := zoom fst (λ s x, (s, x.2)) m.
Definition on_env {A} (m : M W A) : M P A := zoom snd (λ w x, (x.1, w)) m.
(** An operation on the descriptor table of a task. *)
Definition on_files {A} (t : Z) (m : M (list Entry * W) A) : M P A := λ x,
  match tasks x.1 !! t with
  | None => Halt WildPointer
  | Some k =>
      match m (files k, x.2) with
      | Ret a y => Ret a (with_tasks (<[t := set_files y.1 k]> (tasks x.1)) x.1, y.2)
      | Fail e y => Fail e (with_tasks (<[t := set_files y.1 k]> (tasks x.1)) x.1, y.2)
      | Halt r => Halt r
      end
  end.

(** ** Task objects *)

Definition setup_kernel_stack (t : Z) : M P unit :=
  k <- on_sched (get_task t);;
  ensure (bool_decide (kernel_stack_ k = None) && (boot_stack k =? 0)) E_Busy;;
  a <- on_env (env_alloc_buffer KSTACK_SIZE);;
  on_sched (upd_task t (set_kernel_stack (Some a))).

Definition use_kernel_memory (t : Z) : M P unit :=
  k <- on_sched (get_task t);;
  assert_ (bool_decide (owned_memory k = None) && bool_decide (state k = Uninit));;
  on_sched (upd_task t (set_borrowed_memory (Some kernel_mm))).

Definition adopt_memory (t : Z) (memory : option Mem) : M P unit :=
  k <- on_sched (get_task t);;
  s <- on_sched get;;
  assert_ (bool_decide (memory ≠ None) && bool_decide (owned_memory k = None) && bool_decide (Some t ≠ current_ s));;
  assert_ (bool_decide (state k = Uninit) || bool_decide (state k = Runnable));;
  on_sched (upd_task t (set_owned_memory memory));;
  on_sched (upd_task t (set_borrowed_memory None)).

Definition copy_thread (t : Z) (stack_pointer : Z) (src_tf : list Z) : M P unit :=
  k <- on_sched (get_task t);;
  let tf := kernel_stack k + KSTACK_SIZE - tf_size in
  on_sched (upd_task t (set_trap_frame (tf, fixup_fork_tf src_tf stack_pointer)));;
  on_sched (upd_task t (set_context (forkret, tf))).

(** [list_node.empty() && hash_node.empty() && child_node.empty() && child_list.empty()] *)
Definition detached (s : sched) (t : Z) (k : Task) : bool :=
  bool_decide (t ∉ proc_list s) && bool_decide (map_Forall (λ _ l, t ∉ l) (hash_list s)) &&
  bool_decide (map_Forall (λ _ q, t ∉ child_list q) (tasks s)) && bool_decide (child_list k = []).

(** [delete task]: the destructor, the members it owns, the memory. *)
Definition delete_task (t : Z) : M P unit :=
  k <- on_sched (get_task t);;
  s <- on_sched get;;
  assert_ (bool_decide (Some t ≠ current_ s));;
  assert_ (detached s t k);;
  on_files t (close_all env_close);;
  match kernel_stack_ k with None => ret tt | Some a => on_env (env_free_buffer a) end;;
  match owned_memory k with None => ret tt | Some m => on_env (env_free_memory m) end;;
  on_sched (modify (λ s, with_tasks (delete t (tasks s)) s));;
  on_env (env_delete t).
Definition destroy (t : Z) : M P unit :=
  k <- on_sched (get_task t);;
  assert_ (bool_decide (state k = Zombie));;
  delete_task t.

(** A task owned by a [unique_ptr]: an error return destroys it. *)
Definition owning {A} (t : Z) (m : M P A) : M P A :=
  r <- try_ m;;
  match r with
  | inl a => ret a
  | inr e => delete_task t;; fail e
  end.

(** ** [fork] *)

Definition console_path : list Z := bytes_of "/dev/console".

Definition setup_stdio (t : Z) : M P unit :=
  forM [0; 1; 2] (λ expected_fd,
    file <- on_env (env_open console_path);;
    fd <- on_files t (alloc env_close (Some file));;
    ensure (fd =? expected_fd) E_Invalid).

(** The child before it is published. *)
Definition prepare (t p : Z) (parent : Task) (stack : Z) (tf : list Z) : M P unit :=
  on_sched (upd_task t (set_parent (Some p)));;
  on_files t (fork_from env_close FP_Reset);;
  setup_stdio t;;
  setup_kernel_stack t;;
  use_kernel_memory t;;
  copy_thread t stack tf;;
  on_sched (upd_task t (set_priority (priority parent)));;
  on_sched (upd_task t (set_time_slice (calc_time_slice (priority parent)))).
(** The last section of [fork], under its guard. *)
Definition publish (t : Z) : M sched Z :=
  guarded (
    s <- get;;
    upd_task t (set_pid (next_pid s));;
    modify (λ s, with_next_pid (s32 (next_pid s + 1)) s);;
    set_links t;;
    wakeup t;;
    k <- get_task t;;
    ret (pid k)).

Definition fork (clone_flags stack : Z) (tf : list Z) : M P Z :=
  s <- on_sched get;;
  p <- match current_ s with None => fail E_NotSupported | Some p => ret p end;;
  parent <- on_sched (get_task p);;
  ensure (bool_decide (mm <$> memory parent = Some (mm kernel_mm))) E_NotSupported;;
  o <- on_env env_new;;
  t <- match o with None => fail E_NoMem | Some t => ret t end;;
  on_sched (modify (λ s, with_tasks (<[t := task_new]> (tasks s)) s));;
  owning t (prepare t p parent stack tf;; on_sched (publish t)).

Definition kernel_thread (fn arg : Z) : M P Z :=
  fork 0 0 (setup_kthread_tf kernel_thread_entry fn arg).

(** ** [exit] *)

Definition wake_if_waiting (t : Z) : M sched unit :=
  k <- get_task t;; whenM (negb (wait_state k =? 0)) (wakeup t).

(** The loop that hands the children over to init; it does not end when the
    exiting task is init itself. *)
Fixpoint reparent (fuel : nat) (cur : Z) : M sched unit :=
  match fuel with
  | O => halt OutOfFuel
  | S fuel =>
      k <- get_task cur;;
      match child_list k with
      | [] => ret tt
      | child :: _ =>
          unlink_child child;;
          i <- gets init_proc;;
          upd_task child (set_parent i);;
          init <- deref i;;
          upd_task init (λ q, set_child_list (child :: child_list q) q);;
          c <- get_task child;;
          whenM (bool_decide (state c = Zombie)) (wake_if_waiting init);;
          reparent fuel cur
      end
  end.

(** Up to the switch; a task that is dead is not scheduled again, and the code
    behind the switch is a [PANIC]. *)
Definition exit (error_code : Z) : M sched (bool * (bool * bool)) :=
  flag <- save_impl;;
  c <- gets current_;;
  cur <- deref c;;
  mark_zombie cur error_code;;
  k <- get_task cur;;
  match parent k with None => ret tt | Some p => wake_if_waiting p end;;
  k <- get_task cur;;
  reparent (S (length (child_list k))) cur;;
  flags <- schedule;;
  ret (flag, flags).

(** ** [wait] *)

(** Whether a child matches, and the first matching zombie. *)
Fixpoint scan_children (l : list Z) (pid0 : Z) (has : bool) : M sched (bool * option Z) :=
  match l with
  | [] => ret (has, None)
  | c :: l =>
      k <- get_task c;;
      if (pid0 =? 0) || (pid k =? pid0) then
        if bool_decide (state k = Zombie) then ret (true, Some c) else scan_children l pid0 true
      else scan_children l pid0 has
  end.

(** One iteration of the loop: the pid and the exit code of the child that was
    reaped, an error, or the caller asleep.  The last result holds the flags of
    the guards. *)
Definition wait_iter (pid0 : Z) : M P ((Z * Z) + (bool * (bool * bool))) :=
  flag <- on_sched save_impl;;
  c <- on_sched (gets current_);;
  cur <- deref c;;
  k <- on_sched (get_task cur);;
  r <- on_sched (scan_children (child_list k) pid0 false);;
  match r with
  | (_, Some z) =>
      zombie <- on_sched (get_task z);;
      on_sched (remove_links z);;
      destroy z;;
      on_sched (restore_impl flag);;
      ret (inl (pid zombie, exit_code zombie))
  | (false, None) => on_sched (restore_impl flag);; fail E_NotFound
  | (true, None) =>
      on_sched (upd_task cur (set_wait_state 1));;
      on_sched (sleep cur);;
      flags <- on_sched schedule;;
      ret (inr (flag, flags))
  end.
Definition wait_resume (cur : Z) (fl : bool * (bool * bool)) : M P unit :=
  on_sched (schedule_exit fl.2);;
  on_sched (upd_task cur (set_wait_state 0));;
  on_sched (restore_impl fl.1).
(** The call: the check, then the first iteration. *)
Definition wait (pid0 : Z) : M P ((Z * Z) + (bool * (bool * bool))) :=
  ensure (0 <=? pid0) E_Invalid;;
  wait_iter pid0.

(** ** The first two tasks *)

Definition init_idle : M P Z :=
  o <- on_env env_new;;
  match o with
  | None => ret (-1)
  | Some t =>
      on_sched (modify (λ s, with_tasks (<[t := task_new]> (tasks s)) s));;
      on_sched (upd_task t (set_boot_stack user_stack));;
      on_files t (init env_close);;
      on_sched (upd_task t (set_priority IDLE_PRIO));;
      on_sched (upd_task t (set_time_slice 0));;
      use_kernel_memory t;;
      k <- on_sched (get_task t);;
      r <- on_sched (page_table_root_pa k);;
      on_sched (load_root r);;
      on_sched (set_task_name t (Some (bytes_of "idle")));;
      on_sched (wakeup t);;
      on_sched (modify (with_idle_proc (Some t)));;
      on_sched (modify (with_current (Some t)));;
      on_sched (add_process t);;
      ret 0
  end.

Definition init_init_proc : M P Z :=
  r <- try_ (fork 0 0 (setup_kthread_tf init_main 0 0));;
  match r with
  | inr _ => ret (-1)
  | inl p =>
      o <- on_sched (find_process p);;
      on_sched (modify (with_init_proc o));;
      match o with
      | None => ret (-1)
      | Some t => on_sched (set_task_name t (Some (bytes_of "init")));; ret 0
      end
  end.

Definition sched_init : M P Z :=
  a <- init_idle;;
  if negb (a =? 0) then ret (-1)
  else b <- init_init_proc;; if negb (b =? 0) then ret (-1) else ret 0.
End process.

(** The process table before [init]. *)
Definition sched0 : sched :=
  MkSched ∅ [] ∅ None None None 0 1 None stats0 (MkCpu false 0 0).
