(* ===== verification/Forest.v ===== *)
(** * The family of processes

    The process table seen through what [fork], [exit] and [wait] maintain: the
    pid, the waiting flag, the parent, the children and the status of every
    task.  The operations are changes of this view; each keeps the invariant
    that children and parents agree, that no living task has a dead parent, and
    that a task asleep in [wait] has a matching child but no matching zombie. *)

From S2P Require Import Prelude Fd Sched SchedProofs.

Record info : Type := MkInfo {
  i_pid : Z; i_wait : Z; i_parent : option Z; i_children : list Z; i_status : TaskState }.
Definition info_of (k : Task) : info := MkInfo (pid k) (wait_state k) (parent k) (child_list k) (norm (state k)).
Definition view (s : sched) : gmap Z info := info_of <$> tasks s.

Definition i_set_status (x : TaskState) (i : info) := MkInfo (i_pid i) (i_wait i) (i_parent i) (i_children i) x.
Definition i_set_wait (x : Z) (i : info) := MkInfo (i_pid i) x (i_parent i) (i_children i) (i_status i).
Definition i_set_parent (x : option Z) (i : info) := MkInfo (i_pid i) (i_wait i) x (i_children i) (i_status i).
Definition i_set_children (x : list Z) (i : info) := MkInfo (i_pid i) (i_wait i) (i_parent i) x (i_status i).
Definition i_unlink (c : Z) (i : info) := i_set_children (unlink_from c (i_children i)) i.
Definition i_push (c : Z) (i : info) := i_set_children (c :: i_children i) i.

(** A task inside [wait], at the top of its loop or asleep in it, and a task
    asleep for another reason.  [wfl] are the flags of the guards. *)
Inductive wpc : Type := WTop (p : Z) | Waiting (p : Z) (wfl : bool * (bool * bool)) | Blocked.

(** [c] is a child of [t] that [wait(p)] is about. *)
Definition matches (v : gmap Z info) (t p c : Z) (ic : info) : Prop :=
  v !! c = Some ic ∧ i_parent ic = Some t ∧ (p = 0 ∨ i_pid ic = p).

(** The invariant; [x] is the task that is exiting and has children left. *)
Record forest_ok (idle init x : option Z) (v : gmap Z info) (pw : gmap Z wpc) : Prop := {
  f_child p ip c : v !! p = Some ip → (c ∈ i_children ip ↔ ∃ ic, v !! c = Some ic ∧ i_parent ic = Some p);
  f_nodup p ip : v !! p = Some ip → NoDup (i_children ip);
  f_self t i : v !! t = Some i → i_parent i ≠ Some t;
  f_parent c ic p : v !! c = Some ic → i_parent ic = Some p → ∃ ip, v !! p = Some ip ∧ (i_status ip = Zombie → x = Some p);
  f_init i : init = Some i → ∃ ii, v !! i = Some ii ∧ i_status ii ≠ Zombie ∧ i_parent ii = idle;
  f_wait t i : v !! t = Some i → (i_wait i = 0 ∨ i_wait i = 1) ∧ (i_wait i ≠ 0 ↔ ∃ p fl, pw !! t = Some (Waiting p fl));
  f_asleep t i p fl : v !! t = Some i → pw !! t = Some (Waiting p fl) → i_status i = Sleeping →
    (∃ c ic, matches v t p c ic) ∧ ∀ c ic, matches v t p c ic → i_status ic ≠ Zombie;
  f_pw t q : pw !! t = Some q → ∃ i, v !! t = Some i ∧
    match q with
    | WTop _ => i_status i = Runnable
    | Waiting _ fl => fl.2 = (false, false) ∧ (i_status i = Runnable ∨ i_status i = Sleeping)
    | Blocked => i_status i = Sleeping
    end;
  f_sleeping t i : v !! t = Some i → i_status i = Sleeping → is_Some (pw !! t) }.

Section forest.
Context (idle init : option Z).
Implicit Types (v : gmap Z info) (x : option Z) (pw : gmap Z wpc).

Lemma f_orphan x v pw z iz : forest_ok idle init x v pw → v !! z = Some iz → i_status iz = Zombie → x ≠ Some z → i_children iz = [].
Proof.
  intros Hf Hz Hst Hx. destruct (i_children iz) as [|c l] eqn:E; [done|]. destruct (proj1 (f_child _ _ _ _ _ Hf z iz c Hz)) as (ic & Hc & Hp); [rewrite E; by left|].
  destruct (f_parent _ _ _ _ _ Hf c ic z Hc Hp) as (iz' & Hz' & Hd). simplify_eq. exfalso. auto.
Qed.

(** One task changes its status and its place in [wait]. *)
Lemma forest_update x x' v pw pw' t it it' : forest_ok idle init x v pw → v !! t = Some it →
  i_pid it' = i_pid it → i_parent it' = i_parent it → i_children it' = i_children it →
  (∀ u, u ≠ t → pw' !! u = pw !! u) →
  (∀ p, x = Some p → x' = Some p) →
  (i_status it' = Zombie → i_status it = Zombie ∨ (x' = Some t ∧ init ≠ Some t ∧
     ∀ q iq p fl, i_parent it = Some q → v !! q = Some iq → pw !! q = Some (Waiting p fl) → i_status iq ≠ Sleeping)) →
  ((i_wait it' = 0 ∨ i_wait it' = 1) ∧ (i_wait it' ≠ 0 ↔ ∃ p fl, pw' !! t = Some (Waiting p fl))) →
  (∀ p fl, pw' !! t = Some (Waiting p fl) → i_status it' = Sleeping →
     (∃ c ic, matches v t p c ic) ∧ ∀ c ic, matches v t p c ic → i_status ic ≠ Zombie) →
  (∀ q, pw' !! t = Some q → match q with
    | WTop _ => i_status it' = Runnable
    | Waiting _ fl => fl.2 = (false, false) ∧ (i_status it' = Runnable ∨ i_status it' = Sleeping)
    | Blocked => i_status it' = Sleeping end) →
  (i_status it' = Sleeping → is_Some (pw' !! t)) →
  forest_ok idle init x' (<[t := it']> v) pw'.
Proof.
  intros [H1 H2 Hs H3 H4 H5 H6 H7 H8] Ht Epid Epar Ech Hpw Hx Hz Hw Ha Hq Hsl.
  assert (∀ u iu, <[t := it']> v !! u = Some iu → ∃ i0, v !! u = Some i0 ∧ i_pid iu = i_pid i0 ∧ i_parent iu = i_parent i0 ∧ i_children iu = i_children i0 ∧ (u = t ∧ iu = it' ∨ u ≠ t ∧ iu = i0)) as Hl.
  { intros u iu [[<- <-]|[? ?]]%lookup_insert_Some; [exists it|exists iu]; naive_solver. }
  assert (∀ u i0, v !! u = Some i0 → ∃ iu, <[t := it']> v !! u = Some iu ∧ i_pid iu = i_pid i0 ∧ i_parent iu = i_parent i0 ∧ (u = t ∧ iu = it' ∨ u ≠ t ∧ iu = i0)) as Hl'.
  { intros u i0 Hu. destruct (decide (u = t)) as [->|]; [rewrite lookup_insert_eq; exists it'; naive_solver|rewrite lookup_insert_ne by done; exists i0; naive_solver]. }
  constructor.
  - intros p ip c (i0 & Hi & _ & _ & -> & _)%Hl. rewrite (H1 p i0 c Hi). split; intros (ic & Hc & Hp).
    + destruct (Hl' c ic Hc) as (iu & ? & _ & ? & _). exists iu. split; congruence.
    + destruct (Hl c ic Hc) as (iu & ? & _ & ? & _). exists iu. split; congruence.
  - intros p ip (i0 & Hi & _ & _ & -> & _)%Hl. by apply (H2 p).
  - intros u iu (i0 & Hi & _ & -> & _ & _)%Hl. by apply Hs.
  - intros c ic p (i0 & Hi & _ & -> & _)%Hl Hp. destruct (H3 c i0 p Hi Hp) as (ip & Hip & Hzp). destruct (Hl' p ip Hip) as (iu & Hiu & _ & _ & Hcase). exists iu. split; [done|]. destruct Hcase as [[-> ->]|[_ ->]]; [|naive_solver].
    intros Hz'. destruct (Hz Hz') as [?|[? _]]; [|done]. apply Hx, Hzp. congruence.
  - intros i Hi. destruct (H4 i Hi) as (ii & H4' & H4z & H4p). destruct (Hl' i ii H4') as (iu & ? & _ & Hp & Hc). exists iu. split_and!; [done| |congruence]. destruct Hc as [[-> ->]|[_ ->]]; [|done].
    intros Hz'. destruct (Hz Hz') as [?|(_ & ? & _)]; congruence.
  - intros u iu (i0 & Hi & _ & _ & _ & [[-> ->]|[? ->]])%Hl; [done|]. rewrite Hpw by done. by apply H5.
  - intros u iu p fl Hu Hp Hst. assert (∀ c ic, matches (<[t := it']> v) u p c ic → ∃ i0, matches v u p c i0 ∧ (c = t ∧ ic = it' ∨ c ≠ t ∧ ic = i0)) as Hm.
    { intros c ic (Hc & Hpc & Hpp). destruct (Hl c ic Hc) as (i0 & ? & ? & ? & _ & ?). exists i0. unfold matches. naive_solver congruence. }
    assert (∀ c i0, matches v u p c i0 → ∃ ic, matches (<[t := it']> v) u p c ic) as Hm'.
    { intros c i0 (Hc & Hpc & Hpp). destruct (Hl' c i0 Hc) as (ic & ? & ? & ? & ?). exists ic. unfold matches. naive_solver congruence. }
    assert ((∃ c ic, matches v u p c ic) ∧ ∀ c ic, matches v u p c ic → i_status ic ≠ Zombie) as [(c & ic & Hex) Hnone].
    { destruct (Hl u iu Hu) as (i0 & Hi & _ & _ & _ & [[-> ->]|[Hne ->]]); [by apply (Ha p fl)|]. rewrite Hpw in Hp by done. by apply (H6 u i0 p fl). }
    split; [destruct (Hm' c ic Hex); eauto|]. intros c' ic' Hc'. destruct (Hm c' ic' Hc') as (i0 & Hm0 & [[-> ->]|[_ ->]]); [|by apply (Hnone c')].
    intros Hz'. pose proof Hm0 as (Ht0 & Hpar & _). simplify_eq. destruct (Hz Hz') as [?|(_ & _ & Hno)]; [by apply (Hnone t it)|].
    destruct (Hl u iu Hu) as (i1 & Hi1 & _ & _ & _ & [[-> ->]|[Hne ->]]); [by apply (Hs t it)|]. rewrite Hpw in Hp by done. by apply (Hno u i1 p fl).
  - intros u q Hu. destruct (decide (u = t)) as [->|Hne]; [exists it'; split; [by rewrite lookup_insert_eq|by apply Hq]|].
    rewrite Hpw in Hu by done. destruct (H7 u q Hu) as (i0 & Hi & ?). exists i0. by rewrite lookup_insert_ne.
  - intros u iu (i0 & Hi & _ & _ & _ & [[-> ->]|[? ->]])%Hl; [done|]. rewrite Hpw by done. by apply H8.
Qed.
(** A living task gets a new child. *)
Lemma forest_fork v pw t p ip n : forest_ok idle init None v pw → v !! t = None → v !! p = Some ip → i_status ip ≠ Zombie →
  i_status ip ≠ Sleeping →
  forest_ok idle init None (<[t := MkInfo n 0 (Some p) [] Runnable]> (alter (i_push t) p v)) pw.
Proof.
  intros Hf Ht Hp Hz Hsl. pose proof Hf as [H1 H2 Hs H3 H4 H5 H6 H7 H8]. set (v' := <[t := _]> _).
  assert (p ≠ t) as Hne by congruence.
  assert (∀ u iu, v' !! u = Some iu → (u = t ∧ iu = MkInfo n 0 (Some p) [] Runnable) ∨ (u ≠ t ∧ ∃ i0, v !! u = Some i0 ∧ iu = if decide (u = p) then i_push t i0 else i0)) as Hl.
  { intros u iu [[<- <-]|[? [[-> (i0 & ? & ->)]|[? ?]]%lookup_alter_Some]]%lookup_insert_Some; [by left|right..]; (split; [done|]); [exists i0; by rewrite decide_True|exists iu; by rewrite decide_False]. }
  assert (∀ u i0, v !! u = Some i0 → v' !! u = Some (if decide (u = p) then i_push t i0 else i0)) as Hl'.
  { intros u i0 Hu. unfold v'. rewrite lookup_insert_ne by congruence. destruct (decide (u = p)) as [->|]; [by rewrite lookup_alter_eq, Hu|by rewrite lookup_alter_ne]. }
  assert (v' !! t = Some (MkInfo n 0 (Some p) [] Runnable)) as Hvt by apply lookup_insert_eq.
  assert (∀ u, i_parent (MkInfo n 0 (Some p) [] Runnable) = Some u → v !! u = v !! p) as Hpt by (intros u [= <-]; done).
  assert (∀ (u : Z) (i0 : info), i_parent (if decide (u = p) then i_push t i0 else i0) = i_parent i0 ∧ i_status (if decide (u = p) then i_push t i0 else i0) = i_status i0
    ∧ i_wait (if decide (u = p) then i_push t i0 else i0) = i_wait i0 ∧ i_pid (if decide (u = p) then i_push t i0 else i0) = i_pid i0) as Heq by (intros; by destruct (decide _)).
  constructor.
  - intros q iq c Hq. assert ((∃ ic, v' !! c = Some ic ∧ i_parent ic = Some q) ↔ (c = t ∧ q = p) ∨ ∃ ic, v !! c = Some ic ∧ i_parent ic = Some q) as ->.
    { split; [intros (ic & [[-> ->]|(? & i0 & ? & ->)]%Hl & E)|intros [[-> ->]|(ic & Hc & E)]].
      - left. by injection E as ->.
      - right. exists i0. split; [done|]. by rewrite (proj1 (Heq c i0)) in E.
      - by eexists.
      - eexists. split; [by apply Hl'|]. by rewrite (proj1 (Heq c ic)). }
    destruct (Hl q iq Hq) as [[-> ->]|(Hqt & i0 & Hi0 & ->)].
    + cbn. split; [by intros ?%elem_of_nil|]. intros [[_ ->]|(ic & Hc & E)]; [done|]. destruct (H3 c ic t Hc E) as (? & ? & _). congruence.
    + rewrite <- (H1 q i0 c Hi0). destruct (decide (q = p)) as [->|]; cbn; [rewrite elem_of_cons|]; naive_solver.
  - intros q iq [[-> ->]|(? & i0 & Hi0 & ->)]%Hl; [apply NoDup_nil_2|]. destruct (decide (q = p)) as [->|]; [|by apply (H2 q)]. cbn. apply NoDup_cons. split; [|by apply (H2 p)].
    rewrite (H1 p i0 t Hi0). intros (ic & Hc & _). congruence.
  - intros u iu [[-> ->]|(? & i0 & Hi0 & ->)]%Hl; [cbn; congruence|]. rewrite (proj1 (Heq u i0)). by apply Hs.
  - intros c ic q [[-> ->]|(? & i0 & Hi0 & ->)]%Hl; [intros [= <-]; eexists; split; [by apply Hl'|]; rewrite (proj1 (proj2 (Heq p ip))); done|].
    rewrite (proj1 (Heq c i0)). intros E. destruct (H3 c i0 q Hi0 E) as (iq & Hq & ?). eexists. split; [by apply Hl'|]. by rewrite (proj1 (proj2 (Heq q iq))).
  - intros i Hi. destruct (H4 i Hi) as (ii & H4' & H4z). eexists. split; [by apply Hl'|]. destruct (Heq i ii) as (-> & -> & _). done.
  - intros u iu [[-> ->]|(? & i0 & Hi0 & ->)]%Hl.
    + cbn. split; [by left|]. split; [done|]. intros (q & fl & Hq). destruct (H7 t _ Hq) as (? & ? & _). congruence.
    + destruct (Heq u i0) as (_ & _ & -> & _). by apply H5.
  - intros u iu q fl [[-> ->]|(? & i0 & Hi0 & ->)]%Hl Hq; [done|]. destruct (Heq u i0) as (_ & -> & _). intros Hst.
    destruct (H6 u i0 q fl Hi0 Hq Hst) as [(c & ic & Hc & Hpc & Hm) Hno]. split.
    + exists c. eexists. split; [by apply Hl'|]. destruct (Heq c ic) as (-> & _ & _ & ->). done.
    + intros c' ic' ([[-> ->]|(? & i1 & Hi1 & ->)]%Hl & Hp' & Hm'); [done|]. destruct (Heq c' i1) as (E1 & -> & _ & E4). rewrite E1 in Hp'. rewrite E4 in Hm'. by apply (Hno c' i1).
  - intros u q Hq. destruct (H7 u q Hq) as (i0 & Hi0 & Hm). eexists. split; [by apply Hl'|]. destruct (Heq u i0) as (_ & -> & _). done.
  - intros u iu [[-> ->]|(? & i0 & Hi0 & ->)]%Hl; [done|]. destruct (Heq u i0) as (_ & -> & _). by apply H8.
Qed.

(** A dead task without children is removed. *)
Lemma forest_reap v pw z iz : forest_ok idle init None v pw → v !! z = Some iz → i_status iz = Zombie →
  (∀ p ip, i_parent iz = Some p → v !! p = Some ip → i_status ip ≠ Sleeping) →
  forest_ok idle init None (delete z (i_unlink z <$> v)) pw.
Proof.
  intros Hf Hz Hst Hpar. pose proof Hf as [H1 H2 Hs H3 H4 H5 H6 H7 H8]. set (v' := delete _ _).
  assert (∀ u iu, v' !! u = Some iu ↔ u ≠ z ∧ ∃ i0, v !! u = Some i0 ∧ iu = i_unlink z i0) as Hl.
  { intros u iu. unfold v'. rewrite lookup_delete_Some, lookup_fmap, fmap_Some. naive_solver. }
  assert (∀ c ic, v !! c = Some ic → i_parent ic ≠ Some z) as Hno.
  { intros c ic Hc E. destruct (H3 c ic z Hc E) as (iz' & Hz' & Hd). simplify_eq. by specialize (Hd Hst). }
  constructor.
  - intros q iq c (Hq & i0 & Hi0 & ->)%Hl. cbn. rewrite elem_of_unlink, (H1 q i0 c Hi0). split.
    + intros (Hc & ic & Hic & E). exists (i_unlink z ic). split; [|done]. apply Hl. eauto.
    + intros (ic & (Hc & i1 & Hi1 & ->)%Hl & E). split; [done|]. by exists i1.
  - intros q iq (Hq & i0 & Hi0 & ->)%Hl. apply unlink_from_nodup. by apply (H2 q).
  - intros u iu (Hu & i0 & Hi0 & ->)%Hl. by apply (Hs u i0).
  - intros c ic q (Hc & i0 & Hi0 & ->)%Hl E. cbn in E. destruct (H3 c i0 q Hi0 E) as (iq & Hq & Hd). exists (i_unlink z iq). split; [|done].
    apply Hl. split; [|eauto]. intros ->. by apply (Hno c i0).
  - intros i Hi. destruct (H4 i Hi) as (ii & H4' & H4z). exists (i_unlink z ii). split; [|done]. apply Hl. split; [|eauto]. intros ->. simplify_eq. by destruct H4z.
  - intros u iu (Hu & i0 & Hi0 & ->)%Hl. by apply (H5 u i0).
  - intros u iu q fl (Hu & i0 & Hi0 & ->)%Hl Hq Hs'. destruct (H6 u i0 q fl Hi0 Hq Hs') as [(c & ic & Hc & Hpc & Hm) Hnz]. split.
    + exists c, (i_unlink z ic). split; [|done]. apply Hl. split; [|eauto]. intros ->. simplify_eq. by apply (Hpar u i0).
    + intros c' ic' ((Hc' & i1 & Hi1 & ->)%Hl & Hp' & Hm'). by apply (Hnz c' i1).
  - intros u q Hq. destruct (H7 u q Hq) as (i0 & Hi0 & Hm). exists (i_unlink z i0). split; [|done]. apply Hl. split; [|eauto].
    intros ->. simplify_eq. destruct q; [congruence| |congruence]. destruct Hm as [_ [?|?]]; congruence.
  - intros u iu (Hu & i0 & Hi0 & ->)%Hl. by apply (H8 u i0).
Qed.
(** A child of the exiting task [cur] becomes a child of init. *)
Definition move (c i : Z) (v : gmap Z info) : gmap Z info :=
  alter (i_push c) i (alter (i_set_parent (Some i)) c (i_unlink c <$> v)).
Lemma move_lookup c i v u iu : c ≠ i → move c i v !! u = Some iu ↔
  ∃ i0, v !! u = Some i0 ∧ iu = MkInfo (i_pid i0) (i_wait i0) (if decide (u = c) then Some i else i_parent i0)
    (if decide (u = i) then c :: unlink_from c (i_children i0) else unlink_from c (i_children i0)) (i_status i0).
Proof.
  intros Hne. unfold move. destruct (decide (u = i)) as [->|Hi]; [rewrite lookup_alter_eq, lookup_alter_ne by done; destruct (decide (i = c)); [congruence|]|
    rewrite lookup_alter_ne by done; destruct (decide (u = c)) as [->|Hc]; [rewrite lookup_alter_eq|rewrite lookup_alter_ne by done]];
    rewrite lookup_fmap; destruct (v !! _) as [j|]; cbn; (split; [try done; try (intros [= <-]; by exists j)|by intros (i0 & [= <-] & ->)]).
Qed.
Lemma forest_move v pw c ic cur i ii : forest_ok idle init (Some cur) v pw → v !! c = Some ic → i_parent ic = Some cur →
  init = Some i → v !! i = Some ii → cur ≠ i → idle ≠ Some cur → (∀ icur, v !! cur = Some icur → i_status icur ≠ Sleeping) →
  (i_status ic = Zombie → ∀ p fl, pw !! i = Some (Waiting p fl) → i_status ii ≠ Sleeping) →
  forest_ok idle init (Some cur) (move c i v) pw.
Proof.
  intros Hf Hc Hpc Hi Hii Hcur Hidle Hns Hnz. pose proof Hf as [H1 H2 Hs H3 H4 H5 H6 H7 H8].
  destruct (H4 i Hi) as (ii' & H4' & H4z & H4p). assert (ii' = ii) as -> by congruence.
  assert (c ≠ i) as Hci by congruence. assert (c ≠ cur) as Hcc by (intros ->; by apply (Hs cur ic)).
  assert (∀ u i0, v !! u = Some i0 → ∃ iu, move c i v !! u = Some iu ∧ i_pid iu = i_pid i0 ∧ i_status iu = i_status i0 ∧ i_parent iu = if decide (u = c) then Some i else i_parent i0) as Hl'.
  { intros u i0 Hu. eexists. split; [apply move_lookup; [done|]; by exists i0|done]. }
  constructor.
  - intros q iq u (i0 & Hi0 & ->)%move_lookup; [|done]. cbn. assert ((∃ iu, move c i v !! u = Some iu ∧ i_parent iu = Some q) ↔ if decide (u = c) then q = i else u ∈ i_children i0) as ->.
    { destruct (decide (u = c)) as [->|Hne]; [|rewrite (H1 q i0 u Hi0)]; split.
      - intros (iu & (i1 & Hi1 & ->)%move_lookup & E); [|done]. cbn in E. rewrite decide_True in E by done. congruence.
      - intros ->. destruct (Hl' c ic Hc) as (iu & ? & _ & _ & E). exists iu. by rewrite decide_True in E.
      - intros (iu & (i1 & Hi1 & ->)%move_lookup & E); [|done]. cbn in E. rewrite decide_False in E by done. eauto.
      - intros (iu & Hiu & E). destruct (Hl' u iu Hiu) as (iu' & ? & _ & _ & E'). exists iu'. rewrite decide_False in E' by done. by rewrite E'. }
    destruct (decide (q = i)) as [->|Hqi]; rewrite ?elem_of_cons, elem_of_unlink; destruct (decide (u = c)) as [->|]; naive_solver.
  - intros q iq (i0 & Hi0 & ->)%move_lookup; [|done]. cbn. pose proof (unlink_from_nodup c _ (H2 q i0 Hi0)). case_decide; [|done]. apply NoDup_cons. split; [|done]. rewrite elem_of_unlink. naive_solver.
  - intros u iu (i0 & Hi0 & ->)%move_lookup; [|done]. cbn. case_decide; [congruence|]. by apply (Hs u i0).
  - intros u iu q (i0 & Hi0 & ->)%move_lookup; [|done]. cbn. case_decide.
    + intros [= <-]. destruct (Hl' i ii Hii) as (iu & ? & _ & E & _). exists iu. split; [done|]. by rewrite E.
    + intros E. destruct (H3 u i0 q Hi0 E) as (iq & Hq & Hd). destruct (Hl' q iq Hq) as (iu & ? & _ & E' & _). exists iu. split; [done|]. by rewrite E'.
  - intros j Hj. assert (j = i) as -> by congruence. destruct (Hl' i ii Hii) as (iu & ? & _ & E & E'). exists iu. rewrite decide_False in E' by done. rewrite E, E'. done.
  - intros u iu (i0 & Hi0 & ->)%move_lookup; [|done]. by apply (H5 u i0).
  - intros u iu q fl (i0 & Hi0 & ->)%move_lookup Hq Hst; [|done]. cbn in Hst. destruct (H6 u i0 q fl Hi0 Hq Hst) as [(d & id & Hd & Hpd & Hm) Hno]. split.
    + destruct (Hl' d id Hd) as (id' & ? & E1 & _ & E2). exists d, id'. split; [done|]. rewrite E1. split; [|done]. rewrite E2, decide_False; [done|]. intros ->. simplify_eq. by apply (Hns i0).
    + intros d' id' ((i1 & Hi1 & ->)%move_lookup & Hp' & Hm'); [|done]. cbn in *. case_decide; [|by apply (Hno d' i1)]. simplify_eq. intros Hz. by apply (Hnz Hz q fl).
  - intros u q Hq. destruct (H7 u q Hq) as (i0 & Hi0 & Hm). destruct (Hl' u i0 Hi0) as (iu & ? & _ & E & _). exists iu. split; [done|]. by rewrite E.
  - intros u iu (i0 & Hi0 & ->)%move_lookup; [|done]. by apply (H8 u i0).
Qed.

(** All children are gone: the exiting task is an ordinary dead task. *)
Lemma forest_done v pw cur icur : forest_ok idle init (Some cur) v pw → v !! cur = Some icur → i_children icur = [] → forest_ok idle init None v pw.
Proof.
  intros [H1 H2 Hs H3 H4 H5 H6 H7 H8] Hcur Hch. constructor; try done. intros c ic p Hc Hp. destruct (H3 c ic p Hc Hp) as (ip & Hip & Hz).
  exists ip. split; [done|]. intros Hd. specialize (Hz Hd). injection Hz as <-. assert (c ∈ i_children icur) as Hin by (apply (H1 cur icur c Hcur); eauto). rewrite Hch in Hin. by apply elem_of_nil in Hin.
Qed.
End forest.
