(* ===== verification/ProcessProofs.v ===== *)
(** * Processes are created, end and are reaped correctly

    The process table keeps the invariant [proc_ok] under every sequence of the
    operations of [Process], of scheduling, and of tasks that sleep and wake for
    other reasons. *)

From S2P Require Import Prelude Fd LibString Sched SchedProofs Sync SyncProofs Process Forest.

(** ** The invariant *)

(** Pids are distinct, the hash table holds exactly the tasks, each under its
    pid, and the count is the number of tasks. *)
Record pids_ok (s : sched) : Prop := {
  p_range t i : view s !! t = Some i → 0 ≤ i_pid i < next_pid s;
  p_inj t1 i1 t2 i2 : view s !! t1 = Some i1 → view s !! t2 = Some i2 → i_pid i1 = i_pid i2 → t1 = t2;
  p_hash t h : t ∈ bucket s h ↔ ∃ i, view s !! t = Some i ∧ pid_hash (i_pid i) = h;
  p_count : process_count s = s32 (Z.of_nat (length (proc_list s))) }.

Record proc_inv (x : option Z) (s : sched) (pw : gmap Z wpc) : Prop := {
  pi_sched : sched_ok s;
  pi_forest : forest_ok (idle_proc s) (init_proc s) x (view s) pw;
  pi_pids : pids_ok s }.
Definition proc_ok (s : sched) (pw : gmap Z wpc) : Prop := proc_inv None s pw ∧ cur_ready s.

(** The parts of the state that only creation and reaping change. *)
Definition same_table (s s' : sched) : Prop :=
  proc_list s' = proc_list s ∧ hash_list s' = hash_list s ∧ idle_proc s' = idle_proc s ∧ init_proc s' = init_proc s ∧
  process_count s' = process_count s ∧ next_pid s' = next_pid s.

Lemma view_lookup s t i : view s !! t = Some i ↔ ∃ k, tasks s !! t = Some k ∧ i = info_of k.
Proof. unfold view. rewrite lookup_fmap, fmap_Some. naive_solver. Qed.
Lemma view_status s t : status s t = i_status <$> view s !! t.
Proof. unfold status, view. rewrite lookup_fmap. by destruct (tasks s !! t). Qed.

Lemma pids_ok_same s s' : pids_ok s → same_table s s' → i_pid <$> view s' = i_pid <$> view s → pids_ok s'.
Proof.
  intros [H1 H2 H3 H4] (E1 & E2 & _ & _ & E5 & E6) Hv.
  assert (∀ t i, view s' !! t = Some i → ∃ i0, view s !! t = Some i0 ∧ i_pid i0 = i_pid i) as Hl.
  { intros t i Hi. apply (f_equal (.!! t)) in Hv. rewrite !lookup_fmap, Hi in Hv. cbn in Hv. symmetry in Hv. apply fmap_Some in Hv as (i0 & ? & ?). eauto. }
  assert (∀ t i, view s !! t = Some i → ∃ i0, view s' !! t = Some i0 ∧ i_pid i0 = i_pid i) as Hl'.
  { intros t i Hi. apply (f_equal (.!! t)) in Hv. rewrite !lookup_fmap, Hi in Hv. cbn in Hv. apply fmap_Some in Hv as (i0 & ? & ?). eauto. }
  constructor.
  - intros t i (i0 & Hi & <-)%Hl. rewrite E6. by apply (H1 t).
  - intros t1 i1 t2 i2 (j1 & Hj1 & <-)%Hl (j2 & Hj2 & <-)%Hl. by apply H2.
  - intros t h. unfold bucket. rewrite E2. fold (bucket s h). rewrite H3. split; intros (i & Hi & <-); [destruct (Hl' t i Hi) as (j & ? & E)|destruct (Hl t i Hi) as (j & ? & E)]; exists j; by rewrite E.
  - by rewrite E5, E1.
Qed.

(** Updates of single tasks in the view. *)
Lemma view_alter f g t s : (∀ k, info_of (f k) = g (info_of k)) → view (with_tasks (alter f t (tasks s)) s) = alter g t (view s).
Proof.
  intros Hfg. unfold view. apply map_eq. intros u. cbn. rewrite lookup_fmap. destruct (decide (u = t)) as [->|].
  - rewrite !lookup_alter_eq, lookup_fmap. destruct (tasks s !! t); cbn; [by rewrite Hfg|done].
  - by rewrite !lookup_alter_ne, lookup_fmap by done.
Qed.
Lemma alter_as_insert {A} (g : A → A) (v : gmap Z A) t i : v !! t = Some i → alter g t v = <[t := g i]> v.
Proof. intros Hi. apply map_eq. intros u. destruct (decide (u = t)) as [->|]; [by rewrite lookup_alter_eq, lookup_insert_eq, Hi|by rewrite lookup_alter_ne, lookup_insert_ne]. Qed.
Lemma pid_alter g t (v : gmap Z info) : (∀ i, i_pid (g i) = i_pid i) → i_pid <$> alter g t v = i_pid <$> v.
Proof. intros Hg. apply map_eq. intros u. rewrite !lookup_fmap. destruct (decide (u = t)) as [->|]; [|by rewrite lookup_alter_ne]. rewrite lookup_alter_eq. destruct (v !! t); cbn; [by rewrite Hg|done]. Qed.

(** What [sched_ok] needs of a task. *)
Definition cpu_view (k : Task) : option Z * TaskState := (root_of k, state k).
Lemma sched_ok_tasks s s' : sched_ok s → cpu_view <$> tasks s' = cpu_view <$> tasks s → proc_list s' = proc_list s →
  cursor s' = cursor s → idle_proc s' = idle_proc s → current_ s' = current_ s → root (cpu s') = root (cpu s) → sched_ok s'.
Proof.
  intros [H1 H2 H3 (i & ki & Hi & Hki & Hz) (c & kc & Hc & Hkc & Hr) H6 H7] Hv E2 E3 E4 E5 E6.
  assert (∀ t k, tasks s' !! t = Some k → ∃ k0, tasks s !! t = Some k0 ∧ root_of k0 = root_of k ∧ state k0 = state k) as Hl.
  { intros t k Hk. apply (f_equal (.!! t)) in Hv. rewrite !lookup_fmap, Hk in Hv. symmetry in Hv. apply fmap_Some in Hv as (k0 & ? & [= ? ?]). eauto. }
  assert (∀ t k, tasks s !! t = Some k → ∃ k0, tasks s' !! t = Some k0 ∧ root_of k0 = root_of k ∧ state k0 = state k) as Hl'.
  { intros t k Hk. apply (f_equal (.!! t)) in Hv. rewrite !lookup_fmap, Hk in Hv. apply fmap_Some in Hv as (k0 & ? & [= ? ?]). eauto. }
  constructor; rewrite ?E2, ?E3, ?E4, ?E5, ?E6; try done.
  - intros t. rewrite H1. split; intros [k Hk]; [destruct (Hl' t k Hk) as (? & -> & _)|destruct (Hl t k Hk) as (? & -> & _)]; done.
  - destruct (Hl' i ki Hki) as (k0 & ? & _ & E). exists i, k0. by rewrite E.
  - destruct (Hl' c kc Hkc) as (k0 & ? & E & _). exists c, k0. by rewrite E.
  - intros t k Hk. destruct (Hl t k Hk) as (k0 & ? & <- & _). by apply (H6 t).
  - intros t k Hk. destruct (Hl t k Hk) as (k0 & ? & _ & <-). by apply H7.
Qed.
Lemma cpu_alter f t (m : gmap Z Task) : (∀ k, cpu_view (f k) = cpu_view k) → cpu_view <$> alter f t m = cpu_view <$> m.
Proof. intros Hf. apply map_eq. intros u. rewrite !lookup_fmap. destruct (decide (u = t)) as [->|]; [|by rewrite lookup_alter_ne]. rewrite lookup_alter_eq. destruct (m !! t); cbn; [by rewrite Hf|done]. Qed.

(** ** Scheduling *)

Lemma switched_view s c n s' : sched_ok s → switched s c n s' → view s' = view s.
Proof.
  intros Hok Hsw. apply map_eq. intros t. pose proof (switched_status s c n s' t Hok Hsw) as Hst. unfold status in Hst. unfold view. rewrite !lookup_fmap.
  rewrite (switched_lookup _ _ _ _ t Hsw) in *. destruct (tasks s !! t) as [k|]; [|done]. cbn in *. f_equal. injection Hst as Hst. unfold info_of. rewrite Hst. clear.
  unfold stay, enter, leave, refill. destruct (decide (t = n)), (decide (n = c)), (decide (t = c)); cbn; try done; try (by destruct (_ <=? _)); by case_bool_decide.
Qed.

Lemma schedule_inv x s pw : proc_inv x s pw → ∃ s', schedule s = Ret (irq (cpu s), false) s' ∧ proc_inv x s' pw ∧ cur_ready s' ∧
  same_table s s' ∧ view s' = view s ∧ (∀ t k, tasks s !! t = Some k → ∃ k', tasks s' !! t = Some k' ∧ exit_code k' = exit_code k).
Proof.
  intros [Hok Hf Hp]. destruct (schedule_spec s Hok) as (c & n & s' & Hc & Hs & Hsw). exists s'. pose proof (switched_view s c n s' Hok Hsw) as Hv.
  assert (same_table s s') as Hst by (unfold same_table; split_and!; apply Hsw). split; [done|]. split.
  { constructor; [by eapply switched_ok| |eapply pids_ok_same; [done..|by rewrite Hv]]. rewrite Hv. destruct Hst as (_ & _ & -> & -> & _). done. }
  split_and!; try done; [by eapply switched_ready|]. intros t k Hk. rewrite (switched_lookup _ _ _ _ t Hsw), Hk. eexists. split; [done|].
  unfold stay, enter, leave, refill. destruct (decide (t = n)), (decide (n = c)), (decide (t = c)); cbn; try done; try (by destruct (_ <=? _)); by case_bool_decide.
Qed.

Lemma proc_inv_irq b x s pw : proc_inv x s pw → proc_inv x (irq_to b s) pw.
Proof. intros [H1 H2 H3]. constructor; [by apply sched_ok_irq|done|]. by eapply pids_ok_same. Qed.

(** ** Changes of one task *)

Lemma proc_inv_upd x x' s pw pw' t f g : proc_inv x s pw → (∀ k, info_of (f k) = g (info_of k)) → (∀ i, i_pid (g i) = i_pid i) →
  sched_ok (with_tasks (alter f t (tasks s)) s) → forest_ok (idle_proc s) (init_proc s) x' (alter g t (view s)) pw' →
  proc_inv x' (with_tasks (alter f t (tasks s)) s) pw'.
Proof.
  intros [H1 H2 H3] Hfg Hg Hok Hf. constructor; [done| |]; [|eapply pids_ok_same; [done|done|]]; rewrite (view_alter f g) by done; [done|]. by apply pid_alter.
Qed.

(** [if (t->wait_state) t->wakeup()] *)
Definition wake1 (k : Task) : Task := if negb (wait_state k =? 0) then set_state Runnable k else k.
Definition i_wake (i : info) : info := if negb (i_wait i =? 0) then i_set_status Runnable i else i.
Lemma info_wake1 k : info_of (wake1 k) = i_wake (info_of k).
Proof. unfold wake1, i_wake, info_of. cbn. by destruct (negb _). Qed.

Lemma wake_if_waiting_Ret t k s : tasks s !! t = Some k → state k ≠ Zombie →
  wake_if_waiting t s = Ret tt (with_tasks (alter wake1 t (tasks s)) s).
Proof.
  intros Hk Hz. unfold wake_if_waiting. rewrite (bind_Ret _ _ _ _ _ (get_task_Ret t k s Hk)). unfold wake1. rewrite (alter_if _ _ t k Hk).
  destruct (negb (wait_state k =? 0)); cbn [whenM]; [by apply (wakeup_Ret t k)|]. unfold ret. f_equal. by destruct s.
Qed.

Lemma sched_ok_wake1 s t k : sched_ok s → tasks s !! t = Some k → sched_ok (with_tasks (alter wake1 t (tasks s)) s).
Proof.
  intros Hok Hk. unfold wake1. rewrite (alter_if _ _ t k Hk). destruct (negb _); [|by destruct s]. by apply (sched_ok_set s t k).
Qed.

Lemma forest_wake1 idle init x v pw t it : forest_ok idle init x v pw → v !! t = Some it → i_status it ≠ Zombie → forest_ok idle init x (alter i_wake t v) pw.
Proof.
  intros Hf Ht Hz. rewrite (alter_as_insert i_wake v t it Ht). destruct (f_wait _ _ _ _ _ Hf t it Ht) as [Hw Hwp].
  destruct (decide (i_wait it = 0)) as [E|E].
  - assert (i_wake it = it) as -> by (unfold i_wake; by rewrite (proj2 (Z.eqb_eq _ _) E)). by rewrite insert_id.
  - assert (i_wake it = i_set_status Runnable it) as -> by (unfold i_wake; by rewrite (proj2 (Z.eqb_neq _ _) E)). pose proof (proj1 Hwp E) as (p & fl & Hp).
    apply (forest_update idle init x x v pw pw t it); try done. cbn. intros q. rewrite Hp. intros [= <-].
    destruct (f_pw _ _ _ _ _ Hf t _ Hp) as (i & Hi & Hfl & _). auto.
Qed.

(** The current task is not in the way of its own operations. *)
Lemma current_view s c : cur_ready s → current_ s = Some c → ∃ k, tasks s !! c = Some k ∧ view s !! c = Some (info_of k) ∧ norm (state k) = Runnable.
Proof.
  intros (c' & Hc' & Hst) Hc. simplify_eq. apply status_task in Hst as (k & Hk & Hn). exists k. split_and!; [done| |done]. apply view_lookup. eauto.
Qed.

(** ** [exit] *)

Lemma unlink_child_Ret t s : unlink_child t s = Ret tt (with_tasks ((λ q, set_child_list (unlink_from t (child_list q)) q) <$> tasks s) s).
Proof. done. Qed.

(** One turn of the loop in the task store and in the view. *)
Definition move1 (c i : Z) (w : bool) (m : gmap Z Task) : gmap Z Task :=
  let m := alter (λ q, set_child_list (c :: child_list q) q) i
    (alter (set_parent (Some i)) c ((λ q, set_child_list (unlink_from c (child_list q)) q) <$> m)) in
  if w then alter wake1 i m else m.
Lemma move_wake c i v : c ≠ i → alter i_wake i (move c i v) = move c i (alter i_wake i v).
Proof.
  intros Hne. unfold move. apply map_eq. intros u. destruct (decide (u = i)) as [->|Hu].
  - rewrite !lookup_alter_eq, !lookup_alter_ne, !lookup_fmap, lookup_alter_eq by done. destruct (v !! i) as [j|]; [|done]. cbn. unfold i_wake. cbn. by destruct (negb _).
  - rewrite (lookup_alter_ne _ _ i u), !(lookup_alter_ne (i_push c) _ i u) by done. destruct (decide (u = c)) as [->|Hc].
    + rewrite !lookup_alter_eq, !lookup_fmap, lookup_alter_ne by done. done.
    + rewrite !(lookup_alter_ne (i_set_parent _) _ c u), !lookup_fmap, lookup_alter_ne by done. done.
Qed.
Lemma view_move1 c i w s : view (with_tasks (move1 c i w (tasks s)) s) = if w then alter i_wake i (move c i (view s)) else move c i (view s).
Proof.
  assert (view (with_tasks (move1 c i false (tasks s)) s) = move c i (view s)) as E.
  { unfold view, move1, move. cbn. apply map_eq. intros u. rewrite lookup_fmap, !lookup_alter. repeat case_decide; subst; rewrite ?lookup_alter, ?lookup_fmap;
      repeat case_decide; rewrite ?lookup_fmap; by destruct (tasks s !! _). }
  destruct w; [|done]. rewrite <- E. set (s0 := with_tasks (move1 c i false (tasks s)) s).
  rewrite <- (view_alter wake1 i_wake i s0) by apply info_wake1. done.
Qed.

Lemma norm_zombie x : norm x = Zombie ↔ x = Zombie.
Proof. by destruct x. Qed.

Lemma pid_move c i (v : gmap Z info) : i_pid <$> move c i v = i_pid <$> v.
Proof.
  unfold move. rewrite !pid_alter by done. apply map_eq. intros u. rewrite !lookup_fmap. by destruct (v !! u).
Qed.

Lemma move1_sched_ok c i w s ki : sched_ok s → tasks s !! i = Some ki → sched_ok (with_tasks (move1 c i w (tasks s)) s).
Proof.
  intros Hok Hi. assert (sched_ok (with_tasks (move1 c i false (tasks s)) s)) as H0.
  { apply (sched_ok_tasks s); try done. unfold move1. cbn. rewrite !cpu_alter by done. apply map_eq. intros u. rewrite !lookup_fmap. by destruct (tasks s !! u). }
  destruct w; [|done]. assert (is_Some (tasks (with_tasks (move1 c i false (tasks s)) s) !! i)) as [k Hk].
  { cbn. rewrite lookup_alter_is_Some, lookup_alter_is_Some, lookup_fmap, Hi. done. }
  apply (sched_ok_wake1 _ i k H0 Hk).
Qed.

(** One turn of the loop keeps the invariant. *)
Lemma move1_inv s pw cur c kc i ki w : proc_inv (Some cur) s pw → tasks s !! c = Some kc → parent kc = Some cur →
  init_proc s = Some i → tasks s !! i = Some ki → cur ≠ i → idle_proc s ≠ Some cur → c ≠ i →
  (∀ k, tasks s !! cur = Some k → state k = Zombie) → (state kc = Zombie → w = true) →
  proc_inv (Some cur) (with_tasks (move1 c i w (tasks s)) s) pw.
Proof.
  intros [Hok Hf Hp] Hc Hpc Hi Hki Hne Hidle Hci Hcur Hw. constructor; cbn [idle_proc init_proc with_tasks].
  - by apply (move1_sched_ok c i w s ki).
  - rewrite view_move1. assert (view s !! c = Some (info_of kc)) as Hvc by (apply view_lookup; eauto). assert (view s !! i = Some (info_of ki)) as Hvi by (apply view_lookup; eauto).
    assert (∀ v icur, cur ≠ i → (v = view s ∨ v = alter i_wake i (view s)) → v !! cur = Some icur → i_status icur ≠ Sleeping) as Hns.
    { intros v icur _ Hv Hicur. assert (view s !! cur = Some icur) as (k & Hk & ->)%view_lookup by (destruct Hv as [->| ->]; [done|by rewrite lookup_alter_ne in Hicur]). cbn. by rewrite (Hcur k Hk). }
    destruct (f_init _ _ _ _ _ Hf i Hi) as (ii & Hii & Hiz & _). assert (ii = info_of ki) as -> by congruence.
    destruct w; [rewrite move_wake by done; apply (forest_move _ _ _ _ c (info_of kc) cur i (i_wake (info_of ki)))|apply (forest_move _ _ _ _ c (info_of kc) cur i (info_of ki))]; try done.
    + by apply (forest_wake1 _ _ _ _ _ i (info_of ki)).
    + by rewrite lookup_alter_ne.
    + by rewrite lookup_alter_eq, Hvi.
    + intros icur. apply Hns; auto.
    + intros _ p fl Hpw. pose proof (proj2 (f_wait _ _ _ _ _ Hf i _ Hvi)) as Hwt. unfold i_wake. destruct (Z.eqb_spec (i_wait (info_of ki)) 0) as [E|]; [|done].
      exfalso. apply Hwt in E; [done|eauto].
    + intros icur. apply Hns; auto.
    + intros Hz. cbn in Hz. apply (proj1 (norm_zombie _)) in Hz. by specialize (Hw Hz).
  - eapply pids_ok_same; [done|done|]. rewrite view_move1. destruct w; rewrite ?pid_alter, ?pid_move; try done. intros j. unfold i_wake. by destruct (negb _).
Qed.

Lemma move1_lookup_cur c i w (m : gmap Z Task) cur k : cur ≠ i → cur ≠ c → m !! cur = Some k →
  move1 c i w m !! cur = Some (set_child_list (unlink_from c (child_list k)) k).
Proof. intros H1 H2 Hk. unfold move1. destruct w; rewrite ?lookup_alter_ne, lookup_fmap, Hk by done; done. Qed.

Lemma unlink_from_cons c l : c ∉ l → unlink_from c (c :: l) = l.
Proof. intros Hc. unfold unlink_from. rewrite filter_cons_False by (by intros ?). by apply unlink_from_id. Qed.

Lemma reparent_spec pw cur i n : ∀ s k, proc_inv (Some cur) s pw → tasks s !! cur = Some k → length (child_list k) = n → state k = Zombie →
  init_proc s = Some i → cur ≠ i → idle_proc s ≠ Some cur →
  ∃ s' k', reparent (S n) cur s = Ret tt s' ∧ proc_inv (Some cur) s' pw ∧ same_table s s' ∧ current_ s' = current_ s ∧ cpu s' = cpu s ∧
    tasks s' !! cur = Some k' ∧ child_list k' = [] ∧ state k' = Zombie ∧ exit_code k' = exit_code k ∧ pid k' = pid k.
Proof.
  induction n as [|n IH]; intros s k Hinv Hk Hlen Hz Hi Hne Hidle; cbn [reparent]; rewrite (bind_Ret _ _ _ _ _ (get_task_Ret cur k s Hk)).
  { apply nil_length_inv in Hlen. rewrite Hlen. exists s, k. done. }
  destruct (child_list k) as [|c l] eqn:Hcl; [done|]. pose proof Hinv as [Hok Hf Hp].
  assert (view s !! cur = Some (info_of k)) as Hv by (apply view_lookup; eauto).
  destruct (proj1 (f_child _ _ _ _ _ Hf cur _ c Hv)) as (ic & (kc & Hc & ->)%view_lookup & Hpc); [cbn; rewrite Hcl; by left|]. cbn in Hpc.
  destruct (f_init _ _ _ _ _ Hf i Hi) as (ii & (ki & Hki & ->)%view_lookup & Hiz & Hip). cbn in Hiz, Hip. rewrite norm_zombie in Hiz.
  assert (c ≠ i) as Hci by (intros ->; congruence). assert (c ≠ cur) as Hcc. { intros ->. apply (f_self _ _ _ _ _ Hf cur (info_of kc)); [apply view_lookup; eauto|done]. }
  set (w := bool_decide (state kc = Zombie)). set (s1 := with_tasks (move1 c i w (tasks s)) s).
  rewrite (bind_Ret _ _ _ _ _ (unlink_child_Ret c s)). set (sa := with_tasks _ s). rewrite (bind_Ret _ _ _ (Some i) sa) by (unfold gets; cbn; by rewrite Hi).
  rewrite (bind_Ret _ _ _ _ _ (upd_task_Ret c (set_child_list (unlink_from c (child_list kc)) kc) (set_parent (Some i)) sa ltac:(cbn; by rewrite lookup_fmap, Hc))). set (sb := with_tasks _ sa).
  rewrite (bind_Ret _ _ _ i sb) by done.
  rewrite (bind_Ret _ _ _ _ _ (upd_task_Ret i (set_child_list (unlink_from c (child_list ki)) ki) _ sb ltac:(cbn; by rewrite lookup_alter_ne, lookup_fmap, Hki))). set (sc := with_tasks _ sb).
  rewrite (bind_Ret _ _ _ (set_parent (Some i) (set_child_list (unlink_from c (child_list kc)) kc)) sc) by (apply get_task_Ret; cbn; by rewrite lookup_alter_ne, lookup_alter_eq, lookup_fmap, Hc).
  cbn [state set_parent set_child_list]. fold w.
  assert (whenM w (wake_if_waiting i) sc = Ret tt s1) as Hw.
  { unfold s1, move1. destruct w; [|done]. cbn [whenM].
    erewrite wake_if_waiting_Ret; [done|cbn; by rewrite lookup_alter_eq, lookup_alter_ne, lookup_fmap, Hki by done|done]. }
  rewrite (bind_Ret _ _ _ _ _ Hw). destruct (IH s1 (set_child_list (unlink_from c (child_list k)) k)) as (s' & k' & E & Hinv' & Hst & Hcur & Hcpu & Hk' & Hrest); try done.
  - apply (move1_inv s pw cur c kc i ki); try done; [intros k0 Hk0; by simplify_eq|]. unfold w. intros ->. by apply bool_decide_eq_true_2.
  - by apply move1_lookup_cur.
  - cbn. pose proof (f_nodup _ _ _ _ _ Hf cur _ Hv) as Hnd. cbn in Hnd. rewrite Hcl in Hnd |- *. apply NoDup_cons in Hnd as [Hnd _]. rewrite unlink_from_cons by done. cbn in Hlen. lia.
  - exists s', k'. exact (conj E (conj Hinv' (conj Hst (conj Hcur (conj Hcpu (conj Hk' Hrest)))))).
Qed.

(** The exiting task becomes a zombie and its parent is woken. *)
Lemma zombie_inv s pw cur k code p kp : proc_ok s pw → current_ s = Some cur → tasks s !! cur = Some k → pw !! cur = None →
  idle_proc s ≠ Some cur → init_proc s ≠ Some cur → parent k = Some p → tasks s !! p = Some kp →
  let s1 := with_tasks (alter (set_exit_code code ∘ set_state Zombie) cur (tasks s)) s in
  proc_inv (Some cur) (with_tasks (alter wake1 p (tasks s1)) s1) pw.
Proof.
  intros [Hinv Hr] Hc Hk Hpw Hidle Hinit Hpar Hkp s1. pose proof Hinv as [Hok Hf Hp]. assert (view s !! cur = Some (info_of k)) as Hv by (apply view_lookup; eauto).
  assert (p ≠ cur) as Hne. { intros ->. by apply (f_self _ _ _ _ _ Hf cur _ Hv). }
  assert (view s !! p = Some (info_of kp)) as Hvp by (apply view_lookup; eauto).
  destruct (f_parent _ _ _ _ _ Hf cur _ p Hv Hpar) as (ip & Hip & Hpz). assert (ip = info_of kp) as -> by congruence.
  assert (i_status (info_of kp) ≠ Zombie) as Hpz' by naive_solver.
  assert (sched_ok s1) as Hok1.
  { apply (sched_ok_tasks (with_tasks (alter (set_state Zombie) cur (tasks s)) s)); try done; [by apply (sched_ok_set s cur k)|]. cbn.
    rewrite <- alter_alter_eq, cpu_alter by done. done. }
  pose proof (proc_inv_upd None (Some cur) s1 pw pw p wake1 i_wake) as Hupd.
  assert (view s1 = alter (i_set_status Zombie) cur (view s)) as E1 by (by apply view_alter).
  constructor; cbn [idle_proc init_proc with_tasks].
  - apply (sched_ok_wake1 s1 p kp Hok1). cbn. by rewrite lookup_alter_ne.
  - rewrite (view_alter wake1 i_wake p s1) by apply info_wake1. rewrite E1, alter_alter_ne by done.
    pose proof (forest_wake1 _ _ _ _ _ p _ Hf Hvp Hpz') as Hf1. assert (alter i_wake p (view s) !! cur = Some (info_of k)) as Hv1 by (by rewrite lookup_alter_ne).
    rewrite (alter_as_insert _ _ cur (info_of k) Hv1). apply (forest_update _ _ None (Some cur) _ pw pw cur (info_of k)); try done.
    + intros _. right. split; [done|]. split; [done|]. intros q iq p0 fl Hq Hiq Hwq Hs. cbn in Hq. assert (q = p) as -> by congruence. rewrite lookup_alter_eq, Hvp in Hiq. injection Hiq as <-.
      pose proof (proj2 (proj2 (f_wait _ _ _ _ _ Hf p _ Hvp))) as Hw. unfold i_wake in Hs. destruct (Z.eqb_spec (i_wait (info_of kp)) 0) as [E|]; [|done]. apply Hw; eauto.
    + apply (f_wait _ _ _ _ _ Hf cur _ Hv).
    + intros q. by rewrite Hpw.
  - apply (pids_ok_same s); try done. rewrite (view_alter wake1 i_wake p s1) by apply info_wake1. rewrite E1, !pid_alter; [done|done|]. intros j. unfold i_wake. by destruct (negb _).
Qed.

(** Without a parent there is nobody to wake. *)
Lemma zombie_inv_orphan s pw cur k code : proc_ok s pw → current_ s = Some cur → tasks s !! cur = Some k → pw !! cur = None →
  idle_proc s ≠ Some cur → init_proc s ≠ Some cur → parent k = None →
  proc_inv (Some cur) (with_tasks (alter (set_exit_code code ∘ set_state Zombie) cur (tasks s)) s) pw.
Proof.
  intros [Hinv Hr] Hc Hk Hpw Hidle Hinit Hpar. pose proof Hinv as [Hok Hf Hp]. assert (view s !! cur = Some (info_of k)) as Hv by (apply view_lookup; eauto).
  apply (proc_inv_upd None (Some cur) s pw pw cur _ (i_set_status Zombie)); try done.
  - apply (sched_ok_tasks (with_tasks (alter (set_state Zombie) cur (tasks s)) s)); try done; [by apply (sched_ok_set s cur k)|]. cbn.
    rewrite <- alter_alter_eq, cpu_alter by done. done.
  - rewrite (alter_as_insert _ _ cur (info_of k) Hv). apply (forest_update _ _ None (Some cur) _ pw pw cur (info_of k)); try done.
    + intros _. right. split; [done|]. split; [done|]. intros q iq p0 fl Hq. cbn in Hq. congruence.
    + apply (f_wait _ _ _ _ _ Hf cur _ Hv).
    + intros q. by rewrite Hpw.
Qed.

Lemma mark_zombie_Ret t k code s : tasks s !! t = Some k →
  mark_zombie t code s = Ret tt (with_tasks (alter (set_exit_code code ∘ set_state Zombie) t (tasks s)) s).
Proof.
  intros Hk. unfold mark_zombie. rewrite (bind_Ret _ _ _ _ _ (upd_task_Ret t k _ s Hk)).
  rewrite (upd_task_Ret t (set_state Zombie k)) by (cbn; by rewrite lookup_alter_eq, Hk). cbn. by rewrite alter_alter_eq.
Qed.

Lemma exit_spec s pw cur k code i : proc_ok s pw → current_ s = Some cur → tasks s !! cur = Some k → pw !! cur = None →
  idle_proc s ≠ Some cur → init_proc s = Some i → cur ≠ i →
  ∃ fl s' k', exit code s = Ret fl s' ∧ proc_ok s' pw ∧ same_table s s' ∧
    tasks s' !! cur = Some k' ∧ state k' = Zombie ∧ exit_code k' = code ∧ pid k' = pid k ∧ child_list k' = [].
Proof.
  intros Hpok Hc Hk Hpw Hidle Hi Hcuri. assert (init_proc s ≠ Some cur) as Hinit by congruence. assert (proc_ok (irq_to false s) pw) as Hpok1 by (destruct Hpok; split; [by apply proc_inv_irq|done]).
  unfold exit. rewrite (bind_Ret _ _ _ _ _ (save_Ret s)). set (s0 := irq_to false s). rewrite (bind_Ret _ _ _ (Some cur) s0) by (unfold gets; cbn; by rewrite Hc). rewrite (bind_Ret _ _ _ cur s0) by done.
  rewrite (bind_Ret _ _ _ _ _ (mark_zombie_Ret cur k code s0 Hk)). set (k1 := (set_exit_code code ∘ set_state Zombie) k). set (s1 := with_tasks _ s0).
  assert (tasks s1 !! cur = Some k1) as Hk1 by (cbn; by rewrite lookup_alter_eq, Hk). rewrite (bind_Ret _ _ _ _ _ (get_task_Ret cur k1 s1 Hk1)).
  assert (∃ s2, match parent k1 with None => ret tt | Some p => wake_if_waiting p end s1 = Ret tt s2 ∧ proc_inv (Some cur) s2 pw ∧ same_table s s2 ∧ tasks s2 !! cur = Some k1) as (s2 & E2 & Hinv2 & Hst2 & Hk2).
  { change (parent k1) with (parent k). destruct (parent k) as [p|] eqn:Hpar.
    - destruct Hpok1 as [[Hok Hf Hp] Hr]. assert (view s0 !! cur = Some (info_of k)) as Hv by (apply view_lookup; eauto).
      destruct (f_parent _ _ _ _ _ Hf cur _ p Hv Hpar) as (ip & (kp & Hkp & ->)%view_lookup & Hpz). cbn in Hpz. rewrite norm_zombie in Hpz.
      assert (p ≠ cur) as Hne. { intros ->. by apply (f_self _ _ _ _ _ Hf cur _ Hv). }
      exists (with_tasks (alter wake1 p (tasks s1)) s1). split; [apply (wake_if_waiting_Ret p kp); [cbn; by rewrite lookup_alter_ne|naive_solver]|].
      split; [by apply (zombie_inv s0 pw cur k code p kp)|]. split; [done|]. cbn. by rewrite lookup_alter_ne by done.
    - exists s1. split; [done|]. split; [by apply (zombie_inv_orphan s0 pw cur k code)|]. done. }
  rewrite (bind_Ret _ _ _ _ _ E2), (bind_Ret _ _ _ _ _ (get_task_Ret cur k1 s2 Hk2)). destruct Hst2 as (T1 & T2 & T3 & T4 & T5 & T6).
  destruct (reparent_spec pw cur i _ s2 k1 Hinv2 Hk2 eq_refl) as (s3 & k3 & E3 & Hinv3 & (U1 & U2 & U3 & U4 & U5 & U6) & _ & _ & Hk3 & Hch3 & Hz3 & Hcode3 & Hpid3); [done|congruence|done|congruence|].
  rewrite (bind_Ret _ _ _ _ _ E3). assert (proc_inv None s3 pw) as Hinv3'.
  { destruct Hinv3 as [? Hf3 ?]. constructor; try done. apply (forest_done _ _ _ _ cur (info_of k3)); [done|apply view_lookup; eauto|done]. }
  destruct (schedule_inv None s3 pw Hinv3') as (s4 & E4 & Hinv4 & Hr4 & (V1 & V2 & V3 & V4 & V5 & V6) & Hv4 & Hcode4). rewrite (bind_Ret _ _ _ _ _ E4).
  destruct (Hcode4 cur k3 Hk3) as (k4 & Hk4 & Hc4). eexists _, s4, k4. split; [done|]. split; [done|]. split; [unfold same_table; split_and!; congruence|]. split; [done|].
  assert (view s4 !! cur = Some (info_of k3)) as (k4' & Hk4' & Ei)%view_lookup by (rewrite Hv4; apply view_lookup; eauto). assert (k4' = k4) as -> by congruence. injection Ei as Ep _ _ Ec Es.
  rewrite Hz3 in Es. symmetry in Es. apply (proj1 (norm_zombie (state k4))) in Es.
  change (exit_code k1) with code in Hcode3. change (pid k1) with (pid k) in Hpid3. split_and!; congruence.
Qed.

(** ** Sleeping, waking and ticking *)

(** The current task goes to sleep and another one runs. *)
Lemma sleep_inv s pw cur k f g q : proc_ok s pw → current_ s = Some cur → tasks s !! cur = Some k → idle_proc s ≠ Some cur →
  (∀ k, info_of (f k) = g (info_of k)) → (∀ i, i_pid (g i) = i_pid i ∧ i_parent (g i) = i_parent i ∧ i_children (g i) = i_children i ∧ i_status (g i) = Sleeping) →
  (∀ k, root_of (f k) = root_of k ∧ state (f k) = Sleeping) →
  match q with
  | WTop _ => False
  | Blocked => i_wait (g (info_of k)) = 0
  | Waiting p fl => i_wait (g (info_of k)) = 1 ∧ fl.2 = (false, false) ∧
      (∃ c ic, matches (view s) cur p c ic) ∧ ∀ c ic, matches (view s) cur p c ic → i_status ic ≠ Zombie
  end →
  proc_inv None (with_tasks (alter f cur (tasks s)) s) (<[cur := q]> pw).
Proof.
  intros [Hinv Hr] Hc Hk Hidle Hfg Hg Hfr Hq. pose proof Hinv as [Hok Hf Hp]. assert (view s !! cur = Some (info_of k)) as Hv by (apply view_lookup; eauto).
  destruct (Hg (info_of k)) as (G1 & G2 & G3 & G4). apply (proc_inv_upd None None s pw _ cur f g); try done; [apply Hg| |].
  - apply (sched_ok_tasks (with_tasks (alter (set_state Sleeping) cur (tasks s)) s)); try done; [by apply (sched_ok_set s cur k)|]. cbn.
    apply map_eq. intros u. rewrite !lookup_fmap. destruct (decide (u = cur)) as [->|]; [|by rewrite !lookup_alter_ne]. rewrite !lookup_alter_eq, Hk. cbn. unfold cpu_view. destruct (Hfr k) as [-> ->]. done.
  - rewrite (alter_as_insert g _ cur (info_of k) Hv). apply (forest_update _ _ None None _ pw _ cur (info_of k)); try done.
    + intros u Hu. by rewrite lookup_insert_ne.
    + congruence.
    + rewrite lookup_insert_eq. destruct q as [|p fl|]; [done| |]; (split; [naive_solver|]); split; [eauto|naive_solver lia|lia|intros (? & ? & ?); done].
    + intros p fl. rewrite lookup_insert_eq. intros [= ->] _. naive_solver.
    + intros q'. rewrite lookup_insert_eq. intros [= <-]. destruct q as [|p fl|]; [done|naive_solver|done].
    + intros _. by rewrite lookup_insert_eq.
Qed.

(** A task that sleeps for another reason is woken. *)
Lemma unblock_spec s pw t : proc_ok s pw → pw !! t = Some Blocked → ∃ s', wakeup t s = Ret tt s' ∧ proc_ok s' (delete t pw) ∧ same_table s s'.
Proof.
  intros [Hinv Hr] Hpw. pose proof Hinv as [Hok Hf Hp]. destruct (f_pw _ _ _ _ _ Hf t _ Hpw) as (i & Hv & Hst). pose proof Hv as (k & Hk & ->)%view_lookup. cbn in Hst.
  assert (state k ≠ Zombie) as Hz by (intros E; by rewrite E in Hst). rewrite (wakeup_Ret t k s Hk Hz). eexists. split; [done|]. split; [|done]. split.
  - apply (proc_inv_upd None None s pw _ t _ (i_set_status Runnable)); try done; [by apply (sched_ok_set s t k)|].
    rewrite (alter_as_insert _ _ t _ Hv). apply (forest_update _ _ None None _ pw _ t (info_of k)); try done.
    + intros u Hu. by rewrite lookup_delete_ne.
    + rewrite lookup_delete_eq. destruct (f_wait _ _ _ _ _ Hf t _ Hv) as [? Hw]. split; [done|]. split; [|by intros (? & ? & ?)]. intros E. apply Hw in E as (? & ? & ?). congruence.
    + intros q. by rewrite lookup_delete_eq.
  - destruct Hr as (c & Hc & Hrd). exists c. split; [done|]. rewrite (status_set s t k) by done. by destruct (decide _).
Qed.

(** The timer changes the time slice of the current task only. *)
Lemma when_upd t k f (b : bool) s : tasks s !! t = Some k →
  whenM b (upd_task t f) s = Ret tt (with_tasks (<[t := if b then f k else k]> (tasks s)) s).
Proof.
  intros Hk. destruct b; cbn [whenM]; [rewrite (upd_task_Ret t k) by done; by rewrite (alter_as_insert f _ t k)|].
  rewrite insert_id by done. unfold ret. f_equal. by destruct s.
Qed.
Lemma policy_tick_spec s c k idle : tasks s !! c = Some k → ∃ k', policy_tick (Some c) idle s = Ret tt (with_tasks (<[c := k']> (tasks s)) s) ∧
  info_of k' = info_of k ∧ cpu_view k' = cpu_view k.
Proof.
  intros Hk. unfold policy_tick. case_bool_decide. { exists k. rewrite insert_id by done. split; [|done]. unfold ret. f_equal. by destruct s. }
  rewrite (bind_Ret _ _ _ _ _ (get_task_Ret c k s Hk)), (bind_Ret _ _ _ _ _ (when_upd c k _ _ s Hk)). set (k1 := if 0 <? time_slice k then _ else k). set (s1 := with_tasks _ s).
  assert (tasks s1 !! c = Some k1) as Hk1 by apply lookup_insert_eq. rewrite (bind_Ret _ _ _ _ _ (get_task_Ret c k1 s1 Hk1)), (when_upd c k1 _ _ s1 Hk1).
  eexists. split; [unfold s1; cbn; by rewrite insert_insert_eq|]. unfold k1. destruct (0 <? time_slice k), (_ <=? 0); done.
Qed.
Lemma tick_spec s pw : proc_ok s pw → ∃ s', tick s = Ret tt s' ∧ proc_ok s' pw ∧ same_table s s' ∧ current_ s' = current_ s.
Proof.
  intros [Hinv Hr]. pose proof Hr as (c & Hc & (k & Hk & Hn)%status_task). set (s0 := with_stats (inc_tick (stats s)) s).
  destruct (policy_tick_spec s0 c k (idle_proc s) Hk) as (k' & E & Hi & Hcv).
  assert (∃ st, tick s = Ret tt (with_stats st (with_tasks (<[c := k']> (tasks s)) s))) as (st & Et).
  { unfold tick. rewrite (bind_Ret _ _ _ tt s0) by done. rewrite (bind_Ret _ _ _ s0 s0) by done. change (current_ s0) with (current_ s). rewrite Hc. rewrite (bind_Ret _ _ _ (need_resched k) s0) by (unfold bind; by rewrite (get_task_Ret c k s0 Hk)).
    rewrite (bind_Ret _ _ _ _ _ E). set (s1 := with_tasks _ s0). rewrite (bind_Ret _ _ _ _ _ (get_task_Ret c k' s1 ltac:(apply lookup_insert_eq))).
    destruct (_ && _); cbn [whenM]; by eexists. }
  assert (view (with_stats st (with_tasks (<[c := k']> (tasks s)) s)) = view s) as Hv.
  { unfold view. cbn. rewrite fmap_insert, Hi, insert_id; [done|]. by rewrite lookup_fmap, Hk. }
  destruct Hinv as [Hok Hf Hp]. eexists. split; [exact Et|]. split; [|done]. split; [constructor|].
  - apply (sched_ok_tasks s); try done. cbn. rewrite fmap_insert, Hcv, insert_id; [done|]. by rewrite lookup_fmap, Hk.
  - rewrite Hv. done.
  - apply (pids_ok_same s); try done. by rewrite Hv.
  - exists c. split; [done|]. rewrite view_status, Hv, <- view_status. unfold status. rewrite Hk. cbn. by rewrite Hn.
Qed.
