(* ===== verification/Lifetime.v ===== *)
(** * Fork, wait and the life of processes

    [fork] and [wait] against the services of the kernel, and the theorem on all
    interleavings of the operations of [Process]. *)

From S2P Require Import Prelude Fd LibString Sched SchedProofs Sync SyncProofs Process Forest ProcessProofs.

(** What the process code relies on: the services come back, [new] returns
    memory that no live task occupies, and only [new] and [delete] change which
    addresses tasks occupy. *)
Class KernelEnvLaws (W : Type) `{KernelEnv W} : Type := {
  env_tasks : W → gset Z;
  env_new_ok w : ∃ o w', env_new w = Ret o w' ∧
    match o with None => env_tasks w' = env_tasks w | Some t => t ∉ env_tasks w ∧ env_tasks w' = {[t]} ∪ env_tasks w end;
  env_delete_ok w t : ∃ w', env_delete t w = Ret tt w' ∧ env_tasks w' = env_tasks w ∖ {[t]};
  env_open_ok w p : ∃ w', out_state (env_open p w) = Some w' ∧ env_tasks w' = env_tasks w;
  env_close_ok w f : ∃ w', env_close f w = Ret tt w' ∧ env_tasks w' = env_tasks w;
  env_alloc_ok w n : ∃ w', out_state (env_alloc_buffer n w) = Some w' ∧ env_tasks w' = env_tasks w;
  env_free_ok w a : ∃ w', env_free_buffer a w = Ret tt w' ∧ env_tasks w' = env_tasks w;
  env_memory_ok w m : ∃ w', env_free_memory m w = Ret tt w' ∧ env_tasks w' = env_tasks w }.

Section lifetime.
Context {W : Type} `{HE : KernelEnv W, HL : !KernelEnvLaws W}.
Notation P := (sched * W)%type.

Lemma on_sched_Ret {A} (m : M sched A) s (w : W) a s' : m s = Ret a s' → on_sched m (s, w) = Ret a (s', w).
Proof. intros E. unfold on_sched, zoom. cbn. by rewrite E. Qed.
Lemma on_env_Ret {A} (m : M W A) (s : sched) w a w' : m w = Ret a w' → on_env m (s, w) = Ret a (s, w').
Proof. intros E. unfold on_env, zoom. cbn. by rewrite E. Qed.

Lemma on_files_Ret {A} (m : M (list Entry * W) A) s w t k a l w' : tasks s !! t = Some k → m (files k, w) = Ret a (l, w') →
  on_files t m (s, w) = Ret a (with_tasks (<[t := set_files l k]> (tasks s)) s, w').
Proof. intros Hk E. unfold on_files. cbn [fst snd]. by rewrite Hk, E. Qed.

(** ** Descriptor tables *)

Lemma close_all_ok l (w : W) : ∃ l' w', close_all env_close (l, w) = Ret tt (l', w') ∧ env_tasks w' = env_tasks w.
Proof.
  unfold close_all, reset_all. rewrite (bind_Ret _ _ _ l (l, w)) by done.
  destruct (forM_inv (λ _ (y : list Entry * W), length y.1 = length l ∧ env_tasks y.2 = env_tasks w) (seq 0 (length l)) (entry_reset env_close) (l, w)) as ([l' w'] & E & _ & Hw); [done| |eauto].
  intros dn i rest [l1 w1] Hs [Hl Hw]. cbn in Hl, Hw. assert (i ∈ seq 0 (length l)) as Hi%elem_of_seq by (rewrite Hs; set_solver).
  destruct (lookup_lt_is_Some_2 l1 i) as [e He]; [lia|]. destruct (env_close_ok w1 (file e)) as (w2 & E2 & Hw2).
  rewrite (entry_reset_spec env_close l1 w1 i e w2 He E2). eexists. split; [done|]. cbn. rewrite length_insert, Hw2. done.
Qed.
Lemma alloc_ok l f (w : W) : ∃ l' w', out_state (alloc env_close (Some f) (l, w)) = Some (l', w') ∧ env_tasks w' = env_tasks w.
Proof.
  unfold alloc. rewrite (bind_Ret _ _ _ l (l, w)) by done. pose proof (find_unused_spec l 0) as Hfu. destruct (find_unused l 0) as [i|].
  - destruct Hfu as (j & e & -> & Hj & _). destruct (env_close_ok w (file e)) as (w1 & E1 & Hw1). exists (<[(0 + j)%nat := MkEntry (Some f) 0 true]> l), w1. split; [|done].
    unfold entry_set, get_entry, put_entry, close_handle, bind, gets, deref, modify, zoom. cbn. rewrite Hj. cbn. by rewrite E1.
  - destruct (env_close_ok w (Some f)) as (w1 & E1 & Hw1). exists l, w1. split; [|done]. unfold close_handle, bind, zoom. cbn. by rewrite E1.
Qed.

(** ** Destruction *)

Lemma delete_task_spec s (w : W) t k : tasks s !! t = Some k → current_ s ≠ Some t → detached s t k = true →
  ∃ w', delete_task t (s, w) = Ret tt (with_tasks (delete t (tasks s)) s, w') ∧ env_tasks w' = env_tasks w ∖ {[t]}.
Proof.
  intros Hk Hc Hd. unfold delete_task. rewrite (bind_Ret _ _ _ _ _ (on_sched_Ret _ _ w _ _ (get_task_Ret t k s Hk))), (bind_Ret _ _ _ s (s, w)) by done.
  rewrite bool_decide_eq_true_2 by congruence. cbn [assert_]. rewrite bind_ret, Hd. cbn [assert_]. rewrite bind_ret.
  destruct (close_all_ok (files k) w) as (l1 & w1 & E1 & Hw1). set (s1 := with_tasks (<[t := set_files l1 k]> (tasks s)) s).
  rewrite (bind_Ret _ _ _ _ _ (on_files_Ret _ s w t k _ _ _ Hk E1)).
  assert (∃ w2, match kernel_stack_ k with None => ret tt | Some a => on_env (env_free_buffer a) end (s1, w1) = Ret tt (s1, w2) ∧ env_tasks w2 = env_tasks w) as (w2 & E2 & Hw2).
  { destruct (kernel_stack_ k) as [a|]; [|by exists w1]. destruct (env_free_ok w1 a) as (w2 & E & Hw). exists w2. split; [by apply on_env_Ret|congruence]. }
  rewrite (bind_Ret _ _ _ _ _ E2).
  assert (∃ w3, match owned_memory k with None => ret tt | Some m => on_env (env_free_memory m) end (s1, w2) = Ret tt (s1, w3) ∧ env_tasks w3 = env_tasks w) as (w3 & E3 & Hw3).
  { destruct (owned_memory k) as [m|]; [|by exists w2]. destruct (env_memory_ok w2 m) as (w3 & E & Hw). exists w3. split; [by apply on_env_Ret|congruence]. }
  rewrite (bind_Ret _ _ _ _ _ E3). rewrite (bind_Ret _ _ _ tt (with_tasks (delete t (tasks s1)) s1, w3)) by done.
  destruct (env_delete_ok w3 t) as (w4 & E4 & Hw4). exists w4. rewrite (on_env_Ret _ _ _ _ _ E4), Hw4, Hw3. split; [|done]. unfold s1. cbn. rewrite delete_insert_eq. done.
Qed.

(** ** Reaping *)

Definition removed (z : Z) (s : sched) : sched :=
  with_cursor (if bool_decide (cursor s = Some (CTask z)) then None else cursor s)
    (with_process_count (s32 (process_count s - 1))
      (with_proc_list (unlink_from z (proc_list s)) (with_hash_list (unlink_from z <$> hash_list s) s))).
Definition unlinked (z : Z) (m : gmap Z Task) : gmap Z Task := (λ q, set_child_list (unlink_from z (child_list q)) q) <$> m.
(** The scheduler state without the task [z]. *)
Definition reaped (z : Z) (s : sched) : sched := with_tasks (delete z (unlinked z (tasks s))) (removed z s).

Lemma remove_links_Ret z s : remove_links z s = Ret tt (with_tasks (unlinked z (tasks s)) (removed z s)).
Proof.
  unfold remove_links. rewrite (bind_Ret _ _ _ tt (removed z s)); [done|]. unfold remove_process, guarded, task_removed, removed.
  rewrite (bind_Ret _ _ _ _ _ (save_Ret s)). unfold bind, try_, get, whenM, modify, ret. destruct s as [? ? ? ? ? ? ? ? cu ? [b r ts]]. cbn.
  case_bool_decide; cbn; rewrite restore_Ret; by destruct b.
Qed.

Lemma bucket_removed z s h : bucket (removed z s) h = unlink_from z (bucket s h).
Proof. unfold bucket, removed. cbn. rewrite lookup_fmap. by destruct (hash_list s !! h). Qed.
Lemma view_reaped z s : view (reaped z s) = delete z (i_unlink z <$> view s).
Proof. unfold view, reaped, unlinked. cbn. rewrite fmap_delete, <- !map_fmap_compose. done. Qed.

Lemma reaped_sched_ok z s kz cur : sched_ok s → current_ s = Some cur → tasks s !! z = Some kz → state kz = Zombie → z ≠ cur → sched_ok (reaped z s).
Proof.
  intros Hok Hc Hz Hst Hne. pose proof Hok as [H1 H2 H3 (i & ki & Hi & Hki & Hs) (c & kc & Hc' & Hkc & Hr) H6 H7]. simplify_eq.
  assert (∀ u k, tasks (reaped z s) !! u = Some k ↔ u ≠ z ∧ ∃ k0, tasks s !! u = Some k0 ∧ k = set_child_list (unlink_from z (child_list k0)) k0) as Hl.
  { intros u k. unfold reaped, unlinked. cbn. rewrite lookup_delete_Some, lookup_fmap, fmap_Some. naive_solver. }
  constructor.
  - intros t. change (proc_list (reaped z s)) with (unlink_from z (proc_list s)). rewrite elem_of_unlink, H1. split.
    + intros [Hne' [k Hk]]. eexists. apply Hl. eauto.
    + intros [k (? & k0 & Hk0 & _)%Hl]. eauto.
  - by apply unlink_from_nodup.
  - intros t. change (cursor (reaped z s)) with (if bool_decide (cursor s = Some (CTask z)) then None else cursor s). case_bool_decide as Hcz; [done|]. intros Ht.
    change (proc_list (reaped z s)) with (unlink_from z (proc_list s)). rewrite elem_of_unlink. split; [congruence|by apply H3].
  - exists i, (set_child_list (unlink_from z (child_list ki)) ki). split; [done|]. split; [|done]. apply Hl. split; [|eauto]. intros ->. simplify_eq. destruct Hs; congruence.
  - exists cur, (set_child_list (unlink_from z (child_list kc)) kc). split; [done|]. split; [|done]. apply Hl. eauto.
  - intros t k (_ & k0 & Hk0 & ->)%Hl. by apply (H6 t k0).
  - intros t k (_ & k0 & Hk0 & ->)%Hl. by apply (H7 t k0).
Qed.

Lemma s32_s32 x y : s32 (s32 x + y) = s32 (x + y).
Proof.
  unfold s32. replace ((x + 2 ^ 31) mod 2 ^ 32 - 2 ^ 31 + y + 2 ^ 31) with ((x + 2 ^ 31) mod 2 ^ 32 + y) by lia.
  rewrite Zplus_mod_idemp_l. do 2 f_equal. lia.
Qed.

Lemma reaped_ok z s pw kz cur : proc_ok s pw → current_ s = Some cur → tasks s !! z = Some kz → parent kz = Some cur → state kz = Zombie → proc_ok (reaped z s) pw.
Proof.
  intros [[Hok Hf Hp] Hr] Hc Hz Hpar Hst. destruct (current_view s cur Hr Hc) as (kc & Hkc & Hvc & Hn). assert (z ≠ cur) as Hne by (intros ->; simplify_eq; by rewrite Hst in Hn).
  assert (view s !! z = Some (info_of kz)) as Hvz by (apply view_lookup; eauto). split; [constructor|].
  - by apply (reaped_sched_ok z s kz cur).
  - rewrite view_reaped. apply (forest_reap _ _ _ _ z (info_of kz)); try done; [cbn; by rewrite Hst|]. intros p ip Hp' Hip. cbn in Hp'. assert (p = cur) as -> by congruence. rewrite Hvc in Hip. injection Hip as <-. cbn. by rewrite Hn.
  - assert (∀ u i, view (reaped z s) !! u = Some i ↔ u ≠ z ∧ ∃ i0, view s !! u = Some i0 ∧ i = i_unlink z i0) as Hl.
    { intros u i. rewrite view_reaped, lookup_delete_Some, lookup_fmap, fmap_Some. naive_solver. }
    destruct Hp as [P1 P2 P3 P4]. constructor.
    + intros t i (_ & i0 & Hi0 & ->)%Hl. by apply (P1 t i0).
    + intros t1 i1 t2 i2 (_ & j1 & Hj1 & ->)%Hl (_ & j2 & Hj2 & ->)%Hl. by apply (P2 t1 j1 t2 j2).
    + intros t h. change (bucket (reaped z s) h) with (bucket (removed z s) h). rewrite bucket_removed, elem_of_unlink, P3. split.
      * intros (Ht & i & Hi & <-). exists (i_unlink z i). split; [|done]. apply Hl. eauto.
      * intros (i & (Ht & i0 & Hi0 & ->)%Hl & <-). split; [done|]. by exists i0.
    + change (process_count (reaped z s)) with (s32 (process_count s - 1)). change (proc_list (reaped z s)) with (unlink_from z (proc_list s)). rewrite P4.
      assert (z ∈ proc_list s) as Hin by (apply (so_list _ Hok); by rewrite Hz). destruct (list_elem_of_split _ _ Hin) as (a & b & E). pose proof (so_nodup _ Hok) as Hnd. rewrite E in Hnd |- *.
      assert (unlink_from z (a ++ z :: b) = a ++ b) as ->.
      { apply NoDup_app in Hnd as (_ & Hza & Hnb). apply NoDup_cons in Hnb as [Hzb _]. unfold unlink_from. rewrite filter_app. fold (unlink_from z a) (unlink_from z (z :: b)). rewrite unlink_from_cons by done. rewrite unlink_from_id; [done|]. intros Hz'. apply (Hza z Hz'). by left. }
      rewrite !length_app. cbn. rewrite <- Z.add_opp_r, s32_s32. f_equal. lia.
  - exists cur. split; [done|]. rewrite view_status, view_reaped, lookup_delete_ne, lookup_fmap, Hvc by done. cbn. by rewrite Hn.
Qed.

(** ** [wait] *)

(** [c] is a child of [t] that [wait(p)] is about. *)
Definition child_of (s : sched) (t p c : Z) (k : Task) : Prop :=
  tasks s !! c = Some k ∧ parent k = Some t ∧ (p = 0 ∨ pid k = p).

Lemma scan_spec s p l has : (∀ c, c ∈ l → is_Some (tasks s !! c)) →
  ∃ has' r, scan_children l p has s = Ret (has', r) s ∧
    match r with
    | Some z => ∃ k, z ∈ l ∧ tasks s !! z = Some k ∧ (p = 0 ∨ pid k = p) ∧ state k = Zombie
    | None => (has' = true ↔ has = true ∨ ∃ c k, c ∈ l ∧ tasks s !! c = Some k ∧ (p = 0 ∨ pid k = p)) ∧
        ∀ c k, c ∈ l → tasks s !! c = Some k → (p = 0 ∨ pid k = p) → state k ≠ Zombie
    end.
Proof.
  revert has. induction l as [|c l IH]; intros has Hl.
  { exists has, None. split; [done|]. split; [|by intros ? ? ?%elem_of_nil]. split; [by left|]. intros [?|(? & ? & ?%elem_of_nil & _)]; done. }
  destruct (Hl c) as [k Hk]; [by left|]. assert (∀ c, c ∈ l → is_Some (tasks s !! c)) as Hl' by (intros ? ?; apply Hl; by right).
  cbn [scan_children]. rewrite (bind_Ret _ _ _ _ _ (get_task_Ret c k s Hk)).
  assert ((p =? 0) || (pid k =? p) = true ↔ p = 0 ∨ pid k = p) as Hm by (rewrite orb_true_iff, !Z.eqb_eq; done).
  destruct ((p =? 0) || (pid k =? p)).
  - case_bool_decide as Hz; [exists true, (Some c); split; [done|]; exists k; split_and!; [by left|done|by apply Hm|done]|].
    destruct (IH true Hl') as (has' & r & E & Hr). exists has', r. split; [done|]. destruct r as [z|].
    + destruct Hr as (k' & ? & ?). exists k'. split; [by right|done].
    + destruct Hr as [H1 H2]. split; [split; [intros _; right; exists c, k; split_and!; [by left|done|by apply Hm]|intros _; apply H1; by left]|].
      intros c' k' [->|Hc']%elem_of_cons Hk'; [intros _; by simplify_eq|by apply (H2 c')].
  - destruct (IH has Hl') as (has' & r & E & Hr). exists has', r. split; [done|]. destruct r as [z|].
    + destruct Hr as (k' & ? & ?). exists k'. split; [by right|done].
    + destruct Hr as [H1 H2]. split.
      * rewrite H1. split; (intros [?|(c' & k' & Hc' & Hk' & Hm')]; [by left|right]); exists c', k'; [split; [by right|done]|].
        apply elem_of_cons in Hc' as [->|Hc']; [|done]. simplify_eq. exfalso. by apply Hm in Hm'.
      * intros c' k' [->|Hc']%elem_of_cons Hk' Hm'; [simplify_eq; by apply Hm in Hm'|by apply (H2 c')].
Qed.

Lemma reap_Ret z s (w : W) pw kz cur : proc_ok s pw → current_ s = Some cur → tasks s !! z = Some kz → parent kz = Some cur → state kz = Zombie →
  ∃ w', (on_sched (remove_links z);; destroy z) (s, w) = Ret tt (reaped z s, w') ∧ env_tasks w' = env_tasks w ∖ {[z]}.
Proof.
  intros [[Hok Hf Hp] Hr] Hc Hz Hpar Hst. rewrite (bind_Ret _ _ _ _ _ (on_sched_Ret _ _ w _ _ (remove_links_Ret z s))). set (s1 := with_tasks _ _).
  destruct (current_view s cur Hr Hc) as (kc & Hkc & _ & Hn). assert (z ≠ cur) as Hne by (intros ->; simplify_eq; by rewrite Hst in Hn).
  set (k1 := set_child_list (unlink_from z (child_list kz)) kz). assert (tasks s1 !! z = Some k1) as Hz1 by (unfold s1, unlinked; cbn; by rewrite lookup_fmap, Hz).
  unfold destroy. rewrite (bind_Ret _ _ _ _ _ (on_sched_Ret _ _ w _ _ (get_task_Ret z k1 s1 Hz1))). change (state k1) with (state kz). rewrite bool_decide_eq_true_2 by done. cbn [assert_]. rewrite bind_ret.
  apply (delete_task_spec s1 w z k1 Hz1); [change (current_ s1) with (current_ s); congruence|].
  unfold detached. rewrite !andb_true_iff. split_and!; apply bool_decide_eq_true_2.
  - change (proc_list s1) with (unlink_from z (proc_list s)). rewrite elem_of_unlink. naive_solver.
  - change (hash_list s1) with (unlink_from z <$> hash_list s). intros h l. rewrite lookup_fmap, fmap_Some. intros (l0 & _ & ->). rewrite elem_of_unlink. naive_solver.
  - intros u k. unfold s1, unlinked. cbn. rewrite lookup_fmap, fmap_Some. intros (k0 & _ & ->). cbn. rewrite elem_of_unlink. naive_solver.
  - unfold k1. cbn. assert (child_list kz = []) as ->; [|done]. change (child_list kz) with (i_children (info_of kz)).
    apply (f_orphan _ _ None _ _ z _ Hf); [apply view_lookup; eauto|cbn; by rewrite Hst|done].
Qed.

(** The three outcomes of one iteration. *)
Inductive wait_outcome (s : sched) (w : W) (pw : gmap Z wpc) (cur p : Z) : Out P ((Z * Z) + (bool * (bool * bool))) → Prop :=
| wait_reaps z k w' : child_of s cur p z k → state k = Zombie → env_tasks w' = env_tasks w ∖ {[z]} →
    wait_outcome s w pw cur p (Ret (inl (pid k, exit_code k)) (reaped z s, w'))
| wait_childless : (∀ c k, ¬ child_of s cur p c k) → wait_outcome s w pw cur p (Fail E_NotFound (s, w))
| wait_sleeps s' : (∃ c k, child_of s cur p c k) → (∀ c k, child_of s cur p c k → state k ≠ Zombie) →
    proc_ok s' (<[cur := Waiting p (irq (cpu s), (false, false))]> pw) → same_table s s' → status s' cur = Some Sleeping →
    dom (tasks s') = dom (tasks s) →
    wait_outcome s w pw cur p (Ret (inr (irq (cpu s), (false, false))) (s', w)).

Lemma view_dom s s' : view s' = view s → dom (tasks s') = dom (tasks s).
Proof. intros E. apply (f_equal dom) in E. unfold view in E. by rewrite !dom_fmap_L in E. Qed.

Lemma wait_iter_spec s (w : W) pw cur p : proc_ok s pw → current_ s = Some cur → idle_proc s ≠ Some cur →
  wait_outcome s w pw cur p (wait_iter p (s, w)).
Proof.
  intros Hpok Hc Hidle. set (s0 := irq_to false s). assert (proc_ok s0 pw) as Hpok0 by (destruct Hpok; split; [by apply proc_inv_irq|done]).
  pose proof Hpok0 as [[Hok Hf Hp] Hr]. destruct (current_view s0 cur Hr Hc) as (k & Hk & Hv & Hn). change (tasks s0) with (tasks s) in Hk.
  assert (∀ c, c ∈ child_list k ↔ ∃ kc, tasks s !! c = Some kc ∧ parent kc = Some cur) as Hch.
  { intros c. rewrite (f_child _ _ _ _ _ Hf cur _ c Hv : c ∈ child_list k ↔ _). split; [intros (ic & (kc & Hkc & ->)%view_lookup & E); by exists kc|intros (kc & Hkc & E); exists (info_of kc); split; [apply view_lookup; eauto|done]]. }
  unfold wait_iter. rewrite (bind_Ret _ _ _ _ _ (on_sched_Ret _ _ w _ _ (save_Ret s))). fold s0. rewrite (bind_Ret _ _ _ (Some cur) (s0, w)) by (cbn; by rewrite Hc). rewrite (bind_Ret _ _ _ cur (s0, w)) by done.
  rewrite (bind_Ret _ _ _ _ _ (on_sched_Ret _ _ w _ _ (get_task_Ret cur k s0 Hk))).
  destruct (scan_spec s0 p (child_list k) false) as (has & r & E & Hsc). { intros c (kc & ? & _)%Hch. eauto. } change (tasks s0) with (tasks s) in Hsc.
  rewrite (bind_Ret _ _ _ _ _ (on_sched_Ret _ _ w _ _ E)). destruct r as [z|].
  - destruct Hsc as (kz & Hin & Hz & Hm & Hst). apply Hch in Hin as (kz' & Hz' & Hpar). assert (kz' = kz) as -> by congruence.
    destruct (reap_Ret z s0 w pw kz cur Hpok0 Hc Hz Hpar Hst) as (w' & Er & Hw'). destruct has.
    all: rewrite (bind_Ret _ _ _ _ _ (on_sched_Ret _ _ w _ _ (get_task_Ret z kz s0 Hz))), <- bind_assoc, (bind_Ret _ _ _ _ _ Er), (bind_Ret _ _ _ _ _ (on_sched_Ret _ _ w' _ _ (restore_Ret _ _))).
    all: unfold ret; replace (if irq (cpu s) then irq_to true (reaped z s0) else reaped z s0) with (reaped z s) by (unfold s0; destruct s as [? ? ? ? ? ? ? ? ? ? [[] ? ?]]; done).
    all: by apply (wait_reaps _ _ _ _ _ z kz).
  - destruct Hsc as [Hhas Hnz]. destruct has.
    + destruct (proj1 Hhas eq_refl) as [?|(c0 & k0 & Hin0 & Hk0 & Hm0)]; [done|]. set (f := set_state Sleeping ∘ set_wait_state 1).
      rewrite (bind_Ret _ _ _ _ _ (on_sched_Ret _ _ w _ _ (upd_task_Ret cur k _ s0 Hk))). set (s1 := with_tasks _ s0).
      assert (tasks s1 !! cur = Some (set_wait_state 1 k)) as Hk1 by (cbn; by rewrite lookup_alter_eq, Hk).
      rewrite (bind_Ret _ _ _ _ _ (on_sched_Ret _ _ w _ _ (sleep_Ret cur _ s1 Hk1 ltac:(cbn; intros Ez; by rewrite Ez in Hn)))). set (s2 := with_tasks _ s1).
      assert (s2 = with_tasks (alter f cur (tasks s0)) s0) as E2 by (unfold s2, s1, f; cbn; by rewrite alter_alter_eq).
      assert (proc_inv None s2 (<[cur := Waiting p (irq (cpu s), (false, false))]> pw)) as Hinv2.
      { rewrite E2. apply (sleep_inv s0 pw cur k f (i_set_status Sleeping ∘ i_set_wait 1)); try done. split; [done|]. split; [done|]. split.
        - apply Hch in Hin0 as (kc & Hkc & Hpc). assert (kc = k0) as -> by congruence. exists c0, (info_of k0). split; [apply view_lookup; eauto|done].
        - intros c ic ((kc & Hkc & ->)%view_lookup & Hpc & Hm). cbn in *. rewrite norm_zombie. apply (Hnz c kc); try done. apply Hch. eauto. }
      destruct (schedule_inv None s2 _ Hinv2) as (s3 & E3 & Hinv3 & Hr3 & Hst3 & Hv3 & _). rewrite (bind_Ret _ _ _ _ _ (on_sched_Ret _ _ w _ _ E3)).
      apply wait_sleeps; try done.
      * apply Hch in Hin0 as (kc & Hkc & Hpc). assert (kc = k0) as -> by congruence. by exists c0, k0.
      * intros c kc (Hkc & Hpc & Hm). apply (Hnz c kc); try done. apply Hch. eauto.
      * rewrite view_status, Hv3, E2. unfold view. cbn. rewrite lookup_fmap, lookup_alter_eq, Hk. done.
      * rewrite (view_dom _ _ Hv3), E2. cbn. by rewrite dom_alter_L.
    + rewrite (bind_Ret _ _ _ _ _ (on_sched_Ret _ _ w _ _ (restore_Ret _ _))). unfold fail, s0. rewrite restore_saved. apply wait_childless. intros c kc (Hkc & Hpc & Hm).
      assert (false = true); [|done]. apply Hhas. right. exists c, kc. split_and!; try done. apply Hch. eauto.
Qed.

(** C19: [wait] refuses a negative pid and otherwise does one of three things,
    by what the caller's matching children are: without any it answers
    [NotFound] and changes nothing; if one is a zombie it returns the pid and
    the exit code of such a child, which is then gone from the process table
    while every other task stays; if there are some but no zombie the caller
    goes to sleep, marked as waiting, and another task runs. *)
Theorem wait_correct s (w : W) pw cur p : proc_ok s pw → current_ s = Some cur → idle_proc s ≠ Some cur → dom (tasks s) = env_tasks w →
  if p <? 0 then wait p (s, w) = Fail E_Invalid (s, w) else
  ((∀ c k, ¬ child_of s cur p c k) ∧ wait p (s, w) = Fail E_NotFound (s, w)) ∨
  (∃ z k s' w', child_of s cur p z k ∧ state k = Zombie ∧ wait p (s, w) = Ret (inl (pid k, exit_code k)) (s', w') ∧ proc_ok s' pw ∧
     dom (tasks s') = env_tasks w' ∧ tasks s' !! z = None ∧ z ∉ proc_list s' ∧
     ∀ t, t ≠ z → tasks s' !! t = (λ q, set_child_list (unlink_from z (child_list q)) q) <$> tasks s !! t) ∨
  ((∃ c k, child_of s cur p c k) ∧ (∀ c k, child_of s cur p c k → state k ≠ Zombie) ∧
   ∃ fl s', wait p (s, w) = Ret (inr fl) (s', w) ∧ proc_ok s' (<[cur := Waiting p fl]> pw) ∧ status s' cur = Some Sleeping ∧ current_ s' ≠ Some cur).
Proof.
  intros Hok Hc Hi Hdom. unfold wait. destruct (Z.ltb_spec p 0); [rewrite (proj2 (Z.leb_gt 0 p)) by lia; done|]. rewrite (proj2 (Z.leb_le 0 p)) by lia. cbn [ensure]. rewrite bind_ret.
  destruct (wait_iter_spec s w pw cur p Hok Hc Hi) as [z k w' Hch Hz Hw'|Hno|s' Hex Hnz Hok' Hst Hsl Hd]; [right; left|left; done|right; right].
  - pose proof Hch as (Hk & Hpar & _). exists z, k, (reaped z s), w'. split_and!; try done.
    + by apply (reaped_ok z s pw k cur).
    + rewrite Hw', <- Hdom. unfold reaped, unlinked. cbn. by rewrite dom_delete_L, dom_fmap_L.
    + apply lookup_delete_eq.
    + change (proc_list (reaped z s)) with (unlink_from z (proc_list s)). rewrite elem_of_unlink. naive_solver.
    + intros t Ht. unfold reaped, unlinked. cbn. by rewrite lookup_delete_ne, lookup_fmap by done.
  - split; [done|]. split; [done|]. eexists _, s'. split_and!; try done. intros E. destruct Hok' as [_ (c & Hc' & Hrd)]. congruence.
Qed.

(** ** [fork] *)

(** The state in which [t] is a task object that is not yet published. *)
Definition draft (s : sched) (t : Z) (k : Task) (w : W) : P := (with_tasks (<[t := k]> (tasks s)) s, w).

(** [m] works on the draft only; whether it returns or fails, the draft has no
    children. *)
Definition drafts {A} (s : sched) (t : Z) (pre : Task → Prop) (m : M P A) (post : A → Task → Prop) : Prop :=
  ∀ k w, pre k →
  match m (draft s t k w) with
  | Ret a x => ∃ k' w', x = draft s t k' w' ∧ env_tasks w' = env_tasks w ∧ post a k'
  | Fail _ x => ∃ k' w', x = draft s t k' w' ∧ env_tasks w' = env_tasks w ∧ child_list k' = []
  | Halt _ => False
  end.

Section drafts.
Context (s : sched) (t : Z).
Lemma drafts_bind {A B} pre (m : M P A) post (k : A → M P B) post' :
  drafts s t pre m post → (∀ a, drafts s t (post a) (k a) post') → drafts s t pre (bind m k) post'.
Proof.
  intros Hm Hk k0 w Hpre. specialize (Hm k0 w Hpre). unfold bind. destruct (m _) as [a x|e x|]; [|done..].
  destruct Hm as (k1 & w1 & -> & Hw & Hpost). specialize (Hk a k1 w1 Hpost). destruct (k a _) as [b y|e y|]; [| |done]; destruct Hk as (k2 & w2 & ? & Hw2 & ?); exists k2, w2; rewrite Hw2; done.
Qed.
Lemma draft_upd f k (w : W) : on_sched (upd_task t f) (draft s t k w) = Ret tt (draft s t (f k) w).
Proof.
  unfold draft. rewrite (on_sched_Ret _ _ w _ _ (upd_task_Ret t k f _ (lookup_insert_eq _ _ _))). cbn [tasks with_tasks].
  by rewrite (alter_as_insert f _ t k), insert_insert_eq by apply lookup_insert_eq.
Qed.
Lemma drafts_upd (pre post : Task → Prop) f : (∀ k, pre k → post (f k)) → drafts s t pre (on_sched (upd_task t f)) (λ _, post).
Proof.
  intros Hf k w Hpre. rewrite draft_upd. exists (f k), w. auto.
Qed.
Lemma drafts_get (pre : Task → Prop) : drafts s t pre (on_sched (get_task t)) (λ a k, a = k ∧ pre k).
Proof. intros k w Hpre. unfold draft. rewrite (on_sched_Ret _ _ w _ _ (get_task_Ret t k _ (lookup_insert_eq _ _ _))). by exists k, w. Qed.
Lemma drafts_ensure (pre : Task → Prop) c e : (∀ k, pre k → child_list k = []) → drafts s t pre (ensure c e) (λ _, pre).
Proof. intros Hp k w Hpre. destruct c; exists k, w; auto. Qed.
Lemma drafts_assert (pre : Task → Prop) c : (∀ k, pre k → c = true) → drafts s t pre (assert_ c) (λ _, pre).
Proof. intros Hc k w Hpre. rewrite (Hc k Hpre). by exists k, w. Qed.
Lemma drafts_env {A} (pre : Task → Prop) (m : M W A) : (∀ w, ∃ w', out_state (m w) = Some w' ∧ env_tasks w' = env_tasks w) →
  (∀ k, pre k → child_list k = []) → drafts s t pre (on_env m) (λ _, pre).
Proof.
  intros Hm Hp k w Hpre. destruct (Hm w) as (w' & E & Hw). unfold on_env, zoom. cbn. destruct (m w) as [a w1|e w1|]; [| |done]; injection E as ->; exists k, w'; auto.
Qed.
Lemma drafts_files {A} (pre : Task → Prop) (m : M (list Entry * W) A) : (∀ l w, ∃ l' w', out_state (m (l, w)) = Some (l', w') ∧ env_tasks w' = env_tasks w) →
  (∀ k l, pre k → pre (set_files l k) ∧ child_list k = []) → drafts s t pre (on_files t m) (λ _, pre).
Proof.
  intros Hm Hp k w Hpre. destruct (Hm (files k) w) as (l & w' & E & Hw). destruct (Hp k l Hpre) as [Hpre' Hch].
  unfold on_files, draft. cbn [fst snd tasks with_tasks]. rewrite lookup_insert_eq. destruct (m (files k, w)) as [a x|e x|]; [| |done]; injection E as ->; exists (set_files l k), w'; cbn; rewrite insert_insert_eq; auto.
Qed.
End drafts.

(** What the preparation of a child keeps. *)
Definition fresh (p : Z) (k : Task) : Prop :=
  state k = Uninit ∧ owned_memory k = None ∧ child_list k = [] ∧ wait_state k = 0 ∧ parent k = Some p.

Lemma setup_stdio_drafts s t p : drafts s t (fresh p) (setup_stdio t) (λ _, fresh p).
Proof.
  assert (∀ fd, drafts s t (fresh p) (file <- on_env (env_open console_path);; n <- on_files t (alloc env_close (Some file));; ensure (n =? fd) E_Invalid) (λ _, fresh p)) as H1.
  { intros fd. eapply drafts_bind; [apply drafts_env; [intros w; apply env_open_ok|by intros k (_ & _ & ? & _)]|]. intros f. cbn beta.
    eapply drafts_bind; [apply drafts_files; [intros l w; apply alloc_ok|by intros k l (? & ? & ? & ?)]|]. intros n. apply drafts_ensure. by intros k (_ & _ & ? & _). }
  unfold setup_stdio. cbn [forM]. do 3 (eapply drafts_bind; [apply H1|intros ?; cbn beta]). intros k w Hk. by exists k, w.
Qed.

Context (kernel_mm : Mem) (tf_size forkret : Z) (fixup_fork_tf : list Z → Z → list Z).
Context (kernel_root : is_Some (pgdir kernel_mm)).

(** The child as it is published. *)
Definition child_ok (p : Z) (kp : Task) (k : Task) : Prop :=
  fresh p k ∧ borrowed_memory k = Some kernel_mm ∧ priority k = priority kp ∧ time_slice k = calc_time_slice (priority kp).

Lemma prepare_drafts s t p kp stack tf : drafts s t (λ k, k = task_new) (prepare kernel_mm tf_size forkret fixup_fork_tf t p kp stack tf) (λ _, child_ok p kp).
Proof.
  unfold prepare. eapply drafts_bind; [apply (drafts_upd s t _ (fresh p)); intros k ->; done|intros ?; cbn beta].
  eapply drafts_bind; [apply drafts_files; [|by intros k l (? & ? & ? & ?)]|intros ?; cbn beta].
  { intros l w. destruct (close_all_ok l w) as (l' & w' & E & Hw). exists l', w'. change (fork_from env_close FP_Reset) with (close_all (S := W) env_close). by rewrite E. }
  eapply drafts_bind; [apply setup_stdio_drafts|intros ?; cbn beta]. eapply drafts_bind; [|intros ?; cbn beta].
  { unfold setup_kernel_stack. eapply drafts_bind; [apply drafts_get|]. intros k0. eapply drafts_bind; [apply drafts_ensure; by intros k (_ & _ & _ & ? & _)|intros ?; cbn beta].
    eapply drafts_bind; [apply drafts_env; [intros w; apply env_alloc_ok|by intros k (_ & _ & _ & ? & _)]|]. intros ad. apply (drafts_upd s t _ (fresh p)). by intros k (_ & ? & ? & ? & ?). }
  eapply drafts_bind; [|intros ?; cbn beta].
  { unfold use_kernel_memory. eapply drafts_bind; [apply drafts_get|]. intros k0. eapply drafts_bind; [apply drafts_assert|intros ?; cbn beta].
    { intros k (-> & H1 & H2 & _). rewrite !bool_decide_eq_true_2 by done. done. }
    apply (drafts_upd s t _ (λ k, fresh p k ∧ borrowed_memory k = Some kernel_mm)). by intros k (_ & ? & ? & ? & ?). }
  eapply drafts_bind; [|intros ?; cbn beta].
  { unfold copy_thread. eapply drafts_bind; [apply drafts_get|]. intros k0. cbv zeta.
    eapply drafts_bind; [apply (drafts_upd s t _ (λ k, fresh p k ∧ borrowed_memory k = Some kernel_mm)); by intros k (_ & ? & ?)|intros ?; cbn beta].
    apply (drafts_upd s t _ (λ k, fresh p k ∧ borrowed_memory k = Some kernel_mm)). by intros k (? & ?). }
  eapply drafts_bind; [apply (drafts_upd s t _ (λ k, fresh p k ∧ borrowed_memory k = Some kernel_mm ∧ priority k = priority kp)); by intros k (? & ?)|intros ?; cbn beta].
  apply drafts_upd. by intros k (? & ? & ?).
Qed.

(** The process table with the child [k] at [t]. *)
Definition forked (s : sched) (t p : Z) (k : Task) : sched :=
  with_next_pid (s32 (next_pid s + 1))
    (with_process_count (s32 (process_count s + 1))
      (with_proc_list (t :: proc_list s)
        (with_hash_list (<[pid_hash (pid k) := t :: bucket s (pid_hash (pid k))]> (hash_list s))
          (with_tasks (<[t := k]> (alter (λ q, set_child_list (t :: child_list q) q) p (tasks s))) s)))).

Lemma publish_Ret s t p kp k : tasks s !! t = None → tasks s !! p = Some kp → parent k = Some p → state k = Uninit →
  publish t (with_tasks (<[t := k]> (tasks s)) s) = Ret (next_pid s) (forked s t p (set_state Runnable (set_pid (next_pid s) k))).
Proof.
  intros Ht Hp Hpar Hst. assert (p ≠ t) as Hne by congruence. set (s0 := with_tasks _ s). set (n := next_pid s). set (k1 := set_pid n k).
  unfold publish, guarded. rewrite (bind_Ret _ _ _ _ _ (save_Ret s0)). set (s1 := irq_to false s0).
  set (s2 := with_next_pid (s32 (n + 1)) (with_tasks (<[t := k1]> (tasks s)) s1)).
  set (s3 := with_process_count (s32 (process_count s + 1)) (with_proc_list (t :: proc_list s) (with_hash_list (<[pid_hash n := t :: bucket s (pid_hash n)]> (hash_list s)) s2))).
  set (s4 := with_tasks (alter (set_state Runnable) t (alter (λ q, set_child_list (t :: child_list q) q) p (<[t := k1]> (tasks s)))) s3).
  assert (try_ (s <- get;; upd_task t (set_pid (next_pid s));; modify (λ s, with_next_pid (s32 (next_pid s + 1)) s);; set_links t;; wakeup t;; k <- get_task t;; ret (pid k)) s1 = Ret (inl n) s4) as E.
  { unfold try_. rewrite (bind_Ret _ _ _ s1 s1) by done. change (next_pid s1) with n.
    rewrite (bind_Ret _ _ _ _ _ (upd_task_Ret t k _ s1 (lookup_insert_eq _ _ _))). rewrite (bind_Ret _ _ _ tt s2).
    2:{ unfold modify, s2, s1, s0. cbn. by rewrite (alter_as_insert _ _ t k), insert_insert_eq by apply lookup_insert_eq. }
    assert (tasks s2 !! t = Some k1) as H2 by apply lookup_insert_eq.
    rewrite (bind_Ret _ _ _ tt (with_tasks (alter (λ q, set_child_list (t :: child_list q) q) p (tasks s3)) s3)).
    2:{ unfold set_links, add_process. rewrite !bind_assoc, (bind_Ret _ _ _ _ _ (get_task_Ret t k1 s2 H2)).
        rewrite (bind_Ret _ _ _ tt s3) by done. rewrite (bind_Ret _ _ _ k1 s3) by (by apply get_task_Ret). change (parent k1) with (parent k). rewrite Hpar.
        apply (upd_task_Ret p kp). cbn. by rewrite lookup_insert_ne. }
    assert (∀ x, tasks (with_tasks (alter x p (tasks s3)) s3) !! t = Some k1) as H4 by (intros x; cbn; by rewrite lookup_alter_ne, lookup_insert_eq).
    rewrite (bind_Ret _ _ _ _ _ (wakeup_Ret t k1 _ (H4 _) ltac:(cbn; congruence))). change (with_tasks _ (with_tasks _ s3)) with s4.
    rewrite (bind_Ret _ _ _ (set_state Runnable k1) s4) by (apply get_task_Ret; cbn; by rewrite lookup_alter_eq, lookup_alter_ne, lookup_insert_eq). done. }
  rewrite (bind_Ret _ _ _ _ _ E), (bind_Ret _ _ _ _ _ (restore_Ret _ _)). unfold ret. f_equal. unfold s4, s3, s2, s1, s0, forked. change (pid (set_state Runnable k1)) with n.
  assert (alter (set_state Runnable) t (alter (λ q, set_child_list (t :: child_list q) q) p (<[t := k1]> (tasks s))) = <[t := set_state Runnable k1]> (alter (λ q, set_child_list (t :: child_list q) q) p (tasks s))) as ->.
  { rewrite (alter_insert_ne _ p t) by done. rewrite (alter_as_insert _ _ t k1), insert_insert_eq by apply lookup_insert_eq. done. }
  destruct s as [? ? ? ? ? ? ? ? ? ? [[] ? ?]]; done.
Qed.

Lemma view_forked s t p k : parent k = Some p → child_list k = [] → wait_state k = 0 → state k = Runnable → tasks s !! t = None →
  view (forked s t p k) = <[t := MkInfo (pid k) 0 (Some p) [] Runnable]> (alter (i_push t) p (view s)).
Proof.
  intros H1 H2 H3 H4 Ht. unfold view, forked. cbn. rewrite fmap_insert. f_equal; [unfold info_of; by rewrite H1, H2, H3, H4|].
  by apply (view_alter (λ q, set_child_list (t :: child_list q) q) (i_push t) p s).
Qed.

Lemma forked_ok s pw t p k : proc_ok s pw → current_ s = Some p → tasks s !! t = None → fresh p k → borrowed_memory k = Some kernel_mm →
  0 ≤ next_pid s < 2 ^ 31 - 1 → proc_ok (forked s t p (set_state Runnable (set_pid (next_pid s) k))) pw.
Proof.
  intros [[Hok Hf Hp] Hr] Hc Ht (Hst & Hown & Hch & Hw & Hpar) Hmem Hn. destruct (current_view s p Hr Hc) as (kp & Hkp & Hvp & Hnp). assert (p ≠ t) as Hne by congruence.
  set (k' := set_state Runnable (set_pid (next_pid s) k)). assert (view (forked s t p k') = <[t := MkInfo (next_pid s) 0 (Some p) [] Runnable]> (alter (i_push t) p (view s))) as Hv by (by apply view_forked).
  assert (view s !! t = None) as Hvt by (unfold view; by rewrite lookup_fmap, Ht).
  assert (∀ u ku, tasks (forked s t p k') !! u = Some ku → (u = t ∧ ku = k') ∨ (u ≠ t ∧ ∃ k0, tasks s !! u = Some k0 ∧ cpu_view ku = cpu_view k0)) as Hl.
  { intros u ku. unfold forked. cbn. intros [[<- <-]|[? [[-> (k0 & ? & ->)]|[? ?]]%lookup_alter_Some]]%lookup_insert_Some; [by left|right..]; split; eauto. }
  assert (∀ u k0, tasks s !! u = Some k0 → ∃ ku, tasks (forked s t p k') !! u = Some ku ∧ cpu_view ku = cpu_view k0) as Hl'.
  { intros u k0 Hu. unfold forked. cbn. rewrite lookup_insert_ne by congruence. destruct (decide (u = p)) as [->|]; [rewrite lookup_alter_eq, Hu|rewrite lookup_alter_ne, Hu by done]; eexists; split; done. }
  destruct kernel_root as [r Hroot]. assert (root_of k' = Some r) as Hrk by (unfold root_of, memory, k'; cbn; by rewrite Hown, Hmem; cbn; rewrite Hroot).
  split; [constructor|].
  - pose proof Hok as [H1 H2 H3 (i & ki & Hi & Hki & Hs) (c & kc & Hc' & Hkc & Hrc) H6 H7]. constructor.
    + intros u. change (proc_list (forked s t p k')) with (t :: proc_list s). rewrite elem_of_cons, H1. split.
      * intros [->|[k0 Hu]]; [eexists; apply lookup_insert_eq|destruct (Hl' u k0 Hu) as (? & -> & _); done].
      * intros [ku [[-> _]|(_ & k0 & Hu & _)]%Hl]; [by left|right; eauto].
    + apply NoDup_cons. split; [|done]. rewrite H1, Ht. by intros [? ?].
    + intros u Hu. right. by apply H3.
    + destruct (Hl' i ki Hki) as (ku & ? & [= _ Es]). exists i, ku. rewrite Es. done.
    + destruct (Hl' c kc Hkc) as (ku & ? & [= Er _]). exists c, ku. rewrite Er. done.
    + intros u ku [[-> ->]|(_ & k0 & Hu & [= Er _])]%Hl; [eauto|]. rewrite Er. by apply (H6 u).
    + intros u ku [[-> ->]|(_ & k0 & Hu & [= _ Es])]%Hl; [done|]. rewrite Es. by apply (H7 u).
  - rewrite Hv. apply (forest_fork _ _ _ _ t p (info_of kp)); try done; cbn; by rewrite Hnp.
  - destruct Hp as [P1 P2 P3 P4]. assert (∀ u i, view (forked s t p k') !! u = Some i → (u = t ∧ i_pid i = next_pid s) ∨ (u ≠ t ∧ ∃ i0, view s !! u = Some i0 ∧ i_pid i0 = i_pid i)) as Hvl.
    { intros u i. rewrite Hv. intros [[<- <-]|[? [[-> (i0 & ? & ->)]|[? ?]]%lookup_alter_Some]]%lookup_insert_Some; [by left|right..]; split; eauto. }
    assert (∀ u i0, view s !! u = Some i0 → ∃ i, view (forked s t p k') !! u = Some i ∧ i_pid i = i_pid i0) as Hvl'.
    { intros u i0 Hu. rewrite Hv, lookup_insert_ne by congruence. destruct (decide (u = p)) as [->|]; [rewrite lookup_alter_eq, Hu|rewrite lookup_alter_ne, Hu by done]; eexists; split; done. }
    assert (next_pid (forked s t p k') = next_pid s + 1) as Hnx by (apply s32_small; lia). constructor.
    + rewrite Hnx. intros u i [[-> ->]|(_ & i0 & Hi0 & <-)]%Hvl; [lia|]. specialize (P1 u i0 Hi0). lia.
    + intros t1 i1 t2 i2 [[-> E1]|(_ & j1 & Hj1 & E1)]%Hvl [[-> E2]|(_ & j2 & Hj2 & E2)]%Hvl E; [done| | |apply (P2 t1 j1 t2 j2); congruence].
      * specialize (P1 t2 j2 Hj2). lia.
      * specialize (P1 t1 j1 Hj1). lia.
    + intros u h. assert (bucket (forked s t p k') h = if decide (h = pid_hash (next_pid s)) then t :: bucket s h else bucket s h) as ->.
      { unfold bucket at 1, forked. cbn. case_decide as Hh; [subst h; by rewrite lookup_insert_eq|by rewrite lookup_insert_ne]. }
      assert ((∃ i, view (forked s t p k') !! u = Some i ∧ pid_hash (i_pid i) = h) ↔ (u = t ∧ h = pid_hash (next_pid s)) ∨ u ∈ bucket s h) as ->.
      { rewrite P3. split.
        - intros (i & [[-> E]|(_ & i0 & Hi0 & E)]%Hvl & <-); [left; by rewrite E|right; exists i0; by rewrite E].
        - intros [[-> ->]|(i0 & Hi0 & <-)]; [eexists; rewrite Hv; split; [apply lookup_insert_eq|done]|]. destruct (Hvl' u i0 Hi0) as (i & ? & E). exists i. by rewrite E. }
      case_decide; [rewrite elem_of_cons|]; naive_solver.
    + change (process_count (forked s t p k')) with (s32 (process_count s + 1)). rewrite P4, s32_s32. cbn. f_equal. lia.
  - exists p. split; [done|]. rewrite view_status, Hv, lookup_insert_ne, lookup_alter_eq, Hvp by done. cbn. by rewrite Hnp.
Qed.

(** The outcomes of [fork]. *)
Inductive fork_outcome (s : sched) (w : W) (p : Z) (kp : Task) : Out P Z → Prop :=
| fork_child t k w' : tasks s !! t = None → child_ok p kp k → mm <$> memory kp = Some (mm kernel_mm) → env_tasks w' = {[t]} ∪ env_tasks w →
    fork_outcome s w p kp (Ret (next_pid s) (forked s t p (set_state Runnable (set_pid (next_pid s) k)), w'))
| fork_fails e w' : env_tasks w' = env_tasks w → fork_outcome s w p kp (Fail e (s, w')).

Lemma draft_delete s (w : W) pw t k : proc_ok s pw → tasks s !! t = None → child_list k = [] → ∃ w',
  delete_task t (with_tasks (<[t := k]> (tasks s)) s, w) = Ret tt (s, w') ∧ env_tasks w' = env_tasks w ∖ {[t]}.
Proof.
  intros [[Hok Hf Hp] (c & Hc & Hst)] Ht Hch. set (s1 := with_tasks _ s).
  destruct (delete_task_spec s1 w t k) as (w' & E & Hw); [apply lookup_insert_eq| | |].
  - change (current_ s1) with (current_ s). rewrite Hc. intros [= ->]. unfold status in Hst. by rewrite Ht in Hst.
  - unfold detached. rewrite !andb_true_iff. split_and!; apply bool_decide_eq_true_2; [| | |done].
    + change (proc_list s1) with (proc_list s). rewrite (so_list _ Hok), Ht. by intros [? ?].
    + intros h l Hl Hin. change (hash_list s1) with (hash_list s) in Hl. assert (t ∈ bucket s h) as (i & (k0 & Hk0 & _)%view_lookup & _)%(p_hash _ Hp) by (unfold bucket; by rewrite Hl). congruence.
    + intros u q Hq Hin. unfold s1 in Hq. cbn in Hq. apply lookup_insert_Some in Hq as [[<- <-]|[_ Hq]]; [rewrite Hch in Hin; by apply elem_of_nil in Hin|].
      assert (view s !! u = Some (info_of q)) as Hu by (apply view_lookup; eauto). apply (f_child _ _ _ _ _ Hf u _ t Hu) in Hin as (ic & (k0 & Hk0 & _)%view_lookup & _). congruence.
  - exists w'. rewrite E. split; [|done]. unfold s1. cbn. rewrite delete_insert_id by done. by destruct s.
Qed.

Lemma fork_spec s (w : W) pw p kp flags stack tf : proc_ok s pw → current_ s = Some p → tasks s !! p = Some kp → dom (tasks s) = env_tasks w →
  fork_outcome s w p kp (fork kernel_mm tf_size forkret fixup_fork_tf flags stack tf (s, w)).
Proof.
  intros Hpok Hc Hkp Hdom. unfold fork. rewrite (bind_Ret _ _ _ s (s, w)) by done. rewrite Hc, bind_ret. rewrite (bind_Ret _ _ _ _ _ (on_sched_Ret _ _ w _ _ (get_task_Ret p kp s Hkp))).
  case_bool_decide as Hmm; cbn [ensure]; [rewrite bind_ret|by apply fork_fails]. destruct (env_new_ok w) as (o & w1 & E1 & Ho). rewrite (bind_Ret _ _ _ _ _ (on_env_Ret _ s _ _ _ E1)).
  destruct o as [t|]; [|by apply fork_fails]. destruct Ho as [Hnew Hw1]. rewrite bind_ret. assert (tasks s !! t = None) as Ht by (apply not_elem_of_dom; by rewrite Hdom).
  rewrite (bind_Ret _ _ _ tt (draft s t task_new w1)) by done. unfold owning, try_, bind at 1 2.
  pose proof (prepare_drafts s t p kp stack tf task_new w1 eq_refl) as Hprep. destruct (prepare _ _ _ _ t p kp stack tf _) as [[] x|e x|]; [| |done]; destruct Hprep as (k & w2 & -> & Hw2 & Hk).
  - destruct Hk as ((Hst & Hf) & Hk). unfold draft. rewrite (on_sched_Ret _ _ w2 _ _ (publish_Ret s t p kp k Ht Hkp (proj2 (proj2 (proj2 Hf))) Hst)). apply fork_child; try done. congruence.
  - destruct (draft_delete s w2 pw t k) as (w3 & E3 & Hw3); try done.
    unfold draft, bind. rewrite E3. apply fork_fails. rewrite Hw3, Hw2, Hw1. set_solver.
Qed.

(** ** All interleavings *)

Record psys : Type := MkPsys { psch : sched; penv : W; ppc : gmap Z wpc }.

Notation do_fork := (fork kernel_mm tf_size forkret fixup_fork_tf).

(** What the current task may do, the timer, and the wake-ups of tasks that
    sleep elsewhere.  Neither the idle task nor init exits. *)
Inductive pstep : psys → psys → Prop :=
| ps_fork s w pw cur flags stack tf n s' w' : current_ s = Some cur → pw !! cur = None → next_pid s < 2 ^ 31 - 1 →
    do_fork flags stack tf (s, w) = Ret n (s', w') → pstep (MkPsys s w pw) (MkPsys s' w' pw)
| ps_fork_fails s w pw cur flags stack tf e s' w' : current_ s = Some cur → pw !! cur = None →
    do_fork flags stack tf (s, w) = Fail e (s', w') → pstep (MkPsys s w pw) (MkPsys s' w' pw)
| ps_exit s w pw cur code fl s' : current_ s = Some cur → pw !! cur = None → idle_proc s ≠ Some cur → init_proc s ≠ Some cur →
    exit code s = Ret fl s' → pstep (MkPsys s w pw) (MkPsys s' w pw)
| ps_wait s w pw cur p : current_ s = Some cur → pw !! cur = None → idle_proc s ≠ Some cur → 0 ≤ p →
    pstep (MkPsys s w pw) (MkPsys s w (<[cur := WTop p]> pw))
| ps_wait_reaps s w pw cur p v s' w' : current_ s = Some cur → pw !! cur = Some (WTop p) →
    wait_iter p (s, w) = Ret (inl v) (s', w') → pstep (MkPsys s w pw) (MkPsys s' w' (delete cur pw))
| ps_wait_fails s w pw cur p e s' w' : current_ s = Some cur → pw !! cur = Some (WTop p) →
    wait_iter p (s, w) = Fail e (s', w') → pstep (MkPsys s w pw) (MkPsys s' w' (delete cur pw))
| ps_wait_sleeps s w pw cur p fl s' w' : current_ s = Some cur → pw !! cur = Some (WTop p) →
    wait_iter p (s, w) = Ret (inr fl) (s', w') → pstep (MkPsys s w pw) (MkPsys s' w' (<[cur := Waiting p fl]> pw))
| ps_wait_resumes s w pw cur p fl s' w' : current_ s = Some cur → pw !! cur = Some (Waiting p fl) →
    wait_resume cur fl (s, w) = Ret tt (s', w') → pstep (MkPsys s w pw) (MkPsys s' w' (<[cur := WTop p]> pw))
| ps_schedule s w pw fl s' : schedule s = Ret fl s' → pstep (MkPsys s w pw) (MkPsys s' w pw)
| ps_tick s w pw s' : tick s = Ret tt s' → pstep (MkPsys s w pw) (MkPsys s' w pw)
| ps_block s w pw cur fl s' : current_ s = Some cur → pw !! cur = None → idle_proc s ≠ Some cur →
    (sleep cur;; schedule) s = Ret fl s' → pstep (MkPsys s w pw) (MkPsys s' w (<[cur := Blocked]> pw))
| ps_wakeup s w pw t s' : pw !! t = Some Blocked → wakeup t s = Ret tt s' →
    pstep (MkPsys s w pw) (MkPsys s' w (delete t pw)).

Record psys_ok (y : psys) : Prop := {
  py_ok : proc_ok (psch y) (ppc y);
  py_dom : dom (tasks (psch y)) = env_tasks (penv y);
  py_init : is_Some (init_proc (psch y));
  py_idle t q : ppc y !! t = Some q → idle_proc (psch y) ≠ Some t }.

Lemma dom_same s s' pw pw' : proc_ok s pw → proc_ok s' pw' → same_table s s' → dom (tasks s') = dom (tasks s).
Proof.
  intros [[Hok _ _] _] [[Hok' _ _] _] (E & _). apply set_eq. intros t. rewrite !elem_of_dom, <- (so_list _ Hok), <- (so_list _ Hok'). by rewrite E.
Qed.

(** The current task enters or leaves [wait]. *)
Lemma proc_ok_pc s pw cur q : proc_ok s pw → current_ s = Some cur → (pw !! cur = None ∨ ∃ p, pw !! cur = Some (WTop p)) →
  (q = None ∨ ∃ p, q = Some (WTop p)) → proc_ok s (partial_alter (λ _, q) cur pw).
Proof.
  intros [[Hok Hf Hp] Hr] Hc Hpw Hq. destruct (current_view s cur Hr Hc) as (k & Hk & Hv & Hn). split; [constructor; [done| |done]|done].
  rewrite <- (insert_id (view s) cur (info_of k) Hv). apply (forest_update _ _ None None _ pw _ cur (info_of k)); try done.
  - intros u Hu. by rewrite lookup_partial_alter_ne.
  - intros E. cbn in E. by rewrite Hn in E.
  - destruct (f_wait _ _ _ _ _ Hf cur _ Hv) as [Hw Hiff]. split; [done|]. rewrite Hiff, lookup_partial_alter_eq. destruct Hpw as [->|[p ->]], Hq as [->|[p' ->]]; split; intros (? & ? & ?); done.
  - intros p fl. rewrite lookup_partial_alter_eq. destruct Hq as [->|[p' ->]]; done.
  - intros q'. rewrite lookup_partial_alter_eq. destruct Hq as [->|[p' ->]]; [done|]. intros [= <-]. done.
  - intros E. cbn in E. by rewrite Hn in E.
Qed.

Lemma resume_inv s pw cur p fl : proc_ok s pw → current_ s = Some cur → pw !! cur = Some (Waiting p fl) →
  ∃ b, ∀ w : W, wait_resume cur fl (s, w) = Ret tt (irq_to b (with_tasks (alter (set_wait_state 0) cur (tasks s)) s), w) ∧
    proc_ok (irq_to b (with_tasks (alter (set_wait_state 0) cur (tasks s)) s)) (<[cur := WTop p]> pw).
Proof.
  intros [Hinv Hr] Hc Hpw. pose proof Hinv as [Hok Hf Hp]. destruct (current_view s cur Hr Hc) as (k & Hk & Hv & Hn). destruct (f_pw _ _ _ _ _ Hf cur _ Hpw) as (i & _ & Hfl & _).
  destruct fl as [f fl]. cbn in Hfl. subst fl. exists (if f then true else irq (cpu s)). intros w. set (s1 := with_tasks _ s). split.
  - unfold wait_resume. rewrite (bind_Ret _ _ _ tt (s, w)) by done. rewrite (bind_Ret _ _ _ _ _ (on_sched_Ret _ _ w _ _ (upd_task_Ret cur k _ s Hk))). fold s1.
    rewrite (on_sched_Ret _ _ w _ _ (restore_Ret _ _)). cbn [fst]. destruct f; [done|]. change (irq (cpu s)) with (irq (cpu s1)). by rewrite irq_to_id.
  - split; [apply proc_inv_irq; apply (proc_inv_upd None None s pw _ cur _ (i_set_wait 0)); try done|].
    + apply (sched_ok_tasks s); try done. cbn. by rewrite cpu_alter.
    + rewrite (alter_as_insert _ _ cur _ Hv). apply (forest_update _ _ None None _ pw _ cur (info_of k)); try done.
      * intros u Hu. by rewrite lookup_insert_ne.
      * intros E. cbn in E. by rewrite Hn in E.
      * rewrite lookup_insert_eq. cbn. split; [by left|]. split; [done|]. by intros (? & ? & ?).
      * intros p' fl. by rewrite lookup_insert_eq.
      * intros q. rewrite lookup_insert_eq. intros [= <-]. done.
      * intros E. cbn in E. by rewrite Hn in E.
    + exists cur. split; [done|]. unfold status. cbn. rewrite lookup_alter_eq, Hk. cbn. by rewrite Hn.
Qed.

Lemma next_pid_pos s pw : proc_ok s pw → 0 < next_pid s.
Proof. intros [[_ _ Hp] Hr]. pose proof Hr as (c & Hc & _). destruct (current_view s c Hr Hc) as (k & _ & Hv & _). pose proof (p_range _ Hp c _ Hv). lia. Qed.

Lemma block_spec s pw cur : proc_ok s pw → current_ s = Some cur → pw !! cur = None → idle_proc s ≠ Some cur →
  ∃ fl s', (sleep cur;; schedule) s = Ret fl s' ∧ proc_ok s' (<[cur := Blocked]> pw) ∧ same_table s s'.
Proof.
  intros Hpok Hc Hpw Hidle. pose proof Hpok as [[Hok Hf Hp] Hr]. destruct (current_view s cur Hr Hc) as (k & Hk & Hv & Hn).
  rewrite (bind_Ret _ _ _ _ _ (sleep_Ret cur k s Hk ltac:(intros E; by rewrite E in Hn))). set (s1 := with_tasks _ s).
  assert (proc_inv None s1 (<[cur := Blocked]> pw)) as Hinv1.
  { apply (sleep_inv s pw cur k (set_state Sleeping) (i_set_status Sleeping)); try done. cbn. destruct (f_wait _ _ _ _ _ Hf cur _ Hv) as [_ Hw]. cbn in Hw.
    destruct (decide (wait_state k = 0)) as [|Hne]; [done|]. apply Hw in Hne as (? & ? & ?). congruence. }
  destruct (schedule_inv None s1 _ Hinv1) as (s2 & E2 & Hinv2 & Hr2 & Hst2 & _). eexists _, s2. split; [exact E2|]. split; [done|]. exact Hst2.
Qed.

Lemma pstep_ok y y' : pstep y y' → psys_ok y → psys_ok y'.
Proof.
  intros Hstep [Hok Hdom Hin Hid]. destruct Hstep as [s w pw cur fg st tf n s' w' Hc Hpw Hn E|s w pw cur fg st tf e s' w' Hc Hpw E|s w pw cur code fl s' Hc Hpw Hi Hni E|s w pw cur p Hc Hpw Hi Hp|
    s w pw cur p v s' w' Hc Hpw E|s w pw cur p e s' w' Hc Hpw E|s w pw cur p fl s' w' Hc Hpw E|s w pw cur p fl s' w' Hc Hpw E|s w pw fl s' E|s w pw s' E|s w pw cur fl s' Hc Hpw Hi E|s w pw t s' Hpw E]; cbn [psch penv ppc] in *;
    pose proof Hok as [Hinv Hr].
  - destruct (current_view s cur Hr Hc) as (k & Hk & _). pose proof (fork_spec s w pw cur k fg st tf Hok Hc Hk Hdom) as Ho. rewrite E in Ho. inversion Ho as [t kc w1 Ht Hck Hmm Hw1 E1|]; subst.
    destruct Hck as (Hfr & Hbm & _). pose proof (next_pid_pos s pw Hok). constructor; cbn [psch ppc penv]; [apply forked_ok; try done; lia| |done|done].
    rewrite Hw1, <- Hdom. unfold forked. cbn. rewrite dom_insert_L, dom_alter_L. done.
  - destruct (current_view s cur Hr Hc) as (k & Hk & _). pose proof (fork_spec s w pw cur k fg st tf Hok Hc Hk Hdom) as Ho. rewrite E in Ho. inversion Ho as [|e' w1 Hw1 E1]; subst. constructor; cbn; [done|congruence|done|done].
  - destruct (current_view s cur Hr Hc) as (k & Hk & _). destruct Hin as [i Hi0]. destruct (exit_spec s pw cur k code i Hok Hc Hk Hpw Hi Hi0) as (fl' & s1 & k' & E1 & Hok1 & Hst & _); [congruence|]. rewrite E in E1. injection E1 as <- <-.
    pose proof Hst as (_ & _ & T3 & T4 & _). constructor; cbn; [done|by rewrite (dom_same s s' pw pw)|by rewrite T4, Hi0|by rewrite T3].
  - constructor; cbn; try done; [apply (proc_ok_pc s pw cur (Some (WTop p))); eauto|]. intros t q [[<- _]|[_ ?]]%lookup_insert_Some; [done|by apply (Hid t q)].
  - pose proof (wait_iter_spec s w pw cur p Hok Hc (Hid _ _ Hpw)) as Ho. rewrite E in Ho. inversion Ho as [z k w1 Hch Hz Hw1 E1| |]; subst. destruct Hch as (Hk & Hpar & _).
    constructor; cbn; [|rewrite Hw1, <- Hdom; unfold unlinked; by rewrite dom_delete_L, dom_fmap_L|done|intros t q [_ ?]%lookup_delete_Some; by apply (Hid t q)].
    apply (proc_ok_pc _ pw cur None); [by apply (reaped_ok z s pw k cur)|done|eauto|by left].
  - pose proof (wait_iter_spec s w pw cur p Hok Hc (Hid _ _ Hpw)) as Ho. rewrite E in Ho. inversion Ho; subst. constructor; cbn; try done; [|intros t q [_ ?]%lookup_delete_Some; by apply (Hid t q)].
    apply (proc_ok_pc _ pw cur None); [done|done|eauto|by left].
  - pose proof (wait_iter_spec s w pw cur p Hok Hc (Hid _ _ Hpw)) as Ho. rewrite E in Ho. inversion Ho as [| |s1 _ _ Hok1 Hst1 _ Hd1]; subst. pose proof Hst1 as (_ & _ & T3 & T4 & _).
    constructor; cbn; [done|by rewrite Hd1|by rewrite T4|]. rewrite T3. intros t q [[<- _]|[_ ?]]%lookup_insert_Some; [by apply (Hid _ _ Hpw)|by apply (Hid t q)].
  - destruct (resume_inv s pw cur p fl Hok Hc Hpw) as (b & Hb). destruct (Hb w) as [E1 Hok1]. rewrite E in E1. injection E1 as -> ->. constructor; cbn; [done|by rewrite dom_alter_L|done|].
    intros t q [[<- _]|[_ ?]]%lookup_insert_Some; [by apply (Hid _ _ Hpw)|by apply (Hid t q)].
  - destruct (schedule_inv None s pw Hinv) as (s1 & E1 & Hinv1 & Hr1 & Hst & _). rewrite E in E1. injection E1 as _ <-. pose proof Hst as (_ & _ & T3 & T4 & _).
    constructor; cbn; [done|by rewrite (dom_same s s' pw pw)|by rewrite T4|by rewrite T3].
  - destruct (tick_spec s pw Hok) as (s1 & E1 & Hok1 & Hst & _). rewrite E in E1. injection E1 as <-. pose proof Hst as (_ & _ & T3 & T4 & _).
    constructor; cbn; [done|by rewrite (dom_same s s' pw pw)|by rewrite T4|by rewrite T3].
  - destruct (block_spec s pw cur Hok Hc Hpw Hi) as (fl' & s1 & E1 & Hok1 & Hst). rewrite E in E1. injection E1 as _ <-. pose proof Hst as (_ & _ & T3 & T4 & _).
    constructor; cbn; [done|by rewrite (dom_same s s' pw (<[cur := Blocked]> pw))|by rewrite T4|]. rewrite T3. intros t q [[<- _]|[_ ?]]%lookup_insert_Some; [done|by apply (Hid t q)].
  - destruct (unblock_spec s pw t Hok Hpw) as (s1 & E1 & Hok1 & Hst). rewrite E in E1. injection E1 as <-. pose proof Hst as (_ & _ & T3 & T4 & _).
    constructor; cbn; [done|by rewrite (dom_same s s' pw (delete t pw))|by rewrite T4|]. rewrite T3. intros u q [_ ?]%lookup_delete_Some. by apply (Hid u q).
Qed.

(** ** Finding processes *)

Lemma find_in_spec s l p : (∀ t, t ∈ l → is_Some (tasks s !! t)) →
  ∃ r, find_in l p s = Ret r s ∧ match r with
    | Some t => ∃ k, t ∈ l ∧ tasks s !! t = Some k ∧ pid k = p
    | None => ∀ t k, t ∈ l → tasks s !! t = Some k → pid k ≠ p
    end.
Proof.
  induction l as [|t l IH]; intros Hl; [exists None; split; [done|]; by intros ? ? ?%elem_of_nil|].
  destruct (Hl t) as [k Hk]; [by left|]. cbn [find_in]. rewrite (bind_Ret _ _ _ _ _ (get_task_Ret t k s Hk)). destruct (Z.eqb_spec (pid k) p) as [E|E].
  - exists (Some t). split; [done|]. exists k. split; [by left|done].
  - destruct IH as (r & Er & Hr); [intros u Hu; apply Hl; by right|]. exists r. split; [done|]. destruct r as [u|].
    + destruct Hr as (k' & ? & ?). exists k'. split; [by right|done].
    + intros u k' [->|Hu]%elem_of_cons Hk'; [by simplify_eq|by apply (Hr u)].
Qed.

Lemma find_process_spec s p : pids_ok s → ∃ r, find_process p s = Ret r s ∧ ∀ t, r = Some t ↔ 0 < p ∧ ∃ k, tasks s !! t = Some k ∧ pid k = p.
Proof.
  intros [H1 H2 H3 H4]. unfold find_process. destruct (Z.leb_spec p 0); [exists None; split; [done|]; intros t; split; [done|lia]|].
  rewrite (bind_Ret _ _ _ (bucket s (pid_hash p)) s) by done.
  assert (∀ t, t ∈ bucket s (pid_hash p) ↔ ∃ k, tasks s !! t = Some k ∧ pid_hash (pid k) = pid_hash p) as Hb.
  { intros t. rewrite H3. split; [intros (i & (k & Hk & ->)%view_lookup & E); by exists k|intros (k & Hk & E); exists (info_of k); split; [apply view_lookup; eauto|done]]. }
  destruct (find_in_spec s (bucket s (pid_hash p)) p) as (r & E & Hr). { intros t (k & Hk & _)%Hb. eauto. }
  exists r. split; [done|]. intros t. destruct r as [u|].
  - destruct Hr as (k & _ & Hk & Hp). split; [intros [= ->]; eauto|]. intros (_ & k' & Hk' & Hp'). f_equal. apply (H2 u (info_of k) t (info_of k')); [apply view_lookup; eauto..|cbn; congruence].
  - split; [done|]. intros (_ & k & Hk & Hp). exfalso. apply (Hr t k); try done. apply Hb. exists k. by rewrite Hp.
Qed.

(** ** Boot *)

(** The process table with the idle task only. *)
Definition booted (t r : Z) (k : Task) : sched :=
  MkSched {[t := k]} [t] {[pid_hash 0 := [t]]} (Some t) (Some t) None 1 1 None stats0 (MkCpu false r 0).

Definition idle_ok (r : Z) (k : Task) : Prop :=
  pid k = 0 ∧ state k = Runnable ∧ root_of k = Some r ∧ child_list k = [] ∧ wait_state k = 0 ∧ parent k = None.

Lemma booted_ok t r k : idle_ok r k → proc_ok (booted t r k) ∅.
Proof.
  intros (Hpid & Hst & Hr & Hch & Hw & Hpar). set (s := booted t r k).
  assert (∀ u ku, tasks s !! u = Some ku → u = t ∧ ku = k) as Hl by (intros u ku; unfold s, booted; cbn; rewrite lookup_singleton_Some; naive_solver).
  assert (tasks s !! t = Some k) as Hk by apply lookup_singleton_eq.
  assert (∀ u i, view s !! u = Some i → u = t ∧ i = info_of k) as Hv by (intros u i (ku & [-> ->]%Hl & ->)%view_lookup; done).
  assert (view s !! t = Some (info_of k)) as Hvt by (apply view_lookup; eauto).
  split; [constructor|].
  - constructor; try done.
    + intros u. cbn. rewrite list_elem_of_singleton. split; [intros ->; rewrite lookup_singleton_eq; eauto|intros [ku [-> _]%Hl]; done].
    + apply NoDup_singleton.
    + exists t, k. auto.
    + exists t, k. auto.
    + intros u ku [-> ->]%Hl. eauto.
    + intros u ku [-> ->]%Hl. done.
  - constructor; try done.
    + intros p ip c [-> ->]%Hv. cbn. rewrite Hch. split; [by intros ?%elem_of_nil|]. intros (ic & [-> ->]%Hv & E). cbn in E. congruence.
    + intros p ip [-> ->]%Hv. cbn. rewrite Hch. apply NoDup_nil_2.
    + intros u i [-> ->]%Hv. cbn. congruence.
    + intros c ic p [-> ->]%Hv E. cbn in E. congruence.
    + intros u i [-> ->]%Hv. cbn. rewrite Hw. split; [by left|]. split; [done|]. by intros (? & ? & ?).
    + intros u i [-> ->]%Hv. cbn. by rewrite Hst.
  - constructor; try done.
    + intros u i [-> ->]%Hv. cbn. lia.
    + by intros u1 i1 u2 i2 [-> _]%Hv [-> _]%Hv.
    + intros u h. unfold bucket. cbn. destruct (decide (h = pid_hash 0)) as [->|Hh].
      * rewrite lookup_singleton_eq. cbn. rewrite list_elem_of_singleton. split; [intros ->; exists (info_of k); split; [exact Hvt|cbn; by rewrite Hpid]|intros (i & [-> _]%Hv & _); done].
      * rewrite lookup_singleton_ne by done. cbn. split; [by intros ?%elem_of_nil|]. intros (i & [-> ->]%Hv & E). cbn in E. rewrite Hpid in E. congruence.
  - exists t. split; [done|]. unfold status. rewrite Hk. cbn. by rewrite Hst.
Qed.

Context (setup_kthread_tf : Z → Z → Z → list Z) (init_main user_stack : Z).
Notation do_init := (sched_init kernel_mm tf_size forkret fixup_fork_tf setup_kthread_tf init_main user_stack).

Lemma init_idle_spec (w : W) : env_tasks w = ∅ → ∃ n x, init_idle kernel_mm user_stack (sched0, w) = Ret n x ∧
  (n = 0 → ∃ t r k w', x = (booted t r k, w') ∧ idle_ok r k ∧ env_tasks w' = {[t]}).
Proof.
  intros Hw0. destruct kernel_root as [r Hroot]. unfold init_idle. destruct (env_new_ok w) as (o & w1 & E1 & Ho). rewrite (bind_Ret _ _ _ _ _ (on_env_Ret _ sched0 _ _ _ E1)).
  destruct o as [t|]; [|by eexists _, _]. destruct Ho as [_ Hw1]. rewrite Hw0, union_empty_r_L in Hw1.
  rewrite (bind_Ret _ _ _ tt (draft sched0 t task_new w1)) by done. rewrite (bind_Ret _ _ _ _ _ (draft_upd _ _ _ _ _)).
  set (k1 := set_boot_stack user_stack task_new). destruct (close_all_ok (files k1) w1) as (l2 & w2 & E2 & Hw2).
  rewrite (bind_Ret _ _ _ tt (draft sched0 t (set_files l2 k1) w2)).
  2:{ unfold draft. rewrite (on_files_Ret _ _ _ t k1 _ _ _ (lookup_insert_eq _ _ _) E2). cbn [tasks with_tasks]. by rewrite insert_insert_eq. }
  do 2 rewrite (bind_Ret _ _ _ _ _ (draft_upd _ _ _ _ _)). set (k3 := set_time_slice 0 _). set (k4 := set_borrowed_memory (Some kernel_mm) k3).
  rewrite (bind_Ret _ _ _ tt (draft sched0 t k4 w2)).
  2:{ unfold use_kernel_memory. unfold draft at 1. rewrite (bind_Ret _ _ _ _ _ (on_sched_Ret _ _ w2 _ _ (get_task_Ret t k3 _ (lookup_insert_eq _ _ _)))). cbn [assert_ bool_decide andb]. apply draft_upd. }
  unfold draft. rewrite (bind_Ret _ _ _ _ _ (on_sched_Ret _ _ w2 _ _ (get_task_Ret t k4 _ (lookup_insert_eq _ _ _)))).
  rewrite (bind_Ret _ _ _ _ _ (on_sched_Ret _ _ w2 _ _ (root_of_Ret k4 r _ Hroot))).
  set (k5 := set_state Runnable (set_name (take 31 (bytes_of "idle")) k4)). eexists 0, (booted t r k5, w2). split; [|intros _; exists t, r, k5, w2; rewrite Hw2; done].
  set (sb := with_cpu (MkCpu false r 0) (with_tasks (<[t := k4]> ∅) sched0)). rewrite (bind_Ret _ _ _ tt (sb, w2)) by done.
  set (k4' := set_name (take 31 (bytes_of "idle")) k4). set (sc := with_tasks (<[t := k4']> ∅) sb).
  rewrite (bind_Ret _ _ _ tt (sc, w2)) by (apply on_sched_Ret; cbn [set_task_name]; rewrite (upd_task_Ret t k4) by apply lookup_insert_eq; unfold sb; cbn [tasks with_tasks with_cpu]; by rewrite (alter_as_insert _ _ t k4), insert_insert_eq by apply lookup_insert_eq).
  set (sd := with_tasks (<[t := k5]> ∅) sb).
  rewrite (bind_Ret _ _ _ tt (sd, w2)) by (apply on_sched_Ret; rewrite (wakeup_Ret t k4') by (done || apply lookup_insert_eq); unfold sc; cbn [tasks with_tasks with_cpu]; by rewrite (alter_as_insert _ _ t k4'), insert_insert_eq by apply lookup_insert_eq).
  rewrite (bind_Ret _ _ _ tt (with_idle_proc (Some t) sd, w2)) by done. set (se := with_current (Some t) (with_idle_proc (Some t) sd)). rewrite (bind_Ret _ _ _ tt (se, w2)) by done.
  rewrite (bind_Ret _ _ _ tt (booted t r k5, w2)); [done|]. apply on_sched_Ret. unfold add_process. by rewrite (bind_Ret _ _ _ _ _ (get_task_Ret t k5 se (lookup_insert_eq _ _ _))).
Qed.

Lemma sched_init_spec (w : W) : env_tasks w = ∅ → ∃ n s w', do_init (sched0, w) = Ret n (s, w') ∧ (n = 0 → psys_ok (MkPsys s w' ∅)).
Proof.
  intros Hw0. unfold sched_init. destruct (init_idle_spec w Hw0) as (n & [s1 w1] & E1 & H1). rewrite (bind_Ret _ _ _ _ _ E1).
  destruct (Z.eqb_spec n 0) as [->|Hn]; cbn [negb]; [|by eexists _, _, _]. destruct (H1 eq_refl) as (t & r & k & w' & [= -> ->] & Hidle & Hw1). clear E1 H1.
  pose proof (booted_ok t r k Hidle) as Hpok. set (s := booted t r k) in *. unfold init_init_proc.
  pose proof (fork_spec s w' ∅ t k 0 0 (setup_kthread_tf init_main 0 0) Hpok eq_refl (lookup_singleton_eq _ _)) as Hfork.
  assert (dom (tasks s) = env_tasks w') as Hdom by (rewrite Hw1; apply dom_singleton_L). specialize (Hfork Hdom).
  unfold try_, bind at 1 2. destruct Hfork as [t2 k2 w2 Ht2 (Hfr & Hbm & _) _ Hw2|e w2 Hw2]; [|by eexists _, _, _].
  set (k3 := set_state Runnable (set_pid (next_pid s) k2)). pose proof (forked_ok s ∅ t2 t k2 Hpok eq_refl Ht2 Hfr Hbm ltac:(cbn; lia)) as Hok2. fold k3 in Hok2. set (s2 := forked s t2 t k3) in *.
  destruct (find_process_spec s2 1) as (o & E2 & Ho); [apply Hok2|]. assert (o = Some t2) as ->. { apply Ho. split; [lia|]. exists k3. split; [apply lookup_insert_eq|done]. }
  rewrite (bind_Ret _ _ _ _ _ (on_sched_Ret _ _ w2 _ _ E2)). set (s3 := with_init_proc (Some t2) s2). rewrite (bind_Ret _ _ _ tt (s3, w2)) by done.
  assert (tasks s3 !! t2 = Some k3) as Hk3 by apply lookup_insert_eq. unfold set_task_name. rewrite (bind_Ret _ _ _ _ _ (on_sched_Ret _ _ w2 _ _ (upd_task_Ret t2 k3 _ s3 Hk3))).
  eexists _, _, _. split; [done|]. intros _. assert (proc_inv None s3 ∅) as Hinv3.
  { destruct Hok2 as [[Hok Hf Hp] Hr]. constructor; [by apply (sched_ok_same s2)| |by destruct Hp]. destruct Hf as [F1 F2 F3 F4 F5 F6 F7 F8 F9]. constructor; try done.
    intros i [= <-]. exists (info_of k3). split; [apply view_lookup; eauto|]. split; [done|]. destruct Hfr as (_ & _ & _ & _ & Hpar). apply Hpar. }
  constructor; cbn [psch ppc penv]; [split| | |done].
  - apply (proc_inv_upd None None s3 ∅ ∅ t2 _ id); try done; [|rewrite alter_id by done; apply Hinv3].
    apply (sched_ok_tasks s3); try done; [apply Hinv3|]. cbn [tasks with_tasks]. by rewrite cpu_alter.
  - destruct Hok2 as [_ (c & Hc & Hst)]. exists c. split; [done|]. rewrite view_status, (view_alter _ id), alter_id, <- view_status by done. exact Hst.
  - cbn. rewrite dom_alter_L, dom_insert_L, dom_alter_L, Hw2, <- Hdom. done.
  - by eexists.
Qed.

(** ** The theorems *)

(** What holds of the process table at any time, and that no operation the
    current task may start gets stuck. *)
Record processes_ok (s : sched) (w : W) (pw : gmap Z wpc) : Prop := {
  ok_current : ∃ c k, current_ s = Some c ∧ tasks s !! c = Some k ∧ (state k = Runnable ∨ state k = Running) ∧ root_of k = Some (root (cpu s));
  ok_find p : ∃ r, find_process p s = Ret r s ∧ ∀ t, r = Some t ↔ 0 < p ∧ ∃ k, tasks s !! t = Some k ∧ pid k = p;
  ok_parent c k p : tasks s !! c = Some k → parent k = Some p → ∃ kp, tasks s !! p = Some kp ∧ c ∈ child_list kp ∧ state kp ≠ Zombie;
  ok_asleep t k p fl : tasks s !! t = Some k → pw !! t = Some (Waiting p fl) → state k = Sleeping →
    (∃ c kc, child_of s t p c kc) ∧ ∀ c kc, child_of s t p c kc → state kc ≠ Zombie;
  ok_sleepers t k : tasks s !! t = Some k → state k = Sleeping → is_Some (pw !! t);
  ok_fork flags stack tf : is_Some (out_state (do_fork flags stack tf (s, w)));
  ok_wait p c : current_ s = Some c → idle_proc s ≠ Some c → is_Some (out_state (wait_iter p (s, w)));
  ok_resume c p fl : current_ s = Some c → pw !! c = Some (Waiting p fl) → ∃ x, wait_resume c fl (s, w) = Ret tt x;
  ok_exit c code : current_ s = Some c → pw !! c = None → idle_proc s ≠ Some c → init_proc s ≠ Some c →
    ∃ fl s', exit code s = Ret fl s' ∧ current_ s' ≠ Some c;
  ok_schedule : ∃ fl s', schedule s = Ret fl s';
  ok_tick : ∃ s', tick s = Ret tt s' }.

Lemma processes_ok_spec y : psys_ok y → processes_ok (psch y) (penv y) (ppc y).
Proof.
  destruct y as [s w pw]. intros [Hok Hdom [i Hi] Hid]. cbn in *. pose proof Hok as [[Hs Hf Hp] Hr]. constructor.
  - destruct (so_cur _ Hs) as (c & k & Hc & Hk & Hroot). exists c, k. split_and!; try done. destruct (current_view s c Hr Hc) as (k' & Hk' & _ & Hn). assert (k' = k) as -> by congruence. by apply norm_ready.
  - intros p. by apply find_process_spec.
  - intros c k p Hk Hpar. assert (view s !! c = Some (info_of k)) as Hv by (apply view_lookup; eauto). destruct (f_parent _ _ _ _ _ Hf c _ p Hv Hpar) as (ip & Hip & Hz).
    pose proof Hip as (kp & Hkp & ->)%view_lookup. exists kp. split_and!; [done| |]. { apply (f_child _ _ _ _ _ Hf p _ c Hip). eauto. } intros E. cbn in Hz. rewrite E in Hz. by specialize (Hz eq_refl).
  - intros t k p fl Hk Hpw Hst. assert (view s !! t = Some (info_of k)) as Hv by (apply view_lookup; eauto). destruct (f_asleep _ _ _ _ _ Hf t _ p fl Hv Hpw) as [(c & ic & (kc & Hkc & ->)%view_lookup & Hm) Hno]; [cbn; by rewrite Hst|].
    split; [by exists c, kc|]. intros c' kc' (Hkc' & Hm'). pose proof (Hno c' (info_of kc')) as Hz. cbn in Hz. rewrite norm_zombie in Hz. apply Hz. split; [apply view_lookup; eauto|done].
  - intros t k Hk Hst. apply (f_sleeping _ _ _ _ _ Hf t (info_of k)); [apply view_lookup; eauto|cbn; by rewrite Hst].
  - intros flags stack tf. destruct (so_cur _ Hs) as (c & k & Hc & Hk & _). destruct (fork_spec s w pw c k flags stack tf Hok Hc Hk Hdom); eauto.
  - intros p c Hc Hi'. destruct (wait_iter_spec s w pw c p Hok Hc Hi'); eauto.
  - intros c p fl Hc Hpw. destruct (resume_inv s pw c p fl Hok Hc Hpw) as (b & Hb). destruct (Hb w) as [E _]. eauto.
  - intros c code Hc Hpw Hi1 Hi2. destruct (current_view s c Hr Hc) as (k & Hk & _). destruct (exit_spec s pw c k code i Hok Hc Hk Hpw Hi1 Hi) as (fl & s' & k' & E & [_ Hr'] & _ & Hk' & Hz & _); [congruence|].
    exists fl, s'. split; [done|]. intros Hc'. destruct (current_view s' c Hr' Hc') as (k2 & Hk2 & _ & Hn). assert (k2 = k') as -> by congruence. by rewrite Hz in Hn.
  - destruct (schedule_inv None s pw) as (s' & E & _); [apply Hok|]. eauto.
  - destruct (tick_spec s pw Hok) as (s' & E & _). eauto.
Qed.

(** C1: From boot on, under every interleaving of forks, exits, waits, sleeps,
    wake-ups, timer ticks and context switches: the current task is alive and
    its page table is loaded; [find_process] returns exactly the task with that
    pid; every task with a parent is in the list of a living parent; a task
    asleep in [wait] has a child it waits for and none of these is a zombie, so
    that no exit goes unnoticed; and no operation fails an assertion, follows a
    bad pointer or loops: in particular a task that exits is never scheduled
    again. *)
Theorem process_safe (w : W) n s w1 s' w' pw : env_tasks w = ∅ → do_init (sched0, w) = Ret n (s, w1) → n = 0 →
  rtc pstep (MkPsys s w1 ∅) (MkPsys s' w' pw) → processes_ok s' w' pw.
Proof.
  intros Hw E Hn Hsteps. destruct (sched_init_spec w Hw) as (n' & s0 & w0 & E0 & Hok). rewrite E in E0. injection E0 as <- <- <-.
  assert (∀ y y', rtc pstep y y' → psys_ok y → psys_ok y') as Hinv.
  { induction 1 as [|y y1 y2 H1 _ IH]; [done|]. intros Hy. apply IH. by apply (pstep_ok y). }
  apply (processes_ok_spec (MkPsys s' w' pw)). by apply (Hinv _ _ Hsteps), Hok.
Qed.


End lifetime.
