(* ===== verification/ProcessWitness.v ===== *)
(** * A kernel that boots

    A concrete instance of the services, the boot of the first two tasks, and a
    run in which init forks a child that exits and is reaped. *)

From S2P Require Import Prelude Fd LibString Sched SchedProofs Sync SyncProofs SyncObjects Process Forest ProcessProofs Lifetime.

(** The services over the set of addresses tasks occupy. *)
#[export] Instance toy_env : KernelEnv (gset Z) := {|
  env_new := λ w, Ret (Some (base.fresh w)) ({[base.fresh w]} ∪ w);
  env_delete := λ t w, Ret tt (w ∖ {[t]});
  env_open := λ _ w, Ret 7 w;
  env_close := λ _ w, Ret tt w;
  env_alloc_buffer := λ _ w, Ret 8192 w;
  env_free_buffer := λ _ w, Ret tt w;
  env_free_memory := λ _ w, Ret tt w |}.
#[export, refine] Instance toy_env_laws : KernelEnvLaws (gset Z) := {| env_tasks := λ w, w |}.
Proof.
  all: cbn; intros; try (by eexists).
  eexists _, _. split; [done|]. split; [apply is_fresh|done].
Defined.

Definition ex_mm : Mem := MkMem 1000 (Some 2000).
Definition ex_fork : Z → Z → list Z → M (sched * gset Z) Z := fork ex_mm 200 300 (λ tf _, tf).
Definition ex_init : M (sched * gset Z) Z := sched_init ex_mm 200 300 (λ tf _, tf) (λ _ _ _, []) 400 500.

Definition out_get {S A} (d : S) (o : Out S A) : S := match out_state o with Some s => s | None => d end.
Definition boot : sched * gset Z := out_get (sched0, ∅) (ex_init (sched0, ∅)).
Definition ex_pstep := pstep ex_mm 200 300 (λ tf _, tf).

Lemma boot_ok : psys_ok (MkPsys boot.1 boot.2 ∅).
Proof.
  destruct (sched_init_spec ex_mm 200 300 (λ tf _, tf) (ltac:(by eexists)) (λ _ _ _, []) 400 500 (∅ : gset Z) eq_refl) as (n & s & w & E & Hok).
  change (ex_init (sched0, ∅) = Ret n (s, w)) in E. assert (boot = (s, w)) as -> by (unfold boot; by rewrite E). apply Hok. assert (ex_init (sched0, ∅) = Ret 0 boot) as E0 by (vm_compute; reflexivity). rewrite E in E0. congruence.
Qed.

(** Init runs, forks a child, waits for it and sleeps; the child exits and init
    is woken. *)
Definition b_s : sched := boot.1.
Definition b_w : gset Z := boot.2.
Definition i_s : sched := out_get b_s (schedule b_s).
Definition c_x : sched * gset Z := out_get (i_s, b_w) (ex_fork 0 0 [] (i_s, b_w)).
Definition c_s : sched := c_x.1.
Definition c_w : gset Z := c_x.2.
Definition w_s : sched := (out_get (c_s, c_w) (wait_iter 0 (c_s, c_w))).1.
Definition init_t : Z := default 0 (current_ i_s).
Definition child_t : Z := default 0 (current_ w_s).
Definition e_s : sched := out_get w_s (exit 3 w_s).
Definition wait_flags : bool * (bool * bool) := (false, (false, false)).
Definition r_s : sched := (out_get (e_s, c_w) (wait_resume init_t wait_flags (e_s, c_w))).1.

Definition pw_top : gmap Z wpc := <[init_t := WTop 0]> ∅.
Definition pw_wait : gmap Z wpc := <[init_t := Waiting 0 wait_flags]> pw_top.
Definition pw_again : gmap Z wpc := <[init_t := WTop 0]> pw_wait.

Ltac vm := vm_compute; reflexivity.

Lemma path1 : rtc ex_pstep (MkPsys b_s b_w ∅) (MkPsys i_s b_w ∅).
Proof. apply rtc_once. apply (ps_schedule _ _ _ _ b_s b_w ∅ (false, false) i_s). vm. Qed.
Lemma path2 : rtc ex_pstep (MkPsys i_s b_w ∅) (MkPsys c_s c_w pw_top).
Proof.
  eapply rtc_l; [|apply rtc_once].
  - apply (ps_fork ex_mm 200 300 (λ tf _, tf) i_s b_w ∅ init_t 0 0 [] 2 c_s c_w); vm.
  - apply (ps_wait _ _ _ _ c_s c_w ∅ init_t 0); [vm|vm|vm_compute; done|done].
Qed.
Lemma path3 : rtc ex_pstep (MkPsys c_s c_w pw_top) (MkPsys e_s c_w pw_wait).
Proof.
  eapply rtc_l; [|apply rtc_once].
  - apply (ps_wait_sleeps _ _ _ _ c_s c_w pw_top init_t 0 wait_flags w_s c_w); vm.
  - apply (ps_exit _ _ _ _ w_s c_w pw_wait child_t 3 (false, (false, false)) e_s); [vm|vm|vm_compute; done|vm_compute; done|vm].
Qed.
Lemma path4 : rtc ex_pstep (MkPsys e_s c_w pw_wait) (MkPsys r_s c_w pw_again).
Proof. apply rtc_once. apply (ps_wait_resumes _ _ _ _ e_s c_w pw_wait init_t 0 wait_flags r_s c_w); vm. Qed.

Lemma run_ok y y' : rtc ex_pstep y y' → psys_ok y → psys_ok y'.
Proof. induction 1 as [|y y1 y2 H1 _ IH]; [done|]. intros Hy. apply IH. exact (pstep_ok ex_mm 200 300 (λ tf _, tf) (ltac:(by eexists)) y y1 H1 Hy). Qed.
Lemma init_ok : psys_ok (MkPsys i_s b_w ∅).
Proof. apply (run_ok _ _ path1), boot_ok. Qed.
Lemma resumes_ok : psys_ok (MkPsys r_s c_w pw_again).
Proof. apply (run_ok _ _ path4), (run_ok _ _ path3), (run_ok _ _ path2), init_ok. Qed.

Lemma process_safe_witness : processes_ok ex_mm 200 300 (λ tf _, tf) e_s c_w pw_wait.
Proof.
  apply (process_safe ex_mm 200 300 (λ tf _, tf) (ltac:(by eexists)) (λ _ _ _, []) 400 500 (∅ : gset Z) 0 b_s b_w); [done|vm|done|].
  etrans; [exact path1|]. etrans; [exact path2|exact path3].
Defined.


Lemma wait_correct_witness : ∃ s' w', wait 0 (r_s, c_w) = Ret (inl (2, 3)) (s', w') ∧ proc_ok s' pw_again.
Proof.
  assert (∃ x, wait 0 (r_s, c_w) = Ret (inl (2, 3)) x) as (x & E0) by (eexists; vm).
  destruct (wait_correct r_s c_w pw_again init_t 0) as [[Hno E]|[(z & k & s' & w' & _ & _ & E & Hok & _)|(_ & _ & fl & s' & E & _)]].
  - apply (py_ok _ resumes_ok).
  - vm.
  - vm_compute. done.
  - apply (py_dom _ resumes_ok).
  - rewrite E0 in E. discriminate E.
  - exists s', w'. split; [|exact Hok]. rewrite E0 in E. injection E as _ _ ->. exact E0.
  - rewrite E0 in E. discriminate E.
Defined.

(** ** The scheduler and the blocking objects, in the states of this run *)

Lemma i_sched : sched_ok i_s.
Proof. apply (pi_sched _ _ _ (proj1 (py_ok _ init_ok))). Qed.
Lemma i_ready : cur_ready i_s.
Proof. apply (proj2 (py_ok _ init_ok)). Qed.

Lemma schedule_fair_witness : (∃ flags s' n, schedule i_s = Ret flags s' ∧ current_ s' = Some n) ∧ ∀ t n, starves t i_s n → (n < 2)%nat.
Proof.
  destruct (schedule_fair i_s i_sched) as [(flags & s' & n & k & k' & E & _ & Hc & _) Hst]. split; [exists flags, s', n; split; [exact E|exact Hc]|].
  replace 2%nat with (length (proc_list i_s)) by vm. exact Hst.
Defined.

Definition sem_x : Semaphore := (out_get (i_s, semaphore_new 1) (down (i_s, semaphore_new 1))).2.

Definition mtx_x : Mutex := (out_get (i_s, mutex_new) (lock (i_s, mutex_new))).2.

Definition con_x : Console := (out_get (i_s, console_new) (push_input 65 (i_s, console_new))).2.
Definition con_e : list (event (T := Console) (V := Z)) := [@Signalled Console Z _ _ 65].
